(** * Brand ad intelligence: discovery and verification pipeline

    A shallow embedding of the parts of the repository that the
    specification's testable properties talk about:

    - [lib/shopify-detector.ts]   vendor enumeration and vendor matching,
    - [lib/redirect-tracker.ts]   the HTTP redirect resolver,
    - [lib/url-extractor.ts]      caption parsing and its redirect tracker,
    - [lib/keyword-generator.ts]  keyword mining from ad copy,
    - [lib/brand-discovery.ts]    candidate aggregation, the verification
                                  cascade and result assembly,
    - [worker/server.ts]          the HTTP front door of the worker.

    Conventions of the model.

    - A JavaScript string is a sequence of UTF-16 code units.  The model
      takes the strings whose code units are below 256 and writes them as
      [string]: one [ascii] is one code unit, read as Latin-1, so that the
      umlauts the keyword generator keeps are single units.
    - Confidences are the decimal literals of the source; the code only
      copies and compares them, so they are kept as hundredths in [Z]
      (0.70 is [70]).
    - A JavaScript [Map] iterates in insertion order; it is an association
      list in which [set] on a present key keeps the position.
    - Everything the code awaits from outside (HTTP, the ad library, the
      clock) is a field of a [World]; calls are logged in a trace. *)

From Stdlib Require Import List String Ascii ZArith Lia Bool Arith PeanoNat Permutation Sorted.
Import ListNotations.

Open Scope string_scope.
Open Scope list_scope.

(* ================================================================== *)
(** * JavaScript strings *)
(* ================================================================== *)

Module JS.

Definition code (c : ascii) : nat := nat_of_ascii c.

Definition between (lo hi n : nat) : bool := (lo <=? n)%nat && (n <=? hi)%nat.

(** [String.prototype.toLowerCase] on Latin-1: A-Z and U+00C0..U+00DE
    (without the multiplication sign U+00D7) move up by 32. *)
Definition lower_char (c : ascii) : ascii :=
  let n := code c in
  if between 65 90 n || (between 192 222 n && negb (n =? 215)%nat)
  then ascii_of_nat (n + 32) else c.

(** [\s] of a regular expression and the white space of [trim]. *)
Definition is_space (c : ascii) : bool :=
  let n := code c in between 9 13 n || (n =? 32)%nat || (n =? 160)%nat.

(** [\d] and [\w]. *)
Definition is_digit (c : ascii) : bool := between 48 57 (code c).

Definition is_word (c : ascii) : bool :=
  let n := code c in
  between 48 57 n || between 65 90 n || between 97 122 n || (n =? 95)%nat.

(** The class [[\s\-_.]]. *)
Definition is_separator (c : ascii) : bool :=
  let n := code c in is_space c || (n =? 45)%nat || (n =? 95)%nat || (n =? 46)%nat.

Fixpoint smap (f : ascii -> ascii) (s : string) : string :=
  match s with
  | EmptyString => EmptyString
  | String c r => String (f c) (smap f r)
  end.

Fixpoint sfilter (p : ascii -> bool) (s : string) : string :=
  match s with
  | EmptyString => EmptyString
  | String c r => if p c then String c (sfilter p r) else sfilter p r
  end.

Fixpoint sforall (p : ascii -> bool) (s : string) : bool :=
  match s with
  | EmptyString => true
  | String c r => p c && sforall p r
  end.

Definition toLowerCase : string -> string := smap lower_char.

Fixpoint trimStart (s : string) : string :=
  match s with
  | EmptyString => EmptyString
  | String c r => if is_space c then trimStart r else s
  end.

Fixpoint trimEnd (s : string) : string :=
  match s with
  | EmptyString => EmptyString
  | String c r =>
      match trimEnd r with
      | EmptyString => if is_space c then EmptyString else String c EmptyString
      | t => String c t
      end
  end.

Definition trim (s : string) : string := trimEnd (trimStart s).

Definition startsWith (p s : string) : bool := prefix p s.

(** [hay.includes(needle)]. *)
Fixpoint includes (needle hay : string) : bool :=
  prefix needle hay ||
  match hay with
  | EmptyString => false
  | String _ r => includes needle r
  end.

(** [s.replace(/^p/, '')] for a literal prefix [p]. *)
Definition dropPrefix (p s : string) : string :=
  if prefix p s then substring (length p) (length s - length p) s else s.

(** [s.replace(/[\s\-_.]+/g, '')] and [s.replace(/\s+/g, '')]. *)
Definition stripSeparators : string -> string := sfilter (fun c => negb (is_separator c)).
Definition stripSpaces : string -> string := sfilter (fun c => negb (is_space c)).

(** Truthiness of a [string | null] value. *)
Definition truthy (o : option string) : bool :=
  match o with
  | Some s => negb (s =? "")
  | None => false
  end.

(** A source literal written in UTF-8 becomes its Latin-1 code units:
    the two-byte sequences C2 xx and C3 xx decode to one unit. *)
Fixpoint latin1 (s : string) : string :=
  match s with
  | EmptyString => EmptyString
  | String c r =>
      match r with
      | String d r' =>
          if (code c =? 195)%nat then String (ascii_of_nat (code d + 64)) (latin1 r')
          else if (code c =? 194)%nat then String d (latin1 r')
          else String c (latin1 r)
      | EmptyString => String c EmptyString
      end
  end.

End JS.

(* ================================================================== *)
(** * Insertion-ordered maps and the stable array sort *)
(* ================================================================== *)

Module JSMap.
Section WithValue.
Context {V : Type}.

Definition t := list (string * V).

Fixpoint get (k : string) (m : t) : option V :=
  match m with
  | [] => None
  | (k', v) :: r => if k' =? k then Some v else get k r
  end.

Definition has (k : string) (m : t) : bool :=
  match get k m with Some _ => true | None => false end.

(** [m.set(k, v)]: a present key keeps its place, a new one goes last. *)
Fixpoint set (k : string) (v : V) (m : t) : t :=
  match m with
  | [] => [(k, v)]
  | (k', v') :: r => if k' =? k then (k', v) :: r else (k', v') :: set k v r
  end.

Definition keys (m : t) : list string := map fst m.
Definition values (m : t) : list V := map snd m.
End WithValue.
Arguments t : clear implicits.
End JSMap.

(** [arr.includes(x)] on an array of strings. *)
Definition mem (x : string) (l : list string) : bool :=
  existsb (fun y => y =? x) l.

(** [Array.prototype.sort] with a comparator is stable.  [before x y]
    holds when the comparator does not put [x] after [y]
    ([cmp(x, y) <= 0]); inserting from the right keeps equal elements in
    their original order. *)
Section Sort.
Context {A : Type} (before : A -> A -> bool).

Fixpoint insert_sorted (x : A) (l : list A) : list A :=
  match l with
  | [] => [x]
  | y :: r => if before x y then x :: y :: r else y :: insert_sorted x r
  end.

Fixpoint sortBy (l : list A) : list A :=
  match l with
  | [] => []
  | x :: r => insert_sorted x (sortBy r)
  end.
End Sort.

(** [[...new Set(l)]]: first occurrences, in order. *)
Fixpoint dedup (l : list string) : list string :=
  match l with
  | [] => []
  | x :: r => x :: filter (fun y => negb (y =? x)) (dedup r)
  end.

(* ================================================================== *)
(** * The outside world *)
(* ================================================================== *)

(** What [new URL(u)] exposes and the code reads. *)
Record URL := { hostname : string; pathname : string }.

(** A response of [fetch] with redirects followed. *)
Record Response := {
  resp_ok : bool;
  resp_url : string;
  resp_text : string }.

(** A response of [fetch] with [redirect: 'manual']. *)
Record RawResponse := {
  raw_status : Z;
  raw_location : option string;
  raw_content_type : option string;
  raw_body : string }.

(** One product of a storefront's [/products.json]; [vendor] is [Some]
    when the field is a string. *)
Record Product := { vendor : option string }.

(** [trackPresellChain]'s result, as far as the cascade reads it. *)
Record PresellChainResult := {
  presell_cta_url : option string;
  presell_final_url : option string;
  presell_chain : list string }.

(** Outbound calls, in the order they are issued. *)
Inductive Call : Type :=
| CFetch (url : string)
| CHead (url : string)
| CGet (url : string)
| CProductsJson (domain : string)
| CPresell (url : string)
| CRender (url : string)
| CAdSearch (terms : string)
| CCacheLookup (brand : string)
| CCacheStore (brand : string).

Record World := {
  (** [fetch(url, {redirect: 'follow'})] under a timeout in milliseconds;
      [None] when it throws or is aborted. *)
  fetch : string -> Z -> option Response;
  (** [fetch(url, {method: 'HEAD', redirect: 'manual'})] and its GET twin. *)
  head : string -> option RawResponse;
  get_manual : string -> option RawResponse;
  (** The parsed product list behind [https://<domain>/products.json],
      [None] on a failed request, a non-JSON answer or a missing array. *)
  products_json : string -> option (list Product);
  (** [trackPresellChain(url, {timeout, maxRedirects: 10})] of
      [lib/presell-tracker.ts]; it catches its own errors. *)
  presell : string -> Z -> PresellChainResult;
  (** The rendering service: HTTP success flag and rendered HTML. *)
  render : string -> option (bool * string);
  (** [new URL(u)]; [None] when it throws. *)
  parseURL : string -> option URL;
  (** [new URL(location, base).toString()]. *)
  resolveURL : string -> string -> option string;
  (** The [href] values and the absolute [http(s)] ones of an HTML text. *)
  hrefs : string -> list string;
  http_hrefs : string -> list string;
  (** [extractMetaRefreshUrl(html, base)] of the redirect tracker. *)
  metaRefresh : string -> string -> option string }.

(** A computation that issues outbound calls: the calls made, and a value. *)
Definition Net (A : Type) : Type := list Call * A.

Definition ret {A} (a : A) : Net A := ([], a).

Definition bind {A B} (m : Net A) (k : A -> Net B) : Net B :=
  let (t1, a) := m in let (t2, b) := k a in (t1 ++ t2, b).

Definition call {A} (c : Call) (a : A) : Net A := ([c], a).

Definition trace {A} (m : Net A) : list Call := fst m.
Definition value {A} (m : Net A) : A := snd m.

Declare Scope net_scope.
Delimit Scope net_scope with net.
Notation "x <- m ;; k" := (bind m (fun x => k))
  (at level 100, m at next level, right associativity) : net_scope.
Notation "' p <- m ;; k" := (bind m (fun p => k))
  (at level 100, p pattern, m at next level, right associativity) : net_scope.

Open Scope Z_scope.
Open Scope string_scope.
Open Scope list_scope.

(* ================================================================== *)
(** * lib/shopify-detector.ts *)
(* ================================================================== *)

Module Shopify.
Import JS.

Record ProductsJsonResult := {
  vendors : list string;
  primary_vendor : option string;
  product_count : nat }.

Record VendorCheck := {
  found : bool;
  matched_vendor : option string;
  confidence : Z }.

(** The tally of the [vendor] field over the listed products. *)
Fixpoint vendorCounts (ps : list Product) (counts : JSMap.t nat) : JSMap.t nat :=
  match ps with
  | [] => counts
  | p :: r =>
      match vendor p with
      | Some v =>
          if negb (v =? "") && negb (trim v =? "")
          then vendorCounts r
                 (JSMap.set (trim v)
                    (match JSMap.get (trim v) counts with Some n => S n | None => 1%nat end)
                    counts)
          else vendorCounts r counts
      | None => vendorCounts r counts
      end
  end.

Definition fetchProductsJson (w : World) (domain : string) : Net (option ProductsJsonResult) :=
  call (CProductsJson domain)
    (match products_json w domain with
     | None => None
     | Some ps =>
         let sortedVendors :=
           sortBy (fun a b : string * nat => (snd b <=? snd a)%nat) (vendorCounts ps []) in
         Some {| vendors := map fst sortedVendors;
                 primary_vendor := option_map fst (hd_error sortedVendors);
                 product_count := List.length ps |}
     end).

Definition notFound : VendorCheck :=
  {| found := false; matched_vendor := None; confidence := 0 |}.

(** The three tiers, tried per vendor in the order of the source:
    exact (0.95), containment either way (0.80), equality after
    dropping separators (0.85). *)
Definition vendorTier (brandLower vendor : string) : option Z :=
  let vendorLower := trim (toLowerCase vendor) in
  if vendorLower =? brandLower then Some 95
  else if includes brandLower vendorLower || includes vendorLower brandLower then Some 80
  else if stripSeparators vendorLower =? stripSeparators brandLower then Some 85
  else None.

Fixpoint vendorLoop (brandLower : string) (vs : list string) : VendorCheck :=
  match vs with
  | [] => notFound
  | vendor :: rest =>
      match vendorTier brandLower vendor with
      | Some c => {| found := true; matched_vendor := Some vendor; confidence := c |}
      | None => vendorLoop brandLower rest
      end
  end.

Definition shopifyStoreHasVendor (w : World) (domain brandName : string) : Net VendorCheck :=
  (products <- fetchProductsJson w domain ;;
   match products with
   | None => ret notFound
   | Some p => ret (vendorLoop (trim (toLowerCase brandName)) (vendors p))
   end)%net.

End Shopify.

(* ================================================================== *)
(** * lib/redirect-tracker.ts and the tracker of lib/url-extractor.ts *)
(* ================================================================== *)

Record RedirectChain := {
  initial_url : string;
  final_url : string;
  chain : list string }.

Definition isRedirectStatus (r : RawResponse) : bool :=
  ((300 <=? raw_status r) && (raw_status r <? 400))%Z.

(** The HEAD request for [source] answers with a redirect to [target]. *)
Definition redirectsTo (w : World) (source target : string) : Prop :=
  exists r location,
    head w source = Some r /\ isRedirectStatus r = true /\
    raw_location r = Some location /\ location <> "" /\
    resolveURL w location source = Some target.

(** [n] URLs taken in turn from two, starting with [x]. *)
Fixpoint alternate (n : nat) (x y : string) : list string :=
  match n with
  | O => []
  | S n' => x :: alternate n' y x
  end.

Module RedirectTracker.
Import JS.

Definition MAX_REDIRECTS : nat := 10.

(** The loop of [trackRedirectChain]; [fuel] is [MAX_REDIRECTS - redirectCount].
    Each [continue] of the source is the recursive call, each [break]
    returns the chain built so far.  An exception in the HEAD attempt
    (the request or [new URL]) enters the GET attempt of the [catch]
    block; an exception there ends the loop. *)
Fixpoint loop (w : World) (fuel : nat) (acc : list string) (currentUrl : string)
  : Net (list string * string) :=
  match fuel with
  | O => ret (acc, currentUrl)
  | S fuel' =>
      let viaGet : Net (list string * string) :=
        (g <- call (CGet currentUrl) (get_manual w currentUrl) ;;
         match g with
         | None => ret (acc, currentUrl)
         | Some r =>
             let viaMeta : Net (list string * string) :=
               match raw_content_type r with
               | Some ct =>
                   if includes "text/html" ct then
                     match metaRefresh w (raw_body r) currentUrl with
                     | Some m =>
                         if negb (m =? "") && negb (m =? currentUrl)
                         then loop w fuel' (acc ++ [m]) m
                         else ret (acc, currentUrl)
                     | None => ret (acc, currentUrl)
                     end
                   else ret (acc, currentUrl)
               | None => ret (acc, currentUrl)
               end in
             if isRedirectStatus r && truthy (raw_location r) then
               match raw_location r with
               | Some location =>
                   match resolveURL w location currentUrl with
                   | Some nextUrl => loop w fuel' (acc ++ [nextUrl]) nextUrl
                   | None => ret (acc, currentUrl)
                   end
               | None => viaMeta
               end
             else viaMeta
         end)%net in
      (h <- call (CHead currentUrl) (head w currentUrl) ;;
       match h with
       | None => viaGet
       | Some r =>
           if isRedirectStatus r && truthy (raw_location r) then
             match raw_location r with
             | Some location =>
                 match resolveURL w location currentUrl with
                 | Some nextUrl => loop w fuel' (acc ++ [nextUrl]) nextUrl
                 | None => viaGet
                 end
             | None => ret (acc, currentUrl)
             end
           else ret (acc, currentUrl)
       end)%net
  end.

Definition trackRedirectChain (w : World) (initialUrl : string) : Net RedirectChain :=
  ('(c, last) <- loop w MAX_REDIRECTS [initialUrl] initialUrl ;;
   ret {| initial_url := initialUrl; final_url := last; chain := c |})%net.

End RedirectTracker.

Module UrlExtractor.
Import JS.

(** [trackRedirectChain] of the URL extractor: the same walk with a
    guard against URLs already in the chain. *)
Fixpoint loop (w : World) (fuel : nat) (acc : list string) (currentUrl : string)
  : Net (list string * string) :=
  match fuel with
  | O => ret (acc, currentUrl)
  | S fuel' =>
      (h <- call (CHead currentUrl) (head w currentUrl) ;;
       match h with
       | None => ret (acc, currentUrl)
       | Some r =>
           if isRedirectStatus r && truthy (raw_location r) then
             match raw_location r with
             | Some location =>
                 match resolveURL w location currentUrl with
                 | Some nextUrl =>
                     if mem nextUrl acc then ret (acc, currentUrl)
                     else loop w fuel' (acc ++ [nextUrl]) nextUrl
                 | None => ret (acc, currentUrl)
                 end
             | None => ret (acc, currentUrl)
             end
           else ret (acc, currentUrl)
       end)%net
  end.

Definition trackRedirectChain (w : World) (initialUrl : string) : Net RedirectChain :=
  ('(c, last) <- loop w 10 [initialUrl] initialUrl ;;
   ret {| initial_url := initialUrl; final_url := last; chain := c |})%net.

(** [extractDomainFromCaption]: trim, lower-case, drop an optional
    scheme and [www.], cut at the first slash; accepted when it has a
    dot and no space. *)
Definition dropScheme (s : string) : string :=
  if prefix "https://" s then dropPrefix "https://" s
  else if prefix "http://" s then dropPrefix "http://" s
  else s.

Fixpoint beforeSlash (s : string) : string :=
  match s with
  | EmptyString => EmptyString
  | String c r => if (code c =? 47)%nat then EmptyString else String c (beforeSlash r)
  end.

Definition extractDomainFromCaption (caption : option string) : option string :=
  match caption with
  | None => None
  | Some cap =>
      if cap =? "" then None
      else
        let domain := beforeSlash (dropPrefix "www." (dropScheme (toLowerCase (trim cap)))) in
        if negb (domain =? "") && includes "." domain && negb (includes " " domain)
        then Some domain else None
  end.

Fixpoint dropTrailingSlashes (s : string) : string :=
  match s with
  | EmptyString => EmptyString
  | String c r =>
      match dropTrailingSlashes r with
      | EmptyString => if (code c =? 47)%nat then EmptyString else String c EmptyString
      | t => String c t
      end
  end.

Definition extractFullUrlFromCaption (caption : option string) : option string :=
  match caption with
  | None => None
  | Some cap =>
      if cap =? "" then None
      else
        let cleaned :=
          dropTrailingSlashes (dropPrefix "www." (dropScheme (toLowerCase (trim cap)))) in
        let domainPart := beforeSlash cleaned in
        if (domainPart =? "") || negb (includes "." domainPart) || includes " " domainPart
        then None else Some ("https://" ++ cleaned)%string
  end.

End UrlExtractor.

(* ================================================================== *)
(** * Ad records *)
(* ================================================================== *)

(** [MetaAd], with the optional fields the pipeline reads. *)
Record MetaAd := {
  id : string;
  page_id : option string;
  page_name : option string;
  ad_creative_bodies : option (list string);
  ad_creative_link_titles : option (list string);
  ad_creative_link_descriptions : option (list string);
  ad_creative_link_captions : option (list string);
  ad_snapshot_url : option string }.

Definition orEmpty {A} (o : option (list A)) : list A :=
  match o with Some l => l | None => [] end.

(* ================================================================== *)
(** * lib/keyword-generator.ts *)
(* ================================================================== *)

Module KeywordGenerator.
Import JS.

Definition GERMAN_STOP_WORDS : list string :=
  map latin1
  [
   "der"; "die"; "das"; "den"; "dem"; "des"; "ein"; "eine"; "einer";
   "eines"; "einem"; "einen"; "und"; "oder"; "aber"; "doch"; "noch";
   "auch"; "nur"; "schon"; "sehr"; "mehr"; "als"; "ich"; "du"; "er"; "sie";
   "es"; "wir"; "ihr"; "sich"; "mich"; "dich"; "uns"; "euch"; "mir"; "dir";
   "ihm"; "ihr"; "mein"; "dein"; "sein"; "unser"; "euer"; "ihrer"; "ist";
   "sind"; "war"; "waren"; "wird"; "werden"; "hat"; "haben"; "hatte";
   "hatten"; "kann"; "können"; "soll"; "sollen"; "will"; "wollen"; "muss";
   "müssen"; "darf"; "dürfen"; "mit"; "von"; "aus"; "bei"; "nach"; "für";
   "auf"; "über"; "unter"; "vor"; "hinter"; "zwischen"; "neben"; "ohne";
   "gegen"; "durch"; "bis"; "seit"; "während"; "wegen"; "nicht"; "kein";
   "keine"; "keinen"; "keinem"; "keiner"; "nichts"; "nie"; "niemals";
   "wenn"; "dann"; "weil"; "dass"; "damit"; "obwohl"; "während"; "bevor";
   "nachdem"; "wo"; "wie"; "was"; "wer"; "wann"; "warum"; "welche";
   "welcher"; "welches"; "hier"; "dort"; "da"; "jetzt"; "heute"; "morgen";
   "gestern"; "immer"; "oft"; "mal"; "so"; "denn"; "also"; "zum"; "zur";
   "am"; "im"; "vom"; "beim"; "ins"; "alle"; "alles"; "jede"; "jeder";
   "jedes"; "jeden"; "jedem"; "diese"; "dieser"; "dieses"; "diesen";
   "diesem"; "andere"; "anderer"; "anderes"; "anderen"; "anderem"; "ganz";
   "viel"; "viele"; "vielen"; "vieler"; "wenig"; "wenige"; "neue"; "neuen";
   "neuer"; "neues"; "neuem"; "erste"; "ersten"; "erster"; "erstes";
   "erstem"; "gute"; "guten"; "guter"; "gutes"; "gutem"; "gut"; "besser";
   "beste"; "besten"; "große"; "großen"; "großer"; "großes"; "großem";
   "kleine"; "kleinen"; "kleiner"; "kleines"; "kleinem"; "eigene";
   "eigenen"; "eigener"; "eigenes"; "deine"; "deinen"; "deiner"; "deines";
   "deinem"; "ihre"; "ihren"; "ihrem"; "ihres"; "unsere"; "unseren";
   "unserem"; "unseres"; "einfach"; "schnell"; "direkt"; "sofort";
   "richtig"; "wissen"; "weiß"; "kennen"; "machen"; "macht"; "gehen";
   "geht"; "kommen"; "kommt"; "sagen"; "sagt"; "geben"; "gibt"; "nehmen";
   "nimmt"; "stehen"; "steht"; "lassen"; "lässt"; "finden"; "findet";
   "bleiben"; "bleibt"; "liegen"; "liegt"; "bringen"; "bringt"; "leben";
   "lebt"; "fahren"; "fährt"; "meinen"; "meint"; "fragen"; "fragt";
   "kennt"; "stellt"; "zeigt"; "führt"; "sprechen"; "spricht"; "halten";
   "hält"; "spielen"; "spielt"; "arbeiten"; "brauchen"; "braucht";
   "folgen"; "lernen"; "bestehen"; "verstehen"; "setzen"; "bekommen";
   "beginnen"; "erzählen"; "versuchen"; "schreiben"; "laufen"; "erklären";
   "entsprechen"; "sitzen"; "ziehen"; "scheinen"; "fallen"; "gehören";
   "entstehen"; "erhalten"; "treffen"; "suchen"; "legen"; "vorstellen";
   "handeln"; "erreichen"; "tragen"; "schaffen"; "lesen"; "verlieren";
   "darstellen"; "erkennen"; "entwickeln"; "reden"; "aussehen";
   "erscheinen"; "bilden"; "anfangen"; "erwarten"; "lang"; "lange";
   "langen"; "kurz"; "kurze"; "kurzen"; "hoch"; "hohe"; "hohen"; "tief";
   "tiefe"; "tiefen"; "alt"; "alte"; "alten"; "jung"; "junge"; "jungen";
   "schwer"; "schwere"; "schweren"; "leicht"; "leichte"; "leichten";
   "stark"; "starke"; "starken"; "schwach"; "schwache"; "schwachen";
   "richtige"; "richtigen"; "gleich"; "gleichen"; "gleiche"; "wirklich";
   "endlich"; "natürlich"; "genau"; "bereits"; "frustrierend"; "möglich";
   "wichtig"; "nötig"; "fertig"; "jahr"; "jahre"; "jahren"; "monat";
   "monate"; "monaten"; "woche"; "wochen"; "tag"; "stunde"; "stunden";
   "minute"; "minuten"; "anfang"; "ende"; "zeit"; "zeiten"; "start";
   "startet"; "neujahr"; "neujahrs"; "vorsatz"; "vorsätze"; "weg"; "teil";
   "seite"; "art"; "fall"; "grund"; "ziel"; "sache"; "stelle"; "punkt";
   "bild"; "wort"; "hand"; "mensch"; "menschen"; "leute"; "frau"; "frauen";
   "mann"; "männer"; "kind"; "kinder"; "welt"; "land"; "stadt"; "haus";
   "problem"; "probleme"; "frage"; "antwort"; "lösung"; "prozent";
   "nummer"; "million"; "milliarden" ].

Definition ENGLISH_STOP_WORDS : list string :=
  map latin1
  [
   "the"; "a"; "an"; "is"; "are"; "was"; "were"; "be"; "been"; "being";
   "have"; "has"; "had"; "do"; "does"; "did"; "will"; "would"; "could";
   "should"; "may"; "might"; "can"; "shall"; "must"; "need"; "and"; "but";
   "or"; "nor"; "not"; "so"; "yet"; "both"; "either"; "neither"; "in";
   "on"; "at"; "to"; "for"; "of"; "with"; "by"; "from"; "as"; "into";
   "through"; "during"; "before"; "after"; "above"; "below"; "between";
   "under"; "i"; "you"; "he"; "she"; "it"; "we"; "they"; "me"; "him";
   "her"; "us"; "them"; "my"; "your"; "his"; "its"; "our"; "their"; "this";
   "that"; "these"; "those"; "what"; "which"; "who"; "whom"; "here";
   "there"; "where"; "when"; "why"; "how"; "all"; "each"; "every"; "no";
   "any"; "some"; "such"; "than"; "too"; "very"; "just"; "only"; "own";
   "same"; "also"; "other"; "new"; "now"; "get"; "got"; "like"; "know";
   "think"; "want"; "make"; "take"; "come"; "look"; "give"; "find"; "tell";
   "said"; "says"; "call"; "keep"; "help"; "show"; "turn"; "move"; "live";
   "feel"; "seem"; "left"; "hand"; "high"; "last"; "long"; "much"; "most";
   "many"; "even"; "back"; "then"; "them"; "been"; "next"; "well"; "still";
   "down"; "over"; "such"; "only"; "time"; "year"; "made"; "work"; "part";
   "real"; "life"; "love"; "goes"; "went"; "seen"; "came"; "used"; "going";
   "first"; "world"; "right"; "place"; "thing"; "think"; "never"; "being";
   "always"; "those"; "after"; "again"; "about"; "under"; "while"; "since";
   "found"; "every"; "still"; "start"; "point"; "story"; "eyes"; "face";
   "head"; "body"; "skin"; "hair"; "hand"; "hands"; "feet"; "lips"; "neck";
   "back"; "arms"; "legs"; "bone"; "bones"; "nail"; "nails"; "demi";
   "rhea"; "kate"; "emma"; "anna"; "lisa"; "sara"; "jane"; "rose"; "mary";
   "john"; "mark"; "paul"; "mike"; "alex"; "jade"; "lily"; "ruby"; "maya";
   "lena"; "nina"; "nora"; "mila"; "luna"; "ella"; "aria"; "isla"; "best";
   "better"; "great"; "good"; "amazing"; "awesome"; "beautiful"; "perfect";
   "wonderful"; "incredible"; "fantastic"; "natural"; "pure"; "true";
   "real"; "full"; "open"; "sure"; "whole"; "clear"; "able"; "free";
   "deep"; "easy"; "hard"; "fast"; "slow"; "warm"; "cold"; "rich"; "fresh";
   "clean"; "safe"; "dark"; "fine"; "soft"; "wild"; "rare"; "calm"; "way";
   "day"; "man"; "woman"; "people"; "child"; "world"; "water"; "food";
   "home"; "house"; "money"; "power"; "level"; "night"; "light"; "morning";
   "dream"; "family"; "heart"; "mind"; "friend"; "health"; "beauty";
   "nature"; "magic"; "secret"; "gift"; "game"; "play"; "book"; "page";
   "story"; "word"; "name"; "number"; "group"; "side"; "room" ].

Definition GENERIC_AD_WORDS : list string :=
  map latin1
  [
   "http"; "https"; "www"; "com"; ".de"; "jetzt"; "hier"; "klicken";
   "angebot"; "aktion"; "rabatt"; "prozent"; "gratis"; "kostenlos";
   "versandkostenfrei"; "lieferung"; "versand"; "bestellen"; "kaufen";
   "shoppen"; "sichern"; "entdecken"; "erfahren"; "verfügbar"; "limitiert";
   "exklusiv"; "premium"; "original"; "euro"; "preis"; "sparen";
   "günstiger"; "reduziert"; "sale"; "code"; "gutschein"; "link"; "bio";
   "profil"; "seite"; "website"; "facebook"; "instagram"; "shop"; "online";
   "bestell"; "lieferbar"; "erfahre"; "mehr"; "info"; "information";
   "informationen"; "deutschland"; "österreich"; "schweiz"; "berlin";
   "münchen"; "tage"; "wochen"; "monate"; "jahre"; "stunden"; "minuten";
   "über"; "unsere"; "unser"; "deine"; "dein"; "ihre"; "sicher"; "sichern";
   "sichere"; "sicherer"; "sicheres"; "entdecke"; "entdecken"; "entdeckt";
   "erfahre"; "erfahr"; "glücklich"; "glückliche"; "glücklichen";
   "glücklicher"; "kunden"; "kunde"; "kundin"; "kundinnen"; "ergebnis";
   "ergebnisse"; "ergebnissen"; "bewertung"; "bewertungen"; "rezension";
   "rezensionen"; "qualität"; "garantie"; "zufrieden"; "zufriedenheit";
   "wirkung"; "wirkungen"; "effekt"; "effekte"; "anwendung"; "einnahme";
   "dosierung"; "empfehlung"; "alternative"; "alternativen"; "variante";
   "varianten"; "hergestellt"; "produziert"; "entwickelt"; "getestet";
   "verpackung"; "lieferzeit"; "bestellung"; "paket"; "vorteile";
   "vorteil"; "nachteil"; "nachteile"; "dankbar"; "begeistert";
   "überzeugt"; "empfohlen"; "bestätigt"; "verifiziert"; "zertifiziert";
   "deshalb"; "deswegen"; "darum"; "daher"; "trotzdem"; "dennoch";
   "starten"; "startet"; "gestartet"; "beginnt"; "begonnen"; "perfekt";
   "perfekte"; "perfekten"; "perfekter"; "unterstützung"; "unterstützen";
   "unterstützt"; "genial"; "geniale"; "genialen"; "fantastisch";
   "fantastische"; "wissenschaftlich"; "nachgewiesen"; "belegt"; "studien";
   "millionen"; "tausende"; "hunderte"; "gescheitert"; "geschafft";
   "erreicht"; "gelöst"; "verändert"; "dafür"; "dagegen"; "davon"; "daran";
   "darauf"; "dabei"; "oberste"; "obersten"; "oberster"; "höchste";
   "höchsten"; "priorität"; "prioritäten"; "hauptsache"; "fokus";
   "neujahrs"; "neujahrs-sale"; "weihnachts"; "oster"; "sommer";
   "zufriedene"; "begeisterte"; "überzeugte"; "zusammen"; "gemeinsam";
   "komplett"; "komplette"; "kompletten"; "täglich"; "monatlich";
   "wöchentlich"; "regelmäßig"; "sogar"; "bereits"; "inzwischen";
   "mittlerweile"; "endgültig"; "verdient"; "gesamte"; "gesamten";
   "gesamter"; "gesamtes"; "vorrat"; "vorräte"; "geschenk"; "geschenke";
   "neujahrs-geschenk"; "neujahrs-sale"; "neujahrs-aktion";
   "premium-produkte"; "premium-qualität"; "premium-produkt"; "besondere";
   "besonderen"; "besonderer"; "besonderes"; "unglaublich"; "unglaubliche";
   "unglaublichen"; "passiert"; "aufgehört"; "angefangen"; "verändert";
   "tatsächlich"; "eigentlich"; "normalerweise"; "grundsätzlich";
   "produkte"; "produkt"; "nahrungsergänzung"; "nahrungsergänzungsmittel";
   "supplement"; "supplements"; "kapseln"; "tabletten"; "pulver"; "zutat";
   "zutaten"; "inhaltsstoffe"; "inhaltsstoff"; "spitzenpreis";
   "spitzenpreise"; "spitzenpreisen"; "endet"; "enden"; "endete";
   "beendet"; "beenden"; "wenigen"; "weniger"; "weniges"; "wenigsten";
   "tagen"; "tages"; "starte"; "startest"; "starten"; "gestartet"; "nutze";
   "nutzen"; "nutzt"; "genutzt"; "erlebe"; "erleben"; "erlebt"; "erlebst";
   "lerne"; "lernen"; "lernt"; "gelernt"; "teste"; "testen"; "testet";
   "getestet"; "spare"; "sparst"; "spart"; "gespart"; "warte"; "warten";
   "wartet"; "gewartet"; "helfen"; "hilft"; "geholfen"; "leiden"; "leidet";
   "gelitten"; "wirkt"; "wirken"; "gewirkt"; "zeigen"; "zeigt"; "gezeigt";
   "bieten"; "bietet"; "geboten"; "betroffen"; "betroffene"; "betroffenen";
   "betroffener"; "überzeugen"; "überzeugt"; "überzeuge"; "versprochen";
   "versprechen"; "verspricht"; "empfehlen"; "empfiehlt"; "empfohlen";
   "holen"; "holst"; "holt"; "geholt"; "garantiert"; "geprüft"; "bewährt";
   "beliebt"; "bekannt"; "revolutionär"; "revolutionäre"; "revolutionären";
   "einzigartig"; "einzigartige"; "einzigartigen"; "natürliche";
   "natürlichen"; "natürlicher"; "natürliches"; "wirkungsvolle";
   "wirkungsvoller"; "wirkungsvoll"; "positive"; "positiven"; "positiver";
   "positives"; "negative"; "negativen"; "negativer"; "negatives";
   "häufig"; "häufige"; "häufigen"; "häufiger"; "einfache"; "einfachen";
   "einfacher"; "einfaches"; "schnelle"; "schnellen"; "schneller";
   "schnelles"; "gesund"; "gesunde"; "gesunden"; "gesunder"; "gesundes";
   "gesundheit"; "gesundheitlich"; "gesundheitliche"; "wohlbefinden";
   "wohlbefindens"; "körper"; "körpers"; "wirklich"; "wahre"; "wahren";
   "wahrer"; "wahres"; "sofortige"; "sofortigen"; "sofortiger"; "höchste";
   "höchster"; "höchstes"; "verändern"; "veränderung"; "veränderungen";
   "verbessern"; "verbessert"; "verbesserung"; "verbesserungen";
   "erfahrung"; "erfahrungen"; "erfahrene"; "erfahrener"; "lösung";
   "lösungen"; "bestellen"; "bestellbar"; "bestellungen"; "sichern";
   "gesichert"; "begrenzt"; "begrenzte"; "begrenzten"; "begrenzter";
   "vertrauen"; "vertraut"; "vertraue"; "empfinden"; "empfindet";
   "empfunden"; "zurück"; "zurückgeben"; "rückgabe"; "risiko";
   "risikofrei"; "zufrieden"; "unzufrieden"; "wunder"; "wunderbar";
   "wunderbare"; "wunderbaren"; "lager"; "lagerbestand"; "vorrätig";
   "ausverkauft"; "nachfrage"; "bedarf"; "endlich"; "endliche"; "sofort";
   "sofortig"; "sonderangebot"; "sonderaktion"; "sonderpreis"; "neuheit";
   "neuheiten"; "neuartig"; "neuartige"; "beweis"; "beweise"; "bewiesen";
   "geheim"; "geheimnis"; "geheimnisse"; "trick"; "tricks"; "tipps";
   "gefühl"; "gefühle"; "gefühlen"; "gefühls"; "innen"; "innere";
   "inneren"; "innerer"; "inneres"; "wieder"; "wiederum"; "plus"; "minus";
   "balance"; "imbalance"; "routine"; "routinen"; "gleichgewicht";
   "wirksamkeit"; "wirkungsweise"; "vitamin"; "vitamine"; "vitaminen";
   "zustand"; "zustände"; "zuständen"; "kraft"; "kräfte"; "kräften";
   "energie"; "energien"; "schönheit"; "pflege"; "pflegen"; "gepflegt";
   "haut"; "haare"; "nägel"; "haar"; "anti-aging"; "anti"; "aging";
   "strahlend"; "strahlende"; "strahlenden"; "jugendlich"; "jugendliche";
   "jugendlichen"; "fühlen"; "fühlt"; "fühlst"; "gefühlt"; "aussehen";
   "aussieht"; "wohlfühlen"; "wohlbefinden"; "collections"; "collection";
   "trotz"; "trotzdem"; "eingenommene"; "eingenommen"; "eingenommenen";
   "aktive"; "aktiven"; "aktiver"; "aktives"; "aktivem"; "allein";
   "alleine"; "einzeln"; "solo"; "bundles"; "bundle"; "kombination";
   "kombinationen"; "calcium"; "magnesium"; "zink"; "eisen"; "jod";
   "selen"; "darm"; "darmflora"; "verdauung"; "müde"; "müdigkeit";
   "erschöpft"; "erschöpfung"; "schlaf"; "schlafen"; "schlafqualität";
   "stress"; "stressig"; "entspannung"; "entspannt"; "immunsystem";
   "abwehrkräfte"; "immunabwehr"; "stoffwechsel"; "metabolismus";
   "abnehmen"; "gewicht"; "diät"; "figur"; "muskel"; "muskeln";
   "muskelaufbau"; "gelenke"; "gelenk"; "gelenkschmerzen"; "entzündung";
   "entzündungen"; "entzündlich"; "symptome"; "symptom"; "beschwerden";
   "beschwerde"; "diagnose"; "therapie"; "behandlung"; "behandlungen";
   "arzt"; "ärzte"; "ärztin"; "ärztlich"; "ärztliche"; "studie"; "studien";
   "forschung"; "wissenschaft"; "wirkstoff"; "wirkstoffe";
   "wirkstoffkomplex"; "etwas"; "kannst"; "könnte"; "könnten"; "sollte";
   "sollten"; "trotz"; "trotzdem"; "obwohl"; "dennoch"; "davon"; "dafür";
   "daran"; "darauf"; "dabei"; "damit"; "vorverkauf"; "mengenrabatt";
   "rabattcode"; "gutscheincode"; "angebote"; "angeboten"; "aktion";
   "aktionen"; "click"; "buy"; "order"; "shop"; "now"; "today"; "free";
   "shipping"; "discount"; "sale"; "offer"; "deal"; "save"; "price";
   "limited"; "exclusive"; "premium"; "original"; "authentic"; "learn";
   "more"; "discover"; "explore"; "check"; "out"; "available"; "delivery";
   "fast"; "easy"; "simple"; "best"; "better"; "great"; "good"; "amazing";
   "awesome"; "customers"; "customer"; "review"; "reviews"; "rated" ].

Inductive Source := body | title | description.

Definition Source_eqb (a b : Source) : bool :=
  match a, b with
  | body, body | title, title | description, description => true
  | _, _ => false
  end.

Record KeywordScore := {
  keyword : string;
  frequency : nat;
  source : Source }.

Record KeywordGeneratorResult := {
  keywords : list string;
  keyword_scores : list KeywordScore;
  total_ads_analyzed : nat }.

Definition isStopWord (word : string) : bool :=
  mem word GERMAN_STOP_WORDS || mem word ENGLISH_STOP_WORDS.

Definition isGenericAdWord (word : string) : bool := mem word GENERIC_AD_WORDS.

Definition isBrandWord (word brandLower brandNormalized : string) : bool :=
  let wordNormalized := stripSeparators word in
  (word =? brandLower) || (wordNormalized =? brandNormalized) ||
  includes word brandLower || includes brandLower word.

(** The class [[\wäöüßÄÖÜ\s-]] kept by the tokenizer. *)
Definition is_umlaut (c : ascii) : bool :=
  existsb (fun n => (code c =? n)%nat) [228; 246; 252; 223; 196; 214; 220]%nat.

Definition keepChar (c : ascii) : bool :=
  is_word c || is_umlaut c || is_space c || (code c =? 45)%nat.

(** [text.replace(/[^\wäöüßÄÖÜ\s-]/g, ' ')]. *)
Definition cleanText : string -> string :=
  smap (fun c => if keepChar c then c else " "%char).

(** [s.split(/\s+/)]: the fields between maximal runs of white space;
    a run at either end leaves an empty field there.  [prev] tells that
    the previous unit was white space. *)
Fixpoint splitGo (prev : bool) (s : string) : list string :=
  match s with
  | EmptyString => [EmptyString]
  | String c r =>
      if is_space c then
        if prev then splitGo true r else EmptyString :: splitGo true r
      else
        match splitGo false r with
        | f :: fs => String c f :: fs
        | [] => [String c EmptyString]
        end
  end.

Definition splitSpaces (s : string) : list string := splitGo false s.

(** [/^\d+$/.test(w)] and [/^\d/.test(w)]. *)
Definition allDigits (w : string) : bool := negb (w =? "") && sforall is_digit w.

Definition startsWithDigit (w : string) : bool :=
  match w with
  | EmptyString => false
  | String c _ => is_digit c
  end.

(** The filter chain shared by both tokenizers, up to the generic-word
    filter that only the single-word tokenizer applies. *)
Definition baseWords (text : string) : list string :=
  filter (fun w => negb (isStopWord w))
    (filter (fun w => negb (startsWithDigit w))
       (filter (fun w => negb (allDigits w))
          (map (fun w => trim (toLowerCase w))
             (filter (fun w => (4 <=? length w)%nat)
                (splitSpaces (cleanText text)))))).

Definition scoreWords (text brandLower brandNormalized : string) : list string :=
  filter (fun w => negb (isBrandWord w brandLower brandNormalized))
    (filter (fun w => negb (isGenericAdWord w)) (baseWords text)).

Definition Scores := JSMap.t (nat * list Source).

Definition addWord (src : Source) (scores : Scores) (word : string) : Scores :=
  match JSMap.get word scores with
  | Some (f, srcs) =>
      JSMap.set word
        (S f, if existsb (Source_eqb src) srcs then srcs else srcs ++ [src]) scores
  | None => JSMap.set word (1%nat, [src]) scores
  end.

Definition extractAndScoreWords
  (text : string) (src : Source) (scores : Scores) (brandLower brandNormalized : string)
  : Scores :=
  if text =? "" then scores
  else fold_left (addWord src) (scoreWords text brandLower brandNormalized) scores.

(** The texts of one ad in the order the generator visits them. *)
Definition adTexts (ad : MetaAd) : list (string * Source) :=
  map (fun t => (t, body)) (orEmpty (ad_creative_bodies ad)) ++
  map (fun t => (t, title)) (orEmpty (ad_creative_link_titles ad)) ++
  map (fun t => (t, description)) (orEmpty (ad_creative_link_descriptions ad)).

Definition scoreAll (ads : list MetaAd) (brandLower brandNormalized : string) : Scores :=
  fold_left
    (fun scores ts => extractAndScoreWords (fst ts) (snd ts) scores brandLower brandNormalized)
    (flat_map adTexts ads) [].

(** [Math.max(3, Math.ceil(n * 0.005))]: the double product of an
    integer below 2^53 with 0.005 is the double nearest to n/200, which
    is the integer n/200 itself when 200 divides n, so the ceiling is
    the integer ceiling of n/200. *)
Definition minFrequency (n : nat) : nat := Nat.max 3 ((n + 199) / 200).

(** [word.charAt(0).toUpperCase()] for the units a token can start
    with: a-z and the lower-case Latin-1 letters move down by 32,
    sharp s becomes SS. *)
Definition upperFirst (c : ascii) : string :=
  let n := code c in
  if (n =? 223)%nat then "SS"
  else if between 97 122 n || (between 224 254 n && negb (n =? 247)%nat)
  then String (ascii_of_nat (n - 32)) EmptyString
  else String c EmptyString.

Definition capitalize (word : string) : string :=
  match word with
  | EmptyString => EmptyString
  | String c r => (upperFirst c ++ r)%string
  end.

Definition compoundWords (text brandLower brandNormalized : string) : list string :=
  filter (fun w => negb (isBrandWord w brandLower brandNormalized)) (baseWords text).

Definition bump (counts : JSMap.t nat) (k : string) : JSMap.t nat :=
  JSMap.set k (match JSMap.get k counts with Some n => S n | None => 1%nat end) counts.

Fixpoint bigrams (words : list string) (counts : JSMap.t nat) : JSMap.t nat :=
  match words with
  | a :: ((b :: _) as r) =>
      if isGenericAdWord a || isGenericAdWord b then bigrams r counts
      else if a =? b then bigrams r counts
      else bigrams r (bump counts (capitalize a ++ " " ++ capitalize b)%string)
  | _ => counts
  end.

Definition generateCompoundKeywords
  (ads : list MetaAd) (brandLower brandNormalized : string) : list KeywordScore :=
  let texts :=
    flat_map (fun ad => orEmpty (ad_creative_bodies ad) ++
                        orEmpty (ad_creative_link_titles ad)) ads in
  let bigramCounts :=
    fold_left (fun counts text => bigrams (compoundWords text brandLower brandNormalized) counts)
      texts [] in
  map (fun kc : string * nat =>
         {| keyword := fst kc; frequency := snd kc; source := body |})
    (firstn 10
       (sortBy (fun a b : string * nat => (snd b <=? snd a)%nat)
          (filter (fun kc : string * nat => (3 <=? snd kc)%nat) bigramCounts))).

(** [s.split(' ')]. *)
Fixpoint splitOnSpace (s : string) : list string :=
  match s with
  | EmptyString => [EmptyString]
  | String c r =>
      if (code c =? 32)%nat then EmptyString :: splitOnSpace r
      else match splitOnSpace r with
           | f :: fs => String c f :: fs
           | [] => [String c EmptyString]
           end
  end.

(** The first loop of the merge: single keywords, while there is room. *)
Fixpoint addSingles (maxKeywords : nat) (singles : list KeywordScore)
  (finalScores : list KeywordScore) : list KeywordScore :=
  match singles with
  | [] => finalScores
  | k :: r =>
      if (List.length finalScores <? maxKeywords)%nat then
        if mem (keyword k) (map keyword finalScores)
        then addSingles maxKeywords r finalScores
        else addSingles maxKeywords r (finalScores ++ [k])
      else finalScores
  end.

(** The second loop: compounds fill what is left, unless every part is
    already a keyword. *)
Fixpoint addCompounds (maxKeywords : nat) (compounds : list KeywordScore)
  (finalScores : list KeywordScore) : list KeywordScore :=
  match compounds with
  | [] => finalScores
  | ck :: r =>
      if (maxKeywords <=? List.length finalScores)%nat then finalScores
      else
        let finalKeywords := map keyword finalScores in
        let parts := splitOnSpace (toLowerCase (keyword ck)) in
        let bothPartsInSingles :=
          forallb (fun p => existsb (fun fk => toLowerCase fk =? p) finalKeywords) parts in
        if negb bothPartsInSingles && negb (mem (keyword ck) finalKeywords)
        then addCompounds maxKeywords r (finalScores ++ [ck])
        else addCompounds maxKeywords r finalScores
  end.

Definition singleKeywords (ads : list MetaAd) (brandName : string) (maxKeywords : nat)
  : list KeywordScore :=
  let brandLower := toLowerCase brandName in
  let brandNormalized := stripSeparators brandLower in
  map (fun ws : string * (nat * list Source) =>
         {| keyword := fst ws; frequency := fst (snd ws);
            source := hd body (snd (snd ws)) |})
    (firstn maxKeywords
       (sortBy (fun a b : string * (nat * list Source) =>
                  (fst (snd b) <=? fst (snd a))%nat)
          (filter (fun ws : string * (nat * list Source) =>
                     (minFrequency (List.length ads) <=? fst (snd ws))%nat)
             (scoreAll ads brandLower brandNormalized)))).

Definition generateKeywords (ads : list MetaAd) (brandName : string) (maxKeywords : nat)
  : KeywordGeneratorResult :=
  let brandLower := toLowerCase brandName in
  let brandNormalized := stripSeparators brandLower in
  let finalScores :=
    addCompounds maxKeywords (generateCompoundKeywords ads brandLower brandNormalized)
      (addSingles maxKeywords (singleKeywords ads brandName maxKeywords) []) in
  {| keywords := map keyword finalScores;
     keyword_scores := finalScores;
     total_ads_analyzed := List.length ads |}.

(** The words of a text as the tokenizer separates them, in lower
    case: what it means for a word to occur in an ad text. *)
Definition wordsOf (text : string) : list string :=
  map toLowerCase (splitSpaces (cleanText text)).

Definition occurrences (k : string) (ads : list MetaAd) : nat :=
  list_sum (map (fun ts => count_occ string_dec (wordsOf (fst ts)) k) (flat_map adTexts ads)).

(** A token without white space. *)
Definition spaceless (w : string) : bool := sforall (fun c => negb (is_space c)) w.

(** Every word the single-word tokenizer scores, over the ad texts in
    the order the generator visits them. *)
Definition scoredWords (ads : list MetaAd) (brandLower brandNormalized : string)
  : list string :=
  flat_map (fun ts => scoreWords (fst ts) brandLower brandNormalized) (flat_map adTexts ads).

(** The frequency a score map holds for a word, 0 for an absent one. *)
Definition frequencyOf (k : string) (scores : Scores) : nat :=
  match JSMap.get k scores with
  | Some (f, _) => f
  | None => 0%nat
  end.

End KeywordGenerator.

(* ================================================================== *)
(** * lib/types.ts: the records of the discovery pipeline *)
(* ================================================================== *)

Inductive MatchType :=
| direct | redirect | shopify_vendor | presell_cta
| checkout_match | content_link | content_match | none.

Definition MatchType_eqb (a b : MatchType) : bool :=
  match a, b with
  | direct, direct | redirect, redirect | shopify_vendor, shopify_vendor
  | presell_cta, presell_cta | checkout_match, checkout_match
  | content_link, content_link | content_match, content_match | none, none => true
  | _, _ => false
  end.

Module BrandInfo.
Record t := {
  brand_name : string;
  brand_domain : option string;
  brand_aliases : list string;
  shopify_store : option string;
  vendor_name : option string;
  platform : option string;
  official_page_ids : list string }.
End BrandInfo.

Module DomainBrandCheck.
Record t := {
  domain : string;
  is_match : bool;
  match_type : MatchType;
  confidence : Z;
  final_url : option string;
  redirect_chain : list string;
  shop_domain : option string;
  vendor_name : option string;
  page_ids : list string;
  ad_count : nat }.

(** The assignments every matching step makes to [result]. *)
Definition matched (r : t) (mt : MatchType) (c : Z) (shop : option string) : t :=
  {| domain := domain r; is_match := true; match_type := mt; confidence := c;
     final_url := final_url r; redirect_chain := redirect_chain r;
     shop_domain := shop; vendor_name := vendor_name r;
     page_ids := page_ids r; ad_count := ad_count r |}.

Definition withVendor (r : t) (v : option string) : t :=
  {| domain := domain r; is_match := is_match r; match_type := match_type r;
     confidence := confidence r; final_url := final_url r;
     redirect_chain := redirect_chain r; shop_domain := shop_domain r;
     vendor_name := v; page_ids := page_ids r; ad_count := ad_count r |}.

Definition withChain (r : t) (c : list string) : t :=
  {| domain := domain r; is_match := is_match r; match_type := match_type r;
     confidence := confidence r; final_url := final_url r;
     redirect_chain := c; shop_domain := shop_domain r;
     vendor_name := vendor_name r; page_ids := page_ids r; ad_count := ad_count r |}.

Definition withFetch (r : t) (u : string) (c : list string) : t :=
  {| domain := domain r; is_match := is_match r; match_type := match_type r;
     confidence := confidence r; final_url := Some u;
     redirect_chain := c; shop_domain := shop_domain r;
     vendor_name := vendor_name r; page_ids := page_ids r; ad_count := ad_count r |}.

(** [check.page_ids = pageIds; check.ad_count = adCount]. *)
Definition attach (r : t) (pids : list string) (n : nat) : t :=
  {| domain := domain r; is_match := is_match r; match_type := match_type r;
     confidence := confidence r; final_url := final_url r;
     redirect_chain := redirect_chain r; shop_domain := shop_domain r;
     vendor_name := vendor_name r; page_ids := pids; ad_count := n |}.
End DomainBrandCheck.

Module PageInfo.
Record t := {
  page_id : string;
  page_name : string;
  ad_count : nat;
  is_official : bool }.
End PageInfo.

Module ThirdPartyPageInfo.
Record t := {
  page_id : string;
  page_name : string;
  ad_count : nat;
  connection_type : MatchType;
  confidence : Z;
  discovered_via : string;
  domains_used : list string }.
End ThirdPartyPageInfo.

Module Response.
Record Pages := {
  official : list PageInfo.t;
  third_party : list ThirdPartyPageInfo.t }.

Record Domains := {
  presell : list string;
  redirect : list string;
  final_shop : list string;
  all : list string }.

Record PresellChainEntry := {
  presell_domain : string;
  chain : list string;
  final_domain : string }.

Record ScanStats := {
  keywords_used : list string;
  total_ads_scanned : nat;
  unique_domains_checked : nat;
  matches_found : nat;
  scan_duration_seconds : Z;
  detection_methods : list (MatchType * nat) }.

Inductive Status := completed | processing | cached | error_status.

(** [BrandDiscoveryResponse], without [domain_urls] and
    [top_landing_pages]: both are computed from the matches after the
    fields below and feed nothing back into them. *)
Record t := {
  success : bool;
  status : Status;
  brand : string;
  brand_domain : option string;
  brand_platform : option string;
  pages : Pages;
  domains : Domains;
  presell_chains : list PresellChainEntry;
  scan_stats : ScanStats;
  error : option string }.
End Response.

(* ================================================================== *)
(** * lib/brand-discovery.ts: the verification cascade *)
(* ================================================================== *)

Module Cascade.
Import JS.
Module C := DomainBrandCheck.
Module B := BrandInfo.

Definition DOMAIN_CHECK_TIMEOUT : Z := 12000.

Record DomainCheckOptions := {
  timeout : option Z;
  use_headless : bool;
  scrapingbee_key : option string;
  domainAds : option (list MetaAd);
  domainFullUrls : option (JSMap.t nat) }.

Record FetchWithRedirectsResult := {
  fr_final_url : string;
  fr_chain : list string;
  fr_html : string }.

Definition fetchWithRedirects (w : World) (domainOrUrl : string) (timeout : Z)
  : Net (option FetchWithRedirectsResult) :=
  let startUrl :=
    if startsWith "http" domainOrUrl then domainOrUrl
    else ("https://" ++ domainOrUrl)%string in
  call (CFetch startUrl)
    (match fetch w startUrl timeout with
     | None => None
     | Some response =>
         if negb (resp_ok response) then None
         else
           Some {| fr_final_url := resp_url response;
                   fr_chain :=
                     if negb (resp_url response =? startUrl) &&
                        negb (resp_url response =? (startUrl ++ "/")%string)
                     then [startUrl; resp_url response] else [startUrl];
                   fr_html := resp_text response |}
     end).

Definition extractDomainFromUrl (w : World) (url : string) : option string :=
  match parseURL w url with
  | Some u => Some (toLowerCase (dropPrefix "www." (hostname u)))
  | None => None
  end.

(** [isDomainMatch]: the brand domain, its myshopify variant, or a
    domain containing a separator-free alias of at least 3 units. *)
Definition isDomainMatch (domain : string) (brandInfo : B.t) : bool :=
  let domainLower := dropPrefix "www." (toLowerCase domain) in
  (match B.brand_domain brandInfo with
   | Some bd => negb (bd =? "") && (domainLower =? toLowerCase bd)
   | None => false
   end) ||
  (match B.shopify_store brandInfo with
   | Some store => negb (store =? "") && (domainLower =? (store ++ ".myshopify.com")%string)
   | None => false
   end) ||
  existsb (fun alias =>
             let normalized := stripSeparators alias in
             (3 <=? length normalized)%nat && includes normalized domainLower)
    (B.brand_aliases brandInfo).

(** [urlDomain && isDomainMatch(urlDomain, brandInfo)] for a nullable domain. *)
Definition matchingDomain (d : option string) (brandInfo : B.t) : option string :=
  match d with
  | Some x => if negb (x =? "") && isDomainMatch x brandInfo then Some x else None
  | None => None
  end.

(** The first alias of at least 4 units contained in [text]. *)
Definition aliasIn (text : string) (brandInfo : B.t) : option string :=
  find (fun alias => (4 <=? length alias)%nat && includes alias text)
    (B.brand_aliases brandInfo).

(** Entries of a URL-count map whose path passes [keep], most frequent first. *)
Definition rankedUrls (w : World) (keep : string -> bool) (m : JSMap.t nat)
  : list (string * nat) :=
  sortBy (fun a b : string * nat => (snd b <=? snd a)%nat)
    (filter (fun e : string * nat =>
               match parseURL w (fst e) with
               | Some u => keep (pathname u)
               | None => false
               end) m).

Definition notRoot (path : string) : bool := negb (path =? "/").

(** What a step of the cascade hands on: a final result, or the
    result record as it stands for the next step. *)
Inductive Outcome :=
| Return (r : C.t)
| Continue (r : C.t).

(** 6c, content part: brand domain in the HTML, then an alias. *)
Definition contentCheck (html : string) (brandDomain : string) (brandInfo : B.t)
  (r : C.t) : option C.t :=
  if includes brandDomain html
  then Some (C.matched r content_link 75 (Some brandDomain))
  else
    match aliasIn (toLowerCase html) brandInfo with
    | Some alias =>
        Some (C.withVendor (C.matched r content_match 60 (B.brand_domain brandInfo))
                (Some alias))
    | None => None
    end.

(** 6c: the vendor check on a Shopify page, then the content checks. *)
Definition step6c (w : World) (domain brandDomain : string) (brandInfo : B.t)
  (html : string) (r : C.t) : Net (option C.t) :=
  if html =? "" then ret None
  else
    let isShopify := includes "cdn.shopify.com" (toLowerCase html) in
    (viaVendor <-
       (match B.vendor_name brandInfo with
        | Some vn =>
            if isShopify && negb (vn =? "") then
              (vendorCheck <- Shopify.shopifyStoreHasVendor w domain vn ;;
               if Shopify.found vendorCheck
               then ret (Some (C.withVendor
                                 (C.matched r shopify_vendor
                                    (Shopify.confidence vendorCheck) (Some domain))
                                 (Shopify.matched_vendor vendorCheck)))
               else ret None)
            else ret None
        | None => ret None
        end) ;;
     match viaVendor with
     | Some m => ret (Some m)
     | None => ret (contentCheck html brandDomain brandInfo r)
     end)%net.

(** 6d: the URLs handed to the presell tracker. *)
Definition presellUrlsToCheck (w : World) (domain : string) (opts : DomainCheckOptions)
  : list string :=
  let home := ("https://" ++ domain)%string in
  match domainFullUrls opts with
  | Some m =>
      fold_left (fun acc url => if mem url acc then acc else acc ++ [url])
        (map fst (firstn 3 (rankedUrls w notRoot m))) [home]
  | None => [home]
  end.

Fixpoint presellLoop (w : World) (brandInfo : B.t) (timeout : Z)
  (urls : list string) (r : C.t) : Net (option C.t) :=
  match urls with
  | [] => ret None
  | presellUrl :: rest =>
      (presellResult <- call (CPresell presellUrl) (presell w presellUrl timeout) ;;
       match presell_final_url presellResult with
       | Some fu =>
           if fu =? "" then presellLoop w brandInfo timeout rest r
           else
             let ctaFinalDomain := extractDomainFromUrl w fu in
             match matchingDomain ctaFinalDomain brandInfo with
             | Some d =>
                 ret (Some (C.withChain (C.matched r presell_cta 85 (Some d))
                              (presell_chain presellResult)))
             | None =>
                 match ctaFinalDomain, B.vendor_name brandInfo with
                 | Some d, Some vn =>
                     if negb (d =? "") && negb (vn =? "") then
                       (vendorCheck <- Shopify.shopifyStoreHasVendor w d vn ;;
                        if Shopify.found vendorCheck
                        then ret (Some (C.withChain
                                          (C.withVendor
                                             (C.matched r checkout_match
                                                (Shopify.confidence vendorCheck) (Some d))
                                             (Shopify.matched_vendor vendorCheck))
                                          (presell_chain presellResult)))
                        else presellLoop w brandInfo timeout rest r)
                     else presellLoop w brandInfo timeout rest r
                 | _, _ => presellLoop w brandInfo timeout rest r
                 end
             end
       | None => presellLoop w brandInfo timeout rest r
       end)%net
  end.

(** 6b to 6d: everything that depends on the first fetch. *)
Definition step6bcd (w : World) (domain brandDomain : string) (brandInfo : B.t)
  (opts : DomainCheckOptions) (timeout : Z) (r : C.t) : Net Outcome :=
  (fetchResult <- fetchWithRedirects w domain timeout ;;
   match fetchResult with
   | None => ret (Continue r)
   | Some f =>
       let r1 := C.withFetch r (fr_final_url f) (fr_chain f) in
       match matchingDomain (extractDomainFromUrl w (fr_final_url f)) brandInfo with
       | Some finalDomain => ret (Return (C.matched r1 redirect 90 (Some finalDomain)))
       | None =>
           c <- step6c w domain brandDomain brandInfo (fr_html f) r1 ;;
           match c with
           | Some m => ret (Return m)
           | None =>
               p <- presellLoop w brandInfo timeout (presellUrlsToCheck w domain opts) r1 ;;
               match p with
               | Some m => ret (Return m)
               | None => ret (Continue r1)
               end
           end
       end
   end)%net.

(** 6f, checks 1 and 2, over the harvested URLs in insertion order. *)
Fixpoint landingUrlLoop (w : World) (brandInfo : B.t) (urls : list string) (r : C.t)
  : option C.t :=
  match urls with
  | [] => None
  | fullUrl :: rest =>
      match matchingDomain (extractDomainFromUrl w fullUrl) brandInfo with
      | Some urlDomain => Some (C.matched r redirect 85 (Some urlDomain))
      | None =>
          match parseURL w fullUrl with
          | Some u =>
              match aliasIn (toLowerCase (pathname u)) brandInfo with
              | Some _ => Some (C.matched r content_link 80 (B.brand_domain brandInfo))
              | None => landingUrlLoop w brandInfo rest r
              end
          | None => landingUrlLoop w brandInfo rest r
          end
      end
  end.

(** 6f, check 3: fetch up to two specific landing pages. *)
Fixpoint landingFetchLoop (w : World) (brandDomain : string) (brandInfo : B.t)
  (urls : list string) (r : C.t) : Net (option C.t) :=
  match urls with
  | [] => ret None
  | specificUrl :: rest =>
      (resp <- call (CFetch specificUrl) (fetch w specificUrl 6000) ;;
       match resp with
       | Some response =>
           if resp_ok response then
             let htmlLower := toLowerCase (resp_text response) in
             if includes brandDomain htmlLower
             then ret (Some (C.matched r content_link 75 (Some brandDomain)))
             else
               match aliasIn htmlLower brandInfo with
               | Some alias =>
                   ret (Some (C.withVendor
                                (C.matched r content_match 65 (B.brand_domain brandInfo))
                                (Some alias)))
               | None => landingFetchLoop w brandDomain brandInfo rest r
               end
           else landingFetchLoop w brandDomain brandInfo rest r
       | None => landingFetchLoop w brandDomain brandInfo rest r
       end)%net
  end.

Definition step6f (w : World) (brandDomain : string) (brandInfo : B.t)
  (opts : DomainCheckOptions) (r : C.t) : Net (option C.t) :=
  match domainFullUrls opts with
  | Some ((_ :: _) as m) =>
      match landingUrlLoop w brandInfo (JSMap.keys m) r with
      | Some res => ret (Some res)
      | None =>
          landingFetchLoop w brandDomain brandInfo
            (map fst (firstn 2 (rankedUrls w notRoot m))) r
      end
  | _ => ret None
  end.

(** The dual-domain check over the captions of the domain's ads. *)
Definition dualDomain (domain : string) (brandInfo : B.t) (opts : DomainCheckOptions)
  (r : C.t) : option C.t :=
  match domainAds opts with
  | Some ads =>
      match
        find (fun captionDomain =>
                negb (captionDomain =? "") &&
                negb (captionDomain =? toLowerCase domain) &&
                isDomainMatch captionDomain brandInfo)
          (flat_map
             (fun ad =>
                flat_map
                  (fun caption =>
                     match UrlExtractor.extractDomainFromCaption (Some caption) with
                     | Some d => [toLowerCase d]
                     | None => []
                     end)
                  (orEmpty (ad_creative_link_captions ad)))
             ads)
      with
      | Some captionDomain => Some (C.matched r content_link 80 (Some captionDomain))
      | None => None
      end
  | None => None
  end.

Definition ctaPatterns : list string :=
  ["shop"; "kauf"; "bestell"; "checkout"; "angebot"; "buy"; "order";
   "/go/"; "/out/"; "/click"; "/redirect"; "/track"].

Fixpoint ctaLinkLoop (w : World) (brandInfo : B.t) (links : list string) (r : C.t)
  : Net (option C.t) :=
  match links with
  | [] => ret None
  | ctaLink :: rest =>
      (redirectResult <- fetchWithRedirects w ctaLink 8000 ;;
       match redirectResult with
       | Some f =>
           match matchingDomain (extractDomainFromUrl w (fr_final_url f)) brandInfo with
           | Some d =>
               ret (Some (C.withChain (C.matched r presell_cta 85 (Some d)) (fr_chain f)))
           | None => ctaLinkLoop w brandInfo rest r
           end
       | None => ctaLinkLoop w brandInfo rest r
       end)%net
  end.

(** 6g: the rendered page, when a rendering key is configured. *)
Definition step6g (w : World) (domain brandDomain : string) (brandInfo : B.t)
  (opts : DomainCheckOptions) (r : C.t) : Net (option C.t) :=
  if truthy (scrapingbee_key opts) then
    let targetUrl :=
      match domainFullUrls opts with
      | Some m =>
          match rankedUrls w (fun p => (1 <? length p)%nat) m with
          | (u, _) :: _ => u
          | [] => ("https://" ++ domain)%string
          end
      | None => ("https://" ++ domain)%string
      end in
    (rendered <- call (CRender targetUrl) (render w targetUrl) ;;
     match rendered with
     | Some (true, html) =>
         let htmlLower := toLowerCase html in
         match
           find (fun l =>
                   match matchingDomain (extractDomainFromUrl w l) brandInfo with
                   | Some _ => true | None => false end)
             (hrefs w html)
         with
         | Some l =>
             ret (Some (C.matched r presell_cta 85 (extractDomainFromUrl w l)))
         | None =>
             if includes brandDomain htmlLower
             then ret (Some (C.matched r content_link 80 (Some brandDomain)))
             else
               match aliasIn htmlLower brandInfo with
               | Some alias =>
                   ret (Some (C.withVendor
                                (C.matched r content_match 70 (B.brand_domain brandInfo))
                                (Some alias)))
               | None =>
                   ctaLinkLoop w brandInfo
                     (firstn 3
                        (filter (fun l => existsb (fun p => includes p (toLowerCase l))
                                            ctaPatterns)
                           (http_hrefs w html))) r
               end
         end
     | _ => ret None
     end)%net
  else ret None.

Definition initial (domain : string) : C.t :=
  {| C.domain := domain; C.is_match := false; C.match_type := none;
     C.confidence := 0; C.final_url := None; C.redirect_chain := [];
     C.shop_domain := None; C.vendor_name := None;
     C.page_ids := []; C.ad_count := 0%nat |}.

(** [options?.timeout || DOMAIN_CHECK_TIMEOUT]. *)
Definition effectiveTimeout (opts : DomainCheckOptions) : Z :=
  match timeout opts with
  | Some t => if (t =? 0)%Z then DOMAIN_CHECK_TIMEOUT else t
  | None => DOMAIN_CHECK_TIMEOUT
  end.

Definition checkDomainForBrand (w : World) (domain : string) (brandInfo : B.t)
  (opts : DomainCheckOptions) : Net C.t :=
  let timeout := effectiveTimeout opts in
  let result := initial domain in
  match B.brand_domain brandInfo with
  | None => ret result
  | Some bd =>
      if bd =? "" then ret result
      else
        let brandDomain := toLowerCase bd in
        (* 6a *)
        if toLowerCase domain =? brandDomain
        then ret (C.matched result direct 100 (Some domain))
        else
          (o <- step6bcd w domain brandDomain brandInfo opts timeout result ;;
           match o with
           | Return m => ret m
           | Continue r =>
               f <- step6f w brandDomain brandInfo opts r ;;
               match f with
               | Some m => ret m
               | None =>
                   match dualDomain domain brandInfo opts r with
                   | Some m => ret m
                   | None =>
                       g <- step6g w domain brandDomain brandInfo opts r ;;
                       match g with
                       | Some m => ret m
                       | None => ret r
                       end
                   end
               end
           end)%net
  end.

End Cascade.

(* ================================================================== *)
(** * lib/brand-discovery.ts: candidate aggregation *)
(* ================================================================== *)

Module Aggregator.
Import JS.
Module B := BrandInfo.

Record PageEntry := {
  name : string;
  count : nat;
  domains : list string }.

Record DomainExtractionResult := {
  domainPageMap : JSMap.t (list string);
  domainAdCount : JSMap.t nat;
  allPages : JSMap.t PageEntry;
  domainFullUrls : JSMap.t (JSMap.t nat) }.

Definition excludedDomains : list string :=
  ["facebook.com"; "fb.com"; "instagram.com"; "meta.com";
   "google.com"; "youtube.com"; "twitter.com"; "pinterest.com";
   "tiktok.com"; "bit.ly"; "linktr.ee"; "l.facebook.com"].

Definition endsWith (suffix s : string) : bool :=
  (length suffix <=? length s)%nat &&
  (substring (length s - length suffix) (length suffix) s =? suffix).

Definition isExcluded (domainLower : string) : bool :=
  mem domainLower excludedDomains ||
  existsb (fun ed => endsWith ("." ++ ed)%string domainLower) excludedDomains.

(** "Skip if domain contains brand name (likely official)". *)
Definition containsAlias (domainLower : string) (brandInfo : B.t) : bool :=
  existsb (fun alias => includes (stripSpaces alias) domainLower)
    (B.brand_aliases brandInfo).

Definition initialBrandDomains (brandInfo : B.t) : list string :=
  match B.brand_domain brandInfo with
  | Some bd =>
      if bd =? "" then []
      else
        toLowerCase bd ::
        match B.shopify_store brandInfo with
        | Some store =>
            if store =? "" then [] else [(store ++ ".myshopify.com")%string]
        | None => []
        end
  | None => []
  end.

(** The loop state: the four maps and the growing set [brandDomains]. *)
Record State := {
  result : DomainExtractionResult;
  brandDomains : list string }.

Definition countUrl (domainLower fullUrl : string) (m : JSMap.t (JSMap.t nat))
  : JSMap.t (JSMap.t nat) :=
  let urlMap := match JSMap.get domainLower m with Some u => u | None => [] end in
  JSMap.set domainLower
    (JSMap.set fullUrl
       (match JSMap.get fullUrl urlMap with Some n => S n | None => 1%nat end) urlMap)
    m.

Definition addDomainToPage (pageId domainLower : string) (pages : JSMap.t PageEntry)
  : JSMap.t PageEntry :=
  match JSMap.get pageId pages with
  | Some p =>
      JSMap.set pageId
        {| name := name p; count := count p;
           domains := if mem domainLower (domains p) then domains p
                      else domains p ++ [domainLower] |}
        pages
  | None => pages
  end.

Definition perCaption (brandInfo : B.t) (pageId : string) (st : State) (caption : string)
  : State :=
  match UrlExtractor.extractDomainFromCaption (Some caption) with
  | None => st
  | Some domain =>
      let domainLower := toLowerCase domain in
      let r := result st in
      let urls :=
        match UrlExtractor.extractFullUrlFromCaption (Some caption) with
        | Some fullUrl => countUrl domainLower fullUrl (domainFullUrls r)
        | None => domainFullUrls r
        end in
      let tracked :=
        {| domainPageMap := domainPageMap r; domainAdCount := domainAdCount r;
           allPages := allPages r; domainFullUrls := urls |} in
      if mem domainLower (brandDomains st)
      then {| result := tracked; brandDomains := brandDomains st |}
      else if isExcluded domainLower
      then {| result := tracked; brandDomains := brandDomains st |}
      else if containsAlias domainLower brandInfo
      then {| result := tracked;
              brandDomains := if mem domainLower (brandDomains st) then brandDomains st
                              else brandDomains st ++ [domainLower] |}
      else
        let existingPages :=
          match JSMap.get domainLower (domainPageMap r) with
          | Some l => l | None => [] end in
        {| result :=
             {| domainPageMap :=
                  JSMap.set domainLower
                    (if mem pageId existingPages then existingPages
                     else existingPages ++ [pageId])
                    (domainPageMap r);
                domainAdCount :=
                  JSMap.set domainLower
                    (match JSMap.get domainLower (domainAdCount r) with
                     | Some n => S n | None => 1%nat end)
                    (domainAdCount r);
                allPages := addDomainToPage pageId domainLower (allPages r);
                domainFullUrls := urls |};
           brandDomains := brandDomains st |}
  end.

Definition orDefault (o : option string) (d : string) : string :=
  match o with
  | Some s => if s =? "" then d else s
  | None => d
  end.

Definition perAd (brandInfo : B.t) (st : State) (ad : MetaAd) : State :=
  let pageId := orDefault (page_id ad) "unknown" in
  let pageName := orDefault (page_name ad) "Unknown" in
  let r := result st in
  let pageInfo :=
    match JSMap.get pageId (allPages r) with
    | Some p => p
    | None => {| name := pageName; count := 0; domains := [] |}
    end in
  let counted :=
    {| domainPageMap := domainPageMap r; domainAdCount := domainAdCount r;
       allPages :=
         JSMap.set pageId
           {| name := name pageInfo; count := S (count pageInfo);
              domains := domains pageInfo |}
           (allPages r);
       domainFullUrls := domainFullUrls r |} in
  fold_left (perCaption brandInfo pageId)
    (orEmpty (ad_creative_link_captions ad))
    {| result := counted; brandDomains := brandDomains st |}.

(** What the loop keeps true of every key of [domainPageMap]: it is not
    one of the brand's own domains, contains no alias, is in lower case
    and has no space. *)
Definition candidateOK (brandInfo : B.t) (key : string) : Prop :=
  mem key (initialBrandDomains brandInfo) = false /\
  containsAlias key brandInfo = false /\
  toLowerCase key = key /\
  includes " " key = false.

Definition aggInv (brandInfo : B.t) (st : State) : Prop :=
  (forall x, In x (initialBrandDomains brandInfo) -> In x (brandDomains st)) /\
  (forall key, In key (JSMap.keys (domainPageMap (result st))) -> candidateOK brandInfo key).

Definition extractUniqueDomains (ads : list MetaAd) (brandInfo : B.t)
  : DomainExtractionResult :=
  result
    (fold_left (perAd brandInfo) ads
       {| result := {| domainPageMap := []; domainAdCount := [];
                       allPages := []; domainFullUrls := [] |};
          brandDomains := initialBrandDomains brandInfo |}).

End Aggregator.

(* ================================================================== *)
(** * lib/brand-discovery.ts: the orchestrator *)
(* ================================================================== *)

Module Pipeline.
Import JS.
Module B := BrandInfo.
Module C := DomainBrandCheck.
Module R := Response.
Module T := ThirdPartyPageInfo.

Definition DOMAIN_CHECK_CONCURRENCY : nat := 5.
Definition MIN_CONFIDENCE : Z := 70.

Record DiscoveryOptions := {
  timeout_ms : option Z;
  max_domains_to_check : option nat;
  use_headless : bool;
  use_headless_for_domains : option bool;
  scrapingbee_key : option string }.

(** What [detectShopifyStore] reports and [findBrandDomain] reads. *)
Record ShopifyDetectionResult := {
  is_shopify : bool;
  platform : string;
  store_name : option string;
  myshopify_domain : option string;
  vendor_name : option string;
  og_site_name : option string }.

(** What Steps 2a to 5e hand to the rest of the run: the brand ads
    after the two domain searches were merged in, the keyword ads and
    the keywords, the priority hints, the landing URLs found by the
    snapshot enrichment, and the time all of that took.  The outbound
    calls of these steps are not logged. *)
Record Gathered := {
  brandAds : list MetaAd;
  allAds : list MetaAd;
  allKeywords : list string;
  priorityDomains : list string;
  enrichedUrls : list (string * string);
  gather_ms : Z }.

Record Env := {
  world : World;
  (** [Date.now()] when [discoverBrand] is entered. *)
  now0 : Z;
  (** The exact-phrase search for the brand name; [inl] is the text of
      an exception. *)
  brandSearch : string -> string + list MetaAd;
  brandSearch_ms : Z;
  (** [detectShopifyStore]; [None] when it throws. *)
  detectShopifyStore : string -> option ShopifyDetectionResult;
  (** Steps 2a to 5e; [inl] is the text of an exception that reaches
      the pipeline's [catch]. *)
  gather : string -> B.t -> list MetaAd -> string + Gathered;
  (** Wall-clock time of the concurrent checks of one batch. *)
  batch_ms : list string -> Z }.

(* ---------------------------------------------------------------- *)
(** ** Step 2: findBrandDomain *)

Definition addToSet (x : string) (l : list string) : list string :=
  if mem x l then l else l ++ [x].

(** [s.split(sep)[0]]. *)
Fixpoint beforeFirst (sep s : string) : string :=
  if prefix sep s then EmptyString
  else match s with
       | EmptyString => EmptyString
       | String c r => String c (beforeFirst sep r)
       end.

(** The separators of the source that are Latin-1 strings; the en and
    em dash variants cannot occur in a string of the model. *)
Definition separators : list string := [" - "; " | "; latin1 " · "].

Definition isSeparatorChar (c : ascii) : bool :=
  (code c =? 45)%nat || (code c =? 124)%nat || (code c =? 183)%nat.

Definition isLineTerminator (c : ascii) : bool :=
  (code c =? 10)%nat || (code c =? 13)%nat.

(** [s.replace(/\s*[-|·].*$/, '')], up to the white space that the
    following [trim] removes: cut at the first separator unit that no
    line terminator follows. *)
Fixpoint cutSubtitle (s : string) : string :=
  match s with
  | EmptyString => EmptyString
  | String c r =>
      if isSeparatorChar c && sforall (fun d => negb (isLineTerminator d)) r
      then EmptyString
      else String c (cutSubtitle r)
  end.

(** [d.replace(/\.[^.]+$/, '')]. *)
Fixpoint dropTld (d : string) : string :=
  match d with
  | EmptyString => EmptyString
  | String c r =>
      if (code c =? 46)%nat && negb (r =? "") && negb (includes "." r)
      then EmptyString
      else String c (dropTld r)
  end.

Definition nameAliases (brandName : string) : list string :=
  let fullNameLower := trim (toLowerCase brandName) in
  let afterSeps :=
    fold_left
      (fun aliases sep =>
         if includes sep fullNameLower then
           let firstPart := trim (beforeFirst sep fullNameLower) in
           if (3 <=? length firstPart)%nat then addToSet firstPart aliases else aliases
         else aliases)
      separators [fullNameLower] in
  let shortName := trim (cutSubtitle fullNameLower) in
  if (3 <=? length shortName)%nat then addToSet shortName afterSeps else afterSeps.

Definition pageCounts (ads : list MetaAd) : JSMap.t (string * nat) :=
  fold_left
    (fun m ad =>
       match page_id ad, page_name ad with
       | Some pid, Some pname =>
           if negb (pid =? "") && negb (pname =? "") then
             match JSMap.get pid m with
             | Some (n, c) => JSMap.set pid (n, S c) m
             | None => JSMap.set pid (pname, 1%nat) m
             end
           else m
       | _, _ => m
       end)
    ads [].

Definition officialPages (brandName : string) (pageMap : JSMap.t (string * nat))
  : list string :=
  let brandLower := toLowerCase brandName in
  let byName :=
    map fst
      (filter (fun e : string * (string * nat) =>
                 let n := toLowerCase (fst (snd e)) in
                 includes brandLower n || includes (stripSpaces n) brandLower)
         pageMap) in
  match byName with
  | [] =>
      match sortBy (fun a b : string * (string * nat) =>
                      (snd (snd b) <=? snd (snd a))%nat) pageMap with
      | (pid, _) :: _ => [pid]
      | [] => []
      end
  | _ => byName
  end.

Definition captionDomainCounts (ads : list MetaAd) : JSMap.t nat :=
  fold_left
    (fun m caption =>
       match UrlExtractor.extractDomainFromCaption (Some caption) with
       | Some d =>
           JSMap.set d (match JSMap.get d m with Some n => S n | None => 1%nat end) m
       | None => m
       end)
    (flat_map (fun ad => orEmpty (ad_creative_link_captions ad)) ads) [].

Definition truthyList (o : option string) (f : string -> string) : list string :=
  match o with
  | Some s => if s =? "" then [] else [f s]
  | None => []
  end.

(** [myshopify_domain.replace('.myshopify.com', '')]: the first
    occurrence is removed. *)
Fixpoint removeFirst (pat s : string) : string :=
  if prefix pat s then substring (length pat) (length s - length pat) s
  else match s with
       | EmptyString => EmptyString
       | String c r => String c (removeFirst pat r)
       end.

Definition findBrandDomain (env : Env) (brandName : string) (ads : list MetaAd) : B.t :=
  let aliases := nameAliases brandName in
  match ads with
  | [] =>
      {| B.brand_name := brandName; B.brand_domain := None; B.brand_aliases := aliases;
         B.shopify_store := None; B.vendor_name := None; B.platform := None;
         B.official_page_ids := [] |}
  | _ =>
      let official := officialPages brandName (pageCounts ads) in
      match sortBy (fun a b : string * nat => (snd b <=? snd a)%nat)
              (captionDomainCounts ads) with
      | [] =>
          {| B.brand_name := brandName; B.brand_domain := None;
             B.brand_aliases := dedup aliases;
             B.shopify_store := None; B.vendor_name := None; B.platform := None;
             B.official_page_ids := official |}
      | (bd, _) :: _ =>
          let domainWithoutTld := toLowerCase (dropTld bd) in
          let aliases1 :=
            if (3 <=? length domainWithoutTld)%nat && negb (mem domainWithoutTld aliases)
            then aliases ++ [domainWithoutTld] else aliases in
          match detectShopifyStore env bd with
          | Some shopify =>
              if is_shopify shopify then
                {| B.brand_name := brandName; B.brand_domain := Some bd;
                   B.brand_aliases :=
                     dedup (aliases1 ++
                            truthyList (myshopify_domain shopify)
                              (fun m => toLowerCase (removeFirst ".myshopify.com" m)) ++
                            truthyList (vendor_name shopify) toLowerCase ++
                            truthyList (og_site_name shopify) toLowerCase);
                   B.shopify_store := store_name shopify;
                   B.vendor_name := vendor_name shopify;
                   B.platform := Some (platform shopify);
                   B.official_page_ids := official |}
              else
                {| B.brand_name := brandName; B.brand_domain := Some bd;
                   B.brand_aliases := dedup aliases1;
                   B.shopify_store := None; B.vendor_name := None;
                   B.platform := Some (platform shopify);
                   B.official_page_ids := official |}
          | None =>
              {| B.brand_name := brandName; B.brand_domain := Some bd;
                 B.brand_aliases := dedup aliases1;
                 B.shopify_store := None; B.vendor_name := None; B.platform := None;
                 B.official_page_ids := official |}
          end
      end
  end.

(* ---------------------------------------------------------------- *)
(** ** The deadline *)

Definition hasDeadline (options : DiscoveryOptions) : bool :=
  match timeout_ms options with
  | Some t => negb (t =? 0)%Z
  | None => true
  end.

(** [Date.now() + (options.timeout_ms || 55000)], when there is one. *)
Definition deadline (env : Env) (options : DiscoveryOptions) : Z :=
  now0 env + match timeout_ms options with Some t => t | None => 55000 end.

(** [pastDeadline(bufferMs)] read at clock value [now]. *)
Definition pastDeadline (env : Env) (options : DiscoveryOptions) (now bufferMs : Z) : bool :=
  if negb (hasDeadline options) then false
  else (deadline env options - bufferMs <? now)%Z.

(* ---------------------------------------------------------------- *)
(** ** Candidate order and limit (after Step 5c) *)

Definition adCountOf (m : JSMap.t nat) (d : string) : nat :=
  match JSMap.get d m with Some n => n | None => 0%nat end.

(** Priority domains first, then by ad count, descending. *)
Definition candidateBefore (priority : list string) (counts : JSMap.t nat)
  (a b : string) : bool :=
  let aPriority := mem (toLowerCase a) priority in
  let bPriority := mem (toLowerCase b) priority in
  if Bool.eqb aPriority bPriority
  then (adCountOf counts b <=? adCountOf counts a)%nat
  else aPriority.

Definition maxDomainsToCheck (options : DiscoveryOptions) : nat :=
  match max_domains_to_check options with
  | Some O | None => 20%nat
  | Some n => n
  end.

Definition selectDomains (options : DiscoveryOptions) (priority : list string)
  (ex : Aggregator.DomainExtractionResult) : list string :=
  let sorted :=
    sortBy (candidateBefore priority (Aggregator.domainAdCount ex))
      (JSMap.keys (Aggregator.domainPageMap ex)) in
  match max_domains_to_check options with
  | Some O => sorted
  | _ =>
      if (maxDomainsToCheck options <? List.length sorted)%nat
      then firstn (maxDomainsToCheck options) sorted
      else sorted
  end.

(** Step 5d: the ads whose captions name a candidate domain. *)
Definition domainToAds (ads : list MetaAd) (ex : Aggregator.DomainExtractionResult)
  : JSMap.t (list MetaAd) :=
  fold_left
    (fun m ad =>
       fold_left
         (fun m caption =>
            match UrlExtractor.extractDomainFromCaption (Some caption) with
            | Some d0 =>
                let d := toLowerCase d0 in
                if JSMap.has d (Aggregator.domainPageMap ex) then
                  JSMap.set d
                    (match JSMap.get d m with Some l => l | None => [] end ++ [ad]) m
                else m
            | None => m
            end)
         (orEmpty (ad_creative_link_captions ad)) m)
    ads [].

(** [combinedAdsMap]: brand ads, then keyword ads, one entry per ad id. *)
Definition combineAds (brand keyword : list MetaAd) : list MetaAd :=
  JSMap.values (fold_left (fun m ad => JSMap.set (id ad) ad m) (brand ++ keyword) []).

(* ---------------------------------------------------------------- *)
(** ** Step 6: the domain checks, in batches, under the deadline *)

(** [for (i = 0; i < l.length; i += n) l.slice(i, i + n)]. *)
Fixpoint batchesFrom {A} (fuel n : nat) (l : list A) : list (list A) :=
  match fuel, l with
  | S fuel', _ :: _ => firstn n l :: batchesFrom fuel' n (skipn n l)
  | _, _ => []
  end.

Definition batches {A} (n : nat) (l : list A) : list (list A) :=
  batchesFrom (List.length l) n l.

Record Step6State := {
  matchedDomains : list C.t;
  detectionMethods : list (MatchType * nat);
  checked : list C.t;
  clock : Z }.

Fixpoint countMethod (mt : MatchType) (m : list (MatchType * nat)) : list (MatchType * nat) :=
  match m with
  | [] => [(mt, 1%nat)]
  | (k, n) :: r =>
      if MatchType_eqb k mt then (k, S n) :: r else (k, n) :: countMethod mt r
  end.

Definition record (st : (list C.t * list (MatchType * nat))) (r : C.t)
  : list C.t * list (MatchType * nat) :=
  if C.is_match r
  then (fst st ++ [r], countMethod (C.match_type r) (snd st))
  else st.

Definition checkOne (env : Env) (options : DiscoveryOptions) (brandInfo : B.t)
  (ex : Aggregator.DomainExtractionResult)
  (adsOf : JSMap.t (list MetaAd)) (urlsOf : JSMap.t (JSMap.t nat))
  (domain : string) : Net C.t :=
  let domainCheckHeadless :=
    match use_headless_for_domains options with
    | Some b => b && use_headless options
    | None => false
    end in
  (check <-
     Cascade.checkDomainForBrand (world env) domain brandInfo
       {| Cascade.timeout := Some (if domainCheckHeadless then 12000 else 8000);
          Cascade.use_headless := domainCheckHeadless;
          Cascade.scrapingbee_key := scrapingbee_key options;
          Cascade.domainAds := JSMap.get (toLowerCase domain) adsOf;
          Cascade.domainFullUrls := JSMap.get (toLowerCase domain) urlsOf |} ;;
   ret (C.attach check
          (match JSMap.get domain (Aggregator.domainPageMap ex) with
           | Some l => l | None => [] end)
          (adCountOf (Aggregator.domainAdCount ex) domain)))%net.

Fixpoint checkBatch (one : string -> Net C.t) (batch : list string) : Net (list C.t) :=
  match batch with
  | [] => ret []
  | d :: r => (x <- one d ;; xs <- checkBatch one r ;; ret (x :: xs))%net
  end.

(** The batch loop.  The calls of a batch are logged in batch order. *)
Fixpoint step6Loop (env : Env) (options : DiscoveryOptions) (one : string -> Net C.t)
  (bs : list (list string)) (st : Step6State) : Net Step6State :=
  match bs with
  | [] => ret st
  | batch :: rest =>
      if pastDeadline env options (clock st) 3000 then ret st
      else
        (results <- checkBatch one batch ;;
         let acc :=
           fold_left record results (matchedDomains st, detectionMethods st) in
         step6Loop env options one rest
           {| matchedDomains := fst acc;
              detectionMethods := snd acc;
              checked := checked st ++ results;
              clock := clock st + batch_ms env batch +
                       match rest with [] => 0 | _ => 100 end |})%net
  end.

(** The domains Step 6 sets out to check: none when fewer than ten
    seconds are left. *)
Definition step6Domains (env : Env) (options : DiscoveryOptions) (now : Z)
  (thirdPartyDomains : list string) : list string :=
  if pastDeadline env options now 10000 then [] else thirdPartyDomains.

Definition step6 (env : Env) (options : DiscoveryOptions) (one : string -> Net C.t)
  (now : Z) (thirdPartyDomains : list string) : Net Step6State :=
  step6Loop env options one
    (batches DOMAIN_CHECK_CONCURRENCY (step6Domains env options now thirdPartyDomains))
    {| matchedDomains := []; detectionMethods := []; checked := []; clock := now |}.

(* ---------------------------------------------------------------- *)
(** ** Step 7: buildDiscoveryResult *)

Definition pageNameLookup (ads : list MetaAd) : JSMap.t string :=
  fold_left
    (fun m ad =>
       match page_id ad, page_name ad with
       | Some pid, Some pname =>
           if negb (pid =? "") && negb (pname =? "") && negb (JSMap.has pid m)
           then JSMap.set pid pname m else m
       | _, _ => m
       end)
    ads [].

Definition firstNonEmpty (candidates : list (option string)) (d : string) : string :=
  match find truthy candidates with
  | Some (Some s) => s
  | _ => d
  end.

(** One [(match, pageId)] step of the merge into [thirdPartyPagesMap]. *)
Definition mergePage (brandInfo : B.t) (allPages : JSMap.t Aggregator.PageEntry)
  (names : JSMap.t string) (m : C.t)
  (pagesMap : JSMap.t T.t) (pageId : string) : JSMap.t T.t :=
  if mem pageId (B.official_page_ids brandInfo) then pagesMap
  else
    match JSMap.get pageId pagesMap with
    | Some existing =>
        let better := (T.confidence existing <? C.confidence m)%Z in
        JSMap.set pageId
          {| T.page_id := T.page_id existing;
             T.page_name := T.page_name existing;
             T.ad_count := (T.ad_count existing + C.ad_count m)%nat;
             T.connection_type :=
               if better then C.match_type m else T.connection_type existing;
             T.confidence :=
               if better then C.confidence m else T.confidence existing;
             T.discovered_via := T.discovered_via existing;
             T.domains_used :=
               if mem (C.domain m) (T.domains_used existing) then T.domains_used existing
               else T.domains_used existing ++ [C.domain m] |}
          pagesMap
    | None =>
        JSMap.set pageId
          {| T.page_id := pageId;
             T.page_name :=
               firstNonEmpty
                 [option_map Aggregator.name (JSMap.get pageId allPages);
                  JSMap.get pageId names] "Unknown";
             T.ad_count := C.ad_count m;
             T.connection_type := C.match_type m;
             T.confidence := C.confidence m;
             T.discovered_via := C.domain m;
             T.domains_used := [C.domain m] |}
          pagesMap
    end.

Definition thirdPartyPagesMap (brandInfo : B.t) (allPages : JSMap.t Aggregator.PageEntry)
  (names : JSMap.t string) (matched : list C.t) : JSMap.t T.t :=
  fold_left
    (fun pagesMap m =>
       fold_left (mergePage brandInfo allPages names m) (C.page_ids m) pagesMap)
    matched [].

(** The [(match, page id)] pairs in the order the merge visits them, and
    the ads they bring to one page id. *)
Definition incidences (matched : list C.t) : list (C.t * string) :=
  flat_map (fun m => map (fun pageId => (m, pageId)) (C.page_ids m)) matched.

Definition adSum (pageId : string) (pairs : list (C.t * string)) : nat :=
  list_sum (map (fun mp : C.t * string =>
                   if snd mp =? pageId then C.ad_count (fst mp) else 0%nat) pairs).

(** The merge as one fold over the pairs. *)
Definition mergeStep (brandInfo : B.t) (allPages : JSMap.t Aggregator.PageEntry)
  (names : JSMap.t string) (pagesMap : JSMap.t T.t) (mp : C.t * string) : JSMap.t T.t :=
  mergePage brandInfo allPages names (fst mp) pagesMap (snd mp).

(** What holds of the entry under page id [k] after [pairs] were merged:
    it carries that id, the page is not official, its type and
    confidence are those of one merged match of the page, no merged
    match of the page has a higher confidence, and its ad count is the
    sum over the merged matches of the page. *)
Definition entryOK (brandInfo : B.t) (pairs : list (C.t * string)) (k : string) (p : T.t)
  : Prop :=
  T.page_id p = k /\
  mem k (B.official_page_ids brandInfo) = false /\
  (exists m, In (m, k) pairs /\
             T.connection_type p = C.match_type m /\ T.confidence p = C.confidence m) /\
  (forall m, In (m, k) pairs -> (C.confidence m <= T.confidence p)%Z) /\
  T.ad_count p = adSum k pairs.

Definition mergeInv (brandInfo : B.t) (pairs : list (C.t * string))
  (pagesMap : JSMap.t T.t) : Prop :=
  NoDup (JSMap.keys pagesMap) /\
  (forall k p, JSMap.get k pagesMap = Some p -> entryOK brandInfo pairs k p) /\
  (forall m k, In (m, k) pairs -> mem k (B.official_page_ids brandInfo) = false ->
               In k (JSMap.keys pagesMap)).

(** Higher confidence first, then more ads. *)
Definition pageBefore (a b : T.t) : bool :=
  if (T.confidence a =? T.confidence b)%Z
  then (T.ad_count b <=? T.ad_count a)%nat
  else (T.confidence b <? T.confidence a)%Z.

Definition isPresellType (mt : MatchType) : bool :=
  match mt with
  | presell_cta | content_link | content_match | checkout_match => true
  | _ => false
  end.

Definition isShopType (mt : MatchType) : bool :=
  match mt with
  | shopify_vendor | direct => true
  | _ => false
  end.

Definition domainsOf (sel : MatchType -> bool) (matched : list C.t) : list string :=
  map C.domain (filter (fun m => sel (C.match_type m)) matched).

(** "Brand's own domain always in final_shop". *)
Definition finalShop (brandInfo : B.t) (matched : list C.t) : list string :=
  let shopDomains := domainsOf isShopType matched in
  match B.brand_domain brandInfo with
  | Some bd =>
      if negb (bd =? "") && negb (mem bd shopDomains) then bd :: shopDomains
      else shopDomains
  | None => shopDomains
  end.

(** [Math.round(ms / 1000)]. *)
Definition roundSeconds (ms : Z) : Z := (ms + 500) / 1000.

Definition buildDiscoveryResult (brandName : string) (brandInfo : B.t)
  (matched : list C.t) (allAds : list MetaAd)
  (allPages : JSMap.t Aggregator.PageEntry) (keywords : list string)
  (methods : list (MatchType * nat)) (startTime now : Z)
  (totalDomainsChecked : nat) (brandAds : list MetaAd) : R.t :=
  let presellDomains := domainsOf isPresellType matched in
  let redirectDomains := domainsOf (MatchType_eqb redirect) matched in
  let shopDomains := finalShop brandInfo matched in
  {| R.success := true;
     R.status := R.completed;
     R.brand := brandName;
     R.brand_domain := B.brand_domain brandInfo;
     R.brand_platform := B.platform brandInfo;
     R.pages :=
       {| R.official :=
            map (fun pageId =>
                   let pageData := JSMap.get pageId allPages in
                   {| PageInfo.page_id := pageId;
                      PageInfo.page_name :=
                        firstNonEmpty [option_map Aggregator.name pageData] brandName;
                      PageInfo.ad_count :=
                        match pageData with
                        | Some p => Aggregator.count p | None => 0%nat end;
                      PageInfo.is_official := true |})
              (B.official_page_ids brandInfo);
          R.third_party :=
            sortBy pageBefore
              (JSMap.values
                 (thirdPartyPagesMap brandInfo allPages
                    (pageNameLookup (brandAds ++ allAds)) matched)) |};
     R.domains :=
       {| R.presell := presellDomains;
          R.redirect := redirectDomains;
          R.final_shop := shopDomains;
          R.all := dedup (presellDomains ++ redirectDomains ++ shopDomains) |};
     R.presell_chains :=
       map (fun m =>
              {| R.presell_domain := C.domain m;
                 R.chain := C.redirect_chain m;
                 R.final_domain :=
                   firstNonEmpty [C.shop_domain m; B.brand_domain brandInfo] "" |})
         (filter (fun m => MatchType_eqb (C.match_type m) presell_cta &&
                           negb (Nat.eqb (List.length (C.redirect_chain m)) 0))
            matched);
     R.scan_stats :=
       {| R.keywords_used := keywords;
          R.total_ads_scanned := List.length allAds;
          R.unique_domains_checked := totalDomainsChecked;
          R.matches_found := List.length matched;
          R.scan_duration_seconds := roundSeconds (now - startTime);
          R.detection_methods := methods |};
     R.error := None |}.

Definition makeErrorResponse (brand error : string) : R.t :=
  {| R.success := false;
     R.status := R.error_status;
     R.brand := brand;
     R.brand_domain := None;
     R.brand_platform := None;
     R.pages := {| R.official := []; R.third_party := [] |};
     R.domains := {| R.presell := []; R.redirect := []; R.final_shop := []; R.all := [] |};
     R.presell_chains := [];
     R.scan_stats :=
       {| R.keywords_used := []; R.total_ads_scanned := 0;
          R.unique_domains_checked := 0; R.matches_found := 0;
          R.scan_duration_seconds := 0; R.detection_methods := [] |};
     R.error := Some error |}.



(* ---------------------------------------------------------------- *)
(** ** discoverBrand *)

(** The snapshot enrichment of Step 5e adds landing URLs to the
    per-domain URL counts. *)
Definition enrich (urls : list (string * string)) (m : JSMap.t (JSMap.t nat))
  : JSMap.t (JSMap.t nat) :=
  fold_left (fun acc du => Aggregator.countUrl (fst du) (snd du) acc) urls m.

(** Steps 5 to 7 on the evidence gathered before them.  [checkedBy]
    exposes the checks Step 6 ran next to the report. *)
Definition verifyAndReport (env : Env) (brandName : string) (options : DiscoveryOptions)
  (brandInfo : B.t) (g : Gathered) (now : Z) : Net (R.t * list C.t) :=
  let allCombinedAds := combineAds (brandAds g) (allAds g) in
  let ex := Aggregator.extractUniqueDomains allCombinedAds brandInfo in
  let thirdPartyDomains := selectDomains options (priorityDomains g) ex in
  let adsOf := domainToAds allCombinedAds ex in
  let urlsOf := enrich (enrichedUrls g) (Aggregator.domainFullUrls ex) in
  let toCheck := step6Domains env options now thirdPartyDomains in
  (st <- step6 env options (checkOne env options brandInfo ex adsOf urlsOf)
           now thirdPartyDomains ;;
   let allMatches :=
     filter (fun m => negb (C.confidence m <? MIN_CONFIDENCE)%Z) (matchedDomains st) in
   ret (buildDiscoveryResult brandName brandInfo allMatches (allAds g)
          (Aggregator.allPages ex) (allKeywords g) (detectionMethods st)
          (now0 env) (clock st) (List.length toCheck) (brandAds g),
        checked st))%net.

Definition discoverBrandWithChecks (env : Env) (brandName : string)
  (options : DiscoveryOptions) : Net (R.t * list C.t) :=
  (found <- call (CAdSearch brandName) (brandSearch env brandName) ;;
   match found with
   | inl e => ret (makeErrorResponse brandName e, [])
   | inr ads =>
       let brandInfo := findBrandDomain env brandName ads in
       if negb (truthy (B.brand_domain brandInfo))
       then ret (makeErrorResponse brandName "Could not find brand domain from Meta ads", [])
       else
         match gather env brandName brandInfo ads with
         | inl e => ret (makeErrorResponse brandName e, [])
         | inr g =>
             verifyAndReport env brandName options brandInfo g
               (now0 env + brandSearch_ms env + gather_ms g)
         end
   end)%net.

Definition discoverBrand (env : Env) (brandName : string) (options : DiscoveryOptions)
  : Net R.t :=
  (rc <- discoverBrandWithChecks env brandName options ;; ret (fst rc))%net.

End Pipeline.

(* ================================================================== *)
(** * worker/server.ts: the HTTP front door *)
(* ================================================================== *)

Module Worker.
Import JS.
Module R := Response.

(** The JSON body of [POST /api/discover]; [brand] is [None] when the
    field is missing. *)
Record DiscoverBody := {
  brand : option string;
  force_refresh : bool }.

(** One entry of the [brands] array of [POST /api/batch]. *)
Record BrandDiscoveryRequest := { req_brand : string }.

(** What [await req.json()] makes of the body: a JSON object read as
    the body of one of the two POST routes, or, for [NoBody], an
    exception: there is no body or it is not JSON, or it is the JSON
    value null, whose fields cannot be read. *)
Inductive Body :=
| DiscoverJson (b : DiscoverBody)
| BatchJson (brands : option (list BrandDiscoveryRequest))
| NoBody.

Record Request := {
  method : string;
  path : string;
  authorization : option string;
  body : Body }.

Inductive JobStatus := queued | running | completed | error.

(** A job object.  [serial] is the identity of the object: the number
    of jobs created before it.  It tells the object that a suspended
    [processNextJob] holds from a later object stored under the same
    id. *)
Record Job := {
  job_id : string;
  job_brand : string;
  status : JobStatus;
  result : option R.t;
  completed_at : option Z;
  serial : nat }.

(** The module state: the job table, the queue, the flag, the number
    of job ids issued, and the job object that a call of
    [processNextJob] suspended at [await discoverBrand] holds. *)
Record ServerState := {
  jobs : JSMap.t Job;
  jobQueue : list string;
  isProcessing : bool;
  issued : nat;
  inFlight : option Job }.

Record Config := {
  API_SECRET : string;
  META_ACCESS_TOKEN : string;
  SCRAPINGBEE_KEY : string;
  (** The cache table, when Supabase is configured: the fresh entry
      stored for a brand, if any. *)
  supabase : option (string -> option R.t);
  (** [generateJobId()], by the number of ids issued so far. *)
  generateJobId : nat -> string;
  pipeline : Pipeline.Env }.

Inductive Payload :=
| Empty
| Error (message : string)
| Health (jobs_total jobs_queued : nat) (is_processing : bool)
| Cached (data : R.t)
| Processing (job : string)
| Completed (job : string) (data : R.t)
| Failed (job : string)
| Pending (job : string) (st : JobStatus)
| Queued (total : nat) (job_ids : list string).

(** A response: its status code and what its JSON body says; the
    progress texts and queue positions of jobs are left out. *)
Record HttpResponse := {
  code : Z;
  payload : Payload }.

Definition jsonResponse (data : Payload) (status : Z) : HttpResponse :=
  {| code := status; payload := data |}.

Definition verifyAuth (cfg : Config) (req : Request) : bool :=
  if API_SECRET cfg =? "" then true
  else match authorization req with
       | Some h => h =? ("Bearer " ++ API_SECRET cfg)%string
       | None => false
       end.

Definition nonEmpty (s : string) : option string :=
  if s =? "" then None else Some s.

Definition workerOptions (cfg : Config) : Pipeline.DiscoveryOptions :=
  {| Pipeline.timeout_ms := Some 0;
     Pipeline.max_domains_to_check := Some 0%nat;
     Pipeline.use_headless := true;
     Pipeline.use_headless_for_domains := Some true;
     Pipeline.scrapingbee_key := nonEmpty (SCRAPINGBEE_KEY cfg) |}.

Definition setJob (j : Job) (st : JobStatus) (res : option R.t) (done : option Z) : Job :=
  {| job_id := job_id j; job_brand := job_brand j; status := st; result := res;
     completed_at := done; serial := serial j |}.

(** The discovery that [processNextJob] runs for a job. *)
Definition discovery (cfg : Config) (job : Job) : Net R.t :=
  Pipeline.discoverBrand (pipeline cfg) (job_brand job) (workerOptions cfg).

(** [processNextJob], up to its [await discoverBrand(...)].  The
    callers do not await it: it takes the next job from the queue,
    marks it running and starts its discovery, whose first outbound
    call is issued before control returns to the caller. *)
Definition processNextJob (cfg : Config) (st : ServerState) : Net ServerState :=
  if isProcessing st then ret st
  else
    match jobQueue st with
    | [] => ret st
    | jobId :: rest =>
        match JSMap.get jobId (jobs st) with
        | None =>
            ret {| jobs := jobs st; jobQueue := rest; isProcessing := isProcessing st;
                   issued := issued st; inFlight := inFlight st |}
        | Some job =>
            let started := setJob job running (result job) (completed_at job) in
            (firstn 1 (trace (discovery cfg job)),
             {| jobs := JSMap.set jobId started (jobs st);
                jobQueue := rest;
                isProcessing := true;
                issued := issued st;
                inFlight := Some started |})
        end
    end.

(** The end of [processNextJob]: the flag is cleared and the next job,
    if there is one, is started. *)
Definition processNextJob_end (cfg : Config) (st : ServerState) : Net ServerState :=
  let st1 :=
    {| jobs := jobs st; jobQueue := jobQueue st; isProcessing := false;
       issued := issued st; inFlight := None |} in
  match jobQueue st1 with
  | [] => ret st1
  | _ :: _ => processNextJob cfg st1
  end.

(** [processNextJob] goes on, at time [now], when what it awaits has
    settled.  Suspended at [await discoverBrand] (the job it holds is
    running): the remaining calls of the discovery have been made and
    the job object is completed; with a cache and a successful report
    it then calls [storeInCache] and is suspended there, otherwise it
    runs to its end.  Suspended at [await storeInCache] (the job it
    holds is completed): it runs to its end.  The job object is the
    one the call holds; the table shows the change when it still holds
    that object under the id.  [discoverBrand] and [storeInCache] catch
    their own exceptions, so the [catch] block is not entered. *)
Definition processNextJob_resume (cfg : Config) (now : Z) (st : ServerState)
  : Net ServerState :=
  match inFlight st with
  | None => ret st
  | Some job =>
      match status job with
      | running =>
          let res := value (discovery cfg job) in
          let finished := setJob job completed (Some res) (Some now) in
          let st1 :=
            {| jobs :=
                 match JSMap.get (job_id job) (jobs st) with
                 | Some held =>
                     if (serial held =? serial job)%nat
                     then JSMap.set (job_id job) finished (jobs st)
                     else jobs st
                 | None => jobs st
                 end;
               jobQueue := jobQueue st;
               isProcessing := isProcessing st;
               issued := issued st;
               inFlight := Some finished |} in
          (_ <- (skipn 1 (trace (discovery cfg job)), tt) ;;
           match supabase cfg with
           | Some _ =>
               if R.success res
               then call (CCacheStore (trim (toLowerCase (job_brand job)))) st1
               else processNextJob_end cfg st1
           | None => processNextJob_end cfg st1
           end)%net
      | _ => processNextJob_end cfg st
      end
  end.

(** A job is finished and was completed before [limit]. *)
Definition expired (limit : Z) (job : Job) : bool :=
  match status job with
  | completed | error =>
      match completed_at job with
      | Some t => negb (t =? 0)%Z && (t <? limit)%Z
      | None => false
      end
  | _ => false
  end.

(** [cleanupOldJobs], run by the timer at time [now]: finished jobs
    that were completed more than an hour ago leave the table. *)
Definition cleanupOldJobs (now : Z) (st : ServerState) : ServerState :=
  let oneHourAgo := (now - 60 * 60 * 1000)%Z in
  {| jobs := filter (fun e : string * Job => negb (expired oneHourAgo (snd e))) (jobs st);
     jobQueue := jobQueue st;
     isProcessing := isProcessing st;
     issued := issued st;
     inFlight := inFlight st |}.

Definition enqueue (cfg : Config) (st : ServerState) (brandName : string)
  : string * ServerState :=
  let jobId := generateJobId cfg (issued st) in
  (jobId,
   {| jobs := JSMap.set jobId
                {| job_id := jobId; job_brand := brandName; status := queued;
                   result := None; completed_at := None; serial := issued st |}
                (jobs st);
      jobQueue := jobQueue st ++ [jobId];
      isProcessing := isProcessing st;
      issued := S (issued st);
      inFlight := inFlight st |}).

Definition isActive (j : Job) : bool :=
  match status j with queued | running => true | _ => false end.

(** The handlers answer with [Some] response, or with [None] when
    they throw: [handleRequest] has no [try], so its promise rejects
    and it produces no response of its own. *)
Definition handleDiscover (cfg : Config) (st : ServerState) (b : DiscoverBody)
  : Net (option HttpResponse * ServerState) :=
  match brand b with
  | None => ret (Some (jsonResponse (Error "brand is required") 400), st)
  | Some brandName =>
      if brandName =? ""
      then ret (Some (jsonResponse (Error "brand is required") 400), st)
      else if META_ACCESS_TOKEN cfg =? ""
      then ret (Some (jsonResponse (Error "META_ACCESS_TOKEN not configured") 500), st)
      else
        (cached <-
           (match supabase cfg with
            | Some lookup =>
                if force_refresh b then ret None
                else call (CCacheLookup (trim (toLowerCase brandName)))
                       (lookup (trim (toLowerCase brandName)))
            | None => ret None
            end) ;;
         match cached with
         | Some data => ret (Some (jsonResponse (Cached data) 200), st)
         | None =>
             match find (fun j => (toLowerCase (job_brand j) =? toLowerCase brandName)
                                  && isActive j)
                     (JSMap.values (jobs st)) with
             | Some j => ret (Some (jsonResponse (Processing (job_id j)) 200), st)
             | None =>
                 let (jobId, st1) := enqueue cfg st brandName in
                 st2 <- processNextJob cfg st1 ;;
                 ret (Some (jsonResponse (Processing jobId) 202), st2)
             end
         end)%net
  end.

Definition handleBatch (cfg : Config) (st : ServerState)
  (brands : option (list BrandDiscoveryRequest))
  : Net (option HttpResponse * ServerState) :=
  match brands with
  | Some ((_ :: _) as l) =>
      let '(ids, st1) :=
        fold_left
          (fun acc brandReq =>
             let (jobId, s) := enqueue cfg (snd acc) (req_brand brandReq) in
             (fst acc ++ [jobId], s))
          l ([], st) in
      (st2 <- processNextJob cfg st1 ;;
       ret (Some (jsonResponse (Queued (List.length ids) ids) 202), st2))%net
  | _ => ret (Some (jsonResponse (Error "brands array is required") 400), st)
  end.

Definition handleStatus (st : ServerState) (jobId : string) : HttpResponse :=
  match JSMap.get jobId (jobs st) with
  | None => jsonResponse (Error "Job not found") 404
  | Some job =>
      match status job, result job with
      | completed, Some res => jsonResponse (Completed jobId res) 200
      | error, _ => jsonResponse (Failed jobId) 200
      | s, _ => jsonResponse (Pending jobId s) 200
      end
  end.

Definition handleRequest (cfg : Config) (st : ServerState) (req : Request)
  : Net (option HttpResponse * ServerState) :=
  if method req =? "OPTIONS" then ret (Some (jsonResponse Empty 200), st)
  else if path req =? "/api/health"
  then ret (Some (jsonResponse
                    (Health (List.length (jobs st)) (List.length (jobQueue st))
                       (isProcessing st))
                    200), st)
  else if negb (verifyAuth cfg req)
  then ret (Some (jsonResponse (Error "Unauthorized") 401), st)
  else if (path req =? "/api/discover") && (method req =? "POST") then
    match body req with
    | DiscoverJson b => handleDiscover cfg st b
    | BatchJson _ => handleDiscover cfg st {| brand := None; force_refresh := false |}
    | NoBody => ret (None, st)
    end
  else if startsWith "/api/status/" (path req) && (method req =? "GET") then
    ret (Some (handleStatus st
                 (Pipeline.beforeFirst "/api/status/"
                    (dropPrefix "/api/status/" (path req)))),
         st)
  else if (path req =? "/api/batch") && (method req =? "POST") then
    match body req with
    | BatchJson brands => handleBatch cfg st brands
    | DiscoverJson _ => handleBatch cfg st None
    | NoBody => ret (None, st)
    end
  else ret (Some (jsonResponse (Error "Not found") 404), st).

End Worker.

(* ================================================================== *)
(** * Concrete worlds and runs *)
(* ================================================================== *)

Module Examples.
Import JS.

(** A URL parser for [http(s)://host/path] strings. *)
Fixpoint fromSlash (s : string) : string :=
  match s with
  | EmptyString => "/"
  | String c r => if (code c =? 47)%nat then s else fromSlash r
  end.

Definition parse (u : string) : option URL :=
  let rest := UrlExtractor.dropScheme u in
  if (rest =? u) || (UrlExtractor.beforeSlash rest =? "") then None
  else Some {| hostname := UrlExtractor.beforeSlash rest; pathname := fromSlash rest |}.

Definition noPresell : PresellChainResult :=
  {| presell_cta_url := None; presell_final_url := None; presell_chain := [] |}.

(** A world in which every request fails. *)
Definition offline : World :=
  {| fetch := fun _ _ => None;
     head := fun _ => None;
     get_manual := fun _ => None;
     products_json := fun _ => None;
     presell := fun _ _ => noPresell;
     render := fun _ => None;
     parseURL := parse;
     resolveURL := fun location _ => Some location;
     hrefs := fun _ => [];
     http_hrefs := fun _ => [];
     metaRefresh := fun _ _ => None |}.

Definition found (location : string) : RawResponse :=
  {| raw_status := 302; raw_location := Some location;
     raw_content_type := None; raw_body := "" |}.

Definition urlA : string := "https://a.example/".
Definition urlB : string := "https://b.example/".

(** Two URLs that redirect to each other. *)
Definition cycle : World :=
  {| fetch := fun _ _ => None;
     head := fun u => if u =? urlA then Some (found urlB)
                      else if u =? urlB then Some (found urlA) else None;
     get_manual := fun _ => None;
     products_json := fun _ => None;
     presell := fun _ _ => noPresell;
     render := fun _ => None;
     parseURL := parse;
     resolveURL := fun location _ => Some location;
     hrefs := fun _ => [];
     http_hrefs := fun _ => [];
     metaRefresh := fun _ _ => None |}.

(** A third-party Shopify store that lists the vendor "Glow25 GmbH". *)
Definition reseller : World :=
  {| fetch := fun u _ =>
                if u =? "https://beauty-store.example"
                then Some {| resp_ok := true; resp_url := u;
                             resp_text := "<script src='//cdn.shopify.com/s/app.js'>" |}
                else None;
     head := fun _ => None;
     get_manual := fun _ => None;
     products_json := fun d =>
                        if d =? "beauty-store.example"
                        then Some [ {| vendor := Some "Glow25 GmbH" |} ] else None;
     presell := fun _ _ => noPresell;
     render := fun _ => None;
     parseURL := parse;
     resolveURL := fun location _ => Some location;
     hrefs := fun _ => [];
     http_hrefs := fun _ => [];
     metaRefresh := fun _ _ => None |}.

(** A world in which every page answers and mentions the brand's domain. *)
Definition echo : World :=
  {| fetch := fun u _ =>
                Some {| resp_ok := true; resp_url := u;
                        resp_text := "<a href='https://glow25.de/'>glow25.de</a>" |};
     head := fun _ => None;
     get_manual := fun _ => None;
     products_json := fun _ => None;
     presell := fun _ _ => noPresell;
     render := fun _ => None;
     parseURL := parse;
     resolveURL := fun location _ => Some location;
     hrefs := fun _ => [];
     http_hrefs := fun _ => [];
     metaRefresh := fun _ _ => None |}.

Definition glow25 : BrandInfo.t :=
  {| BrandInfo.brand_name := "Glow25";
     BrandInfo.brand_domain := Some "glow25.de";
     BrandInfo.brand_aliases := ["glow25"];
     BrandInfo.shopify_store := Some "glow25";
     BrandInfo.vendor_name := Some "Glow25";
     BrandInfo.platform := Some "shopify";
     BrandInfo.official_page_ids := ["100"] |}.



Definition noOptions : Cascade.DomainCheckOptions :=
  {| Cascade.timeout := None; Cascade.use_headless := false;
     Cascade.scrapingbee_key := None; Cascade.domainAds := None;
     Cascade.domainFullUrls := None |}.

Definition ad (adId pageId pageName caption text : string) : MetaAd :=
  {| id := adId; page_id := Some pageId; page_name := Some pageName;
     ad_creative_bodies := Some [text];
     ad_creative_link_titles := None;
     ad_creative_link_descriptions := None;
     ad_creative_link_captions := Some [caption];
     ad_snapshot_url := None |}.


Definition brandAdsGlow : list MetaAd :=
  [ad "b1" "100" "Glow25" "GLOW25.DE" "Kollagen Hyaluron";
   ad "b2" "100" "Glow25" "glow25.de" "Kollagen Hyaluron";
   ad "b3" "100" "Glow25" "glow25SHOP.de" "Kollagen Hyaluron"].

(** Six candidate domains, one ad each, from six pages. *)
Definition keywordAds : list MetaAd :=
  [ad "k1" "201" "Blog One" "one.example" "Kollagen";
   ad "k2" "202" "Blog Two" "two.example" "Kollagen";
   ad "k3" "203" "Blog Three" "three.example" "Kollagen";
   ad "k4" "204" "Blog Four" "four.example" "Kollagen";
   ad "k5" "205" "Blog Five" "five.example" "Kollagen";
   ad "k6" "206" "Blog Six" "six.example" "Kollagen"].

Definition gathered (ms : Z) : Pipeline.Gathered :=
  {| Pipeline.brandAds := brandAdsGlow;
     Pipeline.allAds := keywordAds;
     Pipeline.allKeywords := ["kollagen"];
     Pipeline.priorityDomains := [];
     Pipeline.enrichedUrls := [];
     Pipeline.gather_ms := ms |}.

Definition noShopify : Pipeline.ShopifyDetectionResult :=
  {| Pipeline.is_shopify := false; Pipeline.platform := "unknown";
     Pipeline.store_name := None; Pipeline.myshopify_domain := None;
     Pipeline.vendor_name := None; Pipeline.og_site_name := None |}.

(** The ad library answers with [ads] for every brand search; the
    evidence steps take [ms] milliseconds and a batch of checks ten
    seconds. *)
Definition env (w : World) (ads : list MetaAd) (ms : Z) : Pipeline.Env :=
  {| Pipeline.world := w;
     Pipeline.now0 := 1000000;
     Pipeline.brandSearch := fun _ => inr ads;
     Pipeline.brandSearch_ms := 2000;
     Pipeline.detectShopifyStore := fun _ => Some noShopify;
     Pipeline.gather := fun _ _ _ => inr (gathered ms);
     Pipeline.batch_ms := fun _ => 10000 |}.

(** The options of the edge function: a 50 s deadline, 15 domains. *)
Definition edgeOptions : Pipeline.DiscoveryOptions :=
  {| Pipeline.timeout_ms := Some 50000;
     Pipeline.max_domains_to_check := Some 15%nat;
     Pipeline.use_headless := false;
     Pipeline.use_headless_for_domains := Some false;
     Pipeline.scrapingbee_key := None |}.


(** A run in which the evidence steps leave 12 s of the 50 s deadline. *)
Definition slowRun : Net (Response.t * list DomainBrandCheck.t) :=
  Pipeline.discoverBrandWithChecks (env offline brandAdsGlow 36000) "Glow25" edgeOptions.

(** The candidate map of that run. *)
Definition slowRunCandidates : list string :=
  JSMap.keys
    (Aggregator.domainPageMap
       (Aggregator.extractUniqueDomains
          (Pipeline.combineAds brandAdsGlow keywordAds)
          (Pipeline.findBrandDomain (env offline brandAdsGlow 36000) "Glow25" brandAdsGlow))).

Definition config (e : Pipeline.Env) : Worker.Config :=
  {| Worker.API_SECRET := "";
     Worker.META_ACCESS_TOKEN := "token";
     Worker.SCRAPINGBEE_KEY := "";
     Worker.supabase := Some (fun _ => None);
     Worker.generateJobId := fun n => ("job_" ++ String (ascii_of_nat (48 + n)) "")%string;
     Worker.pipeline := e |}.

Definition idle : Worker.ServerState :=
  {| Worker.jobs := []; Worker.jobQueue := []; Worker.isProcessing := false;
     Worker.issued := 0; Worker.inFlight := None |}.

Definition post (p : string) (b : Worker.Body) : Worker.Request :=
  {| Worker.method := "POST"; Worker.path := p;
     Worker.authorization := None; Worker.body := b |}.

(** A batch request whose only entry has an empty brand name. *)
Definition emptyBatch : Worker.Request :=
  post "/api/batch" (Worker.BatchJson (Some [ {| Worker.req_brand := "" |} ])).

End Examples.


(* ================================================================== *)
(** * What a result of the cascade looks like *)
(* ================================================================== *)

Module CascadeShape.
Module C := DomainBrandCheck.

(** The confidences that the steps of [checkDomainForBrand] assign,
    by kind; the two vendor kinds take theirs from the vendor check. *)
Definition kindConfidence (mt : MatchType) (c : Z) : Prop :=
  match mt with
  | direct => c = 100
  | redirect => c = 90 \/ c = 85
  | shopify_vendor | checkout_match => c = 95 \/ c = 80 \/ c = 85
  | presell_cta => c = 85
  | content_link => c = 75 \/ c = 80
  | content_match => c = 60 \/ c = 65 \/ c = 70
  | none => False
  end.

(** A result on which no step has matched yet. *)
Definition pending (domain : string) (r : C.t) : Prop :=
  C.domain r = domain /\ C.is_match r = false /\ C.match_type r = none /\
  C.confidence r = 0 /\ C.shop_domain r = None /\ C.vendor_name r = None /\
  C.page_ids r = [] /\ C.ad_count r = 0%nat.

(** A result on which a step has matched. *)
Definition settled (domain : string) (m : C.t) : Prop :=
  C.domain m = domain /\ C.is_match m = true /\
  kindConfidence (C.match_type m) (C.confidence m) /\
  C.page_ids m = [] /\ C.ad_count m = 0%nat.

End CascadeShape.

(* ================================================================== *)
(** * Reading the statistics of a run *)
(* ================================================================== *)

Module Stats.
Module C := DomainBrandCheck.

(** [detectionMethods[mt] || 0]. *)
Fixpoint methodCount (mt : MatchType) (m : list (MatchType * nat)) : nat :=
  match m with
  | [] => 0%nat
  | (k, n) :: r => if MatchType_eqb k mt then n else methodCount mt r
  end.

(** The checks that matched with kind [mt]. *)
Definition matchesOfKind (mt : MatchType) (checks : list C.t) : list C.t :=
  filter (fun c => C.is_match c && MatchType_eqb (C.match_type c) mt) checks.

(** The checks that matched with at least the minimum confidence. *)
Definition reportedMatches (checks : list C.t) : list C.t :=
  filter (fun c => C.is_match c && negb (C.confidence c <? Pipeline.MIN_CONFIDENCE)%Z) checks.


End Stats.

(* ================================================================== *)
(** * What a walk along redirects returns *)
(* ================================================================== *)

Module TrackerShape.

(** A result of a redirect walk that started from [acc] with [fuel]
    hops left: the chain continues [acc] by at most [fuel] URLs, the
    walk ended at its last URL, and every request went to a URL of the
    chain, at most [perHop] of them per hop. *)
Definition walked (perHop fuel : nat) (acc : list string) (res : Net (list string * string))
  : Prop :=
  exists rest,
    fst (value res) = acc ++ rest /\
    (List.length rest <= fuel)%nat /\
    last (acc ++ rest) "" = snd (value res) /\
    (List.length (trace res) <= perHop * fuel)%nat /\
    Forall (fun c => exists u, In u (acc ++ rest) /\ (c = CHead u \/ c = CGet u))
      (trace res).

End TrackerShape.

(* ================================================================== *)
(** * Counting into a map *)
(* ================================================================== *)

Module Tally.

(** [m.set(k, (m.get(k) || 0) + 1)]. *)
Definition bumpCount (m : JSMap.t nat) (k : string) : JSMap.t nat :=
  JSMap.set k (match JSMap.get k m with Some n => S n | None => 1%nat end) m.

(** The count a map holds for a key, 0 for an absent one. *)
Definition countOf (k : string) (m : JSMap.t nat) : nat :=
  match JSMap.get k m with Some n => n | None => 0%nat end.

(** The domains that the captions of a list of ads name, in order. *)
Definition captionDomains (ads : list MetaAd) : list string :=
  flat_map (fun caption =>
              match UrlExtractor.extractDomainFromCaption (Some caption) with
              | Some d => [d]
              | None => []
              end)
    (flat_map (fun ad => orEmpty (ad_creative_link_captions ad)) ads).

End Tally.

(* ================================================================== *)
(** * Domain lists of lib/url-extractor.ts *)
(* ================================================================== *)

Module UrlLists.
Import JS.

(** [extractDomain]: a URL without [://] is read as an [https] one; a
    URL that does not parse is read as a caption. *)
Definition extractDomain (w : World) (url : option string) : option string :=
  match url with
  | None => None
  | Some u =>
      if u =? "" then None
      else
        let urlToTest := if includes "://" u then u else ("https://" ++ u)%string in
        match parseURL w urlToTest with
        | Some parsedUrl => Some (dropPrefix "www." (toLowerCase (hostname parsedUrl)))
        | None => UrlExtractor.extractDomainFromCaption (Some u)
        end
  end.

Definition EXCLUDED_DOMAINS : list string :=
  [ "facebook.com"; "fb.com"; "fb.me"; "fbcdn.net"; "instagram.com"; "meta.com";
    "facebook.net"; "l.facebook.com"; "l.instagram.com"; "bit.ly"; "tinyurl.com";
    "linktr.ee" ].

Definition isExcludedDomain (domain : string) : bool :=
  let domainLower := toLowerCase domain in
  existsb (fun excluded =>
             (domainLower =? excluded) ||
             Aggregator.endsWith ("." ++ excluded)%string domainLower)
    EXCLUDED_DOMAINS.

(** [extractDomainsFromCaptions]: the set of caption domains that are
    not excluded, as an array. *)
Definition extractDomainsFromCaptions (captions : list string) : list string :=
  fold_left
    (fun domains caption =>
       match UrlExtractor.extractDomainFromCaption (Some caption) with
       | Some domain =>
           if negb (isExcludedDomain domain) then Pipeline.addToSet domain domains
           else domains
       | None => domains
       end)
    captions [].

Record Classified := {
  presell : option string;
  final_shop : option string }.

(** [chain.map(extractDomain).filter(Boolean)]. *)
Definition chainDomains (w : World) (urls : list string) : list string :=
  flat_map (fun url =>
              match extractDomain w (Some url) with
              | Some d => if d =? "" then [] else [d]
              | None => []
              end)
    urls.

(** [classifyDomains]: the last domain with the brand name in it is the
    shop, the first one without it the presell page; without a brand
    domain the last domain is the shop. *)
Definition classifyDomains (w : World) (redirectChain : RedirectChain) (brandName : string)
  : Classified :=
  let brandLower := toLowerCase brandName in
  let uniqueDomains := dedup (chainDomains w (chain redirectChain)) in
  let looped :=
    fold_left
      (fun acc domain =>
         if includes brandLower domain
         then {| presell := presell acc; final_shop := Some domain |}
         else if negb (truthy (presell acc)) && (1 <? List.length uniqueDomains)%nat
              then {| presell := Some domain; final_shop := final_shop acc |}
              else acc)
      uniqueDomains {| presell := None; final_shop := None |} in
  if negb (truthy (final_shop looped)) && (0 <? List.length uniqueDomains)%nat
  then {| presell := presell looped; final_shop := Some (last uniqueDomains "") |}
  else looped.

(** [chunkArray]: slices of [size] elements.  With [size = 0] the index
    of the loop never advances: on an array with an element the
    function does not return, which is [None] here. *)
Definition chunkArray {T} (array : list T) (size : nat) : option (list (list T)) :=
  match size, array with
  | O, _ :: _ => None
  | _, _ => Some (Pipeline.batches size array)
  end.

End UrlLists.

Module ClassifyShape.
Import JS UrlLists.

(** What holds of the variables of the loop of [classifyDomains] once
    the domains [pre] are done. *)
Definition seen (brandLower : string) (uniqueDomains pre : list string) (acc : Classified)
  : Prop :=
  (forall p, presell acc = Some p ->
             In p pre /\ p <> "" /\ includes brandLower p = false /\
             (1 < List.length uniqueDomains)%nat) /\
  (forall f, final_shop acc = Some f -> In f pre /\ includes brandLower f = true) /\
  (final_shop acc = None -> forall d, In d pre -> includes brandLower d = false) /\
  (final_shop acc = None -> (1 < List.length uniqueDomains)%nat -> pre <> [] ->
   presell acc = Some (hd "" pre)).

End ClassifyShape.

(* ================================================================== *)
(** * Domain lists of lib/redirect-tracker.ts *)
(* ================================================================== *)

Module RedirectLists.
Import JS.

(** [extractDomainFromUrl]: the host name without a leading [www.]. *)
Definition extractDomainFromUrl (w : World) (url : string) : option string :=
  match parseURL w url with
  | Some parsedUrl => Some (dropPrefix "www." (hostname parsedUrl))
  | None => None
  end.

(** [batchTrackRedirects]: the distinct URLs are tracked in batches of
    [concurrency]; the calls of a batch are listed URL by URL.  With
    [concurrency = 0] the loop does not end on a non-empty list. *)
Definition batchTrackRedirects (w : World) (urls : list string) (concurrency : nat)
  : option (Net (list RedirectChain)) :=
  let uniqueUrls := dedup urls in
  match concurrency, uniqueUrls with
  | O, _ :: _ => None
  | _, _ =>
      Some (fold_left
              (fun results batch =>
                 (sofar <- results ;;
                  batchResults <-
                    fold_left
                      (fun acc url =>
                         (rs <- acc ;;
                          r <- RedirectTracker.trackRedirectChain w url ;;
                          ret (rs ++ [r]))%net)
                      batch (ret []) ;;
                  ret (sofar ++ batchResults))%net)
              (Pipeline.batches concurrency uniqueUrls) (ret []))
  end.

Definition presellPatterns : list string :=
  [ "getestet"; "erfahrung"; "test-"; "review"; "mission-"; "gesundheit"; "health";
    "blog"; "news"; "artikel"; "story" ].

Definition shopPatterns : list string :=
  [ "shop"; "store"; "buy"; "kaufen"; "order"; "checkout"; "cart"; "product" ].

(** [patterns.some(p => p.test(domain) || p.test(url))] for literal,
    case-insensitive patterns. *)
Definition somePattern (patterns : list string) (domain url : string) : bool :=
  existsb (fun p => includes p (toLowerCase domain) || includes p (toLowerCase url))
    patterns.

Record Categories := {
  presell : list string;
  redirect : list string;
  final_shop : list string }.

(** One URL of a chain of [len] URLs, at index [i]. *)
Definition categorizeUrl (w : World) (len : nat) (acc : Categories) (iu : nat * string)
  : Categories :=
  let (i, url) := iu in
  match extractDomainFromUrl w url with
  | None => acc
  | Some domain =>
      if domain =? "" then acc
      else
        let isLast := (i =? len - 1)%nat in
        let isMiddle := ((0 <? i) && (i <? len - 1))%nat in
        if isLast then
          if somePattern shopPatterns domain url
          then {| presell := presell acc; redirect := redirect acc;
                  final_shop := Pipeline.addToSet domain (final_shop acc) |}
          else {| presell := presell acc; redirect := redirect acc;
                  final_shop := Pipeline.addToSet domain (final_shop acc) |}
        else if isMiddle then
          {| presell := presell acc;
             redirect := Pipeline.addToSet domain (redirect acc);
             final_shop := final_shop acc |}
        else if somePattern presellPatterns domain url then
          {| presell := Pipeline.addToSet domain (presell acc);
             redirect := redirect acc; final_shop := final_shop acc |}
        else acc
  end.

Definition categorizeDomains (w : World) (redirectChains : list RedirectChain)
  : Categories :=
  fold_left
    (fun acc c =>
       fold_left (categorizeUrl w (List.length (chain c)))
         (combine (seq 0 (List.length (chain c))) (chain c)) acc)
    redirectChains {| presell := []; redirect := []; final_shop := [] |}.

(** [aggregateDomains]: how many of the URLs lie on each domain. *)
Definition aggregateDomains (w : World) (landingPageUrls : list (option string))
  : JSMap.t nat :=
  fold_left
    (fun domainCounts url =>
       match url with
       | None => domainCounts
       | Some u =>
           if u =? "" then domainCounts
           else match extractDomainFromUrl w u with
                | Some domain =>
                    if domain =? "" then domainCounts
                    else Tally.bumpCount domainCounts domain
                | None => domainCounts
                end
       end)
    landingPageUrls [].

(** The URL has a host name, and [domain] is what is kept of it. *)
Definition namedBy (w : World) (url domain : string) : Prop :=
  extractDomainFromUrl w url = Some domain /\ domain <> "".

(** The domains that a list of landing pages names, in order. *)
Definition landingDomains (w : World) (landingPageUrls : list (option string))
  : list string :=
  flat_map (fun url =>
              match url with
              | None => []
              | Some u =>
                  if u =? "" then []
                  else match extractDomainFromUrl w u with
                       | Some domain => if domain =? "" then [] else [domain]
                       | None => []
                       end
              end)
    landingPageUrls.

End RedirectLists.

(* ================================================================== *)
(** * Facts about maps, sorting and lists *)
(* ================================================================== *)

Module MapFacts.
Section WithValue.
Context {V : Type}.
Implicit Types (m : JSMap.t V) (k : string) (v : V).

Lemma get_set_same : forall m k v, JSMap.get k (JSMap.set k v m) = Some v.
Proof.
  induction m as [|[k' v'] m IH]; intros k v; cbn.
  - now rewrite String.eqb_refl.
  - destruct (k' =? k) eqn:E; cbn; rewrite E; [reflexivity | apply IH].
Qed.

Lemma get_set_other :
  forall m k k' v, k <> k' -> JSMap.get k' (JSMap.set k v m) = JSMap.get k' m.
Proof.
  induction m as [|[k0 v0] m IH]; intros k k' v Hne; cbn.
  - destruct (String.eqb_spec k k'); [contradiction | reflexivity].
  - destruct (String.eqb_spec k0 k) as [->|Hk]; cbn.
    + destruct (String.eqb_spec k k'); [contradiction | reflexivity].
    + destruct (k0 =? k'); [reflexivity | now apply IH].
Qed.

Lemma keys_set_present :
  forall m k v v0, JSMap.get k m = Some v0 -> JSMap.keys (JSMap.set k v m) = JSMap.keys m.
Proof.
  induction m as [|[k' v'] m IH]; intros k v v0 H; cbn in *; [discriminate|].
  destruct (String.eqb_spec k' k) as [->|Hk]; cbn; [reflexivity|].
  f_equal. unfold JSMap.keys in IH. eapply IH; eassumption.
Qed.

Lemma keys_set_absent :
  forall m k v, JSMap.get k m = None -> JSMap.keys (JSMap.set k v m) = JSMap.keys m ++ [k].
Proof.
  induction m as [|[k' v'] m IH]; intros k v H; cbn in *; [reflexivity|].
  destruct (String.eqb_spec k' k) as [->|Hk]; [discriminate|]. cbn.
  f_equal. unfold JSMap.keys in IH. now apply IH.
Qed.

Lemma get_None_not_key : forall m k, JSMap.get k m = None -> ~ In k (JSMap.keys m).
Proof.
  induction m as [|[k' v'] m IH]; intros k H; cbn in *; [tauto|].
  destruct (String.eqb_spec k' k) as [->|Hk]; [discriminate|].
  intros [E|Hin]; [congruence | now apply (IH k)].
Qed.

Lemma get_Some_key : forall m k v, JSMap.get k m = Some v -> In k (JSMap.keys m).
Proof.
  induction m as [|[k' v'] m IH]; intros k v H; cbn in *; [discriminate|].
  destruct (String.eqb_spec k' k) as [->|Hk]; [now left | right; eauto].
Qed.

Lemma key_get : forall m k, In k (JSMap.keys m) -> exists v, JSMap.get k m = Some v.
Proof.
  intros m k H. destruct (JSMap.get k m) as [v|] eqn:E; [now exists v|].
  now apply get_None_not_key in E.
Qed.

Lemma keys_set_In :
  forall m k v x, In x (JSMap.keys (JSMap.set k v m)) <-> In x (JSMap.keys m) \/ x = k.
Proof.
  intros m k v x. destruct (JSMap.get k m) as [v0|] eqn:E.
  - rewrite (keys_set_present m k v v0 E). split; [tauto|].
    intros [H| ->]; [exact H | eapply get_Some_key; eassumption].
  - rewrite (keys_set_absent m k v E), in_app_iff. cbn. intuition congruence.
Qed.

Lemma NoDup_keys_set :
  forall m k v, NoDup (JSMap.keys m) -> NoDup (JSMap.keys (JSMap.set k v m)).
Proof.
  intros m k v H. destruct (JSMap.get k m) as [v0|] eqn:E.
  - now rewrite (keys_set_present m k v v0 E).
  - rewrite (keys_set_absent m k v E).
    apply NoDup_app; [exact H | repeat constructor; cbn; tauto |].
    intros x Hx [Ek|[]]. subst x. now apply (get_None_not_key m k E).
Qed.

Lemma In_get : forall m k v, In (k, v) m -> NoDup (JSMap.keys m) -> JSMap.get k m = Some v.
Proof.
  induction m as [|[k' v'] m IH]; intros k v Hin Hnd; cbn in *; [tauto|].
  inversion Hnd as [|? ? Hnot Hnd']; subst.
  destruct Hin as [E|Hin].
  - injection E as -> ->. now rewrite String.eqb_refl.
  - destruct (String.eqb_spec k' k) as [->|Hk]; [|now apply IH].
    exfalso. apply Hnot. change (In (fst (k, v)) (map fst m)). now apply in_map.
Qed.

Lemma get_In : forall m k v, JSMap.get k m = Some v -> In (k, v) m.
Proof.
  induction m as [|[k' v'] m IH]; intros k v H; cbn in *; [discriminate|].
  destruct (String.eqb_spec k' k) as [->|Hk]; [injection H as ->; now left | right; eauto].
Qed.

End WithValue.
End MapFacts.

Module ListFacts.

Lemma mem_In : forall x l, mem x l = true <-> In x l.
Proof.
  intros x l. unfold mem. rewrite existsb_exists. split.
  - intros (y & Hy & E). apply String.eqb_eq in E. now subst.
  - intros H. exists x. split; [exact H | apply String.eqb_refl].
Qed.

Lemma mem_false : forall x l, mem x l = false <-> ~ In x l.
Proof.
  intros x l. rewrite <- mem_In. destruct (mem x l); split; intros; congruence.
Qed.

Section Sorting.
Context {A : Type} (before : A -> A -> bool).

Lemma insert_sorted_perm :
  forall x l, Permutation.Permutation (insert_sorted before x l) (x :: l).
Proof.
  induction l as [|y l IH]; cbn; [reflexivity|].
  destruct (before x y); [reflexivity|].
  rewrite IH. apply Permutation.perm_swap.
Qed.

Lemma sortBy_perm : forall l, Permutation.Permutation (sortBy before l) l.
Proof.
  induction l as [|x l IH]; cbn; [reflexivity|].
  rewrite insert_sorted_perm. now constructor.
Qed.

Lemma sortBy_In : forall l x, In x (sortBy before l) <-> In x l.
Proof.
  intros l x. split; apply Permutation.Permutation_in;
    [apply sortBy_perm | symmetry; apply sortBy_perm].
Qed.

End Sorting.

Lemma firstn_In : forall {A} n (l : list A) x, In x (firstn n l) -> In x l.
Proof.
  intros A n l x H. rewrite <- (firstn_skipn n l). apply in_or_app. now left.
Qed.

Lemma skipn_In : forall {A} n (l : list A) x, In x (skipn n l) -> In x l.
Proof.
  intros A n l x H. rewrite <- (firstn_skipn n l). apply in_or_app. now right.
Qed.

Lemma fold_left_snoc :
  forall {A B} (f : A -> B -> A) l x a,
    fold_left f (l ++ [x]) a = f (fold_left f l a) x.
Proof.
  intros. now rewrite fold_left_app.
Qed.

End ListFacts.

(* ================================================================== *)
(** * Facts about the string layer *)
(* ================================================================== *)

Module JSFacts.
Import JS.

Lemma lower_char_idem : forall c, lower_char (lower_char c) = lower_char c.
Proof.
  intros [[] [] [] [] [] [] [] []]; vm_compute; reflexivity.
Qed.

Lemma toLowerCase_idem : forall s, toLowerCase (toLowerCase s) = toLowerCase s.
Proof.
  induction s as [|c s IH]; simpl; [reflexivity|].
  unfold toLowerCase in *; simpl. now rewrite lower_char_idem, IH.
Qed.

Lemma smap_length : forall f s, String.length (smap f s) = String.length s.
Proof.
  induction s; simpl; congruence.
Qed.

Lemma eqb_neq_false : forall a b : string, a <> b -> (a =? b) = false.
Proof.
  intros a b H. now apply String.eqb_neq.
Qed.

End JSFacts.

(* ================================================================== *)
(** * The verification cascade *)
(* ================================================================== *)

Module CascadeFacts.
Import JS Cascade.
Module C := DomainBrandCheck.
Module B := BrandInfo.

(** C4. A candidate domain equal to the brand's resolved domain up to
    case is settled by the Direct step: the result has kind [direct] and
    confidence 1.0, and no outbound call is made, so no later step of the
    cascade is evaluated, whatever it would have found. *)
Theorem direct_short_circuit :
  forall (w : World) (domain : string) (brandInfo : B.t)
         (opts : DomainCheckOptions) (bd : string),
    B.brand_domain brandInfo = Some bd ->
    bd <> "" ->
    toLowerCase domain = toLowerCase bd ->
    trace (checkDomainForBrand w domain brandInfo opts) = [] /\
    value (checkDomainForBrand w domain brandInfo opts)
      = C.matched (initial domain) direct 100 (Some domain) /\
    C.match_type (value (checkDomainForBrand w domain brandInfo opts)) = direct /\
    C.confidence (value (checkDomainForBrand w domain brandInfo opts)) = 100 /\
    C.is_match (value (checkDomainForBrand w domain brandInfo opts)) = true.
Proof.
  intros w domain brandInfo opts bd Hbd Hne Heq.
  unfold checkDomainForBrand.
  rewrite Hbd, (JSFacts.eqb_neq_false _ _ Hne), Heq, String.eqb_refl.
  repeat split.
Qed.

(** The Direct step wins in a world where the content check on the
    fetched page would match as well. *)
Lemma direct_short_circuit_witness :
  trace (checkDomainForBrand Examples.echo "GLOW25.de" Examples.glow25 Examples.noOptions) = [] /\
  C.match_type
    (value (checkDomainForBrand Examples.echo "GLOW25.de" Examples.glow25 Examples.noOptions))
    = direct /\
  C.match_type
    (value (checkDomainForBrand Examples.echo "blog.example" Examples.glow25 Examples.noOptions))
    = content_link.
Proof.
  split; [|split].
  - apply (direct_short_circuit Examples.echo "GLOW25.de" Examples.glow25
             Examples.noOptions "glow25.de"); [reflexivity | discriminate | reflexivity].
  - apply (direct_short_circuit Examples.echo "GLOW25.de" Examples.glow25
             Examples.noOptions "glow25.de"); [reflexivity | discriminate | reflexivity].
  - vm_compute. reflexivity.
Defined.

End CascadeFacts.

(* ================================================================== *)
(** * Facts about containment *)
(* ================================================================== *)

Module StringFacts.
Import JS.

Lemma prefix_spec : forall a s, prefix a s = true <-> exists q, s = (a ++ q)%string.
Proof.
  induction a as [|c a IH]; intros s.
  - destruct s; cbn; split; intros; eauto.
  - destruct s as [|d s]; cbn [prefix append].
    + split; [discriminate | intros (q & E); discriminate].
    + destruct (ascii_dec c d) as [->|Hne].
      * rewrite IH. split; intros (q & E); exists q; [now subst | now injection E].
      * split; [discriminate | intros (q & E); injection E; intros; congruence].
Qed.

Lemma includes_spec :
  forall a s, includes a s = true <-> exists p q, s = (p ++ a ++ q)%string.
Proof.
  intros a s. induction s as [|d s IH]; cbn [includes].
  - rewrite orb_false_r, prefix_spec. split.
    + intros (q & E). now exists "", q.
    + intros (p & q & E). destruct p; [now exists q | discriminate].
  - rewrite orb_true_iff, prefix_spec, IH. split.
    + intros [(q & E)|(p & q & E)]; [now exists "", q | exists (String d p), q; now subst].
    + intros (p & q & E). destruct p as [|c p]; [left; now exists q|].
      right. exists p, q. now injection E.
Qed.

Lemma append_assoc : forall a b c : string, ((a ++ b) ++ c)%string = (a ++ b ++ c)%string.
Proof.
  induction a; intros; cbn; [reflexivity | now rewrite IHa].
Qed.

Lemma includes_trans :
  forall x a s, includes x a = true -> includes a s = true -> includes x s = true.
Proof.
  intros x a s Hx Ha.
  apply includes_spec in Hx as (p1 & q1 & ->).
  apply includes_spec in Ha as (p2 & q2 & ->).
  apply includes_spec. exists (p2 ++ p1)%string, (q1 ++ q2)%string.
  now rewrite !append_assoc.
Qed.

Lemma includes_refl : forall s, includes s s = true.
Proof.
  intros s. apply includes_spec. exists "", "". cbn.
  induction s; cbn; [reflexivity | now f_equal].
Qed.

(** Containment of a single unit. *)
Lemma includes_char :
  forall c s,
    includes (String c "") s = negb (sforall (fun d => negb (Ascii.eqb c d)) s).
Proof.
  intros c s. induction s as [|d s IH]; [reflexivity|].
  cbn [includes sforall prefix]. rewrite IH.
  destruct (ascii_dec c d) as [->|Hne].
  - rewrite Ascii.eqb_refl. destruct s; reflexivity.
  - apply Ascii.eqb_neq in Hne. rewrite Hne. reflexivity.
Qed.

Lemma lower_char_space : forall c, Ascii.eqb " " (lower_char c) = Ascii.eqb " " c.
Proof.
  intros [[] [] [] [] [] [] [] []]; vm_compute; reflexivity.
Qed.

Lemma toLowerCase_space : forall s, includes " " (toLowerCase s) = includes " " s.
Proof.
  intros s. rewrite !includes_char. f_equal.
  induction s as [|c s IH]; [reflexivity|].
  unfold toLowerCase in *. cbn [smap sforall]. now rewrite lower_char_space, IH.
Qed.

Lemma sfilter_all : forall p s, sforall p s = true -> sfilter p s = s.
Proof.
  induction s as [|c s IH]; cbn; [reflexivity|].
  intros H. apply andb_true_iff in H as [Hc Hs]. rewrite Hc. now rewrite IH.
Qed.

(** An alias whose white space is nothing but U+0020. *)
Lemma plain_alias_cases :
  forall a,
    sforall (fun c => negb (is_space c) || Ascii.eqb " " c) a = true ->
    includes " " a = true \/ stripSpaces a = a.
Proof.
  intros a H. rewrite includes_char.
  destruct (sforall (fun d => negb (Ascii.eqb " " d)) a) eqn:E; [right | now left].
  apply sfilter_all.
  induction a as [|c a IH]; [reflexivity|].
  cbn [sforall] in *. apply andb_true_iff in H as [Hc Ha]. apply andb_true_iff in E as [Ec Ea].
  rewrite IH by assumption. rewrite andb_true_r.
  destruct (is_space c); [|reflexivity].
  cbn [negb orb] in Hc. rewrite Hc in Ec. discriminate.
Qed.

End StringFacts.

(* ================================================================== *)
(** * Vendor matching *)
(* ================================================================== *)

Module VendorFacts.
Import JS Cascade.
Module C := DomainBrandCheck.
Module B := BrandInfo.

Lemma vendorLoop_skip :
  forall brandLower pre rest,
    (forall v, In v pre -> Shopify.vendorTier brandLower v = None) ->
    Shopify.vendorLoop brandLower (pre ++ rest) = Shopify.vendorLoop brandLower rest.
Proof.
  induction pre as [|v pre IH]; intros rest H; simpl; [reflexivity|].
  rewrite (H v (or_introl eq_refl)). apply IH. intros x Hx. apply H. now right.
Qed.

Lemma vendorLoop_hit :
  forall brandLower v rest c,
    Shopify.vendorTier brandLower v = Some c ->
    Shopify.vendorLoop brandLower (v :: rest)
    = {| Shopify.found := true; Shopify.matched_vendor := Some v; Shopify.confidence := c |}.
Proof.
  intros brandLower v rest c H. cbn [Shopify.vendorLoop]. now rewrite H.
Qed.

(** The tier that "Glow25 GmbH" reaches against the brand name "Glow25". *)
Lemma glow25_gmbh_tier : Shopify.vendorTier (trim (toLowerCase "Glow25")) "Glow25 GmbH" = Some 80.
Proof. vm_compute. reflexivity. Qed.

(** A vendor earlier in the list that matches decides, whatever
    follows it. *)
Lemma earlier_vendor_decides :
  Shopify.vendorLoop (trim (toLowerCase "Glow25")) ["Glow25"; "Glow25 GmbH"]
    = {| Shopify.found := true; Shopify.matched_vendor := Some "Glow25";
         Shopify.confidence := 95 |} /\
  Shopify.vendorLoop (trim (toLowerCase "Glow25")) ["Glow 25"; "Glow25 GmbH"]
    = {| Shopify.found := true; Shopify.matched_vendor := Some "Glow 25";
         Shopify.confidence := 85 |}.
Proof. vm_compute. split; reflexivity. Qed.

(** C2, as stated, fails: with the vendor list ["Glow25 GmbH"] and the
    brand name "Glow25" the vendor check matches at confidence 0.80, the
    containment tier, not at 0.85. *)
Lemma glow25_gmbh_is_not_normalized_tier :
  Shopify.confidence
    (value (Shopify.shopifyStoreHasVendor Examples.reseller "beauty-store.example" "Glow25"))
    = 80 /\
  (Shopify.confidence
     (value (Shopify.shopifyStoreHasVendor Examples.reseller "beauty-store.example" "Glow25"))
     =? 85)%Z = false /\
  (stripSeparators (trim (toLowerCase "Glow25 GmbH"))
     =? stripSeparators (trim (toLowerCase "Glow25"))) = false.
Proof. vm_compute. repeat split. Qed.

(** C2, amended. When a storefront's vendor list contains "Glow25 GmbH"
    and no vendor before it matches in any tier, the vendor check for
    the name "Glow25" returns that vendor at confidence 0.80
    (containment).  The cascade asks the vendor check about the brand's
    vendor name: when that is "Glow25", the brand domain is resolved
    and is not the candidate, and the candidate's page was fetched, did
    not redirect to the brand and is a Shopify page, the cascade
    returns kind [shopify_vendor] with that confidence. *)
Theorem glow25_gmbh_vendor_match :
  forall (w : World) (domain : string) (brandInfo : B.t) (opts : DomainCheckOptions)
         (bd : string) (f : FetchWithRedirectsResult)
         (p : Shopify.ProductsJsonResult) (pre post : list string),
    value (Shopify.fetchProductsJson w domain) = Some p ->
    Shopify.vendors p = pre ++ "Glow25 GmbH" :: post ->
    (forall v, In v pre -> Shopify.vendorTier (trim (toLowerCase "Glow25")) v = None) ->
    B.brand_domain brandInfo = Some bd ->
    bd <> "" ->
    toLowerCase domain <> toLowerCase bd ->
    B.vendor_name brandInfo = Some "Glow25" ->
    value (fetchWithRedirects w domain (effectiveTimeout opts)) = Some f ->
    matchingDomain (extractDomainFromUrl w (fr_final_url f)) brandInfo = None ->
    includes "cdn.shopify.com" (toLowerCase (fr_html f)) = true ->
    value (Shopify.shopifyStoreHasVendor w domain "Glow25")
      = {| Shopify.found := true;
           Shopify.matched_vendor := Some "Glow25 GmbH";
           Shopify.confidence := 80 |} /\
    C.is_match (value (checkDomainForBrand w domain brandInfo opts)) = true /\
    C.match_type (value (checkDomainForBrand w domain brandInfo opts)) = shopify_vendor /\
    C.confidence (value (checkDomainForBrand w domain brandInfo opts)) = 80 /\
    C.vendor_name (value (checkDomainForBrand w domain brandInfo opts)) = Some "Glow25 GmbH".
Proof.
  intros w domain brandInfo opts bd f p pre post Hp Hv Hpre Hbd Hne Hnd Hvn Hf Hm Hs.
  assert (Hcheck :
            value (Shopify.shopifyStoreHasVendor w domain "Glow25")
            = {| Shopify.found := true;
                 Shopify.matched_vendor := Some "Glow25 GmbH";
                 Shopify.confidence := 80 |}).
  { unfold Shopify.shopifyStoreHasVendor, bind.
    destruct (Shopify.fetchProductsJson w domain) as [t o] eqn:E.
    unfold value in Hp; simpl in Hp; subst o. simpl.
    unfold value, ret; cbn [snd]. rewrite Hv, vendorLoop_skip by exact Hpre.
    apply vendorLoop_hit, glow25_gmbh_tier. }
  split; [exact Hcheck|].
  assert (Hhtml : (fr_html f =? "") = false).
  { destruct (fr_html f); [discriminate Hs | reflexivity]. }
  unfold checkDomainForBrand.
  rewrite Hbd, (JSFacts.eqb_neq_false _ _ Hne), (JSFacts.eqb_neq_false _ _ Hnd).
  unfold step6bcd, bind.
  destruct (fetchWithRedirects w domain (effectiveTimeout opts)) as [t1 o1] eqn:E1.
  unfold value in Hf; simpl in Hf; subst o1.
  rewrite Hm.
  unfold step6c. rewrite Hhtml, Hs, Hvn. simpl negb. simpl andb.
  unfold bind.
  destruct (Shopify.shopifyStoreHasVendor w domain "Glow25") as [t2 vc] eqn:E2.
  unfold value in Hcheck; simpl in Hcheck; subst vc. simpl.
  repeat split.
Qed.

Lemma glow25_gmbh_vendor_match_witness :
  value (Shopify.shopifyStoreHasVendor Examples.reseller "beauty-store.example" "Glow25")
    = {| Shopify.found := true;
         Shopify.matched_vendor := Some "Glow25 GmbH";
         Shopify.confidence := 80 |} /\
  C.is_match (value (checkDomainForBrand Examples.reseller "beauty-store.example"
                       Examples.glow25 Examples.noOptions)) = true /\
  C.match_type (value (checkDomainForBrand Examples.reseller "beauty-store.example"
                         Examples.glow25 Examples.noOptions)) = shopify_vendor /\
  C.confidence (value (checkDomainForBrand Examples.reseller "beauty-store.example"
                         Examples.glow25 Examples.noOptions)) = 80 /\
  C.vendor_name (value (checkDomainForBrand Examples.reseller "beauty-store.example"
                          Examples.glow25 Examples.noOptions)) = Some "Glow25 GmbH".
Proof.
  apply (glow25_gmbh_vendor_match Examples.reseller "beauty-store.example"
           Examples.glow25 Examples.noOptions "glow25.de"
           {| fr_final_url := "https://beauty-store.example";
              fr_chain := ["https://beauty-store.example"];
              fr_html := "<script src='//cdn.shopify.com/s/app.js'>" |}
           {| Shopify.vendors := ["Glow25 GmbH"];
              Shopify.primary_vendor := Some "Glow25 GmbH";
              Shopify.product_count := 1 |}
           [] []).
  - vm_compute. reflexivity.
  - reflexivity.
  - intros v [].
  - reflexivity.
  - discriminate.
  - vm_compute. discriminate.
  - reflexivity.
  - vm_compute. reflexivity.
  - vm_compute. reflexivity.
  - vm_compute. reflexivity.
Defined.

End VendorFacts.

(* ================================================================== *)
(** * The redirect resolvers *)
(* ================================================================== *)

Module RedirectFacts.
Import JS.

Lemma tracker_step :
  forall w n acc a b,
    redirectsTo w a b ->
    RedirectTracker.loop w (S n) acc a
    = (CHead a :: trace (RedirectTracker.loop w n (acc ++ [b]) b),
       value (RedirectTracker.loop w n (acc ++ [b]) b)).
Proof.
  intros w n acc a b (r & location & Hh & Hs & Hl & Hne & Hr).
  cbn [RedirectTracker.loop]. unfold bind, call.
  rewrite Hh, Hs, Hl. cbn [truthy]. rewrite (JSFacts.eqb_neq_false _ _ Hne).
  cbn [negb andb]. rewrite Hr.
  destruct (RedirectTracker.loop w n (acc ++ [b]) b) as [t v]. reflexivity.
Qed.

(** On a two-cycle the unguarded loop spends all its fuel. *)
Lemma tracker_on_cycle :
  forall w n acc a b,
    redirectsTo w a b ->
    redirectsTo w b a ->
    RedirectTracker.loop w n acc a
    = (map CHead (alternate n a b),
       (acc ++ alternate n b a, if Nat.even n then a else b)).
Proof.
  intros w n. induction n as [n IH] using (well_founded_induction Wf_nat.lt_wf).
  intros acc a b Hab Hba.
  destruct n as [|[|n]].
  - cbn. now rewrite app_nil_r.
  - rewrite (tracker_step w 0 acc a b Hab). reflexivity.
  - rewrite (tracker_step w (S n) acc a b Hab).
    rewrite (tracker_step w n (acc ++ [b]) b a Hba).
    rewrite (IH n (Nat.lt_lt_succ_r _ _ (Nat.lt_succ_diag_r n)) ((acc ++ [b]) ++ [a]) a b Hab Hba).
    unfold trace, value. cbn [fst snd alternate map Nat.even].
    now rewrite <- !app_assoc.
Qed.

(** C3, on the cycle of two URLs. When A redirects to B and
    B redirects back to A, [trackRedirectChain] of the redirect tracker
    has no guard against a repeated URL: it follows the cycle for all of
    its 10 hops and returns the 11 entries A, B, A, ..., A. *)
Theorem redirect_cycle_runs_to_hop_limit :
  forall (w : World) (a b : string),
    redirectsTo w a b ->
    redirectsTo w b a ->
    value (RedirectTracker.trackRedirectChain w a)
      = {| initial_url := a; final_url := a;
           chain := [a; b; a; b; a; b; a; b; a; b; a] |} /\
    trace (RedirectTracker.trackRedirectChain w a)
      = [CHead a; CHead b; CHead a; CHead b; CHead a;
         CHead b; CHead a; CHead b; CHead a; CHead b].
Proof.
  intros w a b Hab Hba.
  unfold RedirectTracker.trackRedirectChain.
  rewrite (tracker_on_cycle w RedirectTracker.MAX_REDIRECTS [a] a b Hab Hba).
  split; reflexivity.
Qed.

Lemma cycle_redirects : redirectsTo Examples.cycle Examples.urlA Examples.urlB /\
                        redirectsTo Examples.cycle Examples.urlB Examples.urlA.
Proof.
  split.
  - exists (Examples.found Examples.urlB), Examples.urlB.
    repeat split; try reflexivity. discriminate.
  - exists (Examples.found Examples.urlA), Examples.urlA.
    repeat split; try reflexivity. discriminate.
Defined.

Lemma redirect_cycle_runs_to_hop_limit_witness :
  value (RedirectTracker.trackRedirectChain Examples.cycle Examples.urlA)
    = {| initial_url := Examples.urlA; final_url := Examples.urlA;
         chain := [Examples.urlA; Examples.urlB; Examples.urlA; Examples.urlB;
                   Examples.urlA; Examples.urlB; Examples.urlA; Examples.urlB;
                   Examples.urlA; Examples.urlB; Examples.urlA] |} /\
  trace (RedirectTracker.trackRedirectChain Examples.cycle Examples.urlA)
    = [CHead Examples.urlA; CHead Examples.urlB; CHead Examples.urlA; CHead Examples.urlB;
       CHead Examples.urlA; CHead Examples.urlB; CHead Examples.urlA; CHead Examples.urlB;
       CHead Examples.urlA; CHead Examples.urlB].
Proof.
  exact (redirect_cycle_runs_to_hop_limit Examples.cycle Examples.urlA Examples.urlB
           (proj1 cycle_redirects) (proj2 cycle_redirects)).
Defined.

(** The tracker of the URL extractor has the guard ("Avoid infinite
    loops"): on the same cycle it stops after two requests with the
    chain A, B. *)
Theorem guarded_tracker_stops_on_cycle :
  forall (w : World) (a b : string),
    redirectsTo w a b ->
    redirectsTo w b a ->
    a <> b ->
    value (UrlExtractor.trackRedirectChain w a)
      = {| initial_url := a; final_url := b; chain := [a; b] |} /\
    trace (UrlExtractor.trackRedirectChain w a) = [CHead a; CHead b].
Proof.
  intros w a b (r1 & l1 & Hh1 & Hs1 & Hl1 & Hne1 & Hr1)
         (r2 & l2 & Hh2 & Hs2 & Hl2 & Hne2 & Hr2) Hab.
  unfold UrlExtractor.trackRedirectChain, bind.
  cbn [UrlExtractor.loop]. unfold bind, call.
  rewrite Hh1, Hs1, Hl1. cbn [truthy]. rewrite (JSFacts.eqb_neq_false _ _ Hne1).
  cbn [negb andb]. rewrite Hr1.
  assert (Hm1 : mem b [a] = false).
  { unfold mem; cbn. rewrite (JSFacts.eqb_neq_false _ _ Hab). reflexivity. }
  rewrite Hm1.
  rewrite Hh2, Hs2, Hl2. cbn [truthy]. rewrite (JSFacts.eqb_neq_false _ _ Hne2).
  cbn [negb andb]. rewrite Hr2.
  assert (Hm2 : mem a ([a] ++ [b]) = true).
  { unfold mem; cbn. rewrite String.eqb_refl. reflexivity. }
  rewrite Hm2. cbn. split; reflexivity.
Qed.

Lemma guarded_tracker_stops_on_cycle_witness :
  value (UrlExtractor.trackRedirectChain Examples.cycle Examples.urlA)
    = {| initial_url := Examples.urlA; final_url := Examples.urlB;
         chain := [Examples.urlA; Examples.urlB] |} /\
  trace (UrlExtractor.trackRedirectChain Examples.cycle Examples.urlA)
    = [CHead Examples.urlA; CHead Examples.urlB].
Proof.
  apply (guarded_tracker_stops_on_cycle Examples.cycle Examples.urlA Examples.urlB
           (proj1 cycle_redirects) (proj2 cycle_redirects)).
  discriminate.
Defined.

End RedirectFacts.

(* ================================================================== *)
(** * The orchestrator: early exit and the deadline *)
(* ================================================================== *)

Module PipelineFacts.
Import JS Pipeline.
Module R := Response.
Module C := DomainBrandCheck.
Module B := BrandInfo.

Lemma findBrandDomain_no_ads :
  forall env brandName, B.brand_domain (findBrandDomain env brandName []) = None.
Proof. reflexivity. Qed.

(** C5. When the brand-name ad search returns no ads, no brand domain is
    resolved and [discoverBrand] returns the error report: [success] is
    false, the error text begins "Could not find brand domain", and the
    page and domain lists are empty. *)
Theorem no_ads_is_an_error_report :
  forall (env : Env) (brandName : string) (options : DiscoveryOptions),
    brandSearch env brandName = inr [] ->
    R.success (value (discoverBrand env brandName options)) = false /\
    (exists e, R.error (value (discoverBrand env brandName options)) = Some e /\
               prefix "Could not find brand domain" e = true) /\
    R.pages (value (discoverBrand env brandName options))
      = {| R.official := []; R.third_party := [] |} /\
    R.domains (value (discoverBrand env brandName options))
      = {| R.presell := []; R.redirect := []; R.final_shop := []; R.all := [] |}.
Proof.
  intros env brandName options H.
  unfold discoverBrand, discoverBrandWithChecks, bind, call.
  rewrite H. cbn.
  repeat split. exists "Could not find brand domain from Meta ads". split; reflexivity.
Qed.

Lemma no_ads_is_an_error_report_witness :
  R.success (value (discoverBrand (Examples.env Examples.offline [] 0) "Glow25"
                      Examples.edgeOptions)) = false /\
  (exists e, R.error (value (discoverBrand (Examples.env Examples.offline [] 0) "Glow25"
                               Examples.edgeOptions)) = Some e /\
             prefix "Could not find brand domain" e = true) /\
  R.pages (value (discoverBrand (Examples.env Examples.offline [] 0) "Glow25"
                    Examples.edgeOptions))
    = {| R.official := []; R.third_party := [] |} /\
  R.domains (value (discoverBrand (Examples.env Examples.offline [] 0) "Glow25"
                      Examples.edgeOptions))
    = {| R.presell := []; R.redirect := []; R.final_shop := []; R.all := [] |}.
Proof.
  apply (no_ads_is_an_error_report (Examples.env Examples.offline [] 0) "Glow25"
           Examples.edgeOptions).
  reflexivity.
Defined.

(** C6, at a run the deadline truncates. Six candidate domains, a 50 s
    deadline and 38 s spent before Step 6: the first batch of five is
    checked, the sixth domain is skipped, the run succeeds, and
    [scan_stats.unique_domains_checked] still reads 6, the number of
    candidates, not the 5 that were checked. *)
Theorem truncated_run_counts_unchecked_domains :
  R.success (fst (value Examples.slowRun)) = true /\
  List.length Examples.slowRunCandidates = 6%nat /\
  map C.domain (snd (value Examples.slowRun))
    = ["one.example"; "two.example"; "three.example"; "four.example"; "five.example"] /\
  R.unique_domains_checked (R.scan_stats (fst (value Examples.slowRun))) = 6%nat.
Proof. vm_compute. repeat split. Qed.

(** A run that reaches Step 7 always reports success. *)
Theorem report_after_step6_is_successful :
  forall (env : Env) (brandName : string) (options : DiscoveryOptions)
         (brandInfo : B.t) (g : Gathered) (now : Z),
    R.success (fst (value (verifyAndReport env brandName options brandInfo g now))) = true /\
    R.error (fst (value (verifyAndReport env brandName options brandInfo g now))) = None.
Proof.
  intros. unfold verifyAndReport, bind.
  destruct (step6 _ _ _ _ _) as [t st]. cbn. split; reflexivity.
Qed.

(** With fewer than ten seconds left Step 6 is skipped whole: nothing is
    requested, nothing is checked, and the report counts no domain. *)
Theorem skipped_step6_checks_nothing :
  forall (env : Env) (brandName : string) (options : DiscoveryOptions)
         (brandInfo : B.t) (g : Gathered) (now : Z),
    pastDeadline env options now 10000 = true ->
    trace (verifyAndReport env brandName options brandInfo g now) = [] /\
    snd (value (verifyAndReport env brandName options brandInfo g now)) = [] /\
    R.unique_domains_checked
      (R.scan_stats (fst (value (verifyAndReport env brandName options brandInfo g now))))
      = 0%nat.
Proof.
  intros env brandName options brandInfo g now H.
  unfold verifyAndReport, step6, step6Domains, bind. rewrite H. cbn.
  repeat split.
Qed.

Lemma skipped_step6_checks_nothing_witness :
  trace (verifyAndReport (Examples.env Examples.offline Examples.brandAdsGlow 0) "Glow25"
           Examples.edgeOptions Examples.glow25 (Examples.gathered 0) 1045000) = [] /\
  snd (value (verifyAndReport (Examples.env Examples.offline Examples.brandAdsGlow 0) "Glow25"
                Examples.edgeOptions Examples.glow25 (Examples.gathered 0) 1045000)) = [] /\
  R.unique_domains_checked
    (R.scan_stats
       (fst (value (verifyAndReport (Examples.env Examples.offline Examples.brandAdsGlow 0)
                      "Glow25" Examples.edgeOptions Examples.glow25 (Examples.gathered 0)
                      1045000))))
    = 0%nat.
Proof.
  apply (skipped_step6_checks_nothing
           (Examples.env Examples.offline Examples.brandAdsGlow 0) "Glow25"
           Examples.edgeOptions Examples.glow25 (Examples.gathered 0) 1045000).
  reflexivity.
Defined.

End PipelineFacts.

(* ================================================================== *)
(** * The worker's front door *)
(* ================================================================== *)

Module WorkerFacts.
Import JS Worker.

(** C7, at a request the front door does not reject. A batch whose entry
    has an empty brand name is accepted with 202; its job runs
    [discoverBrand] on the empty name, whose first act is the ad search. *)
Theorem empty_brand_in_batch_reaches_ad_source :
  trace (handleRequest (Examples.config (Examples.env Examples.offline [] 0))
           Examples.idle Examples.emptyBatch) = [CAdSearch ""] /\
  option_map code
    (fst (value (handleRequest (Examples.config (Examples.env Examples.offline [] 0))
                   Examples.idle Examples.emptyBatch))) = Some 202 /\
  trace (Pipeline.discoverBrand (Examples.env Examples.offline [] 0) ""
           (workerOptions (Examples.config (Examples.env Examples.offline [] 0))))
    = [CAdSearch ""].
Proof. vm_compute. repeat split. Qed.

(** [POST /api/discover] without a brand starts nothing.  A JSON body
    whose brand is missing or empty is answered with 400 "brand is
    required"; a request whose body is not JSON makes [req.json()]
    throw, and the handler answers nothing.  Either way no outbound
    call is made and the server state is unchanged: no job is
    created. *)
Theorem discover_rejects_missing_brand :
  forall (cfg : Config) (st : ServerState) (req : Request),
    method req = "POST" ->
    path req = "/api/discover" ->
    verifyAuth cfg req = true ->
    match body req with
    | DiscoverJson b => truthy (brand b) = false
    | _ => True
    end ->
    handleRequest cfg st req
    = ([], (match body req with
            | NoBody => None
            | _ => Some (jsonResponse (Error "brand is required") 400)
            end, st)).
Proof.
  intros cfg st req Hm Hp Ha Hb.
  unfold handleRequest. rewrite Hm, Hp, Ha. cbn.
  destruct (body req) as [b| |]; try reflexivity.
  unfold handleDiscover. destruct (brand b) as [s|]; [|reflexivity].
  cbn in Hb. destruct (s =? ""); [reflexivity | discriminate].
Qed.

Lemma discover_rejects_missing_brand_witness :
  handleRequest (Examples.config (Examples.env Examples.offline [] 0)) Examples.idle
    (Examples.post "/api/discover"
       (DiscoverJson {| brand := Some ""; force_refresh := false |}))
  = ([], (Some (jsonResponse (Error "brand is required") 400), Examples.idle)).
Proof.
  apply (discover_rejects_missing_brand
           (Examples.config (Examples.env Examples.offline [] 0)) Examples.idle
           (Examples.post "/api/discover"
              (DiscoverJson {| brand := Some ""; force_refresh := false |})));
    reflexivity.
Defined.

End WorkerFacts.

(* ================================================================== *)
(** * Step 7: the merge of matches into third-party pages *)
(* ================================================================== *)

Module MergeFacts.
Import JS Pipeline.
Module R := Response.
Module C := DomainBrandCheck.
Module B := BrandInfo.
Module T := ThirdPartyPageInfo.

Section Merge.
Context (brandInfo : B.t) (allPages : JSMap.t Aggregator.PageEntry) (names : JSMap.t string).

Local Abbreviation step := (mergeStep brandInfo allPages names).
Local Abbreviation entryOK := (Pipeline.entryOK brandInfo).
Local Abbreviation mergeInv := (Pipeline.mergeInv brandInfo).

Lemma merge_as_fold :
  forall matched init,
    fold_left
      (fun pagesMap m =>
         fold_left (mergePage brandInfo allPages names m) (C.page_ids m) pagesMap)
      matched init
    = fold_left step (incidences matched) init.
Proof.
  induction matched as [|m matched IH]; intros init; [reflexivity|].
  cbn [fold_left]. rewrite IH. unfold incidences. cbn [flat_map].
  rewrite fold_left_app. f_equal.
  generalize init. induction (C.page_ids m) as [|pid l IHl]; intros i; [reflexivity|].
  cbn. apply IHl.
Qed.

Lemma adSum_snoc :
  forall k pairs m pid,
    adSum k (pairs ++ [(m, pid)])
    = (adSum k pairs + (if (pid =? k)%string then C.ad_count m else 0))%nat.
Proof.
  intros. unfold adSum. rewrite map_app, list_sum_app. cbn. lia.
Qed.

Lemma entryOK_other :
  forall pairs k p m pid, pid <> k -> entryOK pairs k p -> entryOK (pairs ++ [(m, pid)]) k p.
Proof.
  intros pairs k p m pid Hne (H1 & H2 & (m0 & Hin & H3) & H4 & H5).
  repeat split; try assumption.
  - exists m0. split; [apply in_or_app; now left | exact H3].
  - intros m' Hin'. apply in_app_or in Hin' as [Hin'|[E|[]]]; [now apply H4|].
    injection E as _ E. congruence.
  - rewrite adSum_snoc, (JSFacts.eqb_neq_false _ _ Hne). lia.
Qed.

Lemma mergeInv_step :
  forall pairs pagesMap m pid,
    mergeInv pairs pagesMap -> mergeInv (pairs ++ [(m, pid)]) (step pagesMap (m, pid)).
Proof.
  intros pairs pagesMap m pid (Hnd & Hent & Hcov).
  unfold step, mergePage. cbn [fst snd].
  destruct (mem pid (B.official_page_ids brandInfo)) eqn:Hoff.
  - (* an official page is skipped *)
    split; [exact Hnd | split].
    + intros k p Hg. apply entryOK_other; [|now apply Hent].
      intros ->. destruct (Hent _ _ Hg) as (_ & Hk & _). congruence.
    + intros m' k Hin Hk. apply in_app_or in Hin as [Hin|[E|[]]]; [now apply (Hcov m')|].
      injection E as _ E. congruence.
  - destruct (JSMap.get pid pagesMap) as [existing|] eqn:Hget.
    + (* the page is known: keep the better match, add the ads *)
      destruct (Hent _ _ Hget) as (H1 & H2 & (m0 & Hin0 & H3c & H3f) & H4 & H5).
      split; [now apply MapFacts.NoDup_keys_set | split].
      * intros k p Hg. destruct (String.eqb_spec pid k) as [->|Hne].
        -- rewrite MapFacts.get_set_same in Hg. injection Hg as <-.
           unfold entryOK. cbn.
           split; [exact H1 | split; [exact H2 | split; [|split]]].
           ++ destruct (T.confidence existing <? C.confidence m)%Z eqn:Hlt.
              ** exists m. split; [apply in_or_app; right; now left | split; reflexivity].
              ** exists m0. split; [apply in_or_app; now left | split; assumption].
           ++ intros m' Hin'. apply in_app_or in Hin' as [Hin'|[E|[]]].
              ** specialize (H4 _ Hin').
                 destruct (T.confidence existing <? C.confidence m)%Z eqn:Hlt; [|exact H4].
                 apply Z.ltb_lt in Hlt. lia.
              ** assert (Em : m' = m) by congruence; subst m'.
                 destruct (T.confidence existing <? C.confidence m)%Z eqn:Hlt; [lia|].
                 apply Z.ltb_ge in Hlt. exact Hlt.
           ++ rewrite adSum_snoc, String.eqb_refl, H5. reflexivity.
        -- rewrite MapFacts.get_set_other in Hg by exact Hne.
           apply entryOK_other; [exact Hne | now apply Hent].
      * intros m' k Hin Hk. apply MapFacts.keys_set_In.
        apply in_app_or in Hin as [Hin|[E|[]]]; [left; now apply (Hcov m')|].
        injection E as _ E. now right.
    + (* a new page *)
      split; [now apply MapFacts.NoDup_keys_set | split].
      * intros k p Hg. destruct (String.eqb_spec pid k) as [->|Hne].
        -- rewrite MapFacts.get_set_same in Hg. injection Hg as <-.
           unfold entryOK. cbn.
           assert (Hnone : forall m', ~ In (m', k) pairs).
           { intros m' Hin. apply (MapFacts.get_None_not_key _ _ Hget).
             now apply (Hcov m'). }
           split; [reflexivity | split; [exact Hoff | split; [|split]]].
           ++ exists m. split; [apply in_or_app; right; now left | split; reflexivity].
           ++ intros m' Hin'. apply in_app_or in Hin' as [Hin'|[E|[]]].
              ** now apply Hnone in Hin'.
              ** assert (Em : m' = m) by congruence; subst m'. lia.
           ++ rewrite adSum_snoc, String.eqb_refl.
              assert (Hz : adSum k pairs = 0%nat).
              { unfold adSum. clear -Hnone. induction pairs as [|[m' k'] l IH]; [reflexivity|].
                cbn. destruct (String.eqb_spec k' k) as [->|Hk].
                - exfalso. apply (Hnone m'). now left.
                - apply IH. intros m'' Hin. apply (Hnone m''). now right. }
              rewrite Hz. reflexivity.
        -- rewrite MapFacts.get_set_other in Hg by exact Hne.
           apply entryOK_other; [exact Hne | now apply Hent].
      * intros m' k Hin Hk. apply MapFacts.keys_set_In.
        apply in_app_or in Hin as [Hin|[E|[]]]; [left; now apply (Hcov m')|].
        injection E as _ E. now right.
Qed.

Lemma mergeInv_fold :
  forall pairs, mergeInv pairs (fold_left step pairs []).
Proof.
  induction pairs as [|[m pid] pairs IH] using rev_ind.
  - split; [constructor | split]; [intros k p H; discriminate | intros m k []].
  - rewrite ListFacts.fold_left_snoc. now apply mergeInv_step.
Qed.

Lemma mergeInv_pages :
  forall matched, Pipeline.mergeInv brandInfo (incidences matched)
                    (thirdPartyPagesMap brandInfo allPages names matched).
Proof.
  intros matched. unfold thirdPartyPagesMap. rewrite merge_as_fold. apply mergeInv_fold.
Qed.

End Merge.

Lemma In_incidences :
  forall matched m pid, In (m, pid) (incidences matched) <-> In m matched /\ In pid (C.page_ids m).
Proof.
  intros matched m pid. unfold incidences. rewrite in_flat_map. split.
  - intros (m' & Hm & Hin). apply in_map_iff in Hin as (x & E & Hx).
    injection E as <- <-. now split.
  - intros [Hm Hin]. exists m. split; [exact Hm|]. apply in_map_iff. now exists pid.
Qed.

Lemma page_ids_are_keys :
  forall (m : JSMap.t T.t),
    (forall k p, In (k, p) m -> T.page_id p = k) ->
    map T.page_id (JSMap.values m) = JSMap.keys m.
Proof.
  induction m as [|[k p] m IH]; intros H; [reflexivity|].
  cbn. f_equal; [apply H; now left | apply IH; intros; apply H; now right].
Qed.

End MergeFacts.

(* ================================================================== *)
(** * Step 6: what the batch loop checks and keeps *)
(* ================================================================== *)

Module Step6Facts.
Import JS Pipeline.
Module C := DomainBrandCheck.
Module B := BrandInfo.

Lemma value_bind :
  forall {A B} (m : Net A) (k : A -> Net B), value (bind m k) = value (k (value m)).
Proof.
  intros A B [t a] k. unfold bind, value. cbn. now destruct (k a).
Qed.

Lemma value_ret : forall {A} (a : A), value (ret a) = a.
Proof. reflexivity. Qed.

Lemma batchesFrom_In :
  forall {A} fuel n (l : list A) b x,
    In b (batchesFrom fuel n l) -> In x b -> In x l.
Proof.
  induction fuel as [|fuel IH]; intros n l b x Hb Hx; [destruct l; contradiction|].
  destruct l as [|y l]; [contradiction|].
  cbn [batchesFrom] in Hb. destruct Hb as [<-|Hb].
  - eapply ListFacts.firstn_In; eassumption.
  - eapply ListFacts.skipn_In. eapply IH; eassumption.
Qed.

Lemma checkBatch_value :
  forall one batch, value (checkBatch one batch) = map (fun d => value (one d)) batch.
Proof.
  induction batch as [|d batch IH]; [reflexivity|].
  cbn [checkBatch map]. rewrite !value_bind, value_ret, IH. reflexivity.
Qed.

Lemma record_fold :
  forall results md dm,
    fst (fold_left record results (md, dm)) = md ++ filter C.is_match results.
Proof.
  induction results as [|r results IH]; intros md dm; cbn [fold_left filter].
  - now rewrite app_nil_r.
  - unfold record at 2. cbn [fst snd]. destruct (C.is_match r).
    + rewrite IH, <- app_assoc. reflexivity.
    + apply IH.
Qed.

(** The loop checks domains of its batches only, and keeps exactly the
    checks that came back as a match. *)
Lemma step6Loop_spec :
  forall env options one bs st,
    exists ds,
      (forall d, In d ds -> exists b, In b bs /\ In d b) /\
      checked (value (step6Loop env options one bs st))
        = checked st ++ map (fun d => value (one d)) ds /\
      matchedDomains (value (step6Loop env options one bs st))
        = matchedDomains st ++ filter C.is_match (map (fun d => value (one d)) ds).
Proof.
  intros env options one bs.
  induction bs as [|batch rest IH]; intros st.
  - exists []. cbn. rewrite !app_nil_r. repeat split. intros d [].
  - cbn [step6Loop].
    destruct (pastDeadline env options (clock st) 3000).
    + exists []. cbn. rewrite !app_nil_r. repeat split. intros d [].
    + rewrite value_bind, checkBatch_value.
      match goal with |- context [step6Loop env options one rest ?s] =>
        destruct (IH s) as (ds & Hds & Hc & Hm) end.
      exists (batch ++ ds). split; [|split].
      * intros d Hd. apply in_app_or in Hd as [Hd|Hd].
        -- exists batch. split; [now left | exact Hd].
        -- destruct (Hds d Hd) as (b & Hb & Hin). exists b. split; [now right | exact Hin].
      * rewrite Hc. cbn [checked]. rewrite map_app, app_assoc. reflexivity.
      * rewrite Hm. cbn [matchedDomains]. rewrite record_fold, map_app, filter_app, app_assoc.
        reflexivity.
Qed.

Lemma step6_spec :
  forall env options one now domains,
    exists ds,
      (forall d, In d ds -> In d domains) /\
      checked (value (step6 env options one now domains))
        = map (fun d => value (one d)) ds /\
      matchedDomains (value (step6 env options one now domains))
        = filter C.is_match (checked (value (step6 env options one now domains))).
Proof.
  intros env options one now domains. unfold step6.
  match goal with |- context [step6Loop env options one ?bs ?s] =>
    destruct (step6Loop_spec env options one bs s) as (ds & Hds & Hc & Hm) end.
  exists ds. split; [|split].
  - intros d Hd. destruct (Hds d Hd) as (b & Hb & Hin).
    unfold batches in Hb.
    assert (In d (step6Domains env options now domains))
      by (eapply batchesFrom_In; eassumption).
    unfold step6Domains in H. destruct (pastDeadline env options now 10000); [contradiction|exact H].
  - exact Hc.
  - rewrite Hm, Hc. reflexivity.
Qed.

Lemma selectDomains_In :
  forall options priority ex d,
    In d (selectDomains options priority ex) ->
    In d (JSMap.keys (Aggregator.domainPageMap ex)).
Proof.
  intros options priority ex d H. unfold selectDomains in H.
  assert (Hs : forall x, In x (sortBy (candidateBefore priority (Aggregator.domainAdCount ex))
                                 (JSMap.keys (Aggregator.domainPageMap ex))) ->
                         In x (JSMap.keys (Aggregator.domainPageMap ex)))
    by (intros x; apply ListFacts.sortBy_In).
  destruct (max_domains_to_check options) as [[|n]|];
    try (apply Hs; exact H);
    match type of H with
    | In _ (if ?c then _ else _) => destruct c
    end; try (apply Hs; exact H); apply Hs; eapply ListFacts.firstn_In; eassumption.
Qed.

End Step6Facts.

(* ================================================================== *)
(** * The report: third-party pages and domain lists *)
(* ================================================================== *)

Module ReportFacts.
Import JS Pipeline.
Module R := Response.
Module C := DomainBrandCheck.
Module B := BrandInfo.
Module T := ThirdPartyPageInfo.

Lemma third_party_entries :
  forall brandInfo allPages names matched p,
    In p (sortBy pageBefore
            (JSMap.values (thirdPartyPagesMap brandInfo allPages names matched))) ->
    entryOK brandInfo (incidences matched) (T.page_id p) p.
Proof.
  intros brandInfo allPages names matched p Hp.
  apply ListFacts.sortBy_In in Hp.
  destruct (MergeFacts.mergeInv_pages brandInfo allPages names matched) as (Hnd & Hent & _).
  unfold JSMap.values in Hp. apply in_map_iff in Hp as ([k q] & E & Hin). cbn in E. subst q.
  pose proof (Hent k p (MapFacts.In_get _ _ _ Hin Hnd)) as Hok.
  destruct Hok as (Hid & _). rewrite Hid.
  apply Hent. now apply MapFacts.In_get.
Qed.

(** C8. In the third-party page list of the report every page id
    appears once; the entry of a page is not an official page, its
    connection type and confidence are those of a match whose page ids
    contain the page and whose confidence no other such match exceeds,
    and its ad count is the sum of the ad counts of all matches of the
    page; every third-party page of a match is listed. *)
Theorem third_party_pages_merged :
  forall (brandName : string) (brandInfo : B.t) (matched : list C.t)
         (allAds : list MetaAd) (allPages : JSMap.t Aggregator.PageEntry)
         (keywords : list string) (methods : list (MatchType * nat))
         (startTime now : Z) (total : nat) (brandAds : list MetaAd),
    let pages :=
      R.third_party
        (R.pages (buildDiscoveryResult brandName brandInfo matched allAds allPages
                    keywords methods startTime now total brandAds)) in
    NoDup (map T.page_id pages) /\
    (forall p, In p pages ->
       mem (T.page_id p) (B.official_page_ids brandInfo) = false /\
       (exists m, In m matched /\ In (T.page_id p) (C.page_ids m) /\
                  T.connection_type p = C.match_type m /\
                  T.confidence p = C.confidence m) /\
       (forall m, In m matched -> In (T.page_id p) (C.page_ids m) ->
                  (C.confidence m <= T.confidence p)%Z) /\
       T.ad_count p = adSum (T.page_id p) (incidences matched)) /\
    (forall m pageId,
       In m matched -> In pageId (C.page_ids m) ->
       mem pageId (B.official_page_ids brandInfo) = false ->
       In pageId (map T.page_id pages)).
Proof.
  intros brandName brandInfo matched allAds allPages keywords methods startTime now
         total brandAds pages.
  set (names := pageNameLookup (brandAds ++ allAds)).
  set (pm := thirdPartyPagesMap brandInfo allPages names matched).
  assert (Hpages : pages = sortBy pageBefore (JSMap.values pm)) by reflexivity.
  destruct (MergeFacts.mergeInv_pages brandInfo allPages names matched)
    as (Hnd & Hent & Hcov). fold pm in Hnd, Hent, Hcov.
  assert (Hkeys : map T.page_id (JSMap.values pm) = JSMap.keys pm).
  { apply MergeFacts.page_ids_are_keys. intros k p Hin.
    destruct (Hent k p (MapFacts.In_get _ _ _ Hin Hnd)) as (Hid & _). exact Hid. }
  assert (Hperm : Permutation (map T.page_id pages) (JSMap.keys pm)).
  { rewrite Hpages, <- Hkeys. apply Permutation_map, ListFacts.sortBy_perm. }
  split; [|split].
  - eapply Permutation_NoDup; [symmetry; exact Hperm | exact Hnd].
  - intros p Hp. rewrite Hpages in Hp.
    destruct (third_party_entries brandInfo allPages names matched p Hp)
      as (_ & Hoff & (m & Hin & Hty & Hcf) & Hmax & Hsum).
    apply MergeFacts.In_incidences in Hin as [Hm Hpid].
    split; [exact Hoff | split; [|split]].
    + exists m. repeat split; assumption.
    + intros m' Hm' Hpid'. apply Hmax. now apply MergeFacts.In_incidences.
    + exact Hsum.
  - intros m pageId Hm Hpid Hoff.
    eapply Permutation_in; [symmetry; exact Hperm|].
    apply (Hcov m). + now apply MergeFacts.In_incidences. + exact Hoff.
Qed.




(** A run ends in the error report, or in the report of Steps 5 to 7 for
    a brand whose domain was resolved. *)
Lemma run_cases :
  forall env brandName options,
    (exists e, value (discoverBrandWithChecks env brandName options)
               = (makeErrorResponse brandName e, [])) \/
    (exists brandInfo g now,
        value (discoverBrandWithChecks env brandName options)
        = value (verifyAndReport env brandName options brandInfo g now) /\
        truthy (B.brand_domain brandInfo) = true).
Proof.
  intros env brandName options.
  unfold discoverBrandWithChecks. rewrite Step6Facts.value_bind.
  replace (value (call (CAdSearch brandName) (brandSearch env brandName)))
    with (brandSearch env brandName) by reflexivity.
  destruct (brandSearch env brandName) as [e|ads]; [left; now exists e|].
  cbv zeta.
  destruct (truthy (B.brand_domain (findBrandDomain env brandName ads))) eqn:Ht;
    cbn [negb]; [|left; eexists; reflexivity].
  destruct (gather env brandName (findBrandDomain env brandName ads) ads) as [e|g];
    [left; now exists e|].
  right. do 3 eexists. split; [reflexivity | exact Ht].
Qed.



End ReportFacts.

(* ================================================================== *)
(** * Candidate aggregation *)
(* ================================================================== *)

Module AggregatorFacts.
Import JS Aggregator.
Module B := BrandInfo.

Lemma caption_domain_no_space :
  forall c d, UrlExtractor.extractDomainFromCaption c = Some d -> includes " " d = false.
Proof.
  intros [cap|] d H; [|discriminate]. unfold UrlExtractor.extractDomainFromCaption in H.
  destruct (cap =? ""); [discriminate|].
  match type of H with (if ?c then _ else _) = _ => destruct c eqn:E end; [|discriminate].
  injection H as <-.
  apply andb_true_iff in E as [_ E]. now apply negb_true_iff in E.
Qed.

Lemma perCaption_inv :
  forall brandInfo pageId st caption,
    aggInv brandInfo st -> aggInv brandInfo (perCaption brandInfo pageId st caption).
Proof.
  intros brandInfo pageId st caption [Hbd Hkeys]. unfold perCaption.
  destruct (UrlExtractor.extractDomainFromCaption (Some caption)) as [domain|] eqn:Hd;
    [|now split].
  cbv zeta.
  destruct (mem (toLowerCase domain) (brandDomains st)) eqn:Hmem; [now split|].
  destruct (isExcluded (toLowerCase domain)); [now split|].
  destruct (containsAlias (toLowerCase domain) brandInfo) eqn:Halias.
  - split; [|exact Hkeys]. cbn [brandDomains].
    intros x Hx. apply in_or_app. left. now apply Hbd.
  - split; [exact Hbd|]. cbn [result domainPageMap].
    intros key Hkey. apply MapFacts.keys_set_In in Hkey as [Hkey| ->]; [now apply Hkeys|].
    repeat split.
    + apply ListFacts.mem_false. intros Hin. apply Hbd in Hin.
      apply ListFacts.mem_In in Hin. congruence.
    + exact Halias.
    + apply JSFacts.toLowerCase_idem.
    + rewrite StringFacts.toLowerCase_space. eapply caption_domain_no_space; eassumption.
Qed.

Lemma captions_inv :
  forall brandInfo pageId captions st,
    aggInv brandInfo st -> aggInv brandInfo (fold_left (perCaption brandInfo pageId) captions st).
Proof.
  induction captions as [|c captions IH]; intros st H; [exact H|].
  cbn [fold_left]. apply IH. now apply perCaption_inv.
Qed.

Lemma perAd_inv :
  forall brandInfo st ad, aggInv brandInfo st -> aggInv brandInfo (perAd brandInfo st ad).
Proof.
  intros brandInfo st ad H. unfold perAd. cbv zeta.
  apply captions_inv. destruct H; split; assumption.
Qed.

Lemma ads_inv :
  forall brandInfo ads st,
    aggInv brandInfo st -> aggInv brandInfo (fold_left (perAd brandInfo) ads st).
Proof.
  induction ads as [|ad ads IH]; intros st H; [exact H|].
  cbn [fold_left]. apply IH. now apply perAd_inv.
Qed.

Lemma extractUniqueDomains_keys :
  forall ads brandInfo key,
    In key (JSMap.keys (domainPageMap (extractUniqueDomains ads brandInfo))) ->
    candidateOK brandInfo key.
Proof.
  intros ads brandInfo key. unfold extractUniqueDomains.
  apply ads_inv. split; [intros x Hx; exact Hx | intros k []].
Qed.

End AggregatorFacts.

(* ================================================================== *)
(** * The cascade past its first step *)
(* ================================================================== *)

Module DirectFacts.
Import JS Cascade.
Module C := DomainBrandCheck.
Module B := BrandInfo.

Lemma value_call : forall {A} c (a : A), value (call c a) = a.
Proof. reflexivity. Qed.

Ltac net :=
  repeat rewrite ?Step6Facts.value_bind, ?Step6Facts.value_ret, ?value_call in *.

Ltac cases :=
  repeat (net;
    match goal with
    | H : Some _ = Some _ |- _ => injection H as H; try subst
    | H : None = Some _ |- _ => discriminate H
    | H : Return _ = Return _ |- _ => injection H as H; try subst
    | H : Continue _ = Continue _ |- _ => injection H as H; try subst
    | H : Return _ = Continue _ |- _ => discriminate H
    | H : Continue _ = Return _ |- _ => discriminate H
    | H : context [match ?x with _ => _ end] |- _ => destruct x eqn:?
    end).

Lemma contentCheck_kind :
  forall html brandDomain brandInfo r m,
    contentCheck html brandDomain brandInfo r = Some m -> C.match_type m <> direct.
Proof.
  intros html brandDomain brandInfo r m H. unfold contentCheck in H.
  cases; cbn; discriminate.
Qed.

Lemma step6c_kind :
  forall w domain brandDomain brandInfo html r m,
    value (step6c w domain brandDomain brandInfo html r) = Some m ->
    C.match_type m <> direct.
Proof.
  intros w domain brandDomain brandInfo html r m H. unfold step6c in H.
  cases; try (cbn; discriminate); eapply contentCheck_kind; eassumption.
Qed.

Lemma presellLoop_kind :
  forall w brandInfo timeout urls r m,
    value (presellLoop w brandInfo timeout urls r) = Some m -> C.match_type m <> direct.
Proof.
  intros w brandInfo timeout urls r m. induction urls as [|u urls IH]; intros H.
  - discriminate.
  - cbn [presellLoop] in H. cases; try (cbn; discriminate); auto.
Qed.

Lemma landingUrlLoop_kind :
  forall w brandInfo urls r m,
    landingUrlLoop w brandInfo urls r = Some m -> C.match_type m <> direct.
Proof.
  intros w brandInfo urls r m. induction urls as [|u urls IH]; intros H.
  - discriminate.
  - cbn [landingUrlLoop] in H. cases; try (cbn; discriminate); auto.
Qed.

Lemma landingFetchLoop_kind :
  forall w brandDomain brandInfo urls r m,
    value (landingFetchLoop w brandDomain brandInfo urls r) = Some m ->
    C.match_type m <> direct.
Proof.
  intros w brandDomain brandInfo urls r m. induction urls as [|u urls IH]; intros H.
  - discriminate.
  - cbn [landingFetchLoop] in H. cases; try (cbn; discriminate); auto.
Qed.

Lemma step6f_kind :
  forall w brandDomain brandInfo opts r m,
    value (step6f w brandDomain brandInfo opts r) = Some m -> C.match_type m <> direct.
Proof.
  intros w brandDomain brandInfo opts r m H. unfold step6f in H.
  cases; try discriminate;
    first [eapply landingUrlLoop_kind; eassumption
          | eapply landingFetchLoop_kind; eassumption].
Qed.

Lemma dualDomain_kind :
  forall domain brandInfo opts r m,
    dualDomain domain brandInfo opts r = Some m -> C.match_type m <> direct.
Proof.
  intros domain brandInfo opts r m H. unfold dualDomain in H.
  cases; cbn; discriminate.
Qed.

Lemma ctaLinkLoop_kind :
  forall w brandInfo links r m,
    value (ctaLinkLoop w brandInfo links r) = Some m -> C.match_type m <> direct.
Proof.
  intros w brandInfo links r m. induction links as [|l links IH]; intros H.
  - discriminate.
  - cbn [ctaLinkLoop] in H. cases; try (cbn; discriminate); auto.
Qed.

Lemma step6g_kind :
  forall w domain brandDomain brandInfo opts r m,
    value (step6g w domain brandDomain brandInfo opts r) = Some m ->
    C.match_type m <> direct.
Proof.
  intros w domain brandDomain brandInfo opts r m H. unfold step6g in H.
  destruct (truthy (scrapingbee_key opts)); [|discriminate].
  cbv zeta in H.
  cases; try (cbn; discriminate); try discriminate;
    eapply ctaLinkLoop_kind; eassumption.
Qed.

Lemma step6bcd_kind :
  forall w domain brandDomain brandInfo opts timeout r,
    C.match_type r = none ->
    match value (step6bcd w domain brandDomain brandInfo opts timeout r) with
    | Return m => C.match_type m <> direct
    | Continue r' => C.match_type r' = none
    end.
Proof.
  intros w domain brandDomain brandInfo opts timeout r Hr. unfold step6bcd.
  net. destruct (value (fetchWithRedirects w domain timeout)) as [f|]; [|net; exact Hr].
  destruct (matchingDomain _ brandInfo); [net; cbn; discriminate|].
  net. destruct (value (step6c _ _ _ _ _ _)) as [m|] eqn:E6c.
  - net. eapply step6c_kind; eassumption.
  - net. destruct (value (presellLoop _ _ _ _ _)) as [m|] eqn:Ep.
    + net. eapply presellLoop_kind; eassumption.
    + net. exact Hr.
Qed.

(** Past its guard the cascade never returns kind [direct]. *)
Lemma cascade_kind :
  forall w domain brandInfo opts,
    C.match_type (value (checkDomainForBrand w domain brandInfo opts)) = direct ->
    exists bd, B.brand_domain brandInfo = Some bd /\ bd <> "" /\
               toLowerCase domain = toLowerCase bd.
Proof.
  intros w domain brandInfo opts. unfold checkDomainForBrand. cbv zeta.
  destruct (B.brand_domain brandInfo) as [bd|]; [|discriminate].
  destruct (String.eqb_spec bd "") as [->|Hne]; [discriminate|].
  destruct (String.eqb_spec (toLowerCase domain) (toLowerCase bd)) as [E|Hd].
  - intros _. now exists bd.
  - intros H. exfalso. net.
    pose proof (step6bcd_kind w domain (toLowerCase bd) brandInfo opts
                  (effectiveTimeout opts) (initial domain) eq_refl) as H6.
    destruct (value (step6bcd _ _ _ _ _ _ _)) as [m|r']; net; [now apply H6|].
    destruct (value (step6f _ _ _ _ r')) as [m|] eqn:Ef; net;
      [eapply step6f_kind; eassumption|].
    destruct (dualDomain domain brandInfo opts r') as [m|] eqn:Ed; net;
      [eapply dualDomain_kind; eassumption|].
    destruct (value (step6g _ _ _ _ _ r')) as [m|] eqn:Eg; net;
      [eapply step6g_kind; eassumption|].
    congruence.
Qed.

End DirectFacts.

(* ================================================================== *)
(** * Candidates never meet the Direct step *)
(* ================================================================== *)

Module CandidateFacts.
Import JS Aggregator.
Module C := DomainBrandCheck.
Module B := BrandInfo.

(** A candidate is not the brand's resolved domain. *)
Lemma candidate_is_not_brand_domain :
  forall (ads : list MetaAd) (brandInfo : B.t) (key : string),
    truthy (B.brand_domain brandInfo) = true ->
    In key (JSMap.keys (domainPageMap (extractUniqueDomains ads brandInfo))) ->
    forall bd, B.brand_domain brandInfo = Some bd -> key <> toLowerCase bd.
Proof.
  intros ads brandInfo key Ht Hkey bd Ebd ->.
  destruct (AggregatorFacts.extractUniqueDomains_keys ads brandInfo _ Hkey) as (Hown & _).
  apply ListFacts.mem_false in Hown.
  apply Hown. unfold initialBrandDomains. rewrite Ebd.
  unfold truthy in Ht. rewrite Ebd in Ht.
  destruct (bd =? ""); [discriminate | now left].
Qed.

(** The Direct step does not fire for a candidate. *)
Lemma candidate_is_never_direct :
  forall (ads : list MetaAd) (brandInfo : B.t) (key : string),
    truthy (B.brand_domain brandInfo) = true ->
    In key (JSMap.keys (domainPageMap (extractUniqueDomains ads brandInfo))) ->
    forall w opts,
      C.match_type (value (Cascade.checkDomainForBrand w key brandInfo opts)) <> direct.
Proof.
  intros ads brandInfo key Ht Hkey w opts Hdir.
  destruct (AggregatorFacts.extractUniqueDomains_keys ads brandInfo key Hkey)
    as (_ & _ & Hlow & _).
  destruct (DirectFacts.cascade_kind w key brandInfo opts Hdir) as (bd & Ebd & _ & E).
  apply (candidate_is_not_brand_domain ads brandInfo key Ht Hkey bd Ebd).
  now rewrite <- E, Hlow.
Qed.

(** What the candidate map keeps out.  Whatever the ads, a key of the
    candidate-domain map is not the brand's resolved domain (in lower
    case, as keys are), not the myshopify variant as the store name is
    written, and contains no brand alias: none with its white space
    removed, as the aggregator compares, and none as written when its
    only white space is the plain space. So the Direct step of the
    cascade does not fire for a candidate drawn from the map. *)
Theorem candidates_exclude_the_brand :
  forall (ads : list MetaAd) (brandInfo : B.t) (key : string),
    truthy (B.brand_domain brandInfo) = true ->
    In key (JSMap.keys (domainPageMap (extractUniqueDomains ads brandInfo))) ->
    (forall bd, B.brand_domain brandInfo = Some bd -> key <> toLowerCase bd) /\
    (forall store, B.shopify_store brandInfo = Some store -> store <> "" ->
                   key <> (store ++ ".myshopify.com")%string) /\
    (forall alias, In alias (B.brand_aliases brandInfo) ->
                   includes (stripSpaces alias) key = false) /\
    (forall alias, In alias (B.brand_aliases brandInfo) ->
                   sforall (fun c => negb (is_space c) || Ascii.eqb " " c) alias = true ->
                   includes alias key = false) /\
    (forall w opts,
        C.match_type (value (Cascade.checkDomainForBrand w key brandInfo opts)) <> direct).
Proof.
  intros ads brandInfo key Ht Hkey.
  destruct (AggregatorFacts.extractUniqueDomains_keys ads brandInfo key Hkey)
    as (Hown & Halias & Hlow & Hsp).
  apply ListFacts.mem_false in Hown.
  assert (Hstrip : forall alias, In alias (B.brand_aliases brandInfo) ->
                                 includes (stripSpaces alias) key = false).
  { intros alias Hin. unfold containsAlias in Halias.
    destruct (includes (stripSpaces alias) key) eqn:E; [|reflexivity].
    assert (existsb (fun a => includes (stripSpaces a) key) (B.brand_aliases brandInfo) = true)
      by (apply existsb_exists; now exists alias).
    congruence. }
  split; [exact (candidate_is_not_brand_domain ads brandInfo key Ht Hkey)|].
  split; [|split; [exact Hstrip | split]].
  - intros store Est Hne ->. apply Hown. unfold initialBrandDomains.
    unfold truthy in Ht. destruct (B.brand_domain brandInfo) as [bd|]; [|discriminate].
    destruct (bd =? ""); [discriminate|]. right. rewrite Est.
    rewrite (JSFacts.eqb_neq_false _ _ Hne). now left.
  - intros alias Hin Hplain.
    destruct (includes alias key) eqn:E; [|reflexivity].
    destruct (StringFacts.plain_alias_cases alias Hplain) as [Hs|Hs].
    + rewrite (StringFacts.includes_trans " " alias key Hs E) in Hsp. discriminate.
    + rewrite <- Hs, (Hstrip alias Hin) in E. discriminate.
  - exact (candidate_is_never_direct ads brandInfo key Ht Hkey).
Qed.

Lemma candidates_exclude_the_brand_witness :
  (forall bd, B.brand_domain Examples.glow25 = Some bd -> "one.example" <> toLowerCase bd) /\
  (forall store, B.shopify_store Examples.glow25 = Some store -> store <> "" ->
                 "one.example" <> (store ++ ".myshopify.com")%string) /\
  (forall alias, In alias (B.brand_aliases Examples.glow25) ->
                 includes (stripSpaces alias) "one.example" = false) /\
  (forall alias, In alias (B.brand_aliases Examples.glow25) ->
                 sforall (fun c => negb (is_space c) || Ascii.eqb " " c) alias = true ->
                 includes alias "one.example" = false) /\
  (forall w opts,
      C.match_type (value (Cascade.checkDomainForBrand w "one.example" Examples.glow25 opts))
      <> direct).
Proof.
  apply (candidates_exclude_the_brand
           (Pipeline.combineAds Examples.brandAdsGlow Examples.keywordAds)
           Examples.glow25 "one.example").
  - reflexivity.
  - vm_compute. left. reflexivity.
Defined.


(** In the orchestrated run no check has kind [direct]: the checked
    domains are keys of the candidate map. *)
Theorem run_has_no_direct_check :
  forall (env : Pipeline.Env) (brandName : string) (options : Pipeline.DiscoveryOptions)
         (c : C.t),
    In c (snd (value (Pipeline.discoverBrandWithChecks env brandName options))) ->
    C.match_type c <> direct.
Proof.
  intros env brandName options c Hc.
  destruct (ReportFacts.run_cases env brandName options)
    as [(e & E)|(brandInfo & g & now & E & Ht)]; rewrite E in Hc; [contradiction|].
  unfold Pipeline.verifyAndReport in Hc.
  rewrite Step6Facts.value_bind, Step6Facts.value_ret in Hc. cbn [snd] in Hc.
  match type of Hc with context [Pipeline.step6 env options ?o ?n ?ds] =>
    destruct (Step6Facts.step6_spec env options o n ds) as (l & Hl & Hchk & _) end.
  rewrite Hchk in Hc. apply in_map_iff in Hc as (d & <- & Hd).
  apply Hl, Step6Facts.selectDomains_In in Hd.
  unfold Pipeline.checkOne. rewrite Step6Facts.value_bind, Step6Facts.value_ret.
  change (C.match_type (C.attach ?r ?p ?n)) with (C.match_type r).
  exact (candidate_is_never_direct _ _ _ Ht Hd _ _).
Qed.

Lemma run_has_no_direct_check_witness :
  In (C.attach (Cascade.initial "one.example") ["201"] 1%nat)
     (snd (value (Pipeline.discoverBrandWithChecks
                    (Examples.env Examples.offline Examples.brandAdsGlow 0)
                    "Glow25" Examples.edgeOptions))) /\
  C.match_type (C.attach (Cascade.initial "one.example") ["201"] 1%nat) <> direct.
Proof.
  assert (H : In (C.attach (Cascade.initial "one.example") ["201"] 1%nat)
     (snd (value (Pipeline.discoverBrandWithChecks
                    (Examples.env Examples.offline Examples.brandAdsGlow 0)
                    "Glow25" Examples.edgeOptions)))).
  { vm_compute. left. reflexivity. }
  split; [exact H|].
  exact (run_has_no_direct_check _ _ _ _ H).
Defined.

End CandidateFacts.

(* ================================================================== *)
(** * The keyword generator *)
(* ================================================================== *)

Module KeywordFacts.
Import JS KeywordGenerator.

(** ** Tokens *)

Lemma splitGo_spaceless :
  forall s prev w, In w (splitGo prev s) -> spaceless w = true.
Proof.
  induction s as [|c r IH]; intros prev w H; cbn [splitGo] in H.
  - destruct H as [<-|[]]. reflexivity.
  - destruct (is_space c) eqn:Ec.
    + destruct prev; [now apply (IH true)|].
      destruct H as [<-|H]; [reflexivity | now apply (IH true)].
    + destruct (splitGo false r) as [|f fs] eqn:E.
      * destruct H as [<-|[]]. unfold spaceless. cbn. now rewrite Ec.
      * destruct H as [<-|H].
        -- unfold spaceless. cbn [sforall]. rewrite Ec. cbn.
           apply (IH false). rewrite E. now left.
        -- apply (IH false). rewrite E. now right.
Qed.

Lemma trimStart_spaceless : forall w, spaceless w = true -> trimStart w = w.
Proof.
  intros [|c r] H; [reflexivity|].
  unfold spaceless in H. cbn [sforall] in H. apply andb_true_iff in H as [Hc _].
  cbn [trimStart]. now destruct (is_space c).
Qed.

Lemma trimEnd_spaceless : forall w, spaceless w = true -> trimEnd w = w.
Proof.
  induction w as [|c r IH]; intros H; [reflexivity|].
  unfold spaceless in *. cbn [sforall] in H. apply andb_true_iff in H as [Hc Hr].
  cbn [trimEnd]. rewrite (IH Hr).
  destruct r; [|reflexivity]. now destruct (is_space c).
Qed.

Lemma trim_spaceless : forall w, spaceless w = true -> trim w = w.
Proof.
  intros w H. unfold trim. rewrite (trimStart_spaceless w H). now apply trimEnd_spaceless.
Qed.

Lemma is_space_lower : forall c, is_space (lower_char c) = is_space c.
Proof.
  intros [[] [] [] [] [] [] [] []]; vm_compute; reflexivity.
Qed.

Lemma spaceless_lower : forall w, spaceless (toLowerCase w) = spaceless w.
Proof.
  induction w as [|c r IH]; [reflexivity|].
  unfold spaceless, toLowerCase in *. cbn [smap sforall]. now rewrite is_space_lower, IH.
Qed.

(** On a token [w.toLowerCase().trim()] is [w.toLowerCase()]. *)
Lemma token_trim :
  forall text w, In w (splitSpaces text) -> trim (toLowerCase w) = toLowerCase w.
Proof.
  intros text w H. apply trim_spaceless. rewrite spaceless_lower.
  exact (splitGo_spaceless text false w H).
Qed.

(** ** Counting *)

Lemma count_occ_filter_le :
  forall (p : string -> bool) l k,
    (count_occ string_dec (filter p l) k <= count_occ string_dec l k)%nat.
Proof.
  induction l as [|x l IH]; intros k; cbn; [lia|].
  specialize (IH k). destruct (p x); cbn; destruct (string_dec x k); lia.
Qed.

Lemma count_occ_map_filter_le :
  forall (f : string -> string) (p : string -> bool) l k,
    (count_occ string_dec (map f (filter p l)) k <= count_occ string_dec (map f l) k)%nat.
Proof.
  induction l as [|x l IH]; intros k; cbn; [lia|].
  specialize (IH k). destruct (p x); cbn; destruct (string_dec (f x) k); lia.
Qed.

Lemma count_occ_flat_map :
  forall {A} (g : A -> list string) l k,
    count_occ string_dec (flat_map g l) k =
    list_sum (map (fun x => count_occ string_dec (g x) k) l).
Proof.
  induction l as [|x l IH]; intros k; cbn; [reflexivity|].
  now rewrite count_occ_app, IH.
Qed.

Lemma list_sum_le :
  forall {A} (f g : A -> nat) l,
    (forall x, In x l -> (f x <= g x)%nat) -> (list_sum (map f l) <= list_sum (map g l))%nat.
Proof.
  induction l as [|x l IH]; intros H; [apply Nat.le_refl|].
  change (f x + list_sum (map f l) <= g x + list_sum (map g l))%nat.
  apply Nat.add_le_mono; [apply H; now left | apply IH; intros; apply H; now right].
Qed.

(** The words scored from one text are among its words, as often. *)
Lemma scoreWords_le :
  forall text bl bn k,
    (count_occ string_dec (scoreWords text bl bn) k <= count_occ string_dec (wordsOf text) k)%nat.
Proof.
  intros text bl bn k. unfold scoreWords, baseWords, wordsOf.
  repeat (etransitivity; [apply count_occ_filter_le|]).
  etransitivity; [apply count_occ_map_filter_le|].
  rewrite (map_ext_in (fun w => trim (toLowerCase w)) toLowerCase); [lia|].
  intros w Hw. exact (token_trim _ w Hw).
Qed.

Lemma scoredWords_le :
  forall ads bl bn k,
    (count_occ string_dec (scoredWords ads bl bn) k <= occurrences k ads)%nat.
Proof.
  intros ads bl bn k. unfold scoredWords, occurrences.
  rewrite count_occ_flat_map. apply list_sum_le.
  intros ts _. apply scoreWords_le.
Qed.

(** ** The score map *)

Lemma addWord_frequency :
  forall src scores w k,
    frequencyOf k (addWord src scores w) =
    (frequencyOf k scores + count_occ string_dec [w] k)%nat.
Proof.
  intros src scores w k. unfold frequencyOf, addWord. cbn [count_occ].
  destruct (string_dec w k) as [->|Hne].
  - destruct (JSMap.get k scores) as [[f srcs]|];
      rewrite MapFacts.get_set_same; lia.
  - destruct (JSMap.get w scores) as [[f srcs]|];
      rewrite (MapFacts.get_set_other _ _ _ _ Hne);
      destruct (JSMap.get k scores) as [[f' srcs']|]; lia.
Qed.

Lemma addWord_NoDup :
  forall src scores w, NoDup (JSMap.keys scores) -> NoDup (JSMap.keys (addWord src scores w)).
Proof.
  intros src scores w H. unfold addWord.
  destruct (JSMap.get w scores) as [[f srcs]|]; now apply MapFacts.NoDup_keys_set.
Qed.

Lemma addWords_frequency :
  forall src ws scores k,
    frequencyOf k (fold_left (addWord src) ws scores) =
    (frequencyOf k scores + count_occ string_dec ws k)%nat.
Proof.
  induction ws as [|w ws IH]; intros scores k; cbn [fold_left].
  - cbn. lia.
  - rewrite IH, addWord_frequency. cbn [count_occ]. destruct (string_dec w k); lia.
Qed.

Lemma addWords_NoDup :
  forall src ws scores,
    NoDup (JSMap.keys scores) -> NoDup (JSMap.keys (fold_left (addWord src) ws scores)).
Proof.
  induction ws as [|w ws IH]; intros scores H; cbn [fold_left]; [exact H|].
  apply IH. now apply addWord_NoDup.
Qed.

(** The guard [if (!text) return] skips a text that has no words. *)
Lemma extractAndScoreWords_fold :
  forall text src scores bl bn,
    extractAndScoreWords text src scores bl bn =
    fold_left (addWord src) (scoreWords text bl bn) scores.
Proof.
  intros text src scores bl bn. unfold extractAndScoreWords.
  destruct (String.eqb_spec text "") as [->|_]; reflexivity.
Qed.

Lemma texts_frequency :
  forall bl bn (texts : list (string * Source)) scores k,
    frequencyOf k
      (fold_left (fun sc ts => extractAndScoreWords (fst ts) (snd ts) sc bl bn) texts scores) =
    (frequencyOf k scores +
     count_occ string_dec (flat_map (fun ts => scoreWords (fst ts) bl bn) texts) k)%nat.
Proof.
  induction texts as [|ts texts IH]; intros scores k; cbn [fold_left flat_map].
  - cbn. lia.
  - rewrite IH, extractAndScoreWords_fold, addWords_frequency, count_occ_app. lia.
Qed.

Lemma texts_NoDup :
  forall bl bn (texts : list (string * Source)) scores,
    NoDup (JSMap.keys scores) ->
    NoDup (JSMap.keys
             (fold_left (fun sc ts => extractAndScoreWords (fst ts) (snd ts) sc bl bn)
                texts scores)).
Proof.
  induction texts as [|ts texts IH]; intros scores H; cbn [fold_left]; [exact H|].
  apply IH. rewrite extractAndScoreWords_fold. now apply addWords_NoDup.
Qed.

(** The frequency stored for a word is the number of times the
    tokenizer scored it. *)
Lemma scoreAll_entry :
  forall ads bl bn k f srcs,
    In (k, (f, srcs)) (scoreAll ads bl bn) ->
    f = count_occ string_dec (scoredWords ads bl bn) k.
Proof.
  intros ads bl bn k f srcs H.
  assert (Hnd : NoDup (JSMap.keys (scoreAll ads bl bn)))
    by (apply texts_NoDup; constructor).
  pose proof (texts_frequency bl bn (flat_map adTexts ads) [] k) as Hf.
  fold (scoreAll ads bl bn) in Hf. fold (scoredWords ads bl bn) in Hf.
  unfold frequencyOf in Hf at 1. rewrite (MapFacts.In_get _ _ _ H Hnd) in Hf.
  cbn in Hf. exact Hf.
Qed.

(** What the filters of the tokenizer leave. *)
Lemma scoreWords_In :
  forall text bl bn k,
    In k (scoreWords text bl bn) ->
    (4 <= String.length k)%nat /\ toLowerCase k = k /\ spaceless k = true /\
    allDigits k = false /\ startsWithDigit k = false /\
    isStopWord k = false /\ isGenericAdWord k = false /\ isBrandWord k bl bn = false.
Proof.
  intros text bl bn k H. unfold scoreWords, baseWords in H.
  repeat (apply filter_In in H as [H ?]).
  apply in_map_iff in H as (w & <- & H). apply filter_In in H as [H Hlen].
  rewrite (token_trim _ w H) in *.
  repeat match goal with
         | E : negb _ = true |- _ => apply negb_true_iff in E
         end.
  apply Nat.leb_le in Hlen.
  repeat split; try assumption.
  - unfold toLowerCase. now rewrite JSFacts.smap_length.
  - apply JSFacts.toLowerCase_idem.
  - rewrite spaceless_lower. exact (splitGo_spaceless _ false w H).
Qed.

Lemma scoredWords_In :
  forall ads bl bn k,
    In k (scoredWords ads bl bn) -> exists text, In k (scoreWords text bl bn).
Proof.
  intros ads bl bn k H. unfold scoredWords in H.
  apply in_flat_map in H as (ts & _ & H). now exists (fst ts).
Qed.

(** ** The merge of single and compound keywords *)

Lemma addSingles_In :
  forall maxKeywords singles acc x,
    In x (addSingles maxKeywords singles acc) -> In x acc \/ In x singles.
Proof.
  induction singles as [|s singles IH]; intros acc x H; cbn [addSingles] in H; [now left|].
  destruct (List.length acc <? maxKeywords)%nat; [|now left].
  destruct (mem (keyword s) (map keyword acc)).
  - destruct (IH _ _ H); [now left | right; now right].
  - destruct (IH _ _ H) as [Hacc|Hs]; [|right; now right].
    apply in_app_iff in Hacc as [Hacc|[<-|[]]]; [now left | right; now left].
Qed.

Lemma addCompounds_In :
  forall maxKeywords compounds acc x,
    In x (addCompounds maxKeywords compounds acc) -> In x acc \/ In x compounds.
Proof.
  induction compounds as [|c compounds IH]; intros acc x H; cbn [addCompounds] in H;
    [now left|].
  destruct (maxKeywords <=? List.length acc)%nat; [now left|].
  cbv zeta in H.
  match type of H with context [if ?b then _ else _] => destruct b end.
  - destruct (IH _ _ H) as [Hacc|Hc]; [|right; now right].
    apply in_app_iff in Hacc as [Hacc|[<-|[]]]; [now left | right; now left].
  - destruct (IH _ _ H); [now left | right; now right].
Qed.

(** Every bigram key is two words around a space. *)
Lemma bigrams_keys :
  forall words counts,
    (forall key, In key (JSMap.keys counts) -> includes " " key = true) ->
    forall key, In key (JSMap.keys (bigrams words counts)) -> includes " " key = true.
Proof.
  induction words as [|a r IH]; intros counts Hc key H; [now apply Hc|].
  destruct r as [|b r']; [now apply Hc|].
  cbn [bigrams] in H.
  destruct (isGenericAdWord a || isGenericAdWord b); [now apply (IH counts)|].
  destruct (a =? b); [now apply (IH counts)|].
  apply (IH _) in H; [exact H|].
  intros key' Hk. unfold bump in Hk. apply MapFacts.keys_set_In in Hk as [Hk| ->].
  - now apply Hc.
  - apply StringFacts.includes_spec. now exists (capitalize a), (capitalize b).
Qed.

Lemma bigram_fold_keys :
  forall bl bn (texts : list string) counts,
    (forall key, In key (JSMap.keys counts) -> includes " " key = true) ->
    forall key,
      In key (JSMap.keys
                (fold_left (fun cs text => bigrams (compoundWords text bl bn) cs) texts counts)) ->
      includes " " key = true.
Proof.
  induction texts as [|t texts IH]; intros counts Hc key Hk; cbn [fold_left] in Hk;
    [now apply Hc|].
  apply (IH _) in Hk; [exact Hk|]. intros key'. now apply bigrams_keys.
Qed.

Lemma compound_has_space :
  forall ads bl bn ck,
    In ck (generateCompoundKeywords ads bl bn) -> includes " " (keyword ck) = true.
Proof.
  intros ads bl bn ck H. unfold generateCompoundKeywords in H. cbv zeta in H.
  apply in_map_iff in H as ([key n] & <- & H). cbn [keyword fst].
  apply ListFacts.firstn_In, ListFacts.sortBy_In, filter_In in H as [H _].
  eapply bigram_fold_keys; [|apply in_map_iff; exists (key, n); split; [reflexivity|exact H]].
  intros ? [].
Qed.

Lemma single_keyword_entry :
  forall ads brandName maxKeywords sk,
    In sk (singleKeywords ads brandName maxKeywords) ->
    exists f srcs,
      In (keyword sk, (f, srcs))
         (scoreAll ads (toLowerCase brandName) (stripSeparators (toLowerCase brandName))) /\
      (minFrequency (List.length ads) <= f)%nat.
Proof.
  intros ads brandName maxKeywords sk H. unfold singleKeywords in H. cbv zeta in H.
  apply in_map_iff in H as ([key [f srcs]] & <- & H). cbn [keyword fst snd].
  apply ListFacts.firstn_In, ListFacts.sortBy_In, filter_In in H as [H Hf].
  exists f, srcs. split; [exact H|]. now apply Nat.leb_le in Hf.
Qed.

(** A keyword without a space is one of the single keywords. *)
Lemma single_token_origin :
  forall ads brandName maxKeywords k,
    In k (keywords (generateKeywords ads brandName maxKeywords)) ->
    includes " " k = false ->
    exists sk, In sk (singleKeywords ads brandName maxKeywords) /\ keyword sk = k.
Proof.
  intros ads brandName maxKeywords k H Hsp.
  unfold generateKeywords in H. cbv zeta in H. cbn [keywords] in H.
  apply in_map_iff in H as (sk & <- & H).
  apply addCompounds_In in H as [H|H].
  - apply addSingles_In in H as [[]|H]. now exists sk.
  - apply compound_has_space in H. congruence.
Qed.

(** ** Containment and case *)

Lemma smap_append :
  forall f a b, smap f (a ++ b)%string = (smap f a ++ smap f b)%string.
Proof.
  induction a as [|c a IH]; intros b; cbn; [reflexivity | now rewrite IH].
Qed.

Lemma includes_lower :
  forall a s, includes a s = true -> includes (toLowerCase a) (toLowerCase s) = true.
Proof.
  intros a s H. apply StringFacts.includes_spec in H as (p & q & ->).
  apply StringFacts.includes_spec. exists (toLowerCase p), (toLowerCase q).
  unfold toLowerCase. now rewrite !smap_append.
Qed.

Lemma minFrequency_bounds :
  forall n m, (minFrequency n <= m)%nat -> (3 <= m)%nat /\ (n <= 200 * m)%nat.
Proof.
  intros n m H. unfold minFrequency in H.
  pose proof (Nat.div_mod_eq (n + 199) 200) as E.
  pose proof (Nat.mod_upper_bound (n + 199) 200 ltac:(lia)) as U.
  lia.
Qed.

(** C9. A keyword of the generator's result without a space in it, a
    single-token keyword, occurs as a word of the brand's ad texts at
    least [max(3, ceil(0.5% of the analysed ads))] times: at least 3
    times and at least once per 200 analysed ads. It has at least 4
    characters, is not all digits, is neither a stop word nor a generic
    ad word, and it is not the brand name, contains it nowhere and is
    nowhere contained in it, whether the brand name is taken as given
    or in lower case, as the generator compares. *)
Theorem single_keywords_are_frequent_product_words :
  forall (ads : list MetaAd) (brandName : string) (maxKeywords : nat) (k : string),
    In k (keywords (generateKeywords ads brandName maxKeywords)) ->
    includes " " k = false ->
    (minFrequency (total_ads_analyzed (generateKeywords ads brandName maxKeywords))
     <= occurrences k ads)%nat /\
    (3 <= occurrences k ads)%nat /\
    (List.length ads <= 200 * occurrences k ads)%nat /\
    (4 <= String.length k)%nat /\
    allDigits k = false /\
    isStopWord k = false /\
    isGenericAdWord k = false /\
    (k =? toLowerCase brandName) = false /\
    includes k (toLowerCase brandName) = false /\
    includes (toLowerCase brandName) k = false /\
    (k =? brandName) = false /\
    includes k brandName = false /\
    includes brandName k = false.
Proof.
  intros ads brandName maxKeywords k Hk Hsp.
  destruct (single_token_origin ads brandName maxKeywords k Hk Hsp) as (sk & Hsk & <-).
  destruct (single_keyword_entry ads brandName maxKeywords sk Hsk) as (f & srcs & Hin & Hf).
  set (bl := toLowerCase brandName) in *. set (bn := stripSeparators bl) in *.
  pose proof (scoreAll_entry ads bl bn _ f srcs Hin) as Ef.
  pose proof (scoredWords_le ads bl bn (keyword sk)) as Hle.
  assert (Hocc : (minFrequency (List.length ads) <= occurrences (keyword sk) ads)%nat) by lia.
  destruct (minFrequency_bounds _ _ Hocc) as [H3 H200].
  assert (Hw : In (keyword sk) (scoredWords ads bl bn)).
  { apply (count_occ_In string_dec). unfold minFrequency in Hf. lia. }
  apply scoredWords_In in Hw as (text & Hw).
  apply scoreWords_In in Hw
    as (Hlen & Hlow & _ & Hdig & _ & Hstop & Hgen & Hbrand).
  unfold isBrandWord in Hbrand. cbv zeta in Hbrand. subst bn bl.
  apply orb_false_iff in Hbrand as [Hbrand Hin2].
  apply orb_false_iff in Hbrand as [Hbrand Hin1].
  apply orb_false_iff in Hbrand as [Heq _].
  split; [exact Hocc|]. split; [exact H3|]. split; [exact H200|].
  split; [exact Hlen|]. split; [exact Hdig|]. split; [exact Hstop|].
  split; [exact Hgen|]. split; [exact Heq|]. split; [exact Hin1|]. split; [exact Hin2|].
  split; [|split].
  - destruct (String.eqb_spec (keyword sk) brandName) as [E|]; [|reflexivity].
    rewrite <- E, Hlow, String.eqb_refl in Heq. discriminate.
  - destruct (includes (keyword sk) brandName) eqn:E; [|reflexivity].
    apply includes_lower in E. rewrite Hlow in E. congruence.
  - destruct (includes brandName (keyword sk)) eqn:E; [|reflexivity].
    apply includes_lower in E. rewrite Hlow in E. congruence.
Qed.

Lemma single_keywords_are_frequent_product_words_witness :
  (minFrequency (total_ads_analyzed (generateKeywords Examples.brandAdsGlow "Glow25" 10))
   <= occurrences "hyaluron" Examples.brandAdsGlow)%nat /\
  (3 <= occurrences "hyaluron" Examples.brandAdsGlow)%nat /\
  (List.length Examples.brandAdsGlow <= 200 * occurrences "hyaluron" Examples.brandAdsGlow)%nat /\
  (4 <= String.length "hyaluron")%nat /\
  allDigits "hyaluron" = false /\
  isStopWord "hyaluron" = false /\
  isGenericAdWord "hyaluron" = false /\
  ("hyaluron" =? toLowerCase "Glow25") = false /\
  includes "hyaluron" (toLowerCase "Glow25") = false /\
  includes (toLowerCase "Glow25") "hyaluron" = false /\
  ("hyaluron" =? "Glow25") = false /\
  includes "hyaluron" "Glow25" = false /\
  includes "Glow25" "hyaluron" = false.
Proof.
  apply (single_keywords_are_frequent_product_words Examples.brandAdsGlow "Glow25" 10 "hyaluron").
  - vm_compute. tauto.
  - reflexivity.
Defined.

End KeywordFacts.

(* ================================================================== *)
(** * The keyword list as a whole *)
(* ================================================================== *)

Module KeywordListFacts.
Import JS KeywordGenerator.

Lemma mem_keyword_false :
  forall k (acc : list KeywordScore),
    mem (keyword k) (map keyword acc) = false ->
    NoDup (map keyword acc) -> NoDup (map keyword (acc ++ [k])).
Proof.
  intros k acc Hm Hnd. rewrite map_app. cbn [map].
  apply NoDup_app; [exact Hnd | repeat constructor; cbn; tauto |].
  intros x Hx [<-|[]]. apply ListFacts.mem_false in Hm. contradiction.
Qed.

Lemma addSingles_bounded :
  forall maxKeywords singles acc,
    (List.length acc <= maxKeywords)%nat -> NoDup (map keyword acc) ->
    (List.length (addSingles maxKeywords singles acc) <= maxKeywords)%nat /\
    NoDup (map keyword (addSingles maxKeywords singles acc)).
Proof.
  induction singles as [|k singles IH]; intros acc Hlen Hnd; cbn [addSingles];
    [now split|].
  destruct (Nat.ltb_spec (List.length acc) maxKeywords) as [Hlt|_]; [|now split].
  destruct (mem (keyword k) (map keyword acc)) eqn:Hm; [now apply IH|].
  apply IH; [rewrite length_app; cbn; lia | now apply mem_keyword_false].
Qed.

Lemma addCompounds_bounded :
  forall maxKeywords compounds acc,
    (List.length acc <= maxKeywords)%nat -> NoDup (map keyword acc) ->
    (List.length (addCompounds maxKeywords compounds acc) <= maxKeywords)%nat /\
    NoDup (map keyword (addCompounds maxKeywords compounds acc)).
Proof.
  induction compounds as [|c compounds IH]; intros acc Hlen Hnd; cbn [addCompounds];
    [now split|].
  destruct (Nat.leb_spec maxKeywords (List.length acc)) as [_|Hlt]; [now split|].
  cbv zeta.
  destruct (mem (keyword c) (map keyword acc)) eqn:Hm.
  - rewrite andb_false_r. now apply IH.
  - match goal with |- context [if ?b then _ else _] => destruct b end.
    + apply IH; [rewrite length_app; cbn; lia | now apply mem_keyword_false].
    + now apply IH.
Qed.

(** The generator never returns more than [maxKeywords] keywords, and
    never the same keyword twice. *)
Theorem keywords_bounded_and_distinct :
  forall (ads : list MetaAd) (brandName : string) (maxKeywords : nat),
    (List.length (keywords (generateKeywords ads brandName maxKeywords)) <= maxKeywords)%nat /\
    NoDup (keywords (generateKeywords ads brandName maxKeywords)).
Proof.
  intros ads brandName maxKeywords. unfold generateKeywords. cbv zeta. cbn [keywords].
  rewrite length_map.
  apply addCompounds_bounded; apply addSingles_bounded; cbn; try lia; constructor.
Qed.

(** ** Order *)

Section SortedBy.
Context {A : Type} (f : A -> nat).

Local Abbreviation before := (fun a b : A => (f b <=? f a)%nat).
Local Abbreviation desc := (fun a b : A => (f b <= f a)%nat).

Lemma insert_sorted_desc :
  forall x l, StronglySorted desc l -> StronglySorted desc (insert_sorted before x l).
Proof.
  intros x l H. induction H as [|y l Hl IH Hy]; cbn [insert_sorted].
  - repeat constructor.
  - destruct (Nat.leb_spec (f y) (f x)) as [Hle|Hgt].
    + constructor; [now constructor|].
      constructor; [exact Hle|].
      eapply Forall_impl; [|exact Hy]. cbn. intros; lia.
    + constructor; [exact IH|].
      apply Forall_forall. intros z Hz.
      assert (Hin : In z (insert_sorted before x l) -> z = x \/ In z l).
      { clear. induction l as [|w l IHl]; cbn [insert_sorted].
        - intros [<-|[]]. now left.
        - destruct (f w <=? f x)%nat; intros [<-|H]; cbn; auto.
          destruct (IHl H); auto. }
      destruct (Hin Hz) as [->|Hzl]; [lia|].
      rewrite Forall_forall in Hy. now apply Hy.
Qed.

Lemma sortBy_desc : forall l, StronglySorted desc (sortBy before l).
Proof.
  induction l as [|x l IH]; cbn [sortBy]; [constructor | now apply insert_sorted_desc].
Qed.

Lemma firstn_desc :
  forall n l, StronglySorted desc l -> StronglySorted desc (firstn n l).
Proof.
  intros n l H. revert n. induction H as [|y l Hl IH Hy]; intros [|n]; cbn [firstn];
    try constructor; [apply IH|].
  apply Forall_forall. intros z Hz. rewrite Forall_forall in Hy.
  apply Hy. now apply ListFacts.firstn_In in Hz.
Qed.

End SortedBy.

Lemma map_desc :
  forall {A B} (g : A -> B) (fa : A -> nat) (fb : B -> nat) l,
    (forall a, fb (g a) = fa a) ->
    StronglySorted (fun a b => (fa b <= fa a)%nat) l ->
    StronglySorted (fun a b => (fb b <= fb a)%nat) (map g l).
Proof.
  intros A B g fa fb l E H. induction H as [|y l Hl IH Hy]; cbn [map]; constructor;
    [exact IH|].
  apply Forall_forall. intros z Hz. apply in_map_iff in Hz as (a & <- & Ha).
  rewrite Forall_forall in Hy. rewrite !E. now apply Hy.
Qed.

(** ** Distinct keys through filter, sort and slice *)

Lemma NoDup_map_filter :
  forall {A B} (g : A -> B) (p : A -> bool) l,
    NoDup (map g l) -> NoDup (map g (filter p l)).
Proof.
  induction l as [|x l IH]; intros H; cbn [filter map]; [constructor|].
  inversion H as [|? ? Hx Hl]; subst.
  destruct (p x); [|now apply IH].
  cbn [map]. constructor; [|now apply IH].
  intros Hin. apply Hx. apply in_map_iff in Hin as (a & E & Ha).
  apply in_map_iff. exists a. split; [exact E|]. now apply filter_In in Ha as [Ha _].
Qed.

Lemma NoDup_firstn : forall {A} n (l : list A), NoDup l -> NoDup (firstn n l).
Proof.
  intros A n l H. rewrite <- (firstn_skipn n l) in H.
  now apply NoDup_app_remove_r in H.
Qed.

Lemma singleKeywords_distinct :
  forall ads brandName maxKeywords,
    NoDup (map keyword (singleKeywords ads brandName maxKeywords)).
Proof.
  intros ads brandName maxKeywords. unfold singleKeywords. cbv zeta.
  rewrite map_map. cbn [keyword].
  rewrite <- firstn_map. apply NoDup_firstn.
  eapply Permutation_NoDup;
    [apply Permutation_sym, Permutation_map, ListFacts.sortBy_perm|].
  apply NoDup_map_filter. apply KeywordFacts.texts_NoDup. constructor.
Qed.

Lemma singleKeywords_length :
  forall ads brandName maxKeywords,
    (List.length (singleKeywords ads brandName maxKeywords) <= maxKeywords)%nat.
Proof.
  intros. unfold singleKeywords. cbv zeta. rewrite length_map, length_firstn. lia.
Qed.

(** ** The merge keeps the single keywords, in order *)

Lemma addSingles_all :
  forall maxKeywords singles acc,
    NoDup (map keyword (acc ++ singles)) ->
    (List.length (acc ++ singles) <= maxKeywords)%nat ->
    addSingles maxKeywords singles acc = acc ++ singles.
Proof.
  induction singles as [|k singles IH]; intros acc Hnd Hlen; cbn [addSingles];
    [now rewrite app_nil_r|].
  rewrite length_app in Hlen. cbn [List.length] in Hlen.
  destruct (Nat.ltb_spec (List.length acc) maxKeywords) as [_|Hge]; [|lia].
  assert (Hm : mem (keyword k) (map keyword acc) = false).
  { apply ListFacts.mem_false. intros Hin.
    rewrite map_app in Hnd. cbn [map] in Hnd.
    apply NoDup_remove_2 in Hnd. apply Hnd, in_or_app. now left. }
  rewrite Hm.
  replace (acc ++ k :: singles) with ((acc ++ [k]) ++ singles)
    by (now rewrite <- app_assoc).
  apply IH.
  - now rewrite <- app_assoc.
  - rewrite !length_app. cbn. lia.
Qed.

Lemma addCompounds_suffix :
  forall maxKeywords compounds acc,
    exists added,
      addCompounds maxKeywords compounds acc = acc ++ added /\
      incl added compounds.
Proof.
  induction compounds as [|c compounds IH]; intros acc; cbn [addCompounds].
  - exists []. split; [now rewrite app_nil_r | intros ? []].
  - destruct (maxKeywords <=? List.length acc)%nat.
    + exists []. split; [now rewrite app_nil_r | intros ? []].
    + cbv zeta. match goal with |- context [if ?b then _ else _] => destruct b end.
      * destruct (IH (acc ++ [c])) as (added & E & Hincl).
        exists (c :: added). split; [now rewrite E, <- app_assoc|].
        intros x [<-|Hx]; [now left | right; now apply Hincl].
      * destruct (IH acc) as (added & E & Hincl).
        exists added. split; [exact E | intros x Hx; right; now apply Hincl].
Qed.

Lemma spaceless_no_space : forall k, spaceless k = true -> includes " " k = false.
Proof.
  intros k H. rewrite StringFacts.includes_char. apply negb_false_iff.
  unfold spaceless in H. induction k as [|c k IH]; [reflexivity|].
  cbn [sforall] in *. apply andb_true_iff in H as [Hc Hk].
  rewrite (IH Hk), andb_true_r.
  destruct (Ascii.eqb_spec " "%char c) as [<-|]; [discriminate | reflexivity].
Qed.

(** The scores of the result are the single keywords, all of them and
    in order of frequency, most frequent first, followed by compound
    keywords.  The frequency reported for a single keyword is the number
    of times the tokenizer kept the word, which is at least the
    threshold; a single keyword has no space in it, a compound has. *)
Theorem keyword_scores_layout :
  forall (ads : list MetaAd) (brandName : string) (maxKeywords : nat),
    exists compounds,
      keyword_scores (generateKeywords ads brandName maxKeywords)
        = singleKeywords ads brandName maxKeywords ++ compounds /\
      StronglySorted (fun a b => (frequency b <= frequency a)%nat)
        (singleKeywords ads brandName maxKeywords) /\
      Forall (fun sk =>
                includes " " (keyword sk) = false /\
                frequency sk =
                  count_occ string_dec
                    (scoredWords ads (toLowerCase brandName)
                       (stripSeparators (toLowerCase brandName)))
                    (keyword sk) /\
                (minFrequency (List.length ads) <= frequency sk)%nat)
        (singleKeywords ads brandName maxKeywords) /\
      Forall (fun ck =>
                includes " " (keyword ck) = true /\ (3 <= frequency ck)%nat /\
                In ck (generateCompoundKeywords ads (toLowerCase brandName)
                         (stripSeparators (toLowerCase brandName))))
        compounds.
Proof.
  intros ads brandName maxKeywords.
  unfold generateKeywords. cbv zeta. cbn [keyword_scores].
  rewrite (addSingles_all maxKeywords (singleKeywords ads brandName maxKeywords) [])
    by (cbn [app]; first [apply singleKeywords_distinct | apply singleKeywords_length]).
  cbn [app].
  destruct (addCompounds_suffix maxKeywords
              (generateCompoundKeywords ads (toLowerCase brandName)
                 (stripSeparators (toLowerCase brandName)))
              (singleKeywords ads brandName maxKeywords)) as (added & E & Hincl).
  exists added. split; [exact E|]. split; [|split].
  - unfold singleKeywords. cbv zeta.
    apply (map_desc _ (fun ws : string * (nat * list Source) => fst (snd ws)) frequency);
      [reflexivity|].
    apply firstn_desc, sortBy_desc.
  - apply Forall_forall. intros sk Hsk.
    destruct (KeywordFacts.single_keyword_entry ads brandName maxKeywords sk Hsk)
      as (f & srcs & Hin & Hf).
    assert (Ef : frequency sk = f).
    { unfold singleKeywords in Hsk. cbv zeta in Hsk.
      apply in_map_iff in Hsk as ([key [f' srcs']] & <- & Hsk). cbn in *.
      apply ListFacts.firstn_In, ListFacts.sortBy_In, filter_In in Hsk as [Hsk _].
      assert (Hnd : NoDup (JSMap.keys
                (scoreAll ads (toLowerCase brandName)
                   (stripSeparators (toLowerCase brandName)))))
        by (apply KeywordFacts.texts_NoDup; constructor).
      pose proof (MapFacts.In_get _ _ _ Hsk Hnd) as G1.
      pose proof (MapFacts.In_get _ _ _ Hin Hnd) as G2.
      congruence. }
    pose proof (KeywordFacts.scoreAll_entry _ _ _ _ _ _ Hin) as Ec.
    split; [|split; [congruence | lia]].
    assert (Hw : In (keyword sk)
                   (scoredWords ads (toLowerCase brandName)
                      (stripSeparators (toLowerCase brandName)))).
    { apply (count_occ_In string_dec). unfold minFrequency in Hf. lia. }
    apply KeywordFacts.scoredWords_In in Hw as (text & Hw).
    apply KeywordFacts.scoreWords_In in Hw as (_ & _ & Hsp & _).
    now apply spaceless_no_space.
  - apply Forall_forall. intros ck Hck. apply Hincl in Hck.
    split; [exact (KeywordFacts.compound_has_space _ _ _ ck Hck)|]. split; [|exact Hck].
    unfold generateCompoundKeywords in Hck. cbv zeta in Hck.
    apply in_map_iff in Hck as ([key n] & <- & Hck). cbn [frequency snd].
    apply ListFacts.firstn_In, ListFacts.sortBy_In, filter_In in Hck as [_ Hn].
    now apply Nat.leb_le in Hn.
Qed.

(** ** Compound keywords *)

Section Compounds.
Variables (texts : list string) (bl bn : string).

(** A bigram key: two different neighbours among the words of one
    text, neither of them a generic ad word. *)
Local Abbreviation pairKey := (fun key : string =>
  exists text a b pre post,
    In text texts /\
    compoundWords text bl bn = pre ++ a :: b :: post /\
    a <> b /\ isGenericAdWord a = false /\ isGenericAdWord b = false /\
    key = (capitalize a ++ " " ++ capitalize b)%string).

Lemma bigrams_pairs :
  forall text words pre counts,
    In text texts ->
    compoundWords text bl bn = pre ++ words ->
    (forall key, In key (JSMap.keys counts) -> pairKey key) ->
    forall key, In key (JSMap.keys (bigrams words counts)) -> pairKey key.
Proof.
  intros text. induction words as [|a r IH]; intros pre counts Ht Hw Hc key H;
    [now apply Hc|].
  destruct r as [|b r']; [now apply Hc|].
  assert (Hw' : compoundWords text bl bn = (pre ++ [a]) ++ b :: r')
    by (now rewrite <- app_assoc).
  cbn [bigrams] in H.
  destruct (isGenericAdWord a || isGenericAdWord b) eqn:Hg;
    [now apply (IH (pre ++ [a]) counts)|].
  apply orb_false_iff in Hg as [Hga Hgb].
  destruct (String.eqb_spec a b) as [Hab|Hab]; [now apply (IH (pre ++ [a]) counts)|].
  apply (IH (pre ++ [a]) _ Ht Hw') in H; [exact H|].
  intros key' Hk. unfold bump in Hk. apply MapFacts.keys_set_In in Hk as [Hk| ->].
  - now apply Hc.
  - exists text, a, b, pre, r'. repeat split; assumption.
Qed.

Lemma bigram_fold_pairs :
  forall ts counts,
    incl ts texts ->
    (forall key, In key (JSMap.keys counts) -> pairKey key) ->
    forall key,
      In key (JSMap.keys
                (fold_left (fun cs text => bigrams (compoundWords text bl bn) cs) ts counts)) ->
      pairKey key.
Proof.
  induction ts as [|t ts IH]; intros counts Hincl Hc key Hk; cbn [fold_left] in Hk;
    [now apply Hc|].
  apply (IH _) in Hk; [exact Hk | intros x Hx; apply Hincl; now right |].
  intros key'. apply (bigrams_pairs t _ []); [apply Hincl; now left | reflexivity | exact Hc].
Qed.

End Compounds.

(** What the filters shared by both tokenizers leave of a text. *)
Lemma compoundWords_In :
  forall text bl bn w,
    In w (compoundWords text bl bn) ->
    (4 <= String.length w)%nat /\ allDigits w = false /\ isStopWord w = false /\
    isBrandWord w bl bn = false.
Proof.
  intros text bl bn w H. unfold compoundWords, baseWords in H.
  repeat (apply filter_In in H as [H ?]).
  apply in_map_iff in H as (t & <- & H). apply filter_In in H as [H Hlen].
  rewrite (KeywordFacts.token_trim _ t H) in *.
  repeat match goal with
         | E : negb _ = true |- _ => apply negb_true_iff in E
         end.
  apply Nat.leb_le in Hlen.
  repeat split; try assumption.
  unfold toLowerCase. now rewrite JSFacts.smap_length.
Qed.

(** At most ten compound keywords are generated.  Each is made of two
    different words that stand next to each other among the words kept
    of one body or link title, capitalised and joined by a space; both
    words have at least four characters and are no stop words, generic
    ad words or brand words; and the pair was seen at least 3 times. *)
Theorem compound_keywords_are_frequent_pairs :
  forall (ads : list MetaAd) (brandLower brandNormalized : string),
    (List.length (generateCompoundKeywords ads brandLower brandNormalized) <= 10)%nat /\
    Forall
      (fun ck =>
         (3 <= frequency ck)%nat /\
         exists text a b pre post,
           In text (flat_map (fun ad => orEmpty (ad_creative_bodies ad) ++
                                        orEmpty (ad_creative_link_titles ad)) ads) /\
           compoundWords text brandLower brandNormalized = pre ++ a :: b :: post /\
           a <> b /\
           keyword ck = (capitalize a ++ " " ++ capitalize b)%string /\
           Forall (fun w => (4 <= String.length w)%nat /\ allDigits w = false /\
                            isStopWord w = false /\ isGenericAdWord w = false /\
                            isBrandWord w brandLower brandNormalized = false) [a; b])
      (generateCompoundKeywords ads brandLower brandNormalized).
Proof.
  intros ads bl bn. split.
  - unfold generateCompoundKeywords. cbv zeta. rewrite length_map, length_firstn. lia.
  - apply Forall_forall. intros ck Hck.
    unfold generateCompoundKeywords in Hck. cbv zeta in Hck.
    apply in_map_iff in Hck as ([key n] & <- & Hck). cbn [frequency keyword fst snd].
    apply ListFacts.firstn_In, ListFacts.sortBy_In, filter_In in Hck as [Hck Hn].
    split; [now apply Nat.leb_le in Hn|].
    assert (Hkey : In key (JSMap.keys
              (fold_left (fun cs text => bigrams (compoundWords text bl bn) cs)
                 (flat_map (fun ad => orEmpty (ad_creative_bodies ad) ++
                                      orEmpty (ad_creative_link_titles ad)) ads) [])))
      by (apply in_map_iff; exists (key, n); split; [reflexivity | exact Hck]).
    apply (bigram_fold_pairs _ bl bn _ [] (incl_refl _)) in Hkey; [|intros ? []].
    destruct Hkey as (text & a & b & pre & post & Ht & Hw & Hab & Hga & Hgb & ->).
    exists text, a, b, pre, post. repeat split; try assumption.
    assert (Ha : In a (compoundWords text bl bn))
      by (rewrite Hw; apply in_or_app; right; now left).
    assert (Hb : In b (compoundWords text bl bn))
      by (rewrite Hw; apply in_or_app; right; right; now left).
    apply compoundWords_In in Ha as (? & ? & ? & ?).
    apply compoundWords_In in Hb as (? & ? & ? & ?).
    repeat constructor; assumption.
Qed.

End KeywordListFacts.

(* ================================================================== *)
(** * The candidate maps as a whole *)
(* ================================================================== *)

Module AggregatorShape.
Import JS Aggregator.
Module B := BrandInfo.

(** ** Two maps updated at the same key *)

Section Paired.
Context {V W : Type} (R : string -> V -> W -> Prop).

Local Abbreviation paired := (Forall2 (fun (e : string * V) (c : string * W) =>
                                         fst e = fst c /\ R (fst e) (snd e) (snd c))).

Lemma paired_get :
  forall m1 m2 k,
    paired m1 m2 ->
    match JSMap.get k m1, JSMap.get k m2 with
    | Some a, Some b => R k a b
    | None, None => True
    | _, _ => False
    end.
Proof.
  intros m1 m2 k H. induction H as [|[k1 v] [k2 w] m1 m2 [E HR] _ IH]; cbn; [exact I|].
  cbn in E, HR. subst k2.
  destruct (String.eqb_spec k1 k) as [->|_]; [exact HR | exact IH].
Qed.

Lemma paired_set :
  forall m1 m2 k v w,
    paired m1 m2 -> R k v w -> paired (JSMap.set k v m1) (JSMap.set k w m2).
Proof.
  intros m1 m2 k v w H HR. induction H as [|[k1 v1] [k2 w1] m1 m2 [E HR1] H IH]; cbn.
  - repeat constructor; assumption.
  - cbn in E, HR1. subst k2.
    destruct (String.eqb_spec k1 k) as [->|_]; constructor; cbn; auto.
Qed.

Lemma paired_keys : forall m1 m2, paired m1 m2 -> JSMap.keys m1 = JSMap.keys m2.
Proof.
  intros m1 m2 H. induction H as [|[k1 v1] [k2 w1] m1 m2 [E _] _ IH]; cbn;
    [reflexivity|]. cbn in E. unfold JSMap.keys in IH. now rewrite E, IH.
Qed.

End Paired.

(** ** The candidate maps *)

(** What links the page list of a candidate domain to its ad count. *)
Local Abbreviation linked := (fun (key : string) (pages : list string) (n : nat) =>
  isExcluded key = false /\ NoDup pages /\
  (1 <= List.length pages)%nat /\ (List.length pages <= n)%nat).

Local Abbreviation shape := (fun st : State =>
  NoDup (JSMap.keys (domainPageMap (result st))) /\
  Forall2 (fun (e : string * list string) (c : string * nat) =>
             fst e = fst c /\ linked (fst e) (snd e) (snd c))
    (domainPageMap (result st)) (domainAdCount (result st))).

Lemma perCaption_shape :
  forall brandInfo pageId st caption,
    shape st -> shape (perCaption brandInfo pageId st caption).
Proof.
  intros brandInfo pageId st caption [Hnd H]. unfold perCaption.
  destruct (UrlExtractor.extractDomainFromCaption (Some caption)) as [domain|];
    [|now split].
  cbv zeta.
  destruct (mem (toLowerCase domain) (brandDomains st)); [now split|].
  destruct (isExcluded (toLowerCase domain)) eqn:Hex; [now split|].
  destruct (containsAlias (toLowerCase domain) brandInfo); [now split|].
  cbn [result domainPageMap domainAdCount].
  split; [now apply MapFacts.NoDup_keys_set|].
  apply (paired_set linked); [exact H|].
  pose proof (paired_get linked _ _ (toLowerCase domain) H) as G.
  destruct (JSMap.get (toLowerCase domain) (domainPageMap (result st))) as [l|];
    destruct (JSMap.get (toLowerCase domain) (domainAdCount (result st))) as [n|];
    try contradiction.
  - destruct G as (_ & Hl & H1 & Hn).
    destruct (mem pageId l) eqn:Hm.
    + repeat split; try assumption. lia.
    + repeat split; try assumption.
      * apply NoDup_app; [exact Hl | repeat constructor; cbn; tauto |].
        intros x Hx [<-|[]]. apply ListFacts.mem_false in Hm. contradiction.
      * rewrite length_app. cbn. lia.
      * rewrite length_app. cbn. lia.
  - cbn. repeat split; try assumption; try lia. repeat constructor. cbn; tauto.
Qed.

Lemma extractUniqueDomains_shape :
  forall brandInfo ads st, shape st -> shape (fold_left (perAd brandInfo) ads st).
Proof.
  induction ads as [|ad ads IH]; intros st H; [exact H|].
  cbn [fold_left]. apply IH. unfold perAd. cbv zeta.
  generalize (orDefault (page_id ad) "unknown"). intros pageId.
  match goal with |- context [fold_left _ ?cs ?s0] =>
    assert (H0 : shape s0) by exact H; revert H0; generalize s0; generalize cs end.
  induction l as [|c l IHl]; intros s Hs; [exact Hs|].
  cbn [fold_left]. apply IHl. now apply perCaption_shape.
Qed.

Lemma candidate_maps_distinct :
  forall ads brandInfo,
    NoDup (JSMap.keys (domainPageMap (extractUniqueDomains ads brandInfo))).
Proof.
  intros ads brandInfo. unfold extractUniqueDomains.
  match goal with |- context [fold_left _ ads ?s0] =>
    destruct (extractUniqueDomains_shape brandInfo ads s0) as [H _] end;
    [split; constructor | exact H].
Qed.

(** A domain with a page list has an ad count. *)
Lemma candidate_count_get :
  forall ads brandInfo d pages,
    JSMap.get d (domainPageMap (extractUniqueDomains ads brandInfo)) = Some pages ->
    exists n, JSMap.get d (domainAdCount (extractUniqueDomains ads brandInfo)) = Some n.
Proof.
  intros ads brandInfo d pages Hp. unfold extractUniqueDomains in *.
  match goal with |- context [fold_left _ ads ?s0] =>
    destruct (extractUniqueDomains_shape brandInfo ads s0) as [_ H] end.
  { split; constructor. }
  pose proof (paired_get linked _ _ d H) as G. rewrite Hp in G.
  match goal with |- exists n, ?x = _ => destruct x as [n|] end;
    [now exists n | contradiction].
Qed.

(** The two candidate maps have the same keys in the same order, each
    once.  No key is a platform domain or a subdomain of one.  The page
    list of a domain is not empty and names no page twice, and the ad
    count of the domain is at least the number of its pages. *)
Theorem candidate_maps_agree :
  forall (ads : list MetaAd) (brandInfo : B.t),
    NoDup (JSMap.keys (domainPageMap (extractUniqueDomains ads brandInfo))) /\
    JSMap.keys (domainAdCount (extractUniqueDomains ads brandInfo))
      = JSMap.keys (domainPageMap (extractUniqueDomains ads brandInfo)) /\
    Forall2 (fun (e : string * list string) (c : string * nat) =>
               fst e = fst c /\ isExcluded (fst e) = false /\ NoDup (snd e) /\
               (1 <= List.length (snd e))%nat /\ (List.length (snd e) <= snd c)%nat)
      (domainPageMap (extractUniqueDomains ads brandInfo))
      (domainAdCount (extractUniqueDomains ads brandInfo)).
Proof.
  intros ads brandInfo. unfold extractUniqueDomains.
  match goal with |- context [fold_left _ ads ?s0] =>
    destruct (extractUniqueDomains_shape brandInfo ads s0) as [Hnd H] end.
  { split; constructor. }
  split; [exact Hnd|]. split; [|exact H].
  symmetry. exact (paired_keys linked _ _ H).
Qed.

(** ** The page table *)

Lemma In_set :
  forall {V} (m : JSMap.t V) k v e, In e (JSMap.set k v m) -> e = (k, v) \/ In e m.
Proof.
  induction m as [|[k' v'] m IH]; intros k v e H; cbn in H.
  - destruct H as [<-|[]]. now left.
  - destruct (k' =? k) eqn:E.
    + apply String.eqb_eq in E. subst k'.
      destruct H as [<-|H]; [now left | right; now right].
    + destruct H as [<-|H]; [right; now left|].
      destruct (IH _ _ _ H); [now left | right; now right].
Qed.

Lemma list_sum_cons : forall x l, list_sum (x :: l) = (x + list_sum l)%nat.
Proof. reflexivity. Qed.

Local Abbreviation adsCounted := (fun pages : JSMap.t PageEntry =>
  list_sum (map (fun e : string * PageEntry => count (snd e)) pages)).

Lemma adsCounted_set :
  forall pages k p,
    match JSMap.get k pages with
    | Some old => (adsCounted (JSMap.set k p pages) + count old)%nat
    | None => adsCounted (JSMap.set k p pages)
    end = (adsCounted pages + count p)%nat.
Proof.
  induction pages as [|[k' p'] pages IH]; intros k p; cbn [JSMap.set JSMap.get].
  - cbn. lia.
  - destruct (k' =? k).
    + cbn [map]. rewrite !list_sum_cons. cbn [snd]. lia.
    + cbn [map]. specialize (IH k p).
      destruct (JSMap.get k pages); rewrite !list_sum_cons; cbn [snd] in *; lia.
Qed.

Lemma addDomainToPage_keys :
  forall pageId d pages,
    JSMap.keys (addDomainToPage pageId d pages) = JSMap.keys pages.
Proof.
  intros pageId d pages. unfold addDomainToPage.
  destruct (JSMap.get pageId pages) as [p|] eqn:E; [|reflexivity].
  eapply MapFacts.keys_set_present; eassumption.
Qed.

Lemma addDomainToPage_counted :
  forall pageId d pages,
    adsCounted (addDomainToPage pageId d pages) = adsCounted pages.
Proof.
  intros pageId d pages. unfold addDomainToPage.
  destruct (JSMap.get pageId pages) as [p|] eqn:E; [|reflexivity].
  match goal with |- context [JSMap.set pageId ?q pages] =>
    pose proof (adsCounted_set pages pageId q) as H end.
  rewrite E in H. cbn [count] in H. lia.
Qed.

(** A page keeps its entry, its count and its domains when a domain is
    added to a page; the page it is added to has it afterwards. *)
Lemma addDomainToPage_get :
  forall pageId d pages pid p,
    JSMap.get pid pages = Some p ->
    exists p',
      JSMap.get pid (addDomainToPage pageId d pages) = Some p' /\
      count p' = count p /\ name p' = name p /\
      incl (domains p) (domains p') /\
      (NoDup (domains p) -> NoDup (domains p')) /\
      (pid = pageId -> In d (domains p')).
Proof.
  intros pageId d pages pid p H. unfold addDomainToPage.
  destruct (JSMap.get pageId pages) as [q|] eqn:E.
  - destruct (String.eqb_spec pageId pid) as [->|Hne].
    + rewrite MapFacts.get_set_same. eexists. split; [reflexivity|].
      assert (q = p) by congruence. subst q. cbn [count name domains].
      destruct (mem d (domains p)) eqn:Hm.
      * repeat split; auto using incl_refl. intros _. now apply ListFacts.mem_In.
      * repeat split; auto using incl_appl, incl_refl.
        -- intros Hnd. apply NoDup_app; [exact Hnd | repeat constructor; cbn; tauto |].
           intros x Hx [<-|[]]. apply ListFacts.mem_false in Hm. contradiction.
        -- intros _. apply in_or_app. right. now left.
    + rewrite (MapFacts.get_set_other _ _ _ _ Hne). exists p.
      repeat split; auto using incl_refl. intros ->. contradiction.
  - exists p. repeat split; auto using incl_refl. intros ->. congruence.
Qed.

Local Abbreviation mirrored := (fun r : DomainExtractionResult =>
  forall key pages, In (key, pages) (domainPageMap r) ->
  forall pid, In pid pages ->
  exists p, JSMap.get pid (allPages r) = Some p /\ In key (domains p)).

Local Abbreviation table := (fun (st : State) (n : nat) =>
  NoDup (JSMap.keys (allPages (result st))) /\
  adsCounted (allPages (result st)) = n /\
  Forall (fun e : string * PageEntry =>
            (1 <= count (snd e))%nat /\ NoDup (domains (snd e)))
    (allPages (result st)) /\
  mirrored (result st)).

Lemma perCaption_table :
  forall brandInfo pageId st caption n,
    JSMap.get pageId (allPages (result st)) <> None ->
    table st n ->
    JSMap.get pageId (allPages (result (perCaption brandInfo pageId st caption))) <> None /\
    table (perCaption brandInfo pageId st caption) n.
Proof.
  intros brandInfo pageId st caption n Hpid (Hnd & Hsum & Hall & Hmir).
  unfold perCaption.
  destruct (UrlExtractor.extractDomainFromCaption (Some caption)) as [domain|];
    [|now repeat split].
  cbv zeta.
  destruct (mem (toLowerCase domain) (brandDomains st)); [now repeat split|].
  destruct (isExcluded (toLowerCase domain)); [now repeat split|].
  destruct (containsAlias (toLowerCase domain) brandInfo); [now repeat split|].
  cbn [result domainPageMap allPages].
  set (d := toLowerCase domain).
  destruct (JSMap.get pageId (allPages (result st))) as [p0|] eqn:Ep0; [|contradiction].
  destruct (addDomainToPage_get pageId d _ pageId p0 Ep0) as (p0' & G0 & _ & _ & _ & _ & Hd0).
  split; [rewrite G0; discriminate|].
  split; [now rewrite addDomainToPage_keys|].
  split; [now rewrite addDomainToPage_counted|].
  split.
  - apply Forall_forall. intros [k p'] Hin.
    assert (Hk : NoDup (JSMap.keys (addDomainToPage pageId d (allPages (result st)))))
      by (now rewrite addDomainToPage_keys).
    pose proof (MapFacts.In_get _ _ _ Hin Hk) as G.
    assert (Hkey : In k (JSMap.keys (allPages (result st)))).
    { rewrite <- (addDomainToPage_keys pageId d). eapply MapFacts.get_Some_key; eassumption. }
    apply MapFacts.key_get in Hkey as (p & Gp).
    destruct (addDomainToPage_get pageId d _ k p Gp) as (p'' & G' & Hc & _ & _ & Hnd' & _).
    assert (p'' = p') by congruence. subst p''.
    rewrite Forall_forall in Hall.
    destruct (Hall (k, p) (MapFacts.get_In _ _ _ Gp)) as [H1 H2]. cbn [snd] in *.
    split; [lia | auto].
  - intros key pages Hin pid Hpidin.
    apply In_set in Hin as [E|Hin].
    + injection E as -> ->.
      assert (Hcase : pid = pageId \/
                      exists l, In (d, l) (domainPageMap (result st)) /\ In pid l).
      { destruct (JSMap.get d (domainPageMap (result st))) as [l|] eqn:El.
        - apply MapFacts.get_In in El.
          destruct (mem pageId l); [right; now exists l|].
          apply in_app_iff in Hpidin as [H|[<-|[]]]; [right; now exists l | now left].
        - cbn in Hpidin. destruct Hpidin as [<-|[]]. now left. }
      destruct Hcase as [->|(l & Hl & Hpl)].
      * exists p0'. split; [exact G0 | now apply Hd0].
      * destruct (Hmir d l Hl pid Hpl) as (p & Gp & Hdp).
        destruct (addDomainToPage_get pageId d _ pid p Gp) as (p' & G' & _ & _ & Hi & _).
        exists p'. split; [exact G' | now apply Hi].
    + destruct (Hmir key pages Hin pid Hpidin) as (p & Gp & Hdp).
      destruct (addDomainToPage_get pageId d _ pid p Gp) as (p' & G' & _ & _ & Hi & _).
      exists p'. split; [exact G' | now apply Hi].
Qed.

Lemma captions_table :
  forall brandInfo pageId captions st n,
    JSMap.get pageId (allPages (result st)) <> None ->
    table st n ->
    table (fold_left (perCaption brandInfo pageId) captions st) n.
Proof.
  induction captions as [|c captions IH]; intros st n Hpid H; [exact H|].
  cbn [fold_left].
  destruct (perCaption_table brandInfo pageId st c n Hpid H) as [Hpid' H'].
  now apply IH.
Qed.

Lemma perAd_table :
  forall brandInfo st ad n, table st n -> table (perAd brandInfo st ad) (S n).
Proof.
  intros brandInfo st ad n (Hnd & Hsum & Hall & Hmir). unfold perAd. cbv zeta.
  set (pageId := orDefault (page_id ad) "unknown").
  apply captions_table; cbn [result allPages domainPageMap].
  - rewrite MapFacts.get_set_same. discriminate.
  - split; [now apply MapFacts.NoDup_keys_set|]. split; [|split].
    + match goal with |- context [JSMap.set pageId ?q _] =>
        pose proof (adsCounted_set (allPages (result st)) pageId q) as H end.
      destruct (JSMap.get pageId (allPages (result st))) as [p|];
        cbn [count name domains] in H |- *; lia.
    + apply Forall_forall. intros e He. apply In_set in He as [->|He].
      * cbn [snd count domains]. split; [lia|].
        destruct (JSMap.get pageId (allPages (result st))) as [p|] eqn:Ep; [|constructor].
        rewrite Forall_forall in Hall.
        now destruct (Hall _ (MapFacts.get_In _ _ _ Ep)).
      * rewrite Forall_forall in Hall. now apply Hall.
    + intros key pages Hin pid Hpid.
      destruct (Hmir key pages Hin pid Hpid) as (p & Gp & Hdp).
      destruct (String.eqb_spec pageId pid) as [<-|Hne].
      * rewrite MapFacts.get_set_same, Gp. eexists. split; [reflexivity | exact Hdp].
      * rewrite (MapFacts.get_set_other _ _ _ _ Hne). now exists p.
Qed.

Lemma ads_table :
  forall brandInfo ads st n,
    table st n -> table (fold_left (perAd brandInfo) ads st) (List.length ads + n)%nat.
Proof.
  induction ads as [|ad ads IH]; intros st n H; [exact H|].
  cbn [fold_left List.length]. replace (S (List.length ads) + n)%nat
    with (List.length ads + S n)%nat by lia.
  apply IH. now apply perAd_table.
Qed.

(** The page table counts every ad once: each page is entered once, the
    counts of the pages add up to the number of ads, and every page has
    at least one ad.  It mirrors the candidate map: a page listed for a
    candidate domain has an entry whose domains contain that domain;
    no page lists a domain twice. *)
Theorem page_table_counts_every_ad :
  forall (ads : list MetaAd) (brandInfo : B.t),
    NoDup (JSMap.keys (allPages (extractUniqueDomains ads brandInfo))) /\
    list_sum (map (fun e : string * PageEntry => count (snd e))
                (allPages (extractUniqueDomains ads brandInfo)))
      = List.length ads /\
    Forall (fun e : string * PageEntry =>
              (1 <= count (snd e))%nat /\ NoDup (domains (snd e)))
      (allPages (extractUniqueDomains ads brandInfo)) /\
    Forall (fun e : string * list string =>
              Forall (fun pid =>
                        exists p,
                          JSMap.get pid (allPages (extractUniqueDomains ads brandInfo))
                            = Some p /\
                          In (fst e) (domains p))
                (snd e))
      (domainPageMap (extractUniqueDomains ads brandInfo)).
Proof.
  intros ads brandInfo. unfold extractUniqueDomains.
  match goal with |- context [fold_left _ ads ?s0] =>
    destruct (ads_table brandInfo ads s0 0%nat) as (Hnd & Hsum & Hall & Hmir) end.
  { repeat split; try constructor. intros ? ? []. }
  split; [exact Hnd|]. split; [rewrite Hsum; lia|]. split; [exact Hall|].
  apply Forall_forall. intros [key pages] Hin. apply Forall_forall. intros pid Hpid.
  exact (Hmir key pages Hin pid Hpid).
Qed.

End AggregatorShape.

(* ================================================================== *)
(** * The results of the cascade *)
(* ================================================================== *)

Module CascadeResultFacts.
Import JS Cascade CascadeShape.
Module B := BrandInfo.

Lemma vendorLoop_confidence :
  forall brandLower vs,
    Shopify.found (Shopify.vendorLoop brandLower vs) = true ->
    Shopify.confidence (Shopify.vendorLoop brandLower vs) = 95 \/
    Shopify.confidence (Shopify.vendorLoop brandLower vs) = 80 \/
    Shopify.confidence (Shopify.vendorLoop brandLower vs) = 85.
Proof.
  intros brandLower vs. induction vs as [|v vs IH]; cbn [Shopify.vendorLoop].
  - discriminate.
  - destruct (Shopify.vendorTier brandLower v) as [c|] eqn:E; [|exact IH].
    intros _. cbn. unfold Shopify.vendorTier in E. cbv zeta in E.
    repeat match type of E with
           | (if ?b then _ else _) = _ => destruct b
           end; try discriminate; injection E as <-; auto.
Qed.

Lemma vendorCheck_confidence :
  forall w d vn,
    Shopify.found (value (Shopify.shopifyStoreHasVendor w d vn)) = true ->
    Shopify.confidence (value (Shopify.shopifyStoreHasVendor w d vn)) = 95 \/
    Shopify.confidence (value (Shopify.shopifyStoreHasVendor w d vn)) = 80 \/
    Shopify.confidence (value (Shopify.shopifyStoreHasVendor w d vn)) = 85.
Proof.
  intros w d vn. unfold Shopify.shopifyStoreHasVendor.
  rewrite Step6Facts.value_bind.
  destruct (value (Shopify.fetchProductsJson w d)) as [p|]; rewrite Step6Facts.value_ret.
  - apply vendorLoop_confidence.
  - discriminate.
Qed.

Ltac net := DirectFacts.net.
Ltac cases := DirectFacts.cases.

(** Closes a goal [settled domain m] for a record built by a step. *)
Ltac settle :=
  match goal with
  | Hp : pending _ _ |- settled _ _ =>
      destruct Hp as (Hd & Hm & Hk & Hc & Hs & Hv & Hpg & Hn);
      unfold settled; cbn;
      repeat split; auto;
      try (match goal with
           | V : Shopify.found (value (Shopify.shopifyStoreHasVendor ?w ?d ?vn)) = true |- _ =>
               exact (vendorCheck_confidence w d vn V)
           end)
  end.

Lemma contentCheck_settled :
  forall domain html brandDomain brandInfo r m,
    pending domain r ->
    contentCheck html brandDomain brandInfo r = Some m -> settled domain m.
Proof.
  intros domain html brandDomain brandInfo r m Hp H. unfold contentCheck in H.
  cases; settle.
Qed.

Lemma step6c_settled :
  forall domain w d brandDomain brandInfo html r m,
    pending domain r ->
    value (step6c w d brandDomain brandInfo html r) = Some m -> settled domain m.
Proof.
  intros domain w d brandDomain brandInfo html r m Hp H. unfold step6c in H.
  cases; try (eapply contentCheck_settled; eassumption); try settle.
Qed.

Lemma presellLoop_settled :
  forall domain w brandInfo timeout urls r m,
    pending domain r ->
    value (presellLoop w brandInfo timeout urls r) = Some m -> settled domain m.
Proof.
  intros domain w brandInfo timeout urls r m Hp.
  induction urls as [|u urls IH]; intros H.
  - discriminate.
  - cbn [presellLoop] in H. cases; auto; settle.
Qed.

Lemma landingUrlLoop_settled :
  forall domain w brandInfo urls r m,
    pending domain r ->
    landingUrlLoop w brandInfo urls r = Some m -> settled domain m.
Proof.
  intros domain w brandInfo urls r m Hp. induction urls as [|u urls IH]; intros H.
  - discriminate.
  - cbn [landingUrlLoop] in H. cases; auto; settle.
Qed.

Lemma landingFetchLoop_settled :
  forall domain w brandDomain brandInfo urls r m,
    pending domain r ->
    value (landingFetchLoop w brandDomain brandInfo urls r) = Some m -> settled domain m.
Proof.
  intros domain w brandDomain brandInfo urls r m Hp.
  induction urls as [|u urls IH]; intros H.
  - discriminate.
  - cbn [landingFetchLoop] in H. cases; auto; settle.
Qed.

Lemma step6f_settled :
  forall domain w brandDomain brandInfo opts r m,
    pending domain r ->
    value (step6f w brandDomain brandInfo opts r) = Some m -> settled domain m.
Proof.
  intros domain w brandDomain brandInfo opts r m Hp H. unfold step6f in H.
  cases; try discriminate;
    first [eapply landingUrlLoop_settled; eassumption
          | eapply landingFetchLoop_settled; eassumption].
Qed.

Lemma dualDomain_settled :
  forall domain d brandInfo opts r m,
    pending domain r ->
    dualDomain d brandInfo opts r = Some m -> settled domain m.
Proof.
  intros domain d brandInfo opts r m Hp H. unfold dualDomain in H.
  cases; settle.
Qed.

Lemma ctaLinkLoop_settled :
  forall domain w brandInfo links r m,
    pending domain r ->
    value (ctaLinkLoop w brandInfo links r) = Some m -> settled domain m.
Proof.
  intros domain w brandInfo links r m Hp. induction links as [|l links IH]; intros H.
  - discriminate.
  - cbn [ctaLinkLoop] in H. cases; auto; settle.
Qed.

Lemma step6g_settled :
  forall domain w d brandDomain brandInfo opts r m,
    pending domain r ->
    value (step6g w d brandDomain brandInfo opts r) = Some m -> settled domain m.
Proof.
  intros domain w d brandDomain brandInfo opts r m Hp H. unfold step6g in H.
  destruct (truthy (scrapingbee_key opts)); [|discriminate].
  cbv zeta in H.
  cases; try discriminate; try (eapply ctaLinkLoop_settled; eassumption); settle.
Qed.

Lemma pending_withFetch :
  forall domain r u c, pending domain r -> pending domain (C.withFetch r u c).
Proof.
  intros domain r u c (Hd & Hm & Hk & Hc & Hs & Hv & Hpg & Hn).
  unfold pending. cbn. repeat split; assumption.
Qed.

Lemma step6bcd_settled :
  forall domain w brandDomain brandInfo opts timeout r,
    pending domain r ->
    match value (step6bcd w domain brandDomain brandInfo opts timeout r) with
    | Return m => settled domain m
    | Continue r' => pending domain r'
    end.
Proof.
  intros domain w brandDomain brandInfo opts timeout r Hp. unfold step6bcd.
  net. destruct (value (fetchWithRedirects w domain timeout)) as [f|]; [|net; exact Hp].
  pose proof (pending_withFetch domain r (fr_final_url f) (fr_chain f) Hp) as Hp1.
  destruct (matchingDomain _ brandInfo); [net; clear Hp; settle|].
  net. destruct (value (step6c _ _ _ _ _ _)) as [m|] eqn:E6c.
  - net. eapply step6c_settled; eassumption.
  - net. destruct (value (presellLoop _ _ _ _ _)) as [m|] eqn:Ep.
    + net. eapply presellLoop_settled; eassumption.
    + net. exact Hp1.
Qed.

Lemma initial_pending : forall domain, pending domain (initial domain).
Proof. intros domain. unfold pending. cbn. repeat split. Qed.

Lemma cascade_cases :
  forall w domain brandInfo opts,
    pending domain (value (checkDomainForBrand w domain brandInfo opts)) \/
    settled domain (value (checkDomainForBrand w domain brandInfo opts)).
Proof.
  intros w domain brandInfo opts. unfold checkDomainForBrand. cbv zeta.
  pose proof (initial_pending domain) as Hi.
  destruct (B.brand_domain brandInfo) as [bd|]; [|now left].
  destruct (bd =? ""); [now left|].
  destruct (toLowerCase domain =? toLowerCase bd).
  - right. net. settle.
  - net.
    pose proof (step6bcd_settled domain w (toLowerCase bd) brandInfo opts
                  (effectiveTimeout opts) (initial domain) Hi) as H6.
    destruct (value (step6bcd _ _ _ _ _ _ _)) as [m|r']; net; [now right|].
    destruct (value (step6f _ _ _ _ r')) as [m|] eqn:Ef; net;
      [right; eapply step6f_settled; eassumption|].
    destruct (dualDomain domain brandInfo opts r') as [m|] eqn:Ed; net;
      [right; eapply dualDomain_settled; eassumption|].
    destruct (value (step6g _ _ _ _ _ r')) as [m|] eqn:Eg; net;
      [right; eapply step6g_settled; eassumption|].
    now left.
Qed.

(** Every result of the cascade is about the domain it was asked
    about.  A result that is no match has kind [none], confidence 0
    and no shop domain.  A match has the confidence its kind carries:
    1.0 for [direct], 0.90 or 0.85 for [redirect], 0.85 for
    [presell_cta], the vendor check's 0.95, 0.80 or 0.85 for the two
    vendor kinds, 0.75 or 0.80 for [content_link] and 0.60, 0.65 or
    0.70 for [content_match].  So a match below the 0.70 that the
    report requires is a [content_match]. *)
Theorem cascade_result_shape :
  forall (w : World) (domain : string) (brandInfo : B.t) (opts : DomainCheckOptions),
    C.domain (value (checkDomainForBrand w domain brandInfo opts)) = domain /\
    (if C.is_match (value (checkDomainForBrand w domain brandInfo opts))
     then kindConfidence
            (C.match_type (value (checkDomainForBrand w domain brandInfo opts)))
            (C.confidence (value (checkDomainForBrand w domain brandInfo opts))) /\
          (60 <= C.confidence (value (checkDomainForBrand w domain brandInfo opts)) <= 100)%Z /\
          ((C.confidence (value (checkDomainForBrand w domain brandInfo opts))
            <? Pipeline.MIN_CONFIDENCE)%Z = true ->
           C.match_type (value (checkDomainForBrand w domain brandInfo opts)) = content_match)
     else C.match_type (value (checkDomainForBrand w domain brandInfo opts)) = none /\
          C.confidence (value (checkDomainForBrand w domain brandInfo opts)) = 0 /\
          C.shop_domain (value (checkDomainForBrand w domain brandInfo opts)) = None).
Proof.
  intros w domain brandInfo opts.
  destruct (cascade_cases w domain brandInfo opts)
    as [(Hd & Hm & Hk & Hc & Hs & _)|(Hd & Hm & Hk & _)];
    rewrite Hm; split; try exact Hd.
  - repeat split; assumption.
  - split; [exact Hk|].
    unfold Pipeline.MIN_CONFIDENCE.
    destruct (C.match_type (value (checkDomainForBrand w domain brandInfo opts)));
      cbn [kindConfidence] in Hk; try contradiction;
      split; try lia; intros Hlt; apply Z.ltb_lt in Hlt; try reflexivity; lia.
Qed.

End CascadeResultFacts.

(* ================================================================== *)
(** * Step 6 as a whole *)
(* ================================================================== *)

Module Step6Order.
Import JS Pipeline Stats.
Module B := BrandInfo.
Module R := Response.

(** ** Batches *)

Lemma batchesFrom_concat :
  forall {A} fuel n (l : list A),
    (1 <= n)%nat -> (List.length l <= fuel)%nat -> List.concat (batchesFrom fuel n l) = l.
Proof.
  induction fuel as [|fuel IH]; intros n l Hn Hl.
  - destruct l; [reflexivity | cbn in Hl; lia].
  - destruct l as [|x l]; [reflexivity|].
    cbn [batchesFrom List.concat]. rewrite IH; [apply firstn_skipn | exact Hn |].
    rewrite length_skipn. cbn [List.length] in *. lia.
Qed.

Lemma batchesFrom_prefix :
  forall {A} fuel n (l : list A) k,
    (1 <= n)%nat -> (List.length l <= fuel)%nat ->
    List.concat (firstn k (batchesFrom fuel n l)) = firstn (k * n) l.
Proof.
  induction fuel as [|fuel IH]; intros n l k Hn Hl.
  - destruct l; [|cbn in Hl; lia]. cbn. now rewrite !firstn_nil.
  - destruct l as [|x l]; [cbn; now rewrite !firstn_nil|].
    destruct k as [|k]; [reflexivity|].
    cbn [batchesFrom firstn List.concat Nat.mul].
    rewrite IH; [|exact Hn | rewrite length_skipn; cbn [List.length] in *; lia].
    rewrite <- (firstn_skipn n (x :: l)) at 3.
    rewrite firstn_app, firstn_firstn, length_firstn.
    replace (Nat.min (n + k * n) n) with n by lia.
    destruct (Nat.le_ge_cases n (List.length (x :: l))) as [Hle|Hge].
    + replace (n + k * n - Nat.min n (List.length (x :: l)))%nat with (k * n)%nat by lia.
      reflexivity.
    + rewrite (skipn_all2 (x :: l)) by exact Hge. now rewrite !firstn_nil.
Qed.

(** ** The loop *)

Lemma record_app :
  forall r1 r2 acc,
    fold_left record (r1 ++ r2) acc = fold_left record r2 (fold_left record r1 acc).
Proof. intros. apply fold_left_app. Qed.

(** The loop checks whole batches, from the first on, until the
    deadline stops it; what it keeps is what [record] makes of the
    checks in order. *)
Lemma step6Loop_batches :
  forall env options one bs st,
    exists k,
      (k <= List.length bs)%nat /\
      (hasDeadline options = false -> k = List.length bs) /\
      checked (value (step6Loop env options one bs st))
        = checked st ++ map (fun d => value (one d)) (List.concat (firstn k bs)) /\
      (matchedDomains (value (step6Loop env options one bs st)),
       detectionMethods (value (step6Loop env options one bs st)))
        = fold_left record (map (fun d => value (one d)) (List.concat (firstn k bs)))
            (matchedDomains st, detectionMethods st).
Proof.
  intros env options one bs.
  induction bs as [|batch rest IH]; intros st.
  - exists 0%nat. cbn. rewrite app_nil_r. repeat split; auto.
  - cbn [step6Loop].
    destruct (pastDeadline env options (clock st) 3000) eqn:Hp.
    + exists 0%nat. cbn. rewrite app_nil_r. repeat split; try lia.
      intros Hno. unfold pastDeadline in Hp. rewrite Hno in Hp. discriminate.
    + rewrite Step6Facts.value_bind, Step6Facts.checkBatch_value.
      match goal with |- context [step6Loop env options one rest ?s] =>
        destruct (IH s) as (k & Hk & Hall & Hc & Hm) end.
      exists (S k). cbn [firstn List.concat List.length]. split; [lia|].
      split; [intros Hno; now rewrite (Hall Hno)|].
      rewrite Hc, Hm. cbn [checked matchedDomains detectionMethods].
      rewrite map_app, record_app, <- app_assoc. split; [reflexivity|].
      now rewrite <- surjective_pairing.
Qed.

Lemma step6_batches :
  forall env options one now domains,
    exists k,
      (hasDeadline options = false ->
       List.concat (firstn k (batches DOMAIN_CHECK_CONCURRENCY
                                (step6Domains env options now domains))) = domains) /\
      checked (value (step6 env options one now domains))
        = map (fun d => value (one d))
            (firstn (k * DOMAIN_CHECK_CONCURRENCY) (step6Domains env options now domains)) /\
      (matchedDomains (value (step6 env options one now domains)),
       detectionMethods (value (step6 env options one now domains)))
        = fold_left record (checked (value (step6 env options one now domains))) ([], []).
Proof.
  intros env options one now domains. unfold step6.
  match goal with |- context [step6Loop env options one ?bs ?s] =>
    destruct (step6Loop_batches env options one bs s) as (k & Hk & Hall & Hc & Hm) end.
  cbn [checked matchedDomains detectionMethods app] in Hc, Hm.
  exists k. split; [|split].
  - intros Hno. rewrite (Hall Hno), firstn_all.
    unfold batches. rewrite batchesFrom_concat; [|unfold DOMAIN_CHECK_CONCURRENCY; lia | lia].
    unfold step6Domains, pastDeadline. now rewrite Hno.
  - rewrite Hc. unfold batches.
    rewrite batchesFrom_prefix; [reflexivity | unfold DOMAIN_CHECK_CONCURRENCY; lia | lia].
  - rewrite Hm, Hc. reflexivity.
Qed.

Lemma checkOne_domain :
  forall env options brandInfo ex adsOf urlsOf d,
    C.domain (value (checkOne env options brandInfo ex adsOf urlsOf d)) = d.
Proof.
  intros. unfold checkOne. rewrite Step6Facts.value_bind, Step6Facts.value_ret.
  cbn [C.attach C.domain].
  match goal with |- C.domain (value (Cascade.checkDomainForBrand ?w ?d ?b ?o)) = _ =>
    destruct (CascadeResultFacts.cascade_cases w d b o) as [(H & _)|(H & _)]; exact H end.
Qed.

Lemma map_domain_checks :
  forall env options brandInfo ex adsOf urlsOf ds,
    map C.domain (map (fun d => value (checkOne env options brandInfo ex adsOf urlsOf d)) ds)
    = ds.
Proof.
  intros. rewrite map_map. rewrite <- (map_id ds) at 2.
  apply map_ext. intros d. apply checkOne_domain.
Qed.

(** The checks of a run follow the selection: the domains checked are
    the first so many selected domains, in order, each checked once,
    and whole batches of five (the last one may be shorter).  Without a
    deadline ([timeout_ms] 0) every selected domain is checked.  Each
    check carries the pages and the ad count that the candidate maps
    hold for its domain. *)
Theorem checks_follow_the_selection :
  forall (env : Env) (brandName : string) (options : DiscoveryOptions)
         (brandInfo : B.t) (g : Gathered) (now : Z),
    let ex := Aggregator.extractUniqueDomains (combineAds (brandAds g) (allAds g)) brandInfo in
    let selected := selectDomains options (priorityDomains g) ex in
    let checks := snd (value (verifyAndReport env brandName options brandInfo g now)) in
    (exists k, map C.domain checks = firstn (k * 5) selected) /\
    (hasDeadline options = false -> map C.domain checks = selected) /\
    Forall (fun c =>
              JSMap.get (C.domain c) (Aggregator.domainPageMap ex) = Some (C.page_ids c) /\
              JSMap.get (C.domain c) (Aggregator.domainAdCount ex) = Some (C.ad_count c))
      checks.
Proof.
  intros env brandName options brandInfo g now ex selected checks.
  subst checks. unfold verifyAndReport. cbv zeta.
  rewrite Step6Facts.value_bind, Step6Facts.value_ret. cbn [snd].
  fold ex. fold selected.
  match goal with |- context [step6 env options ?o now selected] =>
    set (one := o);
    destruct (step6_batches env options one now selected) as (k & Hall & Hc & _) end.
  rewrite Hc. subst one. split; [|split].
  - rewrite map_domain_checks. unfold step6Domains.
    destruct (pastDeadline env options now 10000).
    + exists 0%nat. now rewrite firstn_nil.
    + now exists k.
  - intros Hno. rewrite map_domain_checks.
    specialize (Hall Hno).
    unfold batches in Hall.
    rewrite batchesFrom_prefix in Hall; [|unfold DOMAIN_CHECK_CONCURRENCY; lia | lia].
    unfold step6Domains, pastDeadline in *. rewrite Hno in *. cbn [negb] in *. exact Hall.
  - apply Forall_forall. intros c Hin. apply in_map_iff in Hin as (d & <- & Hd).
    rewrite checkOne_domain.
    assert (Hsel : In d selected).
    { apply ListFacts.firstn_In in Hd. unfold step6Domains in Hd.
      destruct (pastDeadline env options now 10000); [contradiction | exact Hd]. }
    apply Step6Facts.selectDomains_In in Hsel. fold ex in Hsel.
    unfold checkOne. rewrite Step6Facts.value_bind, Step6Facts.value_ret.
    cbn [C.attach C.page_ids C.ad_count].
    apply MapFacts.key_get in Hsel as (pages & Hp). rewrite Hp.
    split; [reflexivity|].
    destruct (AggregatorShape.candidate_count_get _ _ _ _ Hp) as (n & Hn).
    fold ex in Hn. unfold adCountOf. now rewrite Hn.
Qed.

(** ** Counting by kind *)

Lemma MatchType_eqb_eq : forall a b, MatchType_eqb a b = true <-> a = b.
Proof. intros [] []; cbn; split; intros H; try reflexivity; discriminate. Qed.

Lemma methodCount_countMethod :
  forall mt k m,
    methodCount mt (countMethod k m) =
    (methodCount mt m + if MatchType_eqb k mt then 1 else 0)%nat.
Proof.
  intros mt k m. induction m as [|[k' n] m IH]; cbn [countMethod methodCount].
  - destruct (MatchType_eqb k mt); reflexivity.
  - destruct (MatchType_eqb k' k) eqn:E; cbn [methodCount].
    + apply MatchType_eqb_eq in E. subst k'.
      destruct (MatchType_eqb k mt); lia.
    + destruct (MatchType_eqb k' mt) eqn:E'; [|exact IH].
      apply MatchType_eqb_eq in E'. subst k'.
      destruct (MatchType_eqb k mt) eqn:E2; [|lia].
      apply MatchType_eqb_eq in E2. subst k.
      assert (MatchType_eqb mt mt = true) by now apply MatchType_eqb_eq.
      congruence.
Qed.

Lemma record_methodCount :
  forall mt results md dm,
    methodCount mt (snd (fold_left record results (md, dm))) =
    (methodCount mt dm + List.length (matchesOfKind mt results))%nat.
Proof.
  intros mt results. induction results as [|r results IH]; intros md dm;
    cbn [fold_left]; [cbn; lia|].
  unfold record at 2. cbn [fst snd]. unfold matchesOfKind in *. cbn [filter].
  destruct (C.is_match r); cbn [andb].
  - rewrite IH, methodCount_countMethod.
    destruct (MatchType_eqb (C.match_type r) mt); cbn [List.length]; lia.
  - apply IH.
Qed.

Lemma filter_filter :
  forall {A} (f g : A -> bool) l,
    filter f (filter g l) = filter (fun x => g x && f x) l.
Proof.
  induction l as [|x l IH]; [reflexivity|].
  cbn [filter]. destruct (g x); cbn [filter andb]; [destruct (f x)|]; now rewrite IH.
Qed.

(** The statistics of a report count the checks of the run.
    [matches_found] is the number of checks that matched with
    confidence of at least 0.70.  [detection_methods] holds, for each
    kind, the number of checks that matched with that kind, the
    matches below 0.70 included.  [total_ads_scanned] is the number of
    keyword ads.  Without a deadline [unique_domains_checked] is the
    number of checks. *)
Theorem scan_stats_count_the_checks :
  forall (env : Env) (brandName : string) (options : DiscoveryOptions)
         (brandInfo : B.t) (g : Gathered) (now : Z),
    let report := fst (value (verifyAndReport env brandName options brandInfo g now)) in
    let checks := snd (value (verifyAndReport env brandName options brandInfo g now)) in
    R.matches_found (R.scan_stats report) = List.length (reportedMatches checks) /\
    (forall mt, methodCount mt (R.detection_methods (R.scan_stats report))
                = List.length (matchesOfKind mt checks)) /\
    R.total_ads_scanned (R.scan_stats report) = List.length (allAds g) /\
    (hasDeadline options = false ->
     R.unique_domains_checked (R.scan_stats report) = List.length checks).
Proof.
  intros env brandName options brandInfo g now report checks.
  subst report checks. unfold verifyAndReport. cbv zeta.
  rewrite Step6Facts.value_bind, Step6Facts.value_ret. cbn [fst snd].
  match goal with |- context [step6 env options ?o now ?ds] =>
    set (one := o); set (selected := ds);
    destruct (step6_batches env options one now selected) as (k & Hall & Hc & Hm) end.
  set (st := value (step6 env options one now selected)) in *.
  assert (Hmd : matchedDomains st = filter C.is_match (checked st)).
  { pose proof (Step6Facts.record_fold (checked st) [] []) as H.
    rewrite <- Hm in H. exact H. }
  assert (Hdm : detectionMethods st = snd (fold_left record (checked st) ([], [])))
    by (now rewrite <- Hm).
  cbn [buildDiscoveryResult R.scan_stats R.matches_found R.detection_methods
         R.total_ads_scanned R.unique_domains_checked].
  split; [|split; [|split]].
  - rewrite Hmd, filter_filter. reflexivity.
  - intros mt. rewrite Hdm, record_methodCount. cbn. lia.
  - reflexivity.
  - intros Hno. rewrite Hc, length_map.
    specialize (Hall Hno). unfold batches in Hall.
    rewrite batchesFrom_prefix in Hall; [|unfold DOMAIN_CHECK_CONCURRENCY; lia | lia].
    assert (Hs : step6Domains env options now selected = selected)
      by (unfold step6Domains, pastDeadline; now rewrite Hno).
    rewrite Hs in *. now rewrite Hall.
Qed.

End Step6Order.

(* ================================================================== *)
(** * The selection of the domains to check *)
(* ================================================================== *)

Module SelectionFacts.
Import JS Pipeline.
Module B := BrandInfo.

Section TotalOrder.
Context {A : Type} (before : A -> A -> bool).
Hypothesis total : forall a b, before a b = false -> before b a = true.
Hypothesis trans : forall a b c, before a b = true -> before b c = true -> before a c = true.

Local Abbreviation ranked := (StronglySorted (fun a b => before a b = true)).

Lemma insert_sorted_In :
  forall x l z, In z (insert_sorted before x l) -> z = x \/ In z l.
Proof.
  induction l as [|w l IH]; cbn [insert_sorted]; intros z.
  - intros [<-|[]]. now left.
  - destruct (before x w); intros [<-|H]; cbn; auto.
    destruct (IH _ H); auto.
Qed.

Lemma insert_sorted_ranked :
  forall x l, ranked l -> ranked (insert_sorted before x l).
Proof.
  intros x l H. induction H as [|y l Hl IH Hy]; cbn [insert_sorted].
  - repeat constructor.
  - destruct (before x y) eqn:E.
    + constructor; [now constructor|].
      constructor; [exact E|].
      eapply Forall_impl; [|exact Hy]. cbn. intros z Hz. now apply (trans x y z).
    + constructor; [exact IH|].
      apply Forall_forall. intros z Hz.
      destruct (insert_sorted_In _ _ _ Hz) as [->|Hzl]; [now apply total|].
      rewrite Forall_forall in Hy. now apply Hy.
Qed.

Lemma sortBy_ranked : forall l, ranked (sortBy before l).
Proof.
  induction l as [|x l IH]; cbn [sortBy]; [constructor | now apply insert_sorted_ranked].
Qed.

Lemma ranked_app :
  forall l1 l2, ranked (l1 ++ l2) ->
                forall a b, In a l1 -> In b l2 -> before a b = true.
Proof.
  induction l1 as [|x l1 IH]; intros l2 H a b Ha Hb; [contradiction|].
  cbn [app] in H. inversion H as [|? ? Hs Hx]; subst.
  destruct Ha as [<-|Ha].
  - rewrite Forall_forall in Hx. apply Hx, in_or_app. now right.
  - now apply (IH l2).
Qed.

End TotalOrder.

Lemma candidateBefore_total :
  forall priority counts a b,
    candidateBefore priority counts a b = false ->
    candidateBefore priority counts b a = true.
Proof.
  intros priority counts a b. unfold candidateBefore. cbv zeta.
  destruct (mem (toLowerCase a) priority), (mem (toLowerCase b) priority); cbn;
    try discriminate; try reflexivity;
    intros H; apply Nat.leb_gt in H; apply Nat.leb_le; lia.
Qed.

Lemma candidateBefore_trans :
  forall priority counts a b c,
    candidateBefore priority counts a b = true ->
    candidateBefore priority counts b c = true ->
    candidateBefore priority counts a c = true.
Proof.
  intros priority counts a b c. unfold candidateBefore. cbv zeta.
  destruct (mem (toLowerCase a) priority), (mem (toLowerCase b) priority),
    (mem (toLowerCase c) priority); cbn;
    try discriminate; try reflexivity;
    intros H1 H2; apply Nat.leb_le in H1; apply Nat.leb_le in H2; apply Nat.leb_le; lia.
Qed.

Lemma selectDomains_distinct :
  forall options priority ads brandInfo,
    NoDup (selectDomains options priority (Aggregator.extractUniqueDomains ads brandInfo)).
Proof.
  intros options priority ads brandInfo. unfold selectDomains. cbv zeta.
  match goal with |- context [sortBy ?b ?k] =>
    assert (Hnd : NoDup (sortBy b k)) end.
  { eapply Permutation_NoDup; [apply Permutation_sym, ListFacts.sortBy_perm|].
    apply AggregatorShape.candidate_maps_distinct. }
  destruct (max_domains_to_check options) as [[|n]|]; try exact Hnd;
    match goal with |- NoDup (if ?c then _ else _) => destruct c end;
    try exact Hnd; now apply KeywordListFacts.NoDup_firstn.
Qed.

(** The domains selected for checking are candidates, each once.
    Unless the limit is switched off ([max_domains_to_check] 0) there
    are at most [max_domains_to_check] of them, 20 by default; with it
    switched off all candidates are selected.  The selection is the
    top of the ranking: a selected domain never ranks behind a
    candidate that was left out, where a priority domain ranks before
    one that is none and, within the same class, more ads rank
    first. *)
Theorem selection_is_top_ranked :
  forall (options : DiscoveryOptions) (priority : list string)
         (ads : list MetaAd) (brandInfo : B.t),
    let ex := Aggregator.extractUniqueDomains ads brandInfo in
    let selected := selectDomains options priority ex in
    NoDup selected /\
    incl selected (JSMap.keys (Aggregator.domainPageMap ex)) /\
    (max_domains_to_check options <> Some 0%nat ->
     List.length selected
       = Nat.min (maxDomainsToCheck options)
           (List.length (JSMap.keys (Aggregator.domainPageMap ex)))) /\
    (max_domains_to_check options = Some 0%nat ->
     Permutation selected (JSMap.keys (Aggregator.domainPageMap ex))) /\
    (forall s c,
        In s selected ->
        In c (JSMap.keys (Aggregator.domainPageMap ex)) ->
        ~ In c selected ->
        candidateBefore priority (Aggregator.domainAdCount ex) s c = true).
Proof.
  intros options priority ads brandInfo ex selected.
  set (before := candidateBefore priority (Aggregator.domainAdCount ex)).
  set (keys := JSMap.keys (Aggregator.domainPageMap ex)).
  set (sorted := sortBy before keys).
  assert (Hperm : Permutation sorted keys) by apply ListFacts.sortBy_perm.
  assert (Hnd : NoDup sorted).
  { eapply Permutation_NoDup; [apply Permutation_sym, Hperm|].
    apply (AggregatorShape.candidate_maps_distinct ads brandInfo). }
  assert (Hrank : StronglySorted (fun a b => before a b = true) sorted).
  { apply sortBy_ranked.
    - apply candidateBefore_total.
    - apply candidateBefore_trans. }
  assert (Hlen : List.length sorted = List.length keys)
    by (now apply Permutation_length).
  assert (Hcases :
            (selected = sorted /\ max_domains_to_check options = Some 0%nat) \/
            (selected = sorted /\ max_domains_to_check options <> Some 0%nat /\
             (List.length sorted <= maxDomainsToCheck options)%nat) \/
            (selected = firstn (maxDomainsToCheck options) sorted /\
             max_domains_to_check options <> Some 0%nat /\
             (maxDomainsToCheck options < List.length sorted)%nat)).
  { subst selected. unfold selectDomains. cbv zeta. fold ex. fold keys. fold before.
    fold sorted.
    destruct (max_domains_to_check options) as [[|n]|] eqn:E; [now left | |];
      (destruct (Nat.ltb_spec (maxDomainsToCheck options) (List.length sorted));
       [right; right | right; left]; repeat split; try discriminate; assumption). }
  assert (Hall : forall c, In c keys -> In c sorted)
    by (intros c Hc; now apply (Permutation_in _ (Permutation_sym Hperm))).
  destruct Hcases as [(E & Hzero)|[(E & Hlim & Hle)|(E & Hlim & Hlt)]]; rewrite E; clear E.
  - split; [exact Hnd|]. split; [intros x Hx; now apply (Permutation_in _ Hperm)|].
    split; [intros H; contradiction|]. split; [intros _; exact Hperm|].
    intros s c _ Hc Hnot. exfalso. now apply Hnot, Hall.
  - split; [exact Hnd|]. split; [intros x Hx; now apply (Permutation_in _ Hperm)|].
    split; [intros _; lia|]. split; [intros _; exact Hperm|].
    intros s c _ Hc Hnot. exfalso. now apply Hnot, Hall.
  - split; [now apply KeywordListFacts.NoDup_firstn|].
    split.
    { intros x Hx. apply ListFacts.firstn_In in Hx. now apply (Permutation_in _ Hperm). }
    split; [intros _; rewrite length_firstn; lia|].
    split; [intros H; contradiction|].
    intros s c Hs Hc Hnot.
    apply Hall in Hc. rewrite <- (firstn_skipn (maxDomainsToCheck options) sorted) in Hc, Hrank.
    apply in_app_or in Hc as [Hc|Hc]; [contradiction|].
    exact (ranked_app before _ _ Hrank s c Hs Hc).
Qed.

End SelectionFacts.

(* ================================================================== *)
(** * The report as a whole *)
(* ================================================================== *)

Module ReportShape.
Import JS Pipeline Stats.
Module B := BrandInfo.
Module R := Response.
Module T := ThirdPartyPageInfo.

(** ** [[...new Set(l)]] *)

Lemma dedup_In : forall l x, In x (dedup l) <-> In x l.
Proof.
  induction l as [|y l IH]; intros x; cbn [dedup]; [tauto|].
  cbn [In]. rewrite filter_In, IH.
  destruct (String.eqb_spec x y) as [->|Hne]; [tauto|].
  cbn [negb]. tauto.
Qed.

Lemma dedup_distinct : forall l, NoDup (dedup l).
Proof.
  induction l as [|y l IH]; cbn [dedup]; constructor.
  - rewrite filter_In. intros [_ H]. rewrite String.eqb_refl in H. discriminate.
  - now apply NoDup_filter.
Qed.

Lemma dedup_id : forall l, NoDup l -> dedup l = l.
Proof.
  induction l as [|y l IH]; intros H; [reflexivity|].
  inversion H as [|? ? Hy Hl]; subst. cbn [dedup]. rewrite (IH Hl). f_equal.
  apply forallb_filter_id. apply forallb_forall. intros x Hx.
  apply negb_true_iff, String.eqb_neq. intros ->. contradiction.
Qed.

(** ** Lists by kind *)

Lemma domainsOf_split :
  forall (p1 p2 p3 : MatchType -> bool) (l : list C.t),
    (forall k, p1 k = true -> p2 k = false /\ p3 k = false) ->
    (forall k, p2 k = true -> p3 k = false) ->
    NoDup (map C.domain l) ->
    NoDup (domainsOf p1 l ++ domainsOf p2 l ++ domainsOf p3 l).
Proof.
  intros p1 p2 p3 l H12 H23 Hnd. unfold domainsOf.
  assert (Hsub : forall p d, In d (map C.domain (filter (fun m => p (C.match_type m)) l)) ->
                             In d (map C.domain l)).
  { intros p d Hd. apply in_map_iff in Hd as (m & <- & Hm).
    apply filter_In in Hm as [Hm _]. now apply in_map. }
  induction l as [|m l IH]; [constructor|].
  inversion Hnd as [|? ? Hm Hl]; subst.
  assert (Hsub' : forall p d,
             In d (map C.domain (filter (fun m => p (C.match_type m)) l)) ->
             In d (map C.domain l)).
  { intros p d Hd. apply in_map_iff in Hd as (x & <- & Hx).
    apply filter_In in Hx as [Hx _]. now apply in_map. }
  specialize (IH Hl Hsub').
  assert (Hfresh : ~ In (C.domain m)
                     (map C.domain (filter (fun m => p1 (C.match_type m)) l) ++
                      map C.domain (filter (fun m => p2 (C.match_type m)) l) ++
                      map C.domain (filter (fun m => p3 (C.match_type m)) l))).
  { intros Hin. apply Hm. repeat (apply in_app_or in Hin as [Hin|Hin]); eauto. }
  cbn [filter].
  destruct (p1 (C.match_type m)) eqn:E1.
  - destruct (H12 _ E1) as [E2 E3]. rewrite E2, E3. cbn [map app].
    constructor; assumption.
  - destruct (p2 (C.match_type m)) eqn:E2.
    + rewrite (H23 _ E2). cbn [map app].
      eapply Permutation_NoDup; [apply Permutation_middle|].
      constructor; assumption.
    + destruct (p3 (C.match_type m)) eqn:E3; [|exact IH]. cbn [map].
      rewrite app_assoc.
      eapply Permutation_NoDup; [apply Permutation_middle|].
      rewrite <- app_assoc. constructor; assumption.
Qed.

(** ** The checks behind a report *)

(** The report of Steps 5 to 7 is built from the checks that matched
    with enough confidence; the checks are of different candidate
    domains. *)
Lemma run_checks :
  forall env brandName options brandInfo g now,
    let ex := Aggregator.extractUniqueDomains (combineAds (brandAds g) (allAds g)) brandInfo in
    let checks := snd (value (verifyAndReport env brandName options brandInfo g now)) in
    NoDup (map C.domain checks) /\
    incl (map C.domain checks) (JSMap.keys (Aggregator.domainPageMap ex)) /\
    exists methods clock n,
      fst (value (verifyAndReport env brandName options brandInfo g now))
      = buildDiscoveryResult brandName brandInfo (reportedMatches checks) (allAds g)
          (Aggregator.allPages ex) (allKeywords g) methods (now0 env) clock n (brandAds g).
Proof.
  intros env brandName options brandInfo g now ex checks. subst checks.
  unfold verifyAndReport. cbv zeta.
  rewrite Step6Facts.value_bind, Step6Facts.value_ret. cbn [fst snd]. fold ex.
  match goal with |- context [step6 env options ?o now ?ds] =>
    set (one := o); set (selected := ds);
    destruct (Step6Order.step6_batches env options one now selected) as (k & _ & Hc & Hm)
  end.
  set (st := value (step6 env options one now selected)) in *.
  assert (Hd : map C.domain (checked st)
               = firstn (k * DOMAIN_CHECK_CONCURRENCY) (step6Domains env options now selected)).
  { rewrite Hc. subst one. apply Step6Order.map_domain_checks. }
  assert (Hin : forall d, In d (map C.domain (checked st)) -> In d selected).
  { intros d H. rewrite Hd in H. apply ListFacts.firstn_In in H.
    unfold step6Domains in H. destruct (pastDeadline env options now 10000);
      [contradiction | exact H]. }
  split; [|split].
  - rewrite Hd. apply KeywordListFacts.NoDup_firstn. unfold step6Domains.
    destruct (pastDeadline env options now 10000); [constructor|].
    apply SelectionFacts.selectDomains_distinct.
  - intros d H. apply Hin in H. now apply Step6Facts.selectDomains_In in H.
  - do 3 eexists. f_equal.
    pose proof (Step6Facts.record_fold (checked st) [] []) as H.
    rewrite <- Hm in H. cbn [fst app] in H. rewrite H.
    apply Step6Order.filter_filter.
Qed.

Lemma reported_kind :
  forall env brandName options brandInfo g now c,
    In c (reportedMatches (snd (value (verifyAndReport env brandName options brandInfo g now)))) ->
    C.match_type c <> none.
Proof.
  intros env brandName options brandInfo g now c H.
  unfold reportedMatches in H. apply filter_In in H as [H Hm].
  apply andb_true_iff in Hm as [Hm _].
  unfold verifyAndReport in H. cbv zeta in H.
  rewrite Step6Facts.value_bind, Step6Facts.value_ret in H. cbn [snd] in H.
  match type of H with context [step6 env options ?o now ?ds] =>
    destruct (Step6Facts.step6_spec env options o now ds) as (l & _ & Hchk & _) end.
  rewrite Hchk in H. apply in_map_iff in H as (d & <- & _).
  unfold checkOne in *. rewrite Step6Facts.value_bind, Step6Facts.value_ret in *.
  cbn [C.attach C.match_type C.is_match] in *.
  match goal with |- C.match_type (value (Cascade.checkDomainForBrand ?w ?d ?b ?o)) <> _ =>
    destruct (CascadeResultFacts.cascade_cases w d b o)
      as [(_ & Hf & _)|(_ & _ & Hk & _)] end.
  - congruence.
  - intros E. rewrite E in Hk. exact Hk.
Qed.

Lemma domainsOf_In_iff :
  forall sel matched d,
    In d (domainsOf sel matched) <->
    exists m, In m matched /\ sel (C.match_type m) = true /\ C.domain m = d.
Proof.
  intros sel matched d. unfold domainsOf. rewrite in_map_iff. split.
  - intros (m & E & H). apply filter_In in H as [H Hs]. now exists m.
  - intros (m & H & Hs & E). exists m. split; [exact E|]. now apply filter_In.
Qed.

Lemma kind_classes :
  forall k, k <> none ->
            isPresellType k = true \/ MatchType_eqb redirect k = true \/ isShopType k = true.
Proof. intros [] H; cbn; auto. Qed.

(** The domain lists of a report.  No domain is listed twice, in one
    list or in two: the presell, redirect and final-shop lists are
    disjoint and duplicate-free, and [all] is the three of them one
    after the other.  Every check that matched with confidence of at
    least 0.70 has its domain listed, and every presell or redirect
    domain is the domain of such a check.  A resolved brand domain is
    listed in [final_shop]. *)
Theorem report_domain_lists :
  forall (env : Env) (brandName : string) (options : DiscoveryOptions)
         (brandInfo : B.t) (g : Gathered) (now : Z),
    let lists :=
      R.domains (fst (value (verifyAndReport env brandName options brandInfo g now))) in
    let checks := snd (value (verifyAndReport env brandName options brandInfo g now)) in
    NoDup (R.presell lists ++ R.redirect lists ++ R.final_shop lists) /\
    R.all lists = R.presell lists ++ R.redirect lists ++ R.final_shop lists /\
    Forall (fun c => In (C.domain c) (R.all lists)) (reportedMatches checks) /\
    Forall (fun d => exists c, In c (reportedMatches checks) /\ C.domain c = d)
      (R.presell lists ++ R.redirect lists) /\
    (forall bd, B.brand_domain brandInfo = Some bd -> bd <> "" ->
                In bd (R.final_shop lists)).
Proof.
  intros env brandName options brandInfo g now lists checks.
  destruct (run_checks env brandName options brandInfo g now)
    as (Hnd & Hincl & methods & clock & n & Hrep).
  fold checks in Hnd, Hincl, Hrep.
  subst lists. rewrite Hrep.
  cbn [buildDiscoveryResult R.domains R.presell R.redirect R.final_shop R.all].
  set (matched := reportedMatches checks).
  assert (Hsub : NoDup (map C.domain matched)).
  { subst matched. unfold reportedMatches. now apply KeywordListFacts.NoDup_map_filter. }
  assert (Hkeys : forall m, In m matched ->
                            In (C.domain m)
                              (JSMap.keys (Aggregator.domainPageMap
                                 (Aggregator.extractUniqueDomains
                                    (combineAds (brandAds g) (allAds g)) brandInfo)))).
  { intros m Hm. apply Hincl. apply in_map. subst matched. unfold reportedMatches in Hm.
    now apply filter_In in Hm as [Hm _]. }
  pose proof (domainsOf_split isPresellType (MatchType_eqb redirect) isShopType matched)
    as Hsplit.
  assert (H3 : NoDup (domainsOf isPresellType matched ++
                      domainsOf (MatchType_eqb redirect) matched ++
                      domainsOf isShopType matched)).
  { apply Hsplit; [intros [] | intros [] | exact Hsub]; cbn; auto; discriminate. }
  assert (Hown : forall bd, B.brand_domain brandInfo = Some bd -> bd <> "" ->
                            forall m, In m matched -> C.domain m <> bd).
  { intros bd Ebd Hne m Hm E. apply Hkeys in Hm. rewrite E in Hm.
    pose proof (AggregatorFacts.extractUniqueDomains_keys _ _ _ Hm) as (_ & _ & Hlow & _).
    assert (Ht : truthy (B.brand_domain brandInfo) = true).
    { unfold truthy. rewrite Ebd. apply negb_true_iff. now apply String.eqb_neq. }
    apply (CandidateFacts.candidate_is_not_brand_domain _ _ _ Ht Hm bd Ebd).
    now symmetry. }
  assert (Hfinal : NoDup (domainsOf isPresellType matched ++
                          domainsOf (MatchType_eqb redirect) matched ++
                          finalShop brandInfo matched)).
  { unfold finalShop. cbv zeta.
    destruct (B.brand_domain brandInfo) as [bd|] eqn:Ebd; [|exact H3].
    destruct (String.eqb_spec bd "") as [->|Hne]; [exact H3|]. cbn [negb andb].
    destruct (mem bd (domainsOf isShopType matched)) eqn:Hmem; [exact H3|]. cbn [negb].
    rewrite app_assoc. eapply Permutation_NoDup; [apply Permutation_middle|].
    rewrite <- app_assoc. constructor; [|exact H3].
    intros Hin. repeat (apply in_app_or in Hin as [Hin|Hin]);
      apply domainsOf_In_iff in Hin as (m & Hm & _ & E);
      exact (Hown bd eq_refl Hne m Hm E). }
  split; [exact Hfinal|]. split; [now apply dedup_id|].
  rewrite (dedup_id _ Hfinal).
  split; [|split].
  - apply Forall_forall. intros c Hc.
    pose proof (reported_kind env brandName options brandInfo g now c Hc) as Hk.
    assert (Hshop : forall d, In d (domainsOf isShopType matched) ->
                              In d (finalShop brandInfo matched)).
    { intros d Hd. unfold finalShop. cbv zeta.
      destruct (B.brand_domain brandInfo) as [bd|]; [|exact Hd].
      match goal with |- In d (if ?b then _ else _) => destruct b end;
        [now right | exact Hd]. }
    destruct (kind_classes _ Hk) as [H|[H|H]].
    + apply in_or_app. left. apply domainsOf_In_iff. now exists c.
    + apply in_or_app. right. apply in_or_app. left. apply domainsOf_In_iff. now exists c.
    + apply in_or_app. right. apply in_or_app. right. apply Hshop.
      apply domainsOf_In_iff. now exists c.
  - apply Forall_forall. intros d Hd.
    apply in_app_or in Hd as [Hd|Hd]; apply domainsOf_In_iff in Hd as (m & Hm & _ & E);
      now exists m.
  - intros bd Ebd Hne. unfold finalShop. cbv zeta. rewrite Ebd.
    apply String.eqb_neq in Hne. rewrite Hne. cbn [negb andb].
    destruct (mem bd (domainsOf isShopType matched)) eqn:Hmem; cbn [negb].
    + now apply ListFacts.mem_In.
    + now left.
Qed.

(** ** The page lists *)

Lemma pageBefore_total :
  forall a b, pageBefore a b = false -> pageBefore b a = true.
Proof.
  intros a b. unfold pageBefore.
  destruct (Z.eqb_spec (T.confidence a) (T.confidence b)) as [E|Hne].
  - rewrite E, Z.eqb_refl. intros H. apply Nat.leb_gt in H. apply Nat.leb_le. lia.
  - destruct (Z.eqb_spec (T.confidence b) (T.confidence a)) as [E'|_]; [congruence|].
    intros H. apply Z.ltb_ge in H. apply Z.ltb_lt. lia.
Qed.

Lemma pageBefore_spec :
  forall a b,
    pageBefore a b = true <->
    (T.confidence b < T.confidence a)%Z \/
    (T.confidence a = T.confidence b /\ (T.ad_count b <= T.ad_count a)%nat).
Proof.
  intros a b. unfold pageBefore.
  destruct (Z.eqb_spec (T.confidence a) (T.confidence b)) as [E|Hne].
  - rewrite Nat.leb_le. split; [now right | intros [H|[_ H]]; [lia | exact H]].
  - rewrite Z.ltb_lt. split; [now left | intros [H|[H _]]; [exact H | contradiction]].
Qed.

Lemma pageBefore_trans :
  forall a b c, pageBefore a b = true -> pageBefore b c = true -> pageBefore a c = true.
Proof.
  intros a b c. rewrite !pageBefore_spec. intros [H1|[E1 H1]] [H2|[E2 H2]].
  - left. lia.
  - left. lia.
  - left. lia.
  - right. split; [congruence | lia].
Qed.

(** The page lists of a report.  The official list has one entry per
    official page id, in order, each flagged official.  The
    third-party list is in order of confidence, highest first, and
    among pages of equal confidence in order of ad count, highest
    first. *)
Theorem report_page_lists_are_ordered :
  forall (brandName : string) (brandInfo : B.t) (matched : list C.t)
         (allAds : list MetaAd) (allPages : JSMap.t Aggregator.PageEntry)
         (keywords : list string) (methods : list (MatchType * nat))
         (startTime now : Z) (total : nat) (brandAds : list MetaAd),
    let pages :=
      R.pages (buildDiscoveryResult brandName brandInfo matched allAds allPages
                 keywords methods startTime now total brandAds) in
    map PageInfo.page_id (R.official pages) = B.official_page_ids brandInfo /\
    Forall (fun p => PageInfo.is_official p = true) (R.official pages) /\
    StronglySorted
      (fun a b =>
         (T.confidence b < T.confidence a)%Z \/
         (T.confidence a = T.confidence b /\ (T.ad_count b <= T.ad_count a)%nat))
      (R.third_party pages).
Proof.
  intros. subst pages.
  cbn [buildDiscoveryResult R.pages R.official R.third_party].
  split; [|split].
  - rewrite map_map. cbn [PageInfo.page_id]. apply map_id.
  - apply Forall_forall. intros p Hp. apply in_map_iff in Hp as (pid & <- & _). reflexivity.
  - match goal with |- StronglySorted _ (sortBy pageBefore ?l) =>
      pose proof (SelectionFacts.sortBy_ranked pageBefore pageBefore_total
                    pageBefore_trans l) as H end.
    induction H as [|x l Hl IH Hx]; constructor; [exact IH|].
    eapply Forall_impl; [|exact Hx]. intros y Hy. now apply pageBefore_spec.
Qed.

End ReportShape.

(* ================================================================== *)
(** * A run as a whole *)
(* ================================================================== *)

Module RunFacts.
Import JS Pipeline.
Module B := BrandInfo.
Module R := Response.

(** Every run returns a report about the brand it was asked about, of
    one of two kinds.  A successful report has status [completed], no
    error and a resolved brand domain.  A failed report has status
    [error], an error text, no brand domain, empty page and domain
    lists and zeroed statistics.  An exception of the brand search
    becomes a failed report with the text of the exception, after that
    one outbound call; so does an exception of the steps that gather
    the ads. *)
Theorem every_run_returns_a_report :
  forall (env : Env) (brandName : string) (options : DiscoveryOptions),
    R.brand (value (discoverBrand env brandName options)) = brandName /\
    ((R.success (value (discoverBrand env brandName options)) = true /\
      R.status (value (discoverBrand env brandName options)) = R.completed /\
      R.error (value (discoverBrand env brandName options)) = None /\
      truthy (R.brand_domain (value (discoverBrand env brandName options))) = true) \/
     (exists e, value (discoverBrand env brandName options) = makeErrorResponse brandName e)) /\
    (forall e, brandSearch env brandName = inl e ->
               value (discoverBrand env brandName options) = makeErrorResponse brandName e /\
               trace (discoverBrand env brandName options) = [CAdSearch brandName]) /\
    (forall ads e,
        brandSearch env brandName = inr ads ->
        truthy (B.brand_domain (findBrandDomain env brandName ads)) = true ->
        gather env brandName (findBrandDomain env brandName ads) ads = inl e ->
        value (discoverBrand env brandName options) = makeErrorResponse brandName e).
Proof.
  intros env brandName options.
  assert (Hv : value (discoverBrand env brandName options)
               = fst (value (discoverBrandWithChecks env brandName options))).
  { unfold discoverBrand. now rewrite Step6Facts.value_bind, Step6Facts.value_ret. }
  rewrite Hv.
  split; [|split; [|split]].
  - destruct (ReportFacts.run_cases env brandName options)
      as [(e & ->)|(brandInfo & g & now & -> & _)]; [reflexivity|].
    unfold verifyAndReport. now rewrite Step6Facts.value_bind, Step6Facts.value_ret.
  - destruct (ReportFacts.run_cases env brandName options)
      as [(e & ->)|(brandInfo & g & now & -> & Ht)]; [right; now exists e|].
    left. unfold verifyAndReport. rewrite Step6Facts.value_bind, Step6Facts.value_ret.
    cbn. repeat split. exact Ht.
  - intros e He. unfold discoverBrand, discoverBrandWithChecks, bind, call, trace, value.
    rewrite He. cbn. split; reflexivity.
  - intros ads e Hs Ht Hg. unfold discoverBrandWithChecks.
    rewrite Step6Facts.value_bind.
    replace (value (call (CAdSearch brandName) (brandSearch env brandName)))
      with (brandSearch env brandName) by reflexivity.
    rewrite Hs. cbv zeta. rewrite Ht, Hg. reflexivity.
Qed.

End RunFacts.

(* ================================================================== *)
(** * Bounds of the redirect trackers *)
(* ================================================================== *)

Module TrackerBounds.
Import JS TrackerShape.

Lemma walked_stop :
  forall perHop fuel acc cur calls,
    last acc "" = cur -> In cur acc ->
    (List.length calls <= perHop)%nat ->
    Forall (fun c => c = CHead cur \/ c = CGet cur) calls ->
    walked perHop (S fuel) acc (calls, (acc, cur)).
Proof.
  intros perHop fuel acc cur calls Hlast Hin Hlen Hcalls.
  unfold walked, value, trace. cbn [fst snd]. exists [].
  cbn [List.length]. rewrite app_nil_r.
  repeat split; try assumption; try lia.
  eapply Forall_impl; [|exact Hcalls]. intros c Hc. now exists cur.
Qed.

Lemma walked_hop :
  forall perHop fuel acc cur next calls t v,
    In cur acc ->
    (List.length calls <= perHop)%nat ->
    Forall (fun c => c = CHead cur \/ c = CGet cur) calls ->
    walked perHop fuel (acc ++ [next]) (t, v) ->
    walked perHop (S fuel) acc (calls ++ t, v).
Proof.
  intros perHop fuel acc cur next calls t v Hin Hlen Hcalls.
  unfold walked, value, trace. cbn [fst snd].
  intros (rest & Hc & Hr & Hl & Ht & Hf).
  exists (next :: rest). rewrite <- app_assoc in *. cbn [app] in *.
  split; [exact Hc|]. split; [cbn [List.length]; lia|]. split; [exact Hl|].
  split; [rewrite length_app; lia|].
  apply Forall_app. split; [|exact Hf].
  eapply Forall_impl; [|exact Hcalls]. intros c Hc'. exists cur.
  split; [apply in_or_app; now left | exact Hc'].
Qed.

Section Unguarded.
Variables (w : World) (fuel : nat) (acc : list string) (cur : string).

(** One pass of the loop either stops where it is or goes on from a
    next URL, after the requests [pre]. *)
Local Abbreviation stopOrHop := (fun (pre : list Call) (X : Net (list string * string)) =>
  X = (pre, (acc, cur)) \/
  exists next,
    X = (pre ++ trace (RedirectTracker.loop w fuel (acc ++ [next]) next),
         value (RedirectTracker.loop w fuel (acc ++ [next]) next))).

Lemma hop_of_loop :
  forall next, stopOrHop [] (RedirectTracker.loop w fuel (acc ++ [next]) next).
Proof.
  intros next. right. exists next. cbn [app].
  now destruct (RedirectTracker.loop w fuel (acc ++ [next]) next).
Qed.

Lemma stopOrHop_call :
  forall c X, stopOrHop [] X -> stopOrHop [c] (let (t2, b) := X in ([c] ++ t2, b)).
Proof.
  intros c X [->|(next & ->)]; [now left|].
  right. exists next. reflexivity.
Qed.

Lemma stopOrHop_more :
  forall c pre X, stopOrHop pre X -> stopOrHop (c :: pre) (let (t2, b) := X in ([c] ++ t2, b)).
Proof.
  intros c pre X [->|(next & ->)]; [now left|].
  right. exists next. reflexivity.
Qed.

Lemma unguarded_pass :
  stopOrHop [CHead cur] (RedirectTracker.loop w (S fuel) acc cur) \/
  stopOrHop [CHead cur; CGet cur] (RedirectTracker.loop w (S fuel) acc cur).
Proof.
  cbn [RedirectTracker.loop].
  match goal with
  | |- context [bind (call (CGet cur) (get_manual w cur)) ?k] =>
      set (viaGet := bind (call (CGet cur) (get_manual w cur)) k)
  end.
  assert (HG : stopOrHop [CGet cur] viaGet).
  { subst viaGet. unfold bind, call, ret.
    destruct (get_manual w cur) as [r|]; [|now left].
    apply stopOrHop_call.
    match goal with
    | |- context [match raw_content_type r with Some ct => @?f ct | None => ?g end] =>
        set (viaMeta := match raw_content_type r with Some ct => f ct | None => g end)
    end.
    assert (HM : stopOrHop [] viaMeta).
    { subst viaMeta.
      destruct (raw_content_type r) as [ct|]; [|now left].
      destruct (includes "text/html" ct); [|now left].
      destruct (metaRefresh w (raw_body r) cur) as [m|]; [|now left].
      destruct (negb (m =? "") && negb (m =? cur)); [apply hop_of_loop | now left]. }
    destruct (isRedirectStatus r && truthy (raw_location r)); [|exact HM].
    destruct (raw_location r) as [location|]; [|exact HM].
    destruct (resolveURL w location cur) as [nextUrl|]; [apply hop_of_loop | now left]. }
  unfold bind, call, ret.
  destruct (head w cur) as [r|].
  - destruct (isRedirectStatus r && truthy (raw_location r)); [|left; now left].
    destruct (raw_location r) as [location|]; [|left; now left].
    destruct (resolveURL w location cur) as [nextUrl|].
    + left. apply stopOrHop_call, hop_of_loop.
    + right. now apply stopOrHop_more.
  - right. now apply stopOrHop_more.
Qed.

End Unguarded.

Lemma unguarded_walk :
  forall w fuel acc cur,
    last acc "" = cur -> In cur acc ->
    walked 2 fuel acc (RedirectTracker.loop w fuel acc cur).
Proof.
  intros w fuel. induction fuel as [|fuel IH]; intros acc cur Hlast Hin.
  - exists []. cbn. rewrite app_nil_r. repeat split; auto.
  - assert (Hgo : forall next,
               walked 2 fuel (acc ++ [next])
                 (trace (RedirectTracker.loop w fuel (acc ++ [next]) next),
                  value (RedirectTracker.loop w fuel (acc ++ [next]) next))).
    { intros next. rewrite <- surjective_pairing.
      apply IH; [apply last_last | apply in_or_app; right; now left]. }
    destruct (unguarded_pass w fuel acc cur) as [[->|(next & ->)]|[->|(next & ->)]].
    + apply walked_stop; [assumption | assumption | cbn; lia | repeat (apply Forall_cons; [auto|]); apply Forall_nil].
    + apply (walked_hop 2 fuel acc cur next);
        [assumption | cbn; lia | repeat (apply Forall_cons; [auto|]); apply Forall_nil | apply Hgo].
    + apply walked_stop; [assumption | assumption | cbn; lia | repeat (apply Forall_cons; [auto|]); apply Forall_nil].
    + apply (walked_hop 2 fuel acc cur next);
        [assumption | cbn; lia | repeat (apply Forall_cons; [auto|]); apply Forall_nil | apply Hgo].
Qed.

(** The redirect tracker follows at most 10 redirects.  Its chain
    starts with the URL it was given and has at most 10 more entries;
    [final_url] is the last entry of the chain.  It makes at most 20
    requests, a HEAD and at most one GET per URL it stands on, and
    only to URLs of the chain. *)
Theorem redirect_chain_is_bounded :
  forall (w : World) (initialUrl : string),
    initial_url (value (RedirectTracker.trackRedirectChain w initialUrl)) = initialUrl /\
    (exists rest,
        chain (value (RedirectTracker.trackRedirectChain w initialUrl)) = initialUrl :: rest /\
        (List.length rest <= 10)%nat) /\
    final_url (value (RedirectTracker.trackRedirectChain w initialUrl))
      = last (chain (value (RedirectTracker.trackRedirectChain w initialUrl))) "" /\
    (List.length (trace (RedirectTracker.trackRedirectChain w initialUrl)) <= 20)%nat /\
    Forall (fun c => exists u,
                In u (chain (value (RedirectTracker.trackRedirectChain w initialUrl))) /\
                (c = CHead u \/ c = CGet u))
      (trace (RedirectTracker.trackRedirectChain w initialUrl)).
Proof.
  intros w initialUrl. unfold RedirectTracker.trackRedirectChain.
  destruct (unguarded_walk w RedirectTracker.MAX_REDIRECTS [initialUrl] initialUrl
              eq_refl (or_introl eq_refl)) as (rest & Hc & Hr & Hl & Ht & Hf).
  destruct (RedirectTracker.loop w RedirectTracker.MAX_REDIRECTS [initialUrl] initialUrl)
    as [t [c l]].
  unfold value, trace, bind, ret in *. cbn [fst snd] in *. subst c l.
  cbn [initial_url chain final_url app] in *. rewrite app_nil_r.
  split; [reflexivity|]. split; [now exists rest|]. split; [reflexivity|].
  split; [unfold RedirectTracker.MAX_REDIRECTS in Ht; lia | exact Hf].
Qed.

(** ** The tracker of the URL extractor *)

Lemma guarded_walk :
  forall w fuel acc cur,
    last acc "" = cur -> In cur acc -> NoDup acc ->
    walked 1 fuel acc (UrlExtractor.loop w fuel acc cur) /\
    NoDup (fst (value (UrlExtractor.loop w fuel acc cur))) /\
    Forall (fun c => exists u, c = CHead u) (trace (UrlExtractor.loop w fuel acc cur)).
Proof.
  intros w fuel. induction fuel as [|fuel IH]; intros acc cur Hlast Hin Hnd.
  - split; [|split; [exact Hnd | constructor]].
    exists []. cbn. rewrite app_nil_r. repeat split; auto.
  - assert (Hstop : walked 1 (S fuel) acc ([CHead cur], (acc, cur)) /\
                    NoDup (fst (value ([CHead cur], (acc, cur)))) /\
                    Forall (fun c => exists u, c = CHead u)
                      (trace ([CHead cur], (acc, cur)))).
    { split; [|split; [exact Hnd | repeat constructor; now exists cur]].
      apply walked_stop; [assumption | assumption | cbn; lia |].
      repeat (apply Forall_cons; [auto|]); apply Forall_nil. }
    cbn [UrlExtractor.loop]. unfold bind, call, ret.
    destruct (head w cur) as [r|]; [|exact Hstop].
    destruct (isRedirectStatus r && truthy (raw_location r)); [|exact Hstop].
    destruct (raw_location r) as [location|]; [|exact Hstop].
    destruct (resolveURL w location cur) as [nextUrl|]; [|exact Hstop].
    destruct (mem nextUrl acc) eqn:Hm; [exact Hstop|].
    apply ListFacts.mem_false in Hm.
    assert (Hnd' : NoDup (acc ++ [nextUrl])).
    { apply NoDup_app; [exact Hnd | repeat constructor; cbn; tauto |].
      intros x Hx [<-|[]]. contradiction. }
    assert (Hin' : In nextUrl (acc ++ [nextUrl]))
      by (apply in_or_app; right; now left).
    destruct (IH (acc ++ [nextUrl]) nextUrl (last_last _ _ _) Hin' Hnd')
      as (Hw & Hn & Hh).
    destruct (UrlExtractor.loop w fuel (acc ++ [nextUrl]) nextUrl) as [t v].
    split; [|split].
    + apply (walked_hop 1 fuel acc cur nextUrl [CHead cur] t v);
        [assumption | cbn; lia | | exact Hw].
      repeat (apply Forall_cons; [auto|]); apply Forall_nil.
    + exact Hn.
    + unfold trace in *. cbn [fst app] in *. constructor; [now exists cur | exact Hh].
Qed.

(** The tracker of the URL extractor never lists a URL twice: it stops
    before a URL it has already visited.  Its chain starts with the URL
    it was given and has at most 10 more entries; [final_url] is the
    last entry.  It makes at most 10 requests, all of them HEAD
    requests to URLs of the chain. *)
Theorem guarded_chain_has_no_repeat :
  forall (w : World) (initialUrl : string),
    NoDup (chain (value (UrlExtractor.trackRedirectChain w initialUrl))) /\
    initial_url (value (UrlExtractor.trackRedirectChain w initialUrl)) = initialUrl /\
    (exists rest,
        chain (value (UrlExtractor.trackRedirectChain w initialUrl)) = initialUrl :: rest /\
        (List.length rest <= 10)%nat) /\
    final_url (value (UrlExtractor.trackRedirectChain w initialUrl))
      = last (chain (value (UrlExtractor.trackRedirectChain w initialUrl))) "" /\
    (List.length (trace (UrlExtractor.trackRedirectChain w initialUrl)) <= 10)%nat /\
    Forall (fun c => exists u,
                In u (chain (value (UrlExtractor.trackRedirectChain w initialUrl))) /\
                c = CHead u)
      (trace (UrlExtractor.trackRedirectChain w initialUrl)).
Proof.
  intros w initialUrl. unfold UrlExtractor.trackRedirectChain.
  destruct (guarded_walk w 10 [initialUrl] initialUrl eq_refl (or_introl eq_refl))
    as ((rest & Hc & Hr & Hl & Ht & Hf) & Hnd & Hh); [repeat constructor; cbn; tauto|].
  destruct (UrlExtractor.loop w 10 [initialUrl] initialUrl) as [t [c l]].
  unfold value, trace, bind, ret in *. cbn [fst snd] in *. subst c l.
  cbn [initial_url chain final_url app] in *. rewrite app_nil_r.
  split; [exact Hnd|]. split; [reflexivity|]. split; [now exists rest|].
  split; [reflexivity|]. split; [lia|].
  apply Forall_forall. intros c Hc. rewrite Forall_forall in Hf, Hh.
  destruct (Hf c Hc) as (u & Hu & [E|E]); [now exists u|].
  destruct (Hh c Hc) as (u' & E'). congruence.
Qed.

End TrackerBounds.

(* ================================================================== *)
(** * Captions *)
(* ================================================================== *)

Module CaptionFacts.
Import JS UrlExtractor.

Lemma prefix_split :
  forall p s, prefix p s = true -> s = (p ++ dropPrefix p s)%string.
Proof.
  intros p s H. unfold dropPrefix. rewrite H.
  apply StringFacts.prefix_spec in H as (q & ->).
  f_equal. clear. induction p as [|c p IH]; cbn [append length substring].
  - rewrite Nat.sub_0_r. induction q as [|d q IHq]; [reflexivity|].
    cbn [length substring]. now rewrite <- IHq.
  - cbn [Nat.sub]. exact IH.
Qed.

Lemma dropPrefix_suffix :
  forall p s, exists q, s = (q ++ dropPrefix p s)%string.
Proof.
  intros p s. destruct (prefix p s) eqn:E.
  - exists p. now apply prefix_split.
  - exists "". unfold dropPrefix. now rewrite E.
Qed.

Lemma dropScheme_suffix : forall s, exists q, s = (q ++ dropScheme s)%string.
Proof.
  intros s. unfold dropScheme.
  destruct (prefix "https://" s); [apply dropPrefix_suffix|].
  destruct (prefix "http://" s); [apply dropPrefix_suffix|]. now exists "".
Qed.

Lemma lower_suffix :
  forall q s, toLowerCase (q ++ s)%string = (q ++ s)%string -> toLowerCase s = s.
Proof.
  induction q as [|c q IH]; intros s H; [exact H|].
  unfold toLowerCase in *. cbn [append smap] in H. injection H as _ H. now apply IH.
Qed.

Lemma beforeSlash_lower :
  forall s, toLowerCase s = s -> toLowerCase (beforeSlash s) = beforeSlash s.
Proof.
  induction s as [|c s IH]; intros H; [reflexivity|].
  unfold toLowerCase in *. cbn [smap] in H. injection H as Hc Hs.
  cbn [beforeSlash]. destruct (code c =? 47)%nat; [reflexivity|].
  cbn [smap]. now rewrite Hc, IH.
Qed.

Lemma beforeSlash_no_slash : forall s, includes "/" (beforeSlash s) = false.
Proof.
  intros s. rewrite StringFacts.includes_char. apply negb_false_iff.
  induction s as [|c s IH]; [reflexivity|].
  cbn [beforeSlash]. destruct (code c =? 47)%nat eqn:E; [reflexivity|].
  cbn [sforall]. rewrite IH, andb_true_r. apply negb_true_iff.
  destruct (Ascii.eqb_spec "/"%char c) as [<-|]; [discriminate | reflexivity].
Qed.

(** The text a caption is cut from. *)
Local Abbreviation stripped := (fun cap : string =>
  dropPrefix "www." (dropScheme (toLowerCase (trim cap)))).

Lemma stripped_lower : forall cap, toLowerCase (stripped cap) = stripped cap.
Proof.
  intros cap.
  destruct (dropScheme_suffix (toLowerCase (trim cap))) as (q1 & E1).
  destruct (dropPrefix_suffix "www." (dropScheme (toLowerCase (trim cap)))) as (q2 & E2).
  apply (lower_suffix q2). rewrite <- E2.
  apply (lower_suffix q1). rewrite <- E1.
  apply JSFacts.toLowerCase_idem.
Qed.

(** Whatever the caption, a domain extracted from it is not empty, is
    in lower case, contains a dot, and contains neither a space nor a
    slash.  A missing or empty caption gives no domain. *)
Theorem caption_domain_shape :
  forall caption : option string,
    match extractDomainFromCaption caption with
    | Some d =>
        d <> "" /\ toLowerCase d = d /\ includes "." d = true /\
        includes " " d = false /\ includes "/" d = false /\
        caption <> None /\ caption <> Some ""
    | None => True
    end.
Proof.
  intros [cap|]; [|exact I]. unfold extractDomainFromCaption.
  destruct (String.eqb_spec cap "") as [->|Hne]; [exact I|]. cbv zeta.
  match goal with |- context [if ?b then _ else _] => destruct b eqn:E end; [|exact I].
  apply andb_true_iff in E as [E Hsp]. apply andb_true_iff in E as [He Hdot].
  apply negb_true_iff in He, Hsp. apply String.eqb_neq in He.
  repeat split; try assumption; try discriminate.
  - apply beforeSlash_lower, stripped_lower.
  - apply beforeSlash_no_slash.
  - congruence.
Qed.

(** ** The full URL of a caption *)

Lemma dropTrailingSlashes_empty :
  forall s, dropTrailingSlashes s = "" -> beforeSlash s = "".
Proof.
  intros [|c s]; [reflexivity|]. cbn [dropTrailingSlashes beforeSlash].
  destruct (dropTrailingSlashes s); [|discriminate].
  destruct (code c =? 47)%nat; [reflexivity | discriminate].
Qed.

Lemma beforeSlash_dropTrailingSlashes :
  forall s, beforeSlash (dropTrailingSlashes s) = beforeSlash s.
Proof.
  induction s as [|c s IH]; [reflexivity|].
  cbn [dropTrailingSlashes beforeSlash].
  destruct (dropTrailingSlashes s) as [|d t] eqn:E.
  - rewrite (dropTrailingSlashes_empty s E).
    destruct (code c =? 47)%nat eqn:Ec; [reflexivity|].
    cbn [beforeSlash]. now rewrite Ec.
  - cbn [beforeSlash] in *. destruct (code c =? 47)%nat; [reflexivity|]. now rewrite IH.
Qed.

Lemma beforeSlash_split :
  forall s, exists path,
    s = (beforeSlash s ++ path)%string /\ (path = "" \/ prefix "/" path = true).
Proof.
  induction s as [|c s (path & E & Hp)].
  - exists "". split; [reflexivity | now left].
  - cbn [beforeSlash]. destruct (code c =? 47)%nat eqn:Ec.
    + exists (String c s). split; [reflexivity|]. right.
      apply Nat.eqb_eq in Ec. unfold code in Ec.
      assert (c = "/"%char) by (rewrite <- (ascii_nat_embedding c), Ec; reflexivity).
      subst c. cbn. now destruct s.
    + exists path. split; [cbn; now rewrite <- E | exact Hp].
Qed.

(** A caption has a full URL exactly when it has a domain, and then
    the URL is [https://], the domain, and nothing more or a path that
    starts with a slash. *)
Theorem caption_url_extends_domain :
  forall caption : option string,
    match extractDomainFromCaption caption, extractFullUrlFromCaption caption with
    | Some d, Some u =>
        exists path, u = ("https://" ++ d ++ path)%string /\
                     (path = "" \/ prefix "/" path = true)
    | None, None => True
    | _, _ => False
    end.
Proof.
  intros [cap|]; [|exact I].
  unfold extractDomainFromCaption, extractFullUrlFromCaption.
  destruct (cap =? ""); [exact I|]. cbv zeta.
  rewrite beforeSlash_dropTrailingSlashes.
  set (d := beforeSlash (stripped cap)).
  destruct (String.eqb_spec d "") as [E|Hne]; cbn [negb andb orb]; [exact I|].
  destruct (includes "." d); cbn [negb andb orb]; [|exact I].
  destruct (includes " " d); cbn [negb]; [exact I|].
  destruct (beforeSlash_split (dropTrailingSlashes (stripped cap))) as (path & E & Hp).
  rewrite beforeSlash_dropTrailingSlashes in E. fold d in E.
  exists path. split; [now rewrite <- E | exact Hp].
Qed.

End CaptionFacts.

(* ================================================================== *)
(** * The vendor check as a whole *)
(* ================================================================== *)

Module VendorCheckFacts.
Import JS Shopify.

Lemma vendorTier_values :
  forall brandLower v c, vendorTier brandLower v = Some c -> c = 95 \/ c = 80 \/ c = 85.
Proof.
  intros brandLower v c E. unfold vendorTier in E. cbv zeta in E.
  repeat match type of E with
         | (if ?b then _ else _) = _ => destruct b
         end; try discriminate; injection E as <-; auto.
Qed.

Lemma vendorLoop_first :
  forall brandLower vs,
    (Forall (fun v => vendorTier brandLower v = None) vs /\
     vendorLoop brandLower vs = notFound) \/
    (exists pre v post c,
        vs = pre ++ v :: post /\
        Forall (fun u => vendorTier brandLower u = None) pre /\
        vendorTier brandLower v = Some c /\
        vendorLoop brandLower vs
        = {| found := true; matched_vendor := Some v; confidence := c |}).
Proof.
  intros brandLower vs. induction vs as [|v vs IH]; cbn [vendorLoop].
  - left. split; [constructor | reflexivity].
  - destruct (vendorTier brandLower v) as [c|] eqn:E.
    + right. exists [], v, vs, c. repeat split; [constructor | exact E].
    + destruct IH as [[Hall Hn]|(pre & u & post & c & -> & Hpre & Hu & Hr)].
      * left. split; [now constructor | exact Hn].
      * right. exists (v :: pre), u, post, c. repeat split; try assumption.
        now constructor.
Qed.

(** The vendor check asks the storefront for its product list once.
    Without a product list nothing is found.  Otherwise the vendors are
    tried in the order of the list, most frequent first, and the first
    vendor that matches the brand name in any of the three tiers
    decides: it is the matched vendor and its tier gives the
    confidence, 0.95, 0.80 or 0.85.  When no vendor matches, nothing is
    found and the confidence is 0. *)
Theorem vendor_check_takes_first_match :
  forall (w : World) (domain brandName : string),
    trace (shopifyStoreHasVendor w domain brandName) = [CProductsJson domain] /\
    match value (fetchProductsJson w domain) with
    | None => value (shopifyStoreHasVendor w domain brandName) = notFound
    | Some p =>
        (Forall (fun v => vendorTier (trim (toLowerCase brandName)) v = None) (vendors p) /\
         value (shopifyStoreHasVendor w domain brandName) = notFound) \/
        (exists pre v post c,
            vendors p = pre ++ v :: post /\
            Forall (fun u => vendorTier (trim (toLowerCase brandName)) u = None) pre /\
            vendorTier (trim (toLowerCase brandName)) v = Some c /\
            (c = 95 \/ c = 80 \/ c = 85) /\
            value (shopifyStoreHasVendor w domain brandName)
            = {| found := true; matched_vendor := Some v; confidence := c |})
    end.
Proof.
  intros w domain brandName. unfold shopifyStoreHasVendor.
  split.
  - unfold fetchProductsJson, bind, call, ret, trace.
    destruct (products_json w domain); reflexivity.
  - rewrite Step6Facts.value_bind.
    destruct (value (fetchProductsJson w domain)) as [p|]; rewrite Step6Facts.value_ret;
      [|reflexivity].
    destruct (vendorLoop_first (trim (toLowerCase brandName)) (vendors p))
      as [H|(pre & v & post & c & E & Hpre & Hv & Hr)]; [now left|].
    right. exists pre, v, post, c. repeat split; try assumption.
    eapply vendorTier_values; eassumption.
Qed.

End VendorCheckFacts.

(* ================================================================== *)
(** * The brand's domain *)
(* ================================================================== *)

Module TallyFacts.
Import JS Tally.

Lemma bumpCount_countOf :
  forall m k d,
    countOf d (bumpCount m k) = (countOf d m + count_occ string_dec [k] d)%nat.
Proof.
  intros m k d. unfold countOf, bumpCount. cbn [count_occ].
  destruct (string_dec k d) as [->|Hne].
  - rewrite MapFacts.get_set_same. destruct (JSMap.get d m); lia.
  - rewrite (MapFacts.get_set_other _ _ _ _ Hne). lia.
Qed.

Lemma tally_countOf :
  forall ks m d,
    countOf d (fold_left bumpCount ks m) = (countOf d m + count_occ string_dec ks d)%nat.
Proof.
  induction ks as [|k ks IH]; intros m d; cbn [fold_left]; [cbn; lia|].
  rewrite IH, bumpCount_countOf. cbn [count_occ]. destruct (string_dec k d); lia.
Qed.

Lemma tally_distinct :
  forall ks m, NoDup (JSMap.keys m) -> NoDup (JSMap.keys (fold_left bumpCount ks m)).
Proof.
  induction ks as [|k ks IH]; intros m H; cbn [fold_left]; [exact H|].
  apply IH. now apply MapFacts.NoDup_keys_set.
Qed.

Lemma tally_keys :
  forall ks m k,
    In k (JSMap.keys (fold_left bumpCount ks m)) <-> In k (JSMap.keys m) \/ In k ks.
Proof.
  induction ks as [|x ks IH]; intros m k; cbn [fold_left]; [cbn; tauto|].
  rewrite IH. unfold bumpCount at 1. rewrite MapFacts.keys_set_In. cbn [In].
  intuition congruence.
Qed.

(** An entry of a tally that started empty holds the number of
    occurrences of its key. *)
Lemma tally_entry :
  forall ks k n,
    In (k, n) (fold_left bumpCount ks []) -> n = count_occ string_dec ks k /\ In k ks.
Proof.
  intros ks k n H.
  assert (Hnd : NoDup (JSMap.keys (fold_left bumpCount ks [])))
    by (apply tally_distinct; constructor).
  pose proof (tally_countOf ks [] k) as Hc. unfold countOf at 1 in Hc.
  rewrite (MapFacts.In_get _ _ _ H Hnd) in Hc. cbn in Hc. split; [exact Hc|].
  assert (Hk : In k (JSMap.keys (fold_left bumpCount ks [])))
    by (apply in_map_iff; exists (k, n); split; [reflexivity | exact H]).
  apply tally_keys in Hk as [[]|Hk]. exact Hk.
Qed.

Lemma captionDomainCounts_tally :
  forall ads,
    Pipeline.captionDomainCounts ads = fold_left bumpCount (captionDomains ads) [].
Proof.
  intros ads. unfold Pipeline.captionDomainCounts, captionDomains.
  generalize (flat_map (fun ad => orEmpty (ad_creative_link_captions ad)) ads).
  intros captions. generalize (@nil (string * nat)).
  induction captions as [|c captions IH]; intros m; [reflexivity|].
  cbn [fold_left flat_map]. rewrite fold_left_app, IH.
  destruct (UrlExtractor.extractDomainFromCaption (Some c)); reflexivity.
Qed.

(** ** findBrandDomain *)

Module B := BrandInfo.

Lemma brand_domain_is_head :
  forall env brandName ads,
    B.brand_domain (Pipeline.findBrandDomain env brandName ads)
    = option_map fst
        (hd_error (sortBy (fun a b : string * nat => (snd b <=? snd a)%nat)
                     (Pipeline.captionDomainCounts ads))).
Proof.
  intros env brandName ads. unfold Pipeline.findBrandDomain. cbv zeta.
  destruct ads as [|ad ads]; [reflexivity|].
  destruct (sortBy _ (Pipeline.captionDomainCounts (ad :: ads))) as [|[bd n] rest];
    [reflexivity|].
  destruct (Pipeline.detectShopifyStore env bd) as [s|]; [|reflexivity].
  destruct (Pipeline.is_shopify s); reflexivity.
Qed.

Lemma sorted_head_is_max :
  forall (m : JSMap.t nat) bd n rest,
    sortBy (fun a b : string * nat => (snd b <=? snd a)%nat) m = (bd, n) :: rest ->
    In (bd, n) m /\ forall d k, In (d, k) m -> (k <= n)%nat.
Proof.
  intros m bd n rest E.
  assert (Hr : StronglySorted (fun a b : string * nat => (snd b <=? snd a)%nat = true)
                 (sortBy (fun a b : string * nat => (snd b <=? snd a)%nat) m)).
  { apply SelectionFacts.sortBy_ranked.
    - intros a b H. apply Nat.leb_gt in H. apply Nat.leb_le. lia.
    - intros a b c H1 H2. apply Nat.leb_le in H1, H2. apply Nat.leb_le. lia. }
  rewrite E in Hr. inversion Hr as [|? ? _ Hall]; subst.
  split.
  - apply (ListFacts.sortBy_In (fun a b : string * nat => (snd b <=? snd a)%nat)).
    rewrite E. now left.
  - intros d k Hin.
    apply (ListFacts.sortBy_In (fun a b : string * nat => (snd b <=? snd a)%nat)) in Hin.
    rewrite E in Hin. destruct Hin as [Heq|Hin]; [injection Heq as _ <-; lia|].
    rewrite Forall_forall in Hall. apply Hall in Hin. cbn in Hin.
    now apply Nat.leb_le in Hin.
Qed.

Lemma addToSet_distinct :
  forall x l, NoDup l -> NoDup (Pipeline.addToSet x l).
Proof.
  intros x l H. unfold Pipeline.addToSet. destruct (mem x l) eqn:E; [exact H|].
  apply ListFacts.mem_false in E.
  apply NoDup_app; [exact H | repeat constructor; cbn; tauto |].
  intros y Hy [<-|[]]. contradiction.
Qed.

Lemma addToSet_keeps : forall x l y, In y l -> In y (Pipeline.addToSet x l).
Proof.
  intros x l y H. unfold Pipeline.addToSet. destruct (mem x l); [exact H|].
  apply in_or_app. now left.
Qed.

Lemma nameAliases_shape :
  forall brandName,
    NoDup (Pipeline.nameAliases brandName) /\
    In (trim (toLowerCase brandName)) (Pipeline.nameAliases brandName).
Proof.
  intros brandName. unfold Pipeline.nameAliases. cbv zeta.
  set (full := trim (toLowerCase brandName)).
  match goal with |- context [fold_left ?f Pipeline.separators [full]] =>
    assert (H : NoDup (fold_left f Pipeline.separators [full]) /\
                In full (fold_left f Pipeline.separators [full])) end.
  { generalize Pipeline.separators. intros seps.
    assert (H0 : NoDup [full] /\ In full [full])
      by (split; [repeat constructor; cbn; tauto | now left]).
    revert H0. generalize [full]. induction seps as [|sep seps IH]; intros l [Hn Hi];
      cbn [fold_left]; [now split|].
    apply IH. destruct (includes sep full); [|now split].
    match goal with |- context [if ?b then _ else _] => destruct b end; [|now split].
    split; [now apply addToSet_distinct | now apply addToSet_keeps]. }
  destruct H as [Hn Hi].
  match goal with |- context [if ?b then _ else _] => destruct b end; [|now split].
  split; [now apply addToSet_distinct | now apply addToSet_keeps].
Qed.

Lemma aliases_shape :
  forall env brandName ads,
    NoDup (B.brand_aliases (Pipeline.findBrandDomain env brandName ads)) /\
    In (trim (toLowerCase brandName))
       (B.brand_aliases (Pipeline.findBrandDomain env brandName ads)).
Proof.
  intros env brandName ads.
  destruct (nameAliases_shape brandName) as [Hn Hi].
  assert (Hd : forall l, In (trim (toLowerCase brandName)) l ->
                         NoDup (dedup l) /\ In (trim (toLowerCase brandName)) (dedup l))
    by (intros l Hl; split; [apply ReportShape.dedup_distinct | now apply ReportShape.dedup_In]).
  unfold Pipeline.findBrandDomain. cbv zeta.
  destruct ads as [|ad ads]; [now split|].
  destruct (sortBy _ (Pipeline.captionDomainCounts (ad :: ads))) as [|[bd n] rest];
    [now apply Hd|].
  assert (H1 : In (trim (toLowerCase brandName))
                 (if (3 <=? length (toLowerCase (Pipeline.dropTld bd)))%nat &&
                     negb (mem (toLowerCase (Pipeline.dropTld bd))
                             (Pipeline.nameAliases brandName))
                  then Pipeline.nameAliases brandName ++ [toLowerCase (Pipeline.dropTld bd)]
                  else Pipeline.nameAliases brandName)).
  { match goal with |- context [if ?b then _ else _] => destruct b end;
      [apply in_or_app; now left | exact Hi]. }
  destruct (Pipeline.detectShopifyStore env bd) as [s|]; [|now apply Hd].
  destruct (Pipeline.is_shopify s); cbn [B.brand_aliases]; [|now apply Hd].
  apply Hd. apply in_or_app. now left.
Qed.

Lemma pageCounts_keys :
  forall ads,
    NoDup (JSMap.keys (Pipeline.pageCounts ads)) /\
    forall pid, In pid (JSMap.keys (Pipeline.pageCounts ads)) <->
                exists ad pname, In ad ads /\ page_id ad = Some pid /\ pid <> "" /\
                                 page_name ad = Some pname /\ pname <> "".
Proof.
  intros ads. unfold Pipeline.pageCounts.
  match goal with |- context [fold_left ?f ads []] => set (step := f) end.
  assert (G : forall l m,
             NoDup (JSMap.keys m) ->
             NoDup (JSMap.keys (fold_left step l m)) /\
             forall pid, In pid (JSMap.keys (fold_left step l m)) <->
                         In pid (JSMap.keys m) \/
                         exists ad pname, In ad l /\ page_id ad = Some pid /\ pid <> "" /\
                                          page_name ad = Some pname /\ pname <> "").
  { induction l as [|ad l IH]; intros m Hm; cbn [fold_left].
    - split; [exact Hm|]. intros pid. split; [now left|].
      intros [H|(ad & pname & [] & _)]. exact H.
    - assert (Hstep : NoDup (JSMap.keys (step m ad)) /\
                      forall pid, In pid (JSMap.keys (step m ad)) <->
                                  In pid (JSMap.keys m) \/
                                  exists pname, page_id ad = Some pid /\ pid <> "" /\
                                                page_name ad = Some pname /\ pname <> "").
      { subst step. cbv beta.
        destruct (page_id ad) as [p|] eqn:Ep;
          [|split; [exact Hm|]; intros pid; split; [now left|];
            intros [H|(pname & Hp & _)]; [exact H | discriminate]].
        destruct (page_name ad) as [nm|] eqn:En;
          [|split; [exact Hm|]; intros pid; split; [now left|];
            intros [H|(pname & _ & _ & Hn & _)]; [exact H | discriminate]].
        destruct (String.eqb_spec p "") as [->|Hp]; cbn [negb andb].
        { split; [exact Hm|]. intros pid. split; [now left|].
          intros [H|(pname & Hp & Hne & _)]; [exact H|]. congruence. }
        destruct (String.eqb_spec nm "") as [->|Hn]; cbn [negb andb].
        { split; [exact Hm|]. intros pid. split; [now left|].
          intros [H|(pname & _ & _ & Hn & Hne)]; [exact H|]. congruence. }
        assert (Hkeys : forall v pid,
                   In pid (JSMap.keys (JSMap.set p v m)) <->
                   In pid (JSMap.keys m) \/
                   exists pname, Some p = Some pid /\ pid <> "" /\
                                 Some nm = Some pname /\ pname <> "").
        { intros v pid. rewrite MapFacts.keys_set_In. split.
          - intros [H| ->]; [now left | right; now exists nm].
          - intros [H|(pname & E & _)]; [now left | right; congruence]. }
        destruct (JSMap.get p m) as [[n c]|];
          (split; [now apply MapFacts.NoDup_keys_set | apply Hkeys]). }
      destruct Hstep as [Hn Hk]. destruct (IH (step m ad) Hn) as [Hn' Hk'].
      split; [exact Hn'|]. intros pid. rewrite Hk', Hk. split.
      + intros [[H|(pname & H)]|(a & pname & Ha & H)].
        * now left.
        * right. exists ad, pname. split; [now left | exact H].
        * right. exists a, pname. split; [now right | exact H].
      + intros [H|(a & pname & [<-|Ha] & H)].
        * left. now left.
        * left. right. now exists pname.
        * right. now exists a, pname. }
  destruct (G ads [] (NoDup_nil _)) as [Hn Hk]. split; [exact Hn|].
  intros pid. rewrite Hk. split; [intros [[]|H]; exact H | now right].
Qed.

Lemma officialPages_shape :
  forall brandName (pageMap : JSMap.t (string * nat)),
    NoDup (JSMap.keys pageMap) ->
    NoDup (Pipeline.officialPages brandName pageMap) /\
    incl (Pipeline.officialPages brandName pageMap) (JSMap.keys pageMap) /\
    (pageMap <> [] -> Pipeline.officialPages brandName pageMap <> []).
Proof.
  intros brandName pageMap Hnd. unfold Pipeline.officialPages. cbv zeta.
  match goal with |- context [map fst (filter ?p pageMap)] =>
    set (byName := map fst (filter p pageMap));
    assert (Hb : NoDup byName /\ incl byName (JSMap.keys pageMap)) end.
  { subst byName. split; [now apply KeywordListFacts.NoDup_map_filter|].
    intros x Hx. apply in_map_iff in Hx as (e & <- & He).
    apply filter_In in He as [He _]. now apply in_map. }
  destruct Hb as [Hb1 Hb2].
  destruct byName as [|b byName]; [|repeat split; try assumption; discriminate].
  match goal with |- context [sortBy ?f pageMap] =>
    pose proof (ListFacts.sortBy_perm f pageMap) as Hperm;
    destruct (sortBy f pageMap) as [|[pid v] rest] end.
  - repeat split; [constructor | intros ? [] |].
    intros Hne. apply Permutation_nil in Hperm. contradiction.
  - repeat split; [repeat constructor; cbn; tauto | | discriminate].
    intros x [<-|[]].
    apply (in_map fst) with (x := (pid, v)).
    apply (Permutation_in _ Hperm). now left.
Qed.

(** The brand profile that [findBrandDomain] reads off the brand's
    ads.  The aliases are distinct and contain the brand name in lower
    case, trimmed.  The brand domain is a domain that the captions of
    the ads name most often: no other caption domain is named more
    often; there is none exactly when no caption names a domain.  The
    official pages are distinct pages of the ads, and there is at
    least one as soon as an ad names its page. *)
Theorem brand_profile_from_ads :
  forall (env : Pipeline.Env) (brandName : string) (ads : list MetaAd),
    B.brand_name (Pipeline.findBrandDomain env brandName ads) = brandName /\
    NoDup (B.brand_aliases (Pipeline.findBrandDomain env brandName ads)) /\
    In (trim (toLowerCase brandName))
       (B.brand_aliases (Pipeline.findBrandDomain env brandName ads)) /\
    match B.brand_domain (Pipeline.findBrandDomain env brandName ads) with
    | Some bd =>
        In bd (captionDomains ads) /\
        forall d, (count_occ string_dec (captionDomains ads) d
                   <= count_occ string_dec (captionDomains ads) bd)%nat
    | None => captionDomains ads = []
    end /\
    NoDup (B.official_page_ids (Pipeline.findBrandDomain env brandName ads)) /\
    Forall (fun pid => exists ad, In ad ads /\ page_id ad = Some pid)
      (B.official_page_ids (Pipeline.findBrandDomain env brandName ads)) /\
    ((exists ad pid pname, In ad ads /\ page_id ad = Some pid /\ pid <> "" /\
                           page_name ad = Some pname /\ pname <> "") ->
     B.official_page_ids (Pipeline.findBrandDomain env brandName ads) <> []).
Proof.
  intros env brandName ads.
  split.
  { unfold Pipeline.findBrandDomain. cbv zeta. destruct ads as [|ad ads]; [reflexivity|].
    destruct (sortBy _ _) as [|[bd n] rest]; [reflexivity|].
    destruct (Pipeline.detectShopifyStore env bd) as [s|]; [|reflexivity].
    destruct (Pipeline.is_shopify s); reflexivity. }
  destruct (aliases_shape env brandName ads) as [Ha1 Ha2].
  split; [exact Ha1|]. split; [exact Ha2|]. split.
  { rewrite brand_domain_is_head, captionDomainCounts_tally.
    destruct (sortBy _ (fold_left bumpCount (captionDomains ads) []))
      as [|[bd n] rest] eqn:E; cbn [hd_error option_map fst].
    - pose proof (ListFacts.sortBy_perm
                    (fun a b : string * nat => (snd b <=? snd a)%nat)
                    (fold_left bumpCount (captionDomains ads) [])) as Hp.
      rewrite E in Hp. apply Permutation_nil in Hp.
      destruct (captionDomains ads) as [|d ds]; [reflexivity|].
      assert (Hk : In d (JSMap.keys (fold_left bumpCount (d :: ds) [])))
        by (apply tally_keys; right; now left).
      rewrite Hp in Hk. contradiction.
    - destruct (sorted_head_is_max _ _ _ _ E) as [Hin Hmax].
      destruct (tally_entry _ _ _ Hin) as [Hn Hbd]. split; [exact Hbd|].
      intros d. rewrite <- Hn.
      destruct (count_occ string_dec (captionDomains ads) d) as [|k] eqn:Ed; [lia|].
      assert (Hd : In d (captionDomains ads))
        by (apply (count_occ_In string_dec); lia).
      assert (Hk : In d (JSMap.keys (fold_left bumpCount (captionDomains ads) [])))
        by (apply tally_keys; now right).
      apply MapFacts.key_get in Hk as (c & Hc). apply MapFacts.get_In in Hc.
      destruct (tally_entry _ _ _ Hc) as [Hcn _].
      specialize (Hmax d c Hc). lia. }
  assert (Hoff : B.official_page_ids (Pipeline.findBrandDomain env brandName ads)
                 = match ads with
                   | [] => []
                   | _ => Pipeline.officialPages brandName (Pipeline.pageCounts ads)
                   end).
  { unfold Pipeline.findBrandDomain. cbv zeta. destruct ads as [|ad ads]; [reflexivity|].
    destruct (sortBy _ _) as [|[bd n] rest]; [reflexivity|].
    destruct (Pipeline.detectShopifyStore env bd) as [s|]; [|reflexivity].
    destruct (Pipeline.is_shopify s); reflexivity. }
  rewrite Hoff.
  destruct ads as [|ad0 ads0];
    [split; [constructor|]; split; [constructor|]; intros (ad & _ & _ & [] & _)|].
  set (ads := ad0 :: ads0).
  destruct (pageCounts_keys ads) as [Hn Hk].
  destruct (officialPages_shape brandName _ Hn) as (Ho1 & Ho2 & Ho3).
  split; [exact Ho1|]. split.
  - apply Forall_forall. intros pid Hpid. apply Ho2, Hk in Hpid.
    destruct Hpid as (ad & pname & Hin & Hp & _). now exists ad.
  - intros (ad & pid & pname & H). apply Ho3. intros Hempty.
    assert (Hin : In pid (JSMap.keys (Pipeline.pageCounts ads)))
      by (apply Hk; now exists ad, pname).
    rewrite Hempty in Hin. contradiction.
Qed.

End TallyFacts.

(* ================================================================== *)
(** * Domain lists of the URL extractor *)
(* ================================================================== *)

Module UrlListFacts.
Import JS UrlLists.

Lemma addToSet_In :
  forall x l y, In y (Pipeline.addToSet x l) <-> y = x \/ In y l.
Proof.
  intros x l y. unfold Pipeline.addToSet. destruct (mem x l) eqn:E.
  - split; [now right|]. intros [->|H]; [|exact H].
    unfold mem in E. apply existsb_exists in E as (z & Hz & Ez).
    apply String.eqb_eq in Ez. now subst.
  - rewrite in_app_iff. cbn [In]. intuition congruence.
Qed.

Lemma caption_domain_lower :
  forall c d, UrlExtractor.extractDomainFromCaption c = Some d -> toLowerCase d = d.
Proof.
  intros [cap|] d; [|discriminate]. unfold UrlExtractor.extractDomainFromCaption.
  destruct (cap =? ""); [discriminate|]. cbv zeta.
  match goal with |- context [if ?b then _ else _] => destruct b end; [|discriminate].
  intros [= <-]. apply CaptionFacts.beforeSlash_lower, CaptionFacts.stripped_lower.
Qed.

Lemma not_excluded :
  forall d,
    toLowerCase d = d -> isExcludedDomain d = false ->
    ~ In d EXCLUDED_DOMAINS /\
    forall e, In e EXCLUDED_DOMAINS -> Aggregator.endsWith ("." ++ e) d = false.
Proof.
  intros d Hlow H. unfold isExcludedDomain in H. cbv zeta in H. rewrite Hlow in H.
  assert (G : forall e, In e EXCLUDED_DOMAINS ->
                        (d =? e) || Aggregator.endsWith ("." ++ e) d = false).
  { intros e He. destruct ((d =? e) || Aggregator.endsWith ("." ++ e) d) eqn:E;
      [|reflexivity].
    rewrite <- H. symmetry. apply existsb_exists. now exists e. }
  split.
  - intros Hin. specialize (G d Hin). rewrite String.eqb_refl in G. discriminate.
  - intros e He. specialize (G e He). now apply orb_false_iff in G.
Qed.

(** [extractDomainsFromCaptions] lists every caption domain that is
    not excluded, and each one once: a domain is in the result exactly
    when some caption names it and [isExcludedDomain] rejects it not.
    No listed domain is one of [EXCLUDED_DOMAINS] or ends with a dot
    and one of them. *)
Theorem caption_domains_are_listed_once :
  forall captions : list string,
    NoDup (extractDomainsFromCaptions captions) /\
    (forall d,
        In d (extractDomainsFromCaptions captions) <->
        exists c, In c captions /\
                  UrlExtractor.extractDomainFromCaption (Some c) = Some d /\
                  isExcludedDomain d = false) /\
    Forall (fun d =>
              ~ In d EXCLUDED_DOMAINS /\
              forall e, In e EXCLUDED_DOMAINS ->
                        Aggregator.endsWith ("." ++ e) d = false)
      (extractDomainsFromCaptions captions).
Proof.
  intros captions. unfold extractDomainsFromCaptions.
  match goal with |- context [fold_left ?f captions []] => set (step := f) end.
  assert (G : forall l acc,
             NoDup acc ->
             NoDup (fold_left step l acc) /\
             forall d, In d (fold_left step l acc) <->
                       In d acc \/
                       exists c, In c l /\
                                 UrlExtractor.extractDomainFromCaption (Some c) = Some d /\
                                 isExcludedDomain d = false).
  { induction l as [|c l IH]; intros acc Hacc; cbn [fold_left].
    - split; [exact Hacc|]. intros d. split; [now left|].
      intros [H|(c & [] & _)]. exact H.
    - assert (Hs : NoDup (step acc c) /\
                   forall d, In d (step acc c) <->
                             In d acc \/
                             (UrlExtractor.extractDomainFromCaption (Some c) = Some d /\
                              isExcludedDomain d = false)).
      { subst step. cbv beta.
        destruct (UrlExtractor.extractDomainFromCaption (Some c)) as [dom|];
          [|split; [exact Hacc|]; intros d; split; [now left|];
            intros [H|[H _]]; [exact H | discriminate]].
        destruct (isExcludedDomain dom) eqn:Ex; cbn [negb].
        - split; [exact Hacc|]. intros d. split; [now left|].
          intros [H|[[= <-] H]]; [exact H | congruence].
        - split; [now apply TallyFacts.addToSet_distinct|].
          intros d. rewrite addToSet_In. split.
          + intros [->|H]; [right; now split | now left].
          + intros [H|[[= <-] _]]; [now right | now left]. }
      destruct Hs as [Hn Hk]. destruct (IH (step acc c) Hn) as [Hn' Hk'].
      split; [exact Hn'|]. intros d. rewrite Hk', Hk. split.
      + intros [[H|H]|(c' & Hc' & H)].
        * now left.
        * right. exists c. split; [now left | exact H].
        * right. exists c'. split; [now right | exact H].
      + intros [H|(c' & [<-|Hc'] & H)].
        * left. now left.
        * left. now right.
        * right. now exists c'. }
  destruct (G captions [] (NoDup_nil _)) as [Hn Hk].
  assert (Hiff : forall d,
             In d (fold_left step captions []) <->
             exists c, In c captions /\
                       UrlExtractor.extractDomainFromCaption (Some c) = Some d /\
                       isExcludedDomain d = false).
  { intros d. rewrite Hk. split; [intros [[]|H]; exact H | now right]. }
  split; [exact Hn|]. split; [exact Hiff|].
  apply Forall_forall. intros d Hd. apply Hiff in Hd as (c & _ & Hc & Hx).
  apply not_excluded; [|exact Hx]. eapply caption_domain_lower; eassumption.
Qed.

(** ** Chunks *)

Lemma batchesFrom_sizes :
  forall {A} fuel n (l : list A),
    (1 <= n)%nat ->
    Forall (fun c => (1 <= List.length c <= n)%nat) (Pipeline.batchesFrom fuel n l).
Proof.
  induction fuel as [|fuel IH]; intros n l Hn; [destruct l; constructor|].
  destruct l as [|x l]; [constructor|]. cbn [Pipeline.batchesFrom].
  constructor; [|now apply IH].
  rewrite length_firstn. cbn [List.length]. lia.
Qed.

Lemma batchesFrom_count :
  forall {A} fuel k (l : list A),
    (List.length l <= fuel)%nat ->
    List.length (Pipeline.batchesFrom fuel (S k) l) = ((List.length l + k) / S k)%nat.
Proof.
  induction fuel as [|fuel IH]; intros k l Hl.
  - destruct l; [|cbn in Hl; lia]. cbn [Pipeline.batchesFrom List.length].
    symmetry. apply Nat.div_small. lia.
  - destruct l as [|x l].
    + cbn [Pipeline.batchesFrom List.length]. symmetry. apply Nat.div_small. lia.
    + cbn [Pipeline.batchesFrom List.length]. rewrite IH.
      2:{ rewrite length_skipn. cbn [List.length] in *. lia. }
      rewrite length_skipn. cbn [List.length].
      destruct (Nat.le_gt_cases (S k) (S (List.length l))) as [Hge|Hlt].
      * replace (S (List.length l) + k)%nat
          with ((S (List.length l) - S k + k) + 1 * S k)%nat by lia.
        rewrite Nat.div_add by lia. lia.
      * replace (S (List.length l) - S k)%nat with 0%nat by lia.
        rewrite (Nat.div_small (0 + k)) by lia.
        apply (Nat.div_unique _ _ 1 (List.length l)); lia.
Qed.

(** [chunkArray] with a chunk size of at least one returns, and what
    it returns splits the array: the chunks put end to end are the
    array, no chunk is empty or longer than the size, and there are
    as many chunks as the length divided by the size, rounded up.
    With size 0 it returns only for the empty array. *)
Theorem chunks_split_the_array :
  forall (T : Type) (array : list T) (k : nat),
    (exists chunks,
        chunkArray array (S k) = Some chunks /\
        List.concat chunks = array /\
        Forall (fun c => (1 <= List.length c <= S k)%nat) chunks /\
        List.length chunks = ((List.length array + k) / S k)%nat) /\
    (chunkArray array 0 = None <-> array <> []).
Proof.
  intros T array k. split.
  - exists (Pipeline.batches (S k) array). unfold chunkArray, Pipeline.batches.
    split; [reflexivity|]. split; [|split].
    + apply Step6Order.batchesFrom_concat; lia.
    + apply batchesFrom_sizes. lia.
    + now apply batchesFrom_count.
  - unfold chunkArray. destruct array; split; congruence.
Qed.

End UrlListFacts.

(* ================================================================== *)
(** * The shop and the presell page of a chain *)
(* ================================================================== *)

Module ClassifyFacts.
Import JS UrlLists ClassifyShape.

Lemma chainDomains_nonempty :
  forall w urls, Forall (fun d => d <> "") (chainDomains w urls).
Proof.
  intros w urls. unfold chainDomains. induction urls as [|u urls IH]; [constructor|].
  cbn [flat_map]. apply Forall_app. split; [|exact IH].
  destruct (extractDomain w (Some u)) as [d|]; [|constructor].
  destruct (String.eqb_spec d ""); [constructor|]. now repeat constructor.
Qed.

Lemma last_In : forall (l : list string) d, l <> [] -> In (last l d) l.
Proof.
  induction l as [|x l IH]; intros d H; [contradiction|].
  destruct l as [|y l]; [now left|]. right. apply IH. discriminate.
Qed.

Lemma last_is_not_head :
  forall l : list string,
    NoDup l -> (1 < List.length l)%nat -> last l "" <> hd "" l.
Proof.
  intros [|x [|y l]] Hnd Hlen; cbn in Hlen; try lia.
  apply NoDup_cons_iff in Hnd as [Hx _]. cbn [hd].
  change (last (x :: y :: l) "") with (last (y :: l) "").
  intros E. apply Hx. rewrite <- E. apply last_In. discriminate.
Qed.

Section Loop.
Variables (brandLower : string) (uniqueDomains : list string).

Local Abbreviation seen := (ClassifyShape.seen brandLower uniqueDomains).

Local Abbreviation step := (fun acc domain =>
  if includes brandLower domain
  then {| presell := presell acc; final_shop := Some domain |}
  else if negb (truthy (presell acc)) && (1 <? List.length uniqueDomains)%nat
       then {| presell := Some domain; final_shop := final_shop acc |}
       else acc).

Lemma seen_step :
  forall pre acc d,
    d <> "" -> seen pre acc -> seen (pre ++ [d]) (step acc d).
Proof.
  intros pre acc d Hd (H1 & H2 & H3 & H4). cbv beta.
  assert (K1 : forall p, presell acc = Some p ->
                         In p (pre ++ [d]) /\ p <> "" /\ includes brandLower p = false /\
                         (1 < List.length uniqueDomains)%nat).
  { intros p Hp. destruct (H1 p Hp) as (Ha & Hb & Hc & Hn).
    split; [apply in_or_app; now left|]. now repeat split. }
  assert (K2 : forall f, final_shop acc = Some f ->
                         In f (pre ++ [d]) /\ includes brandLower f = true).
  { intros f Hf. destruct (H2 f Hf) as (Ha & Hb).
    split; [apply in_or_app; now left | exact Hb]. }
  assert (Hlast : In d (pre ++ [d])) by (apply in_or_app; right; now left).
  destruct (includes brandLower d) eqn:Ein.
  - unfold ClassifyShape.seen. cbn [presell final_shop]. split; [exact K1|].
    split; [intros f [= <-]; now split|]. split; discriminate.
  - assert (K3 : final_shop acc = None ->
                 forall x, In x (pre ++ [d]) -> includes brandLower x = false).
    { intros Hf x Hx. apply in_app_or in Hx as [Hx|[<-|[]]]; [now apply H3 | exact Ein]. }
    destruct (negb (truthy (presell acc)) && (1 <? List.length uniqueDomains)%nat) eqn:Ec.
    + apply andb_true_iff in Ec as [Ep En]. apply Nat.ltb_lt in En.
      assert (Hnone : presell acc = None).
      { destruct (presell acc) as [p|] eqn:E; [|reflexivity].
        destruct (H1 p eq_refl) as (_ & Hp & _).
        cbn in Ep. apply negb_true_iff, negb_false_iff, String.eqb_eq in Ep.
        contradiction. }
      unfold ClassifyShape.seen. cbn [presell final_shop].
      split; [intros p [= <-]; now repeat split|].
      split; [exact K2|]. split; [exact K3|].
      intros Hf _ _. destruct pre as [|x pre]; [reflexivity|].
      rewrite H4 in Hnone; [discriminate | exact Hf | exact En | discriminate].
    + unfold ClassifyShape.seen. split; [exact K1|]. split; [exact K2|]. split; [exact K3|].
      intros Hf Hn _. pose proof Hn as Hn'. apply Nat.ltb_lt in Hn'.
      rewrite Hn', andb_true_r in Ec. apply negb_false_iff in Ec.
      destruct (presell acc) as [p|] eqn:E; [|discriminate].
      destruct pre as [|x pre]; [now destruct (H1 p eq_refl) as ([] & _)|].
      cbn [app hd]. apply (H4 Hf Hn). discriminate.
Qed.

Lemma seen_loop :
  forall rest pre acc,
    Forall (fun d => d <> "") rest -> seen pre acc ->
    seen (pre ++ rest) (fold_left step rest acc).
Proof.
  induction rest as [|d rest IH]; intros pre acc Hne Hs; cbn [fold_left].
  - now rewrite app_nil_r.
  - apply Forall_cons_iff in Hne as [Hd Hne].
    replace (pre ++ d :: rest) with ((pre ++ [d]) ++ rest)
      by (rewrite <- app_assoc; reflexivity).
    apply IH; [exact Hne | now apply seen_step].
Qed.

Lemma seen_start : seen [] {| presell := None; final_shop := None |}.
Proof.
  unfold ClassifyShape.seen. cbn [presell final_shop]. repeat split; try discriminate; try contradiction.
Qed.

End Loop.

(** What [classifyDomains] makes of the domains of a chain.  There is
    a shop exactly when the chain names a domain; the shop is a domain
    of the chain, and one that contains the brand name if any domain of
    the chain does.  A presell page is a domain of the chain without
    the brand name in it, is never the shop, and is found only in a
    chain with at least two different domains. *)
Theorem classified_domains_are_apart :
  forall (w : World) (redirectChain : RedirectChain) (brandName : string),
    (final_shop (classifyDomains w redirectChain brandName) = None <->
     chainDomains w (chain redirectChain) = []) /\
    match final_shop (classifyDomains w redirectChain brandName) with
    | Some f =>
        In f (chainDomains w (chain redirectChain)) /\
        ((exists d, In d (chainDomains w (chain redirectChain)) /\
                    includes (toLowerCase brandName) d = true) ->
         includes (toLowerCase brandName) f = true)
    | None => True
    end /\
    match presell (classifyDomains w redirectChain brandName) with
    | Some p =>
        In p (chainDomains w (chain redirectChain)) /\
        includes (toLowerCase brandName) p = false /\
        final_shop (classifyDomains w redirectChain brandName) <> Some p /\
        final_shop (classifyDomains w redirectChain brandName) <> None /\
        (1 < List.length (dedup (chainDomains w (chain redirectChain))))%nat
    | None => True
    end.
Proof.
  intros w rc brandName. unfold classifyDomains. cbv zeta.
  set (bl := toLowerCase brandName).
  set (ds := chainDomains w (chain rc)).
  set (U := dedup ds).
  assert (HU : forall d, In d U <-> In d ds) by (intros d; apply ReportShape.dedup_In).
  assert (Hnd : NoDup U) by apply ReportShape.dedup_distinct.
  assert (Hne : Forall (fun d => d <> "") U).
  { apply Forall_forall. intros d Hd. apply HU in Hd.
    pose proof (chainDomains_nonempty w (chain rc)) as H.
    rewrite Forall_forall in H. now apply H. }
  pose proof (seen_loop bl U U [] _ Hne (seen_start bl U)) as Hs.
  cbn [app] in Hs.
  match type of Hs with ClassifyShape.seen _ _ _ ?x => set (looped := x) in * end.
  destruct Hs as (H1 & H2 & H3 & H4).
  assert (Hempty : U = [] -> ds = []).
  { intros E. destruct ds as [|d ds']; [reflexivity|].
    assert (Hd : In d U) by (apply HU; now left). rewrite E in Hd. contradiction. }
  destruct (final_shop looped) as [f|] eqn:Ef.
  - destruct (H2 f eq_refl) as [Hf Hbf].
    assert (Hfne : f <> "") by (rewrite Forall_forall in Hne; now apply Hne).
    assert (Ht : truthy (Some f) = true)
      by (cbn; now apply negb_true_iff, String.eqb_neq).
    rewrite Ht. cbn [negb andb]. rewrite Ef.
    split; [|split].
    + split; [discriminate|]. intros E. apply HU in Hf. rewrite E in Hf. contradiction.
    + split; [now apply HU | intros _; exact Hbf].
    + destruct (presell looped) as [p|] eqn:Ep; [|exact I].
      destruct (H1 p eq_refl) as (Hp & _ & Hbp & Hn).
      repeat split; try discriminate; [now apply HU | exact Hbp | | exact Hn].
      intros [= ->]. congruence.
  - cbn [truthy negb andb].
    destruct (0 <? List.length U)%nat eqn:En.
    + apply Nat.ltb_lt in En. cbn [final_shop presell].
      assert (HUne : U <> []) by (intros E; rewrite E in En; cbn in En; lia).
      assert (Hlast : In (last U "") U) by now apply last_In.
      split; [|split].
      * split; [discriminate|]. intros E. apply HU in Hlast. rewrite E in Hlast.
        contradiction.
      * split; [now apply HU|]. intros (d & Hd & Hbd).
        apply HU in Hd. rewrite (H3 eq_refl d Hd) in Hbd. discriminate.
      * destruct (presell looped) as [p|] eqn:Ep; [|exact I].
        destruct (H1 p eq_refl) as (Hp & _ & Hbp & Hn).
        repeat split; try discriminate; [now apply HU | exact Hbp | | exact Hn].
        intros [= E]. pose proof (H4 eq_refl Hn HUne) as Hhd.
        injection Hhd as Hhd. apply (last_is_not_head U Hnd Hn). congruence.
    + apply Nat.ltb_ge in En. rewrite Ef.
      assert (HU0 : U = []) by (destruct U; [reflexivity | cbn in En; lia]).
      split; [|split; [exact I|]].
      * split; [intros _; now apply Hempty | reflexivity].
      * destruct (presell looped) as [p|] eqn:Ep; [|exact I].
        destruct (H1 p eq_refl) as (Hp & _). rewrite HU0 in Hp. contradiction.
Qed.

End ClassifyFacts.

(* ================================================================== *)
(** * Domain lists of the redirect tracker *)
(* ================================================================== *)

Module RedirectListFacts.
Import JS.
Module L := RedirectLists.

Lemma trace_bind :
  forall {A B} (m : Net A) (k : A -> Net B),
    trace (bind m k) = trace m ++ trace (k (value m)).
Proof.
  intros A B [t a] k. unfold bind, trace, value. cbn. now destruct (k a).
Qed.

(** ** Tracking a list of URLs *)

Section Batches.
Variable w : World.

Local Abbreviation track := (RedirectTracker.trackRedirectChain w).

Local Abbreviation one := (fun (acc : Net (list RedirectChain)) url =>
  (rs <- acc ;; r <- track url ;; ret (rs ++ [r]))%net).

Local Abbreviation many := (fun (results : Net (list RedirectChain)) batch =>
  (sofar <- results ;;
   batchResults <- fold_left one batch (ret []) ;;
   ret (sofar ++ batchResults))%net).

Lemma batch_results :
  forall batch m,
    value (fold_left one batch m) = value m ++ map (fun u => value (track u)) batch /\
    trace (fold_left one batch m) = trace m ++ flat_map (fun u => trace (track u)) batch.
Proof.
  induction batch as [|u batch IH]; intros m; cbn [fold_left map flat_map].
  - now rewrite !app_nil_r.
  - destruct (IH (one m u)) as [Hv Ht]. rewrite Hv, Ht.
    repeat (rewrite ?Step6Facts.value_bind, ?trace_bind).
    change (value (ret (value m ++ [value (track u)]))) with (value m ++ [value (track u)]).
    change (trace (ret (value m ++ [value (track u)]))) with (@nil Call).
    rewrite app_nil_r, <- !app_assoc. split; reflexivity.
Qed.

Lemma batches_results :
  forall bs m,
    value (fold_left many bs m)
      = value m ++ map (fun u => value (track u)) (List.concat bs) /\
    trace (fold_left many bs m)
      = trace m ++ flat_map (fun u => trace (track u)) (List.concat bs).
Proof.
  induction bs as [|b bs IH]; intros m; cbn [fold_left List.concat].
  - cbn [map flat_map]. now rewrite !app_nil_r.
  - destruct (IH (many m b)) as [Hv Ht]. rewrite Hv, Ht. clear IH Hv Ht.
    repeat (rewrite ?Step6Facts.value_bind, ?trace_bind).
    destruct (batch_results b (ret [])) as [Hv Ht]. rewrite Hv, Ht.
    change (value (ret (@nil RedirectChain))) with (@nil RedirectChain).
    change (trace (ret (@nil RedirectChain))) with (@nil Call).
    match goal with |- context [value (ret ?x)] => change (value (ret x)) with x end.
    match goal with |- context [trace (ret ?x)] => change (trace (ret x)) with (@nil Call) end.
    cbn [app]. rewrite map_app, flat_map_app, app_nil_r, <- !app_assoc.
    split; reflexivity.
Qed.

Lemma track_start :
  forall u,
    initial_url (value (track u)) = u /\
    (List.length (trace (track u)) <= 20)%nat /\
    (1 <= List.length (chain (value (track u))) <= 11)%nat.
Proof.
  intros u. unfold RedirectTracker.trackRedirectChain.
  destruct (TrackerBounds.unguarded_walk w RedirectTracker.MAX_REDIRECTS [u] u
              eq_refl (or_introl eq_refl)) as (rest & Hc & Hr & _ & Ht & _).
  destruct (RedirectTracker.loop w RedirectTracker.MAX_REDIRECTS [u] u) as [t [c l]].
  unfold value, trace, bind, ret in *. cbn [fst snd] in *. subst c.
  cbn [initial_url chain app List.length] in *. rewrite app_nil_r.
  unfold RedirectTracker.MAX_REDIRECTS in *. repeat split; lia.
Qed.

End Batches.

(** [batchTrackRedirects] with a batch size of at least one returns
    one chain for every distinct URL of its input, in the order of
    their first occurrence: the chain that [trackRedirectChain] gives
    for that URL, which starts at it.  It makes at most 20 requests for
    each distinct URL.  With batch size 0 it returns only for the
    empty list. *)
Theorem batch_tracks_each_url_once :
  forall (w : World) (urls : list string) (k : nat),
    (exists m,
        L.batchTrackRedirects w urls (S k) = Some m /\
        value m = map (fun u => value (RedirectTracker.trackRedirectChain w u))
                    (dedup urls) /\
        map initial_url (value m) = dedup urls /\
        Forall (fun c => (1 <= List.length (chain c) <= 11)%nat) (value m) /\
        (List.length (trace m) <= 20 * List.length (dedup urls))%nat) /\
    (L.batchTrackRedirects w urls 0 = None <-> urls <> []).
Proof.
  intros w urls k. split.
  - unfold L.batchTrackRedirects. cbv zeta.
    match goal with |- context [fold_left ?f ?bs (ret [])] =>
      exists (fold_left f bs (ret [])) end.
    split; [now destruct (dedup urls)|].
    match goal with |- context [fold_left ?f ?bs (ret [])] =>
      destruct (batches_results w bs (ret [])) as [Hv Ht] end.
    unfold Pipeline.batches in *.
    rewrite (Step6Order.batchesFrom_concat _ (S k) (dedup urls)) in Hv, Ht by lia.
    cbn [value trace ret fst snd app] in Hv, Ht.
    split; [exact Hv|]. rewrite Hv, Ht. clear Hv Ht.
    generalize (dedup urls). intros l. split; [|split].
    + rewrite map_map. induction l as [|u l IH]; [reflexivity|].
      cbn [map]. f_equal; [apply track_start | exact IH].
    + apply Forall_forall. intros c Hc. apply in_map_iff in Hc as (u & <- & _).
      apply track_start.
    + induction l as [|u l IH]; [cbn; lia|].
      cbn [flat_map List.length]. rewrite length_app.
      pose proof (track_start w u) as (_ & Hu & _). lia.
  - unfold L.batchTrackRedirects. cbv zeta. destruct urls as [|u urls].
    + cbn. split; congruence.
    + cbn [dedup]. split; [discriminate | reflexivity].
Qed.

(** ** Sorting the domains of chains into classes *)

Lemma fold_grows :
  forall {S X : Type} (proj : S -> list string) (step : S -> X -> S)
         (ok : X -> Prop) (hit : X -> string -> Prop),
    (forall acc x, ok x ->
                   (NoDup (proj acc) -> NoDup (proj (step acc x))) /\
                   forall d, In d (proj (step acc x)) <-> In d (proj acc) \/ hit x d) ->
    forall xs acc,
      Forall ok xs ->
      (NoDup (proj acc) -> NoDup (proj (fold_left step xs acc))) /\
      forall d, In d (proj (fold_left step xs acc)) <->
                In d (proj acc) \/ exists x, In x xs /\ hit x d.
Proof.
  intros S X proj step ok hit Hstep.
  induction xs as [|x xs IH]; intros acc Hok; cbn [fold_left].
  - split; [auto|]. intros d. split; [now left|]. intros [H|(x & [] & _)]. exact H.
  - apply Forall_cons_iff in Hok as [Hx Hok].
    destruct (Hstep acc x Hx) as [Hn Hk]. destruct (IH (step acc x) Hok) as [Hn' Hk'].
    split; [auto|]. intros d. rewrite Hk', Hk. split.
    + intros [[H|H]|(y & Hy & H)].
      * now left.
      * right. exists x. split; [now left | exact H].
      * right. exists y. split; [now right | exact H].
    + intros [H|(y & [<-|Hy] & H)].
      * left. now left.
      * left. now right.
      * right. now exists y.
Qed.

Lemma In_indexed :
  forall (l : list string) s i x,
    In (i, x) (combine (seq s (List.length l)) l) <->
    (s <= i)%nat /\ nth_error l (i - s) = Some x.
Proof.
  induction l as [|y l IH]; intros s i x; cbn [List.length seq combine In].
  - split; [contradiction|]. intros [_ H]. now destruct (i - s)%nat.
  - rewrite IH. split.
    + intros [[= <- <-]|[Hs Hn]].
      * rewrite Nat.sub_diag. split; [lia | reflexivity].
      * split; [lia|]. replace (i - s)%nat with (S (i - S s)) by lia. exact Hn.
    + intros [Hs Hn]. destruct (Nat.eq_dec s i) as [<-|Hne].
      * left. rewrite Nat.sub_diag in Hn. cbn in Hn. congruence.
      * right. split; [lia|].
        replace (i - s)%nat with (S (i - S s)) in Hn by lia. exact Hn.
Qed.

Section Categorize.
Variable w : World.

Local Abbreviation named := (L.namedBy w).

Ltac nat_hyps :=
  repeat match goal with
         | H : (_ =? _)%nat = true |- _ => apply Nat.eqb_eq in H
         | H : (_ =? _)%nat = false |- _ => apply Nat.eqb_neq in H
         | H : (_ <? _)%nat = true |- _ => apply Nat.ltb_lt in H
         | H : (_ <? _)%nat = false |- _ => apply Nat.ltb_ge in H
         | H : _ && _ = true |- _ => apply andb_true_iff in H as [? ?]
         | H : _ && _ = false |- _ => apply andb_false_iff in H
         end.

Ltac settle_class :=
  unfold L.namedBy in *; cbn [L.presell L.redirect L.final_shop]; nat_hyps;
  first [ intros Hnd; try apply TallyFacts.addToSet_distinct; exact Hnd
        | intros d; rewrite ?UrlListFacts.addToSet_In;
          intuition (subst; nat_hyps; try congruence; try lia) ].

Lemma categorizeUrl_final :
  forall len acc iu,
    (fst iu < len)%nat ->
    (NoDup (L.final_shop acc) -> NoDup (L.final_shop (L.categorizeUrl w len acc iu))) /\
    forall d, In d (L.final_shop (L.categorizeUrl w len acc iu)) <->
              In d (L.final_shop acc) \/
              (fst iu = len - 1 /\ named (snd iu) d)%nat.
Proof.
  intros len acc [i url] Hi. cbn [fst snd] in *. unfold L.categorizeUrl. cbv zeta.
  destruct (L.extractDomainFromUrl w url) as [dom|] eqn:Ed; [|split; settle_class].
  destruct (String.eqb_spec dom "") as [->|Hne]; [split; settle_class|].
  destruct (i =? len - 1)%nat eqn:E1.
  { destruct (L.somePattern L.shopPatterns dom url); split; settle_class. }
  destruct ((0 <? i) && (i <? len - 1))%nat eqn:E2; [split; settle_class|].
  destruct (L.somePattern L.presellPatterns dom url); split; settle_class.
Qed.

Lemma categorizeUrl_redirect :
  forall len acc iu,
    (fst iu < len)%nat ->
    (NoDup (L.redirect acc) -> NoDup (L.redirect (L.categorizeUrl w len acc iu))) /\
    forall d, In d (L.redirect (L.categorizeUrl w len acc iu)) <->
              In d (L.redirect acc) \/
              ((0 < fst iu < len - 1)%nat /\ named (snd iu) d).
Proof.
  intros len acc [i url] Hi. cbn [fst snd] in *. unfold L.categorizeUrl. cbv zeta.
  destruct (L.extractDomainFromUrl w url) as [dom|] eqn:Ed; [|split; settle_class].
  destruct (String.eqb_spec dom "") as [->|Hne]; [split; settle_class|].
  destruct (i =? len - 1)%nat eqn:E1.
  { destruct (L.somePattern L.shopPatterns dom url); split; settle_class. }
  destruct ((0 <? i) && (i <? len - 1))%nat eqn:E2; [split; settle_class|].
  destruct (L.somePattern L.presellPatterns dom url); split; settle_class.
Qed.

Lemma categorizeUrl_presell :
  forall len acc iu,
    (fst iu < len)%nat ->
    (NoDup (L.presell acc) -> NoDup (L.presell (L.categorizeUrl w len acc iu))) /\
    forall d, In d (L.presell (L.categorizeUrl w len acc iu)) <->
              In d (L.presell acc) \/
              (fst iu = 0%nat /\ (1 < len)%nat /\ named (snd iu) d /\
               L.somePattern L.presellPatterns d (snd iu) = true).
Proof.
  intros len acc [i url] Hi. cbn [fst snd] in *. unfold L.categorizeUrl. cbv zeta.
  destruct (L.extractDomainFromUrl w url) as [dom|] eqn:Ed; [|split; settle_class].
  destruct (String.eqb_spec dom "") as [->|Hne]; [split; settle_class|].
  destruct (i =? len - 1)%nat eqn:E1.
  { destruct (L.somePattern L.shopPatterns dom url); split; settle_class. }
  destruct ((0 <? i) && (i <? len - 1))%nat eqn:E2; [split; settle_class|].
  destruct (L.somePattern L.presellPatterns dom url) eqn:E3; split; settle_class.
Qed.

Lemma indexed_ok :
  forall l : list string,
    Forall (fun iu : nat * string => (fst iu < List.length l)%nat)
      (combine (seq 0 (List.length l)) l).
Proof.
  intros l. apply Forall_forall. intros [i x] H. apply In_indexed in H as [_ H].
  cbn [fst]. rewrite Nat.sub_0_r in H. apply nth_error_Some. congruence.
Qed.

Lemma classes_of_chains :
  forall (proj : L.Categories -> list string)
         (hit : nat -> nat * string -> string -> Prop),
    (forall len acc iu,
        (fst iu < len)%nat ->
        (NoDup (proj acc) -> NoDup (proj (L.categorizeUrl w len acc iu))) /\
        forall d, In d (proj (L.categorizeUrl w len acc iu)) <->
                  In d (proj acc) \/ hit len iu d) ->
    proj {| L.presell := []; L.redirect := []; L.final_shop := [] |} = [] ->
    forall chains,
      NoDup (proj (L.categorizeDomains w chains)) /\
      forall d, In d (proj (L.categorizeDomains w chains)) <->
                exists c i url,
                  In c chains /\ nth_error (chain c) i = Some url /\
                  hit (List.length (chain c)) (i, url) d.
Proof.
  intros proj hit Hstep Hstart chains. unfold L.categorizeDomains.
  match goal with |- context [fold_left ?f chains ?a] =>
    pose proof (fold_grows proj f (fun _ => True)
                  (fun c d => exists iu,
                       In iu (combine (seq 0 (List.length (chain c))) (chain c)) /\
                       hit (List.length (chain c)) iu d)) as G;
    set (start := a) in * end.
  cbv beta in G.
  destruct (G (fun acc c _ =>
                 fold_grows proj (L.categorizeUrl w (List.length (chain c)))
                   (fun iu => (fst iu < List.length (chain c))%nat)
                   (hit (List.length (chain c)))
                   (Hstep (List.length (chain c)))
                   (combine (seq 0 (List.length (chain c))) (chain c)) acc
                   (indexed_ok (chain c)))
              chains start) as [Hn Hk].
  { apply Forall_forall. intros; exact I. }
  split; [apply Hn; subst start; rewrite Hstart; constructor|].
  intros d. rewrite Hk. subst start. rewrite Hstart. split.
  - intros [[]|(c & Hc & [i url] & Hiu & Hhit)].
    apply In_indexed in Hiu as [_ Hiu]. rewrite Nat.sub_0_r in Hiu.
    now exists c, i, url.
  - intros (c & i & url & Hc & Hn' & Hhit). right. exists c. split; [exact Hc|].
    exists (i, url). split; [|exact Hhit].
    apply In_indexed. split; [lia|]. now rewrite Nat.sub_0_r.
Qed.

End Categorize.

(** How [categorizeDomains] sorts the domains of redirect chains, each
    class holding a domain once.  The shop domains are the domains of
    the last URLs of the chains, whatever the shop patterns say; the
    redirect domains are those of the URLs strictly between first and
    last; a presell domain is the domain of the first URL of a chain
    of at least two URLs, where a presell pattern occurs in the domain
    or the URL.  A URL without a host name adds nothing. *)
Theorem chain_position_decides_the_class :
  forall (w : World) (chains : list RedirectChain),
    NoDup (L.presell (L.categorizeDomains w chains)) /\
    NoDup (L.redirect (L.categorizeDomains w chains)) /\
    NoDup (L.final_shop (L.categorizeDomains w chains)) /\
    (forall d,
        In d (L.final_shop (L.categorizeDomains w chains)) <->
        exists c url,
          In c chains /\
          nth_error (chain c) (List.length (chain c) - 1) = Some url /\
          L.namedBy w url d) /\
    (forall d,
        In d (L.redirect (L.categorizeDomains w chains)) <->
        exists c i url,
          In c chains /\ (0 < i < List.length (chain c) - 1)%nat /\
          nth_error (chain c) i = Some url /\ L.namedBy w url d) /\
    (forall d,
        In d (L.presell (L.categorizeDomains w chains)) <->
        exists c url,
          In c chains /\ (1 < List.length (chain c))%nat /\
          nth_error (chain c) 0 = Some url /\ L.namedBy w url d /\
          L.somePattern L.presellPatterns d url = true).
Proof.
  intros w chains.
  destruct (classes_of_chains w L.presell _ (categorizeUrl_presell w) eq_refl chains)
    as [Pn Pk].
  destruct (classes_of_chains w L.redirect _ (categorizeUrl_redirect w) eq_refl chains)
    as [Rn Rk].
  destruct (classes_of_chains w L.final_shop _ (categorizeUrl_final w) eq_refl chains)
    as [Fn Fk].
  cbn [fst snd] in Pk, Rk, Fk.
  split; [exact Pn|]. split; [exact Rn|]. split; [exact Fn|].
  split; [|split]; intros d.
  - rewrite Fk. split.
    + intros (c & i & url & Hc & Hn & -> & Hd). now exists c, url.
    + intros (c & url & Hc & Hn & Hd).
      exists c, (List.length (chain c) - 1)%nat, url. auto.
  - rewrite Rk. split.
    + intros (c & i & url & Hc & Hn & Hi & Hd). now exists c, i, url.
    + intros (c & i & url & Hc & Hi & Hn & Hd). now exists c, i, url.
  - rewrite Pk. split.
    + intros (c & i & url & Hc & Hn & -> & Hl & Hd & Hp). now exists c, url.
    + intros (c & url & Hc & Hl & Hn & Hd & Hp). now exists c, 0%nat, url.
Qed.

(** ** Counting landing pages by domain *)

Lemma aggregateDomains_tally :
  forall w urls,
    L.aggregateDomains w urls = fold_left Tally.bumpCount (L.landingDomains w urls) [].
Proof.
  intros w urls. unfold L.aggregateDomains, L.landingDomains.
  generalize (@nil (string * nat)).
  induction urls as [|u urls IH]; intros m; [reflexivity|].
  cbn [fold_left flat_map]. rewrite fold_left_app, IH.
  destruct u as [u|]; [|reflexivity].
  destruct (u =? ""); [reflexivity|].
  destruct (L.extractDomainFromUrl w u) as [d|]; [|reflexivity].
  destruct (d =? ""); reflexivity.
Qed.

Lemma bumpCount_sum :
  forall m k,
    list_sum (JSMap.values (Tally.bumpCount m k)) = S (list_sum (JSMap.values m)).
Proof.
  intros m k. unfold Tally.bumpCount.
  induction m as [|[k' v] m IH]; [reflexivity|].
  cbn [JSMap.get JSMap.set]. destruct (k' =? k) eqn:E.
  - reflexivity.
  - unfold JSMap.values in *. cbn [map snd].
    rewrite !AggregatorShape.list_sum_cons, IH. lia.
Qed.

Lemma tally_sum :
  forall ks m,
    list_sum (JSMap.values (fold_left Tally.bumpCount ks m))
    = (list_sum (JSMap.values m) + List.length ks)%nat.
Proof.
  induction ks as [|k ks IH]; intros m; cbn [fold_left List.length]; [lia|].
  rewrite IH, bumpCount_sum. lia.
Qed.

(** [aggregateDomains] counts the landing pages by domain.  A domain
    is a key exactly when a URL of the list lies on it, each key once;
    its count is the number of those URLs, at least one; the counts
    add up to the number of URLs that have a host name.  Missing and
    empty URLs and URLs that do not parse are not counted. *)
Theorem landing_pages_are_counted_by_domain :
  forall (w : World) (landingPageUrls : list (option string)),
    NoDup (JSMap.keys (L.aggregateDomains w landingPageUrls)) /\
    (forall d,
        In d (JSMap.keys (L.aggregateDomains w landingPageUrls)) <->
        exists u, In (Some u) landingPageUrls /\ u <> "" /\ L.namedBy w u d) /\
    (forall d,
        Tally.countOf d (L.aggregateDomains w landingPageUrls)
        = count_occ string_dec (L.landingDomains w landingPageUrls) d) /\
    Forall (fun e => (1 <= snd e)%nat) (L.aggregateDomains w landingPageUrls) /\
    list_sum (JSMap.values (L.aggregateDomains w landingPageUrls))
    = List.length (L.landingDomains w landingPageUrls).
Proof.
  intros w urls. rewrite aggregateDomains_tally.
  assert (Hin : forall d, In d (L.landingDomains w urls) <->
                          exists u, In (Some u) urls /\ u <> "" /\ L.namedBy w u d).
  { intros d. unfold L.landingDomains. rewrite in_flat_map. split.
    - intros ([u|] & Hu & Hd); [|contradiction].
      destruct (String.eqb_spec u "") as [->|Hne]; [contradiction|].
      destruct (L.extractDomainFromUrl w u) as [dom|] eqn:E; [|contradiction].
      destruct (String.eqb_spec dom "") as [->|Hd']; [contradiction|].
      destruct Hd as [<-|[]]. exists u. unfold L.namedBy. rewrite E. auto.
    - intros (u & Hu & Hne & Hd & Hd'). exists (Some u). split; [exact Hu|].
      destruct (String.eqb_spec u ""); [contradiction|]. rewrite Hd.
      destruct (String.eqb_spec d ""); [contradiction|]. now left. }
  split; [apply TallyFacts.tally_distinct; constructor|].
  split; [|split; [|split]].
  - intros d. rewrite TallyFacts.tally_keys, <- Hin. cbn. tauto.
  - intros d. rewrite TallyFacts.tally_countOf. reflexivity.
  - apply Forall_forall. intros [k n] He.
    apply TallyFacts.tally_entry in He as [-> Hk]. cbn [snd].
    apply (count_occ_In string_dec) in Hk. lia.
  - rewrite tally_sum. reflexivity.
Qed.

End RedirectListFacts.

(* ================================================================== *)
(** * What a deadline does to a run *)
(* ================================================================== *)

Module DeadlineFacts.
Import JS Pipeline Stats.
Module R := Response.
Module C := DomainBrandCheck.
Module B := BrandInfo.



End DeadlineFacts.

(* ================================================================== *)
(** * The worker: batches and the status of their jobs *)
(* ================================================================== *)

Module WorkerBatchFacts.
Import JS Worker.

(** The table holds a queued or running job under the id. *)
Local Abbreviation activeAt := (fun (st : ServerState) (id : string) =>
  option_map isActive (JSMap.get id (jobs st)) = Some true).

Lemma active_set :
  forall (m : JSMap.t Job) k j id,
    isActive j = true ->
    option_map isActive (JSMap.get id m) = Some true ->
    option_map isActive (JSMap.get id (JSMap.set k j m)) = Some true.
Proof.
  intros m k j id Hj H. destruct (String.eqb_spec k id) as [->|Hne].
  - rewrite MapFacts.get_set_same. cbn. now rewrite Hj.
  - now rewrite (MapFacts.get_set_other _ _ _ _ Hne).
Qed.

Lemma active_set_same :
  forall (m : JSMap.t Job) k j,
    isActive j = true -> option_map isActive (JSMap.get k (JSMap.set k j m)) = Some true.
Proof. intros m k j Hj. rewrite MapFacts.get_set_same. cbn. now rewrite Hj. Qed.

(** Starting the next job makes at most one outbound call, the first
    one of its discovery, and leaves queued and running jobs queued or
    running. *)
Lemma processNextJob_starts :
  forall cfg st,
    (List.length (trace (processNextJob cfg st)) <= 1)%nat /\
    issued (value (processNextJob cfg st)) = issued st /\
    forall id, activeAt st id -> activeAt (value (processNextJob cfg st)) id.
Proof.
  intros cfg st. unfold processNextJob.
  destruct (isProcessing st); [cbn; auto|].
  destruct (jobQueue st) as [|jobId rest]; [cbn; auto|].
  destruct (JSMap.get jobId (jobs st)) as [job|] eqn:Ej; [|cbn; auto].
  unfold trace, value. cbn [fst snd issued jobs].
  split; [rewrite length_firstn; lia|]. split; [reflexivity|].
  intros id Hid. apply active_set; [reflexivity | exact Hid].
Qed.

Lemma enqueue_all :
  forall cfg l ids st,
    let r := fold_left
               (fun acc brandReq =>
                  let (jobId, s) := enqueue cfg (snd acc) (req_brand brandReq) in
                  (fst acc ++ [jobId], s))
               l (ids, st) in
    fst r = ids ++ map (generateJobId cfg) (seq (issued st) (List.length l)) /\
    issued (snd r) = (issued st + List.length l)%nat /\
    (forall id, activeAt st id -> activeAt (snd r) id) /\
    Forall (activeAt (snd r))
      (map (generateJobId cfg) (seq (issued st) (List.length l))).
Proof.
  intros cfg. induction l as [|b l IH]; intros ids st; cbn zeta.
  - cbn. rewrite app_nil_r, Nat.add_0_r. repeat split; auto.
  - cbn [fold_left List.length seq map fst snd].
    destruct (enqueue cfg st (req_brand b)) as [jobId s] eqn:E.
    unfold enqueue in E. injection E as Ej Es.
    destruct (IH (ids ++ [jobId]) s) as (H1 & H2 & H3 & H4).
    subst jobId s. cbn [issued jobs] in H1, H2, H3, H4.
    split; [rewrite H1, <- app_assoc; reflexivity|].
    split; [rewrite H2; lia|]. split.
    + intros id Hid. apply H3. now apply active_set.
    + constructor; [|exact H4]. apply H3. now apply active_set_same.
Qed.

Lemma get_filter_kept :
  forall (p : string * Job -> bool) (m : JSMap.t Job) k j,
    JSMap.get k m = Some j -> p (k, j) = true ->
    JSMap.get k (filter p m) = Some j.
Proof.
  intros p. induction m as [|[k' j'] m IH]; intros k j H Hp; [discriminate|].
  cbn [JSMap.get] in H. destruct (String.eqb_spec k' k) as [->|Hne].
  - injection H as ->. cbn [filter]. rewrite Hp. cbn [JSMap.get].
    now rewrite String.eqb_refl.
  - cbn [filter]. destruct (p (k', j')); [|now apply IH].
    cbn [JSMap.get]. destruct (String.eqb_spec k' k); [contradiction | now apply IH].
Qed.

(** The cleanup never removes a queued or running job. *)
Lemma cleanup_keeps_active :
  forall now st id job,
    JSMap.get id (jobs st) = Some job -> isActive job = true ->
    JSMap.get id (jobs (cleanupOldJobs now st)) = Some job.
Proof.
  intros now st id job H Ha. unfold cleanupOldJobs. cbn [jobs].
  apply get_filter_kept; [exact H|]. cbn [snd]. unfold expired.
  unfold isActive in Ha. destruct (status job); try discriminate; reflexivity.
Qed.

Lemma active_job_is_pending :
  forall st id,
    activeAt st id ->
    exists s,
      (s = queued \/ s = running) /\
      handleStatus st id = jsonResponse (Pending id s) 200 /\
      forall now, handleStatus (cleanupOldJobs now st) id = jsonResponse (Pending id s) 200.
Proof.
  intros st id H. cbv beta in H.
  destruct (JSMap.get id (jobs st)) as [job|] eqn:E; [|discriminate].
  cbn [option_map] in H. assert (Ha : isActive job = true) by congruence.
  assert (Hs : forall st', JSMap.get id (jobs st') = Some job ->
                           handleStatus st' id = jsonResponse (Pending id (status job)) 200).
  { intros st' E'. unfold handleStatus. rewrite E'. unfold isActive in Ha.
    destruct (status job); try discriminate; destruct (result job); reflexivity. }
  exists (status job). split; [|split].
  - unfold isActive in Ha. destruct (status job); try discriminate; auto.
  - now apply Hs.
  - intros now. apply Hs. now apply cleanup_keeps_active.
Qed.

(** A batch and the status of its jobs.  The batch handler given a
    list of n >= 1 entries answers 202 with n job ids, the next n ids
    of the generator; before it answers, at most one outbound call is
    made, by the job it starts.  When it has answered, the status
    handler answers 200 for each of these ids, with status queued or
    running, and so it does after a run of the cleanup at any time:
    the cleanup removes no queued or running job.  Without a list, or
    with an empty one, the answer is 400: no call is made and the
    state is unchanged. *)
Theorem batch_jobs_are_pending :
  forall (cfg : Config) (st : ServerState) (b : BrandDiscoveryRequest)
         (l : list BrandDiscoveryRequest),
    fst (value (handleBatch cfg st (Some (b :: l))))
      = Some (jsonResponse
                (Queued (S (List.length l))
                   (map (generateJobId cfg) (seq (issued st) (S (List.length l)))))
                202) /\
    (List.length (trace (handleBatch cfg st (Some (b :: l)))) <= 1)%nat /\
    Forall (fun id =>
              exists s,
                (s = queued \/ s = running) /\
                handleStatus (snd (value (handleBatch cfg st (Some (b :: l))))) id
                  = jsonResponse (Pending id s) 200 /\
                forall now,
                  handleStatus
                    (cleanupOldJobs now (snd (value (handleBatch cfg st (Some (b :: l)))))) id
                  = jsonResponse (Pending id s) 200)
      (map (generateJobId cfg) (seq (issued st) (S (List.length l)))) /\
    handleBatch cfg st None
      = ([], (Some (jsonResponse (Error "brands array is required") 400), st)) /\
    handleBatch cfg st (Some [])
      = ([], (Some (jsonResponse (Error "brands array is required") 400), st)).
Proof.
  intros cfg st b l. unfold handleBatch.
  pose proof (enqueue_all cfg (b :: l) [] st) as H. cbv zeta in H.
  destruct (fold_left _ (b :: l) ([], st)) as [ids st1].
  cbn [fst snd app] in H. destruct H as (H1 & _ & _ & H4).
  destruct (processNextJob_starts cfg st1) as (Ht & _ & Hk).
  rewrite !Step6Facts.value_bind, RedirectListFacts.trace_bind.
  cbn [value trace ret fst snd]. rewrite app_nil_r.
  subst ids. rewrite length_map, length_seq.
  split; [reflexivity|]. split; [exact Ht|]. split; [|split; reflexivity].
  eapply Forall_impl; [|exact H4]. intros id Hid.
  apply active_job_is_pending. now apply Hk.
Qed.

End WorkerBatchFacts.
